(* ===== verification/_CoqProject ===== *)
-Q . S2P
Prelude.v
External.v
Text.v
Instances.v
Host.v
E2E.v
AtRest.v
AtRestTheorems.v
AtRestDemo.v
Transaction.v
Policy.v
Ledger.v
LedgerView.v
LedgerTheorems.v
CoinDemo.v
CoinNode.v
CoinNodeTheorems.v
CoinNodeDemo.v
Payment.v
Bootstrap.v
Wire.v
Bloom.v
IngestGuard.v
Security.v
Storage.v
Forwarding.v
Libp2p.v
NodeData.v
Node.v
NodeTheorems.v
NodeWalk.v
NodeSecurity.v
NodeRouting.v
Libp2pNode.v
NodeHandle.v
NodeStart.v
CoreDemo.v
NodeDemo.v
Relay.v
Sim.v
SimTheorems.v
SimMesh.v
SimTrace.v
Scenarios.v
AppStorage.v
AppStorageTheorems.v
AppStorageProps.v
Proximity.v
MiniApp.v
MiniAppStore.v
MiniAppTheorems.v
AppNodeData.v
AppNode.v
AppNodeInv.v
AppNodeTheorems.v
AppMesh.v
AppTasks.v
FrontInv.v
Api.v
Bridge.v
BridgeHost.v
BridgeTheorems.v
RelayClient.v
Rendezvous.v
MeshDemo.v
Tests.v
FfiData.v
Ffi.v
FfiTheorems.v
FfiProps.v
Desktop.v
DesktopTheorems.v
DesktopProps.v
Cli.v
Sdk.v
AppCodec.v
AppDemo.v
TestsApp.v
FrontDemo.v
