(* ===== verification/Prelude.v ===== *)
(** * Mycelium: a verification of the mesh relay workspace

    Mycelium is a store-and-forward mesh: nodes exchange signed envelopes over
    libp2p, keep and forward them for peers that are not reachable, synchronise
    their stores with Bloom filters, and carry a small payment system (MeshCoin)
    and an application layer (chat, groups, bulletins, mail, nearby people,
    sandboxed mini-apps) on top, with a mobile library, a desktop shell, an HTTP
    API, a command line and a tool for mini-app developers as its front ends.
    This development models all crates of the workspace ([mycelium-coin],
    [mycelium-core], [mycelium-node], [mycelium-relay], [mycelium-sim],
    [mycelium-app], [mycelium-ffi], [mycelium-desktop], [mycelium-cli] and
    [miniapp-sdk]) and proves what makes them correct.

    ** Files

    Foundations.
    - [Prelude]: machine integers, the result and state monads, bytes, sums over
      lists and finite maps, the [mach] tactic.
    - [External]: third-party code as classes (identities and hashes, sled,
      bincode) with [*Laws] classes for the documented behaviour relied on;
      [Instances] builds one instance of each and proves the laws, so that every
      hypothesis is satisfiable.
    - [Text]: the [str] methods of Rust that the code uses, UTF-8 included, and
      the orders that rows and records are sorted by.
    - [Host]: named sled trees, the file system, the OS keyring and serde_json,
      in the same way.

    MeshCoin ([crates/mycelium-coin/src]).
    - [Transaction]: [address.rs], [refill.rs] and [Transaction] of [ledger.rs].
    - [Policy]: [settlement_policy.rs], [velocity.rs].
    - [Ledger]: [LocalLedger] over sled trees; [LedgerView] the abstract ledger
      and what each operation does to it; [LedgerTheorems] the
      invariants of reachable ledgers; [CoinDemo] a concrete run.
    - [CoinNode]: [node.rs], [payload.rs], [hot_wallet.rs], with
      [CoinNodeTheorems] and [CoinNodeDemo]; [Payment]: [payment.rs].

    Core ([crates/mycelium-core/src]).
    - [Bootstrap]: [bootstrap.rs], [invite.rs]; [Wire]:
      [data.rs], [transport.rs], [e2e_direct_wrap.rs], [energy.rs]; [E2E]:
      [crypto.rs]; [Bloom]: [sync.rs].
    - [AtRest]: [at_rest.rs] and [secrets.rs] of the node, with
      [AtRestTheorems] and [AtRestDemo].

    Node ([crates/mycelium-node/src]).
    - [IngestGuard], [Security], [Storage], [Forwarding]: the files of the same
      names; [Libp2p]: [transport.rs], its event loop included, and the
      Kademlia part of [connectivity.rs].
    - [NodeData], [Node]: the state and the handlers of [node.rs], the whole of
      [handle_command], [handle_transport_event], [handle_incoming_direct],
      [forward_once] and the run loop; [NodeTheorems],
      [NodeSecurity], [NodeRouting]: its theorems.  [NodeWalk]
      states once what an input may send, queue, publish and deliver; the
      compositions below instantiate it.
    - [Libp2pNode]: the run loop over the libp2p transport; [NodeStart]:
      [NodeRunner::new] and the construction of the transport and its behaviour;
      [NodeHandle]: the calls of [NodeHandle], those that wait for an answer too.
    - [CoreDemo], [NodeDemo]: concrete runs that witness the theorems.

    Relay and simulator.
    - [Relay]: the handlers and the event loop of
      [crates/mycelium-relay/src/main.rs].
    - [Sim], [SimTheorems]: [scheduler.rs], [clock.rs], [transport.rs] and
      [runner.rs] of [crates/mycelium-sim/src]; [Scenarios]: [scenarios.rs].
    - [SimMesh]: the simulator with the nodes of [Node] running over its
      transport; [SimTrace]: what such a mesh delivers, and [spawn_sim_node],
      which starts the nodes.
    - [RelayClient]: [relay_status.rs] and [rendezvous.rs] of the core, the
      routes of the relay they talk to, the monitor of [connectivity.rs], and
      the process of the relay.
    - [Rendezvous]: the rendezvous task of the node, the run loop, the blocking
      pool, the clients and the relay in one interleaved system.
    - [MeshDemo]: concrete runs of the mesh, of start-up and of the relay.

    Application ([crates/mycelium-app/src]).
    - [AppStorage]: [storage.rs], the record files and
      [miniapp_storage_enc.rs], one sled tree per peer, scope and kind;
      [AppStorageTheorems], [AppStorageProps]: its theorems.
    - [Proximity]: the directory of the same name.
    - [MiniApp], [MiniAppStore]: the data and checks, and the store operations,
      of [miniapp/]; [MiniAppTheorems].
    - [AppNodeData], [AppNode]: the fields and the operations of [node.rs], the
      dispatch of every incoming message included; [AppNodeInv],
      [AppNodeTheorems].  [AppMesh] composes it with the run loop of [Node]: what
      one node sends is followed through the mesh to what another one shows.
      [AppTasks]: the task that feeds it from the channel of the run loop.
    - [Bridge], [BridgeHost]: sessions, limits, capability tokens, quotas and
      the methods of [miniapp/bridge_host.rs]; [BridgeTheorems].
    - [AppCodec], [AppDemo]: codecs of every record, and concrete runs.

    Front ends.
    - [NodeHandle]: what the run loop shares with them, and the start-up
      configuration of [mycelium-node/src/node.rs]; [FrontInv]: one lemma per
      operation of the application node that they call, in the hint database
      [front], with which their invariants are proved.
    - [Api]: [mycelium-app/src/api.rs].
    - [FfiData], [Ffi]: [mycelium-ffi/src/lib.rs], its records and every exported
      function; [FfiTheorems] (life cycle), [FfiProps].
    - [Desktop]: [mycelium-desktop/src/lib.rs]; [DesktopTheorems], [DesktopProps].
    - [Cli]: [mycelium-cli/src/main.rs]; [Sdk]: [miniapp-sdk/src/main.rs].
    - [FrontDemo]: concrete runs of all of them.

    Tests.
    - [Tests], [TestsApp]: the unit tests of the crates, replayed on the
      definitions; each [*_tests_pass] theorem evaluates those of one crate.  Left out are the
      tests of file permissions, of erased memory, of the multiaddress parser of
      libp2p, of an archive of 11 MB, of compiled-in assets, and one that tells
      two bincode layouts apart.

    Components meet at interfaces: [ingest] is proved against the classes
    [SeenCache] and [MessageStore], which [BasicSeenCache] and
    [SledMessageStore] implement; the node is proved against [MeshTransport] for
    every behaviour of the transport; the coin node against [CoinHost], whose
    identity vault is that of [AtRest] (a payment loads the identity from the
    disk, and the desktop lends the coin node its own disk); the application against [AppHost] and, for its mini-app values, the database
    laws of [SledDb].

    ** What the theorems show

    - Ledger (C1-C5): money is conserved up to fees, no nonce is spent twice, no
      account exceeds the vault cap, the pending column is exact, the guards of
      [apply_transaction] are exactly its specification.
      [third_witness_settles]: what the third witness does.
    - Coin node (C6, C7): no network input breaks the ledger, a paid refill is
      never paid again, whatever operations come in between.  [enforce_cap_bounds] and [return_excess_terminates]: the
      hot wallet cap holds and its loop ends.
    - Node (C8-C10, C12, C13, C31): the invariant of the run loop under
      arbitrary inputs and failures, delivery at most once, safe forwarding, the
      ingest pipeline, the replay window, and that the queue drains.
      [unsigned_data_is_inert], [sd030_gate], [enqueue_makes_room],
      [direct_rate_bounded], [peer_cap_invariant], [next_event_streams],
      [requests_answered] and [bloom_no_false_negatives] cover its other parts.
    - Node over libp2p (C11): from start-up on, over every sequence of swarm
      events, commands and ticks.
    - Signatures (C14): what the signature of an envelope binds, without any
      assumption on the scheme beyond that signing verifies.
    - Mesh of simulated nodes (C15-C17): every message handed to an application
      is traced to the command that wrote it, a direct message over a link
      arrives, and the driver ends and is the simulator fed with what the nodes
      send.  [spawn_is_a_mesh_step], [spawn_failure], [run_for_completes],
      [simulation_books_balance], [scenarios_sound].
    - Application node (C18-C21, C37): its invariant under any calls and
      deliveries, a chat followed from one user to a neighbour through both run
      loops and their checks, no plaintext to a peer, posts of encrypted scopes, and what the incoming task delivers.
      [chat_waits_for_acceptance]: strangers wait.
    - Database and keys (C22, C30): rows are typed and filed under their own
      keys, values of mini-apps and read marks are what the calls left, the
      identity survives any use of the vault with its key.  [mail_is_kept],
      [histories_newest_first], [prune_exact], [contacts_are_a_map],
      [miniapp_value_roundtrip], [apps_isolated], [vault_roundtrip] and
      [read_secret_reencrypts] give the functional behaviour.
    - Mini-apps (C23-C25): what a successful installation guarantees, that
      revocation is final, that the displayed policy is the enforced one.
    - Bridge (C26-C29): calls are authorised, or change nothing but the clock, the
      reputation row and the call count of their app; they are confined to the
      app's own data, tokens are exact, quotas hold.  [bridge_rate_bounded]: at most twice
      the limit in any window.
    - Mobile library (C32-C34): its life cycle with lock poisoning, its
      invariant, the confinement of revoked apps.  [uninstall_leaves_nothing],
      [peer_watch_tracks], [payment_request_transfer].
    - Desktop (C35, C36): its invariant, and that identity, keys and wallet
      survive a restart.  [desktop_idle], [rendezvous_setting_persists],
      [removal_leaves].
    - HTTP API (C38): reply and state of every route, from the stored data;
      discovery over the relay (C39), developer tool (C40).
      [opt_out_holds], [relay_process_sound], [bad_storage_key_touches_nothing],
      [rendezvous_end_to_end], [rendezvous_lists_live_peers],
      [monitor_reports_changes], [signed_listing_verifies],
      [attested_bundle_lints], [keygen_roundtrip], [store_stats_exact],
      [dial_list_complete], and for the command line [cli_session] and
      [cli_line_roundtrip].
    - Behaviour worth knowing (parts of C32, C37 and C40, of
      [cli_session], and the plain theorems [opt_out_race],
      [three_hop_message_is_lost], [evicted_peer_stays_listed], [relayed_data_refused], [undecryptable_frame_stops_node],
      [prefilled_witnesses_settle_at_once],
      [refill_debited_twice_on_send_failure], [relayed_encrypted_frame_refused],
      [group_frame_always_forwarded], [evicted_peer_never_reported_down],
      [reopen_forgets_index], [rate_limited_message_is_burnt],
      [scope_wildcard_ignores_separator], [envelope_recipient_malleable],
      [sd030_ignores_body], [closing_one_connection_delists_peer],
      [closed_reservations_still_counted], [run_for_overshoots],
      [wrong_storage_key_deletes_identity], [chat_same_millisecond_overwrites],
      [colon_ids_share_storage], [upgrade_keeps_old_files],
      [anyone_can_revoke], [plain_post_enters_encrypted_scope],
      [listing_replaced_by_anyone], [post_expiry_wraps],
      [group_message_lost_between_peers], [gossiped_payload_lost],
      [revocation_gossip_unheard], [desktop_payments_unheard],
      [payment_replaces_identity], [payment_without_keyring_fails],
      [trailing_slash_changes_identity], [empty_scenarios_deliver_nothing]):
      places where the code does less than it means to.

    ** Modelling decisions

    - Integers are [Z] within their width; [+] and [-] wrap (release build),
      [saturating_*] and [checked_*] are written out.  Strings are sequences of
      UTF-8 bytes.  A panic is [None] or an error.
    - Handlers are functions in a state-and-error monad; the state reached
      before an error is kept, as in the code.  An error of a handler ends the
      run loop ([node_loop]).
    - The clock, fresh identifiers and key pairs are streams indexed by a
      counter in the state; theorems hold for every stream unless they say
      otherwise.  A reading whose value is not used is not drawn, and some
      branches draw a reading they then ignore: every run of the code is the
      run of the model on a suitable stream.
    - Hash maps and sets are finite maps; iteration follows the map's own order.
      Binary heaps are lists with extraction of the greatest element.
    - Metrics that a spawned task updates are updated at once.
    - The comparison [len as f64 > count as f64 * 0.8] is the exact one; it
      agrees with the rounded one because 0.8 is rounded by less than half a
      unit in the last place and the left side is a small integer.
    - Fuel: [return_excess] needs at most the excess
      ([return_excess_terminates]); [run_for_async] one step per millisecond plus
      two per burst plus two (C17); the loop over due events one step per queued
      event; [split_str] one step per byte.
    - The broadcast channels and notifications of the application node are the
      lists of what was sent; its clock readings, uuids and random bytes are
      streams like those of the node.  Mini-app assets shipped with the program
      are arguments.
    - The bridge, the application node and its database share one state, as the
      objects share one another in the code.
    - The relay's event loop and HTTP handlers are interleaved steps; that a
      connection closes only when open, and that a reservation needs one, are
      assumptions of its network relation.
    - In the simulated mesh a node handles one input per turn, in any order the
      scheduler likes; the driver yields to the nodes once per iteration, and a
      schedule lists their turns at each yield.  In the rendezvous system a
      request that does not reach the relay fails, and a step that is not
      possible changes nothing.
    - In the mobile library a panic is an error of the call; one that is raised
      while the [NODE] lock is held poisons it, as in std.  Callbacks are assumed
      to return, and what they are told is the list of events.  What the run
      loop shares is a [NodeView], an argument of the calls that read it, and
      the replies of the run loop are arguments too.
    - What the constructors called at start-up return is an argument
      ([Opened], [DeskParts], [CliParts]); the desktop and the command line load
      the identity and the encryption keys by the definitions of [AtRest].
    - A tokio broadcast channel keeps the last messages up to its capacity, which
      is a power of two here, so that it is not rounded.
    - Reports of the scenarios keep exact quotients instead of floating point.
    - Nothing is assumed of the unforgeability of signatures: theorems on what a
      signature binds name the alternative, one signature valid on two texts
      ([two_texts]), or what the other key verifies.

    ** Not modelled

    Cryptographic primitives, the swarm and the behaviours of libp2p, sled,
    bincode, serde_json, zip, HTTP and base64 libraries (parameters with laws);
    erasing secrets from memory; option parsing by clap, the Tauri builder,
    logging, [Debug] and [Display] implementations, accessors that only clone a
    field, and the Kotlin and TypeScript code.  These
    are calls into third-party code whose behaviour the sources do not decide. *)

From Stdlib Require Export ZArith Lia.
From Stdlib Require Export Strings.Byte.
From stdpp Require Export gmap sorting strings prelude.

Open Scope Z_scope.

(** ** Machine integers

    A Rust [u8]/[u32]/[u64] is a [Z] in [0, 2^w).  The workspace is built
    without [overflow-checks], so plain [+], [-] and [+=] are the wrapping
    operations; [saturating_*] and [checked_*] are written out. *)

Definition umax (w : Z) : Z := 2 ^ w - 1.
Definition wrap (w z : Z) : Z := z mod 2 ^ w.
Definition wadd (w a b : Z) : Z := wrap w (a + b).
Definition wsub (w a b : Z) : Z := wrap w (a - b).
Definition sat_add (w a b : Z) : Z := Z.min (a + b) (umax w).
Definition sat_sub (a b : Z) : Z := Z.max 0 (a - b).
Definition checked_add (w a b : Z) : option Z :=
  if decide (a + b <= umax w) then Some (a + b) else None.
Definition in_u (w z : Z) : Prop := 0 <= z < 2 ^ w.

Global Instance in_u_dec w z : Decision (in_u w z).
Proof. unfold in_u; apply _. Defined.

Declare Scope mach_scope.
Delimit Scope mach_scope with mach.
Notation "a +64 b" := (wadd 64 a b) (at level 50, left associativity) : mach_scope.
Notation "a -64 b" := (wsub 64 a b) (at level 50, left associativity) : mach_scope.
Notation "a +sat b" := (sat_add 64 a b) (at level 50, left associativity) : mach_scope.
Notation "a -sat b" := (sat_sub a b) (at level 50, left associativity) : mach_scope.
Open Scope mach_scope.

Lemma umax64 : umax 64 = 18446744073709551615.
Proof. reflexivity. Qed.

Lemma wrap_small w z : in_u w z -> wrap w z = z.
Proof. intros H. by apply Z.mod_small. Qed.

Lemma wrap_in_u w z : 0 <= w -> in_u w (wrap w z).
Proof. intros. apply Z.mod_pos_bound. by apply Z.pow_pos_nonneg. Qed.

Lemma wadd_small w a b : in_u w (a + b) -> wadd w a b = a + b.
Proof. apply wrap_small. Qed.

Lemma wsub_small w a b : in_u w (a - b) -> wsub w a b = a - b.
Proof. apply wrap_small. Qed.

Lemma sat_sub_le a b : 0 <= a -> 0 <= b -> 0 <= sat_sub a b <= a.
Proof. unfold sat_sub. lia. Qed.

Lemma sat_add_exact w a b : a + b <= umax w -> sat_add w a b = a + b.
Proof. unfold sat_add. lia. Qed.

Lemma sat_add_in_u w a b :
  0 <= w -> 0 <= a -> 0 <= b -> in_u w (sat_add w a b).
Proof.
  intros Hw Ha Hb. unfold in_u, sat_add, umax.
  pose proof (Z.pow_pos_nonneg 2 w). lia.
Qed.

(** [mach] closes arithmetic goals about the operations above once the
    widths are literal. *)
Ltac mach_unfold :=
  unfold wadd, wsub, wrap, sat_add, sat_sub, in_u, umax in *;
  change (2 ^ 64) with 18446744073709551616 in *;
  change (2 ^ 32) with 4294967296 in *;
  change (2 ^ 8) with 256 in *.
Ltac mach := mach_unfold; Z.div_mod_to_equations; lia.

Create HintDb mach.
Create Rewrite HintDb bytes.
#[export] Hint Resolve wrap_in_u sat_add_in_u : mach.

(** ** Results

    [anyhow::Result<A>] and [Result<A, E>] both become [Res]. *)

Inductive Res (E A : Type) : Type :=
| Ok (a : A)
| Err (e : E).
Arguments Ok {E A} _.
Arguments Err {E A} _.

Global Instance Res_ret {E} : MRet (Res E) := fun A a => Ok a.
Global Instance Res_bind {E} : MBind (Res E) := fun A B f m =>
  match m with Ok a => f a | Err e => Err e end.

Definition is_ok {E A} (r : Res E A) : bool :=
  match r with Ok _ => true | Err _ => false end.

(** [anyhow::Error]: the workspace only ever formats it. *)
Abbreviation anyhow A := (Res string A).

Lemma Res_bind_Ok {E A B} (m : Res E A) (f : A -> Res E B) b :
  m ≫= f = Ok b <-> exists a, m = Ok a /\ f a = Ok b.
Proof.
  destruct m as [a|e]; simpl.
  - split; [eauto|]. by intros (? & [= ->] & ?).
  - split; [done|]. by intros (? & ? & ?).
Qed.

(** State passing with errors: an error keeps the state reached so far, as
    [?] in a [&mut self] method does. *)
Definition ST (S A : Type) : Type := S -> S * anyhow A.

Global Instance ST_ret {S} : MRet (ST S) := fun A a s => (s, Ok a).
Global Instance ST_bind {S} : MBind (ST S) := fun A B f m s =>
  match m s with
  | (s', Ok a) => f a s'
  | (s', Err e) => (s', Err e)
  end.

Definition st_get {S} : ST S S := fun s => (s, Ok s).
Definition st_put {S} (s' : S) : ST S unit := fun _ => (s', Ok tt).
Definition st_modify {S} (f : S -> S) : ST S unit := fun s => (f s, Ok tt).
Definition st_gets {S A} (f : S -> A) : ST S A := fun s => (s, Ok (f s)).
Definition st_err {S A} (e : string) : ST S A := fun s => (s, Err e).
Definition st_lift {S A} (r : anyhow A) : ST S A := fun s => (s, r).

(** [match m { Ok(..) => .., Err(e) => .. }] and [let _ = m] *)
Definition st_attempt {S A} (m : ST S A) : ST S (anyhow A) := fun s => ((m s).1, Ok (m s).2).
Definition st_ignore {S A} (m : ST S A) : ST S unit := fun s => ((m s).1, Ok tt).

Lemma ST_bind_Ok {S A B} (m : ST S A) (f : A -> ST S B) s s' a :
  m s = (s', Ok a) -> (m ≫= f) s = f a s'.
Proof. intros H. unfold mbind, ST_bind. by rewrite H. Qed.

Lemma ST_bind_Err {S A B} (m : ST S A) (f : A -> ST S B) s s' e :
  m s = (s', Err e) -> (m ≫= f) s = (s', Err e).
Proof. intros H. unfold mbind, ST_bind. by rewrite H. Qed.

Lemma ST_bind_inv {S A B} (m : ST S A) (f : A -> ST S B) s s' b :
  (m ≫= f) s = (s', Ok b) -> exists s1 a, m s = (s1, Ok a) /\ f a s1 = (s', Ok b).
Proof. unfold mbind, ST_bind. destruct (m s) as [s1 [a|e]]; [eauto|done]. Qed.

Lemma ST_bind_inv_Err {S A B} (m : ST S A) (f : A -> ST S B) s s' e :
  (m ≫= f) s = (s', Err e) ->
  m s = (s', Err e) \/ exists s1 a, m s = (s1, Ok a) /\ f a s1 = (s', Err e).
Proof.
  unfold mbind, ST_bind. destruct (m s) as [s1 [a|e']]; [eauto|].
  intros [= -> ->]. by left.
Qed.

Lemma ST_bind_lift {S A B} (r : anyhow A) (f : A -> ST S B) s a :
  r = Ok a -> (st_lift r ≫= f) s = f a s.
Proof. by intros ->. Qed.

(** An invariant kept by a stateful operation, whether it returns or fails. *)
Definition keeps {S A} (I : S -> Prop) (m : ST S A) : Prop := forall s, I s -> I (m s).1.

Section keeps.
Context {S : Type} (I : S -> Prop).

Lemma keeps_bind {A B} (m : ST S A) (f : A -> ST S B) :
  keeps I m -> (forall a, keeps I (f a)) -> keeps I (m ≫= f).
Proof.
  intros Hm Hf s Hs. specialize (Hm s Hs). unfold mbind, ST_bind.
  destruct (m s) as [s1 [a|e]]; [by apply Hf|done].
Qed.

(** the same, knowing what [m] returned *)
Lemma keeps_bind_eq {A B} (m : ST S A) (f : A -> ST S B) :
  keeps I m -> (forall s s1 a, I s -> m s = (s1, Ok a) -> I s1 -> I (f a s1).1) -> keeps I (m ≫= f).
Proof.
  intros Hm Hf s Hs. pose proof (Hm s Hs) as H1. unfold mbind, ST_bind.
  destruct (m s) as [s1 [a|e]] eqn:E; [by eapply (Hf s s1 a Hs E)|done].
Qed.

Lemma keeps_ret {A} (a : A) : keeps I (mret a).
Proof. by intros s Hs. Qed.
Lemma keeps_get : keeps I st_get.
Proof. by intros s Hs. Qed.
Lemma keeps_gets {A} (f : S -> A) : keeps I (st_gets f).
Proof. by intros s Hs. Qed.
Lemma keeps_lift {A} (r : anyhow A) : keeps I (st_lift r).
Proof. by intros s Hs. Qed.
Lemma keeps_err {A} e : keeps I (st_err (A := A) e).
Proof. by intros s Hs. Qed.
Lemma keeps_attempt {A} (m : ST S A) : keeps I m -> keeps I (st_attempt m).
Proof. intros Hm s Hs. by apply Hm. Qed.
Lemma keeps_ignore {A} (m : ST S A) : keeps I m -> keeps I (st_ignore m).
Proof. intros Hm s Hs. by apply Hm. Qed.
Lemma keeps_modify (f : S -> S) : (forall s, I s -> I (f s)) -> keeps I (st_modify f).
Proof. intros Hf s Hs. by apply Hf. Qed.
End keeps.

Create HintDb keeps.
#[export] Hint Resolve keeps_ret keeps_get keeps_gets keeps_lift keeps_err keeps_attempt keeps_ignore : keeps.

(** walks through binds and matches, closing the leaves with the hints *)
Ltac keeps_step :=
  match goal with
  | |- keeps _ (mbind _ _) => apply keeps_bind; [|intros ?]
  | |- keeps _ (match ?x with _ => _ end) => destruct x eqn:?
  | |- keeps _ _ => solve [eauto with keeps]
  end.
Ltac keeps_auto := repeat keeps_step.

(** ** Bytes *)

Global Instance byte_eq_dec : EqDecision byte := Byte.byte_eq_dec.
Global Program Instance byte_countable : Countable byte :=
  inj_countable Byte.to_N Byte.of_N _.
Next Obligation. intros b. apply Byte.of_to_N. Qed.

Definition byte_of_Z (z : Z) : byte :=
  default x00 (Byte.of_N (Z.to_N (z mod 256))).
Definition Z_of_byte (b : byte) : Z := Z.of_N (Byte.to_N b).

Lemma Z_of_byte_range b : 0 <= Z_of_byte b < 256.
Proof.
  unfold Z_of_byte. pose proof (Byte.to_N_bounded b). lia.
Qed.

Lemma byte_of_Z_of_byte b : byte_of_Z (Z_of_byte b) = b.
Proof.
  unfold byte_of_Z. rewrite Z.mod_small by apply Z_of_byte_range.
  unfold Z_of_byte. by rewrite N2Z.id, Byte.of_to_N.
Qed.

Lemma Z_of_byte_of_Z z : Z_of_byte (byte_of_Z z) = z mod 256.
Proof.
  unfold byte_of_Z.
  pose proof (Z.mod_pos_bound z 256 ltac:(lia)) as Hr.
  destruct (Byte.of_N (Z.to_N (z mod 256))) as [b|] eqn:E; simpl.
  - apply Byte.to_of_N in E. unfold Z_of_byte. rewrite E. lia.
  - apply Byte.of_N_None_iff in E. lia.
Qed.

(** [str::as_bytes]: a Rust [&str] is modelled by the [string] of its UTF-8
    bytes, so [len] is [String.length]. *)
Definition as_bytes (s : string) : list byte := String.list_byte_of_string s.
Definition of_bytes (l : list byte) : string := String.string_of_list_byte l.

Lemma of_as_bytes s : of_bytes (as_bytes s) = s.
Proof. apply String.string_of_list_byte_of_string. Qed.

Lemma as_of_bytes l : as_bytes (of_bytes l) = l.
Proof. apply String.list_byte_of_string_of_list_byte. Qed.

Global Instance as_bytes_inj : Inj (=) (=) as_bytes.
Proof. intros s t H. by rewrite <- (of_as_bytes s), <- (of_as_bytes t), H. Qed.

(** [to_le_bytes]/[from_le_bytes] on [n] bytes, and the big-endian pair. *)
Fixpoint le_bytes (n : nat) (z : Z) : list byte :=
  match n with
  | O => []
  | S n => byte_of_Z z :: le_bytes n (z / 256)
  end.

Fixpoint from_le (l : list byte) : Z :=
  match l with
  | [] => 0
  | b :: l => Z_of_byte b + 256 * from_le l
  end.

Definition be_bytes (n : nat) (z : Z) : list byte := reverse (le_bytes n z).
Definition from_be (l : list byte) : Z := from_le (reverse l).

Lemma le_bytes_length n z : length (le_bytes n z) = n.
Proof. revert z. induction n; intros; simpl; auto. Qed.

Lemma from_le_bytes n z : 0 <= z < 256 ^ Z.of_nat n -> from_le (le_bytes n z) = z.
Proof.
  revert z. induction n as [|n IH]; intros z Hz; simpl.
  - simpl in Hz. lia.
  - rewrite Nat2Z.inj_succ, Z.pow_succ_r in Hz by lia.
    rewrite Z_of_byte_of_Z, IH by (Z.div_mod_to_equations; lia).
    pose proof (Z.div_mod z 256). lia.
Qed.

Lemma from_le_range l : 0 <= from_le l < 256 ^ Z.of_nat (length l).
Proof.
  induction l as [|b l IH]; [simpl; lia|].
  cbn [from_le length]. rewrite Nat2Z.inj_succ, Z.pow_succ_r by lia.
  pose proof (Z_of_byte_range b). lia.
Qed.

Lemma le_bytes_from_le l : le_bytes (length l) (from_le l) = l.
Proof.
  induction l as [|b l IH]; [done|]. cbn [from_le length le_bytes].
  pose proof (Z_of_byte_range b).
  replace ((Z_of_byte b + 256 * from_le l) / 256) with (from_le l)
    by (Z.div_mod_to_equations; lia).
  rewrite IH. f_equal. rewrite <- (byte_of_Z_of_byte b) at 2.
  unfold byte_of_Z. do 3 f_equal. Z.div_mod_to_equations; lia.
Qed.

Lemma le_bytes_inj n a b :
  0 <= a < 256 ^ Z.of_nat n -> 0 <= b < 256 ^ Z.of_nat n ->
  le_bytes n a = le_bytes n b -> a = b.
Proof. intros Ha Hb E. by rewrite <- (from_le_bytes n a), E, from_le_bytes. Qed.

Lemma be_bytes_length n z : length (be_bytes n z) = n.
Proof. unfold be_bytes. by rewrite length_reverse, le_bytes_length. Qed.

Lemma from_be_bytes n z : 0 <= z < 256 ^ Z.of_nat n -> from_be (be_bytes n z) = z.
Proof.
  intros. unfold from_be, be_bytes. rewrite reverse_involutive.
  by apply from_le_bytes.
Qed.

#[export] Hint Rewrite le_bytes_length be_bytes_length @length_app : bytes.

(** ** Lists *)

Definition sumZ {A} (f : A -> Z) (l : list A) : Z := foldr (fun a s => f a + s) 0 l.

Lemma sumZ_app {A} (f : A -> Z) l k : sumZ f (l ++ k) = sumZ f l + sumZ f k.
Proof. induction l; simpl; lia. Qed.

Lemma sumZ_perm {A} (f : A -> Z) l k : l ≡ₚ k -> sumZ f l = sumZ f k.
Proof. induction 1; simpl; lia. Qed.

Global Instance sumZ_Proper {A} (f : A -> Z) : Proper ((≡ₚ) ==> (=)) (sumZ f).
Proof. intros l k. apply sumZ_perm. Qed.

Lemma sumZ_nonneg {A} (f : A -> Z) l : (forall a, a ∈ l -> 0 <= f a) -> 0 <= sumZ f l.
Proof.
  induction l as [|a l IH]; intros H; simpl; [lia|].
  pose proof (H a ltac:(left)). specialize (IH (fun b Hb => H b ltac:(by right))). lia.
Qed.

Lemma sumZ_ext {A} (f g : A -> Z) l : (forall a, a ∈ l -> f a = g a) -> sumZ f l = sumZ g l.
Proof.
  induction l as [|a l IH]; intros H; simpl; [done|].
  rewrite (H a) by left. rewrite IH; [done|]. intros b Hb. apply H. by right.
Qed.

Lemma sumZ_elem {A} (f : A -> Z) l a :
  (forall b, b ∈ l -> 0 <= f b) -> a ∈ l -> f a <= sumZ f l.
Proof.
  intros Hf (l1 & l2 & ->)%list_elem_of_split. rewrite sumZ_app; simpl.
  assert (0 <= sumZ f l1) by (apply sumZ_nonneg; set_solver).
  assert (0 <= sumZ f l2) by (apply sumZ_nonneg; set_solver). lia.
Qed.

(** Sum of [f] over the values of a finite map. *)
Definition msum {K A} `{Countable K} (f : A -> Z) (m : gmap K A) : Z :=
  sumZ (fun kv => f kv.2) (map_to_list m).

Global Arguments msum : simpl never.

Section msum.
Context {K A : Type} `{Countable K}.
Implicit Types (f : A -> Z) (m : gmap K A).

Lemma msum_empty f : msum f (∅ : gmap K A) = 0.
Proof. unfold msum. by rewrite map_to_list_empty. Qed.

Lemma msum_insert_new f m k a :
  m !! k = None -> msum f (<[k:=a]> m) = f a + msum f m.
Proof. intros Hk. unfold msum. by rewrite map_to_list_insert by done. Qed.

Lemma msum_delete f m k a :
  m !! k = Some a -> msum f m = f a + msum f (delete k m).
Proof.
  intros Hk. rewrite <- (insert_delete_id m k a Hk) at 1.
  apply msum_insert_new. apply lookup_delete_eq.
Qed.

Lemma msum_insert f m k a :
  msum f (<[k:=a]> m) =
  f a - match m !! k with Some b => f b | None => 0 end + msum f m.
Proof.
  destruct (m !! k) as [b|] eqn:E.
  - rewrite (msum_delete f m k b E), <- insert_delete_eq.
    rewrite msum_insert_new by apply lookup_delete_eq. lia.
  - rewrite msum_insert_new by done. lia.
Qed.

Lemma msum_nonneg f m : (forall k a, m !! k = Some a -> 0 <= f a) -> 0 <= msum f m.
Proof.
  intros Hf. apply sumZ_nonneg. intros [k a] Hin.
  apply elem_of_map_to_list in Hin. simpl. eauto.
Qed.

Lemma msum_elem f m k a :
  (forall k a, m !! k = Some a -> 0 <= f a) -> m !! k = Some a -> f a <= msum f m.
Proof.
  intros Hf Hk. rewrite (msum_delete f m k a Hk).
  enough (0 <= msum f (delete k m)) by lia. apply msum_nonneg.
  intros k' a' [_ H']%lookup_delete_Some. eauto.
Qed.
End msum.

(** ** Bounded queues

    [while q.len() > cap { q.pop_front(); }] *)
Fixpoint pop_front_to {A} (cap : nat) (l : list A) : list A :=
  match l with
  | [] => []
  | x :: l' => if decide (cap < length l)%nat then pop_front_to cap l' else l
  end.

Lemma pop_front_to_drop {A} cap (l : list A) :
  pop_front_to cap l = drop (length l - cap) l.
Proof.
  induction l as [|x l IH]; [done|]. cbn [pop_front_to]. case_decide as Hc.
  - rewrite IH. cbn [length] in *. by replace (S (length l) - cap)%nat with (S (length l - cap)) by lia.
  - by replace (length (x :: l) - cap)%nat with 0%nat by lia.
Qed.

Lemma pop_front_to_length {A} cap (l : list A) : (length (pop_front_to cap l) <= cap)%nat.
Proof. rewrite pop_front_to_drop, length_drop. lia. Qed.

Lemma pop_front_to_id {A} cap (l : list A) : (length l <= cap)%nat -> pop_front_to cap l = l.
Proof. intros H. rewrite pop_front_to_drop. by replace (length l - cap)%nat with 0%nat by lia. Qed.

Lemma pop_front_to_snoc {A} cap (l : list A) x :
  (0 < cap)%nat -> exists k, pop_front_to cap (l ++ [x]) = k ++ [x] /\ k `suffix_of` l.
Proof.
  intros Hc. rewrite pop_front_to_drop, length_app. simpl.
  rewrite drop_app_le by lia. eexists. split; [done|].
  eexists. symmetry. apply take_drop.
Qed.

(** ** Stable sorting

    [slice::sort_by_key] keeps the order of equal elements; insertion from the
    right does too. *)
Section sort_by.
Context {A : Type} (R : relation A) `{!RelDecision R}.

Fixpoint insert_by (x : A) (l : list A) : list A :=
  match l with
  | [] => [x]
  | y :: l' => if decide (R x y) then x :: l else y :: insert_by x l'
  end.

Definition sort_by (l : list A) : list A := foldr insert_by [] l.

Lemma insert_by_perm x l : insert_by x l ≡ₚ x :: l.
Proof.
  induction l as [|y l IH]; [done|]. cbn [insert_by]. destruct (decide (R x y)); [done|].
  rewrite IH. apply Permutation_swap.
Qed.

Lemma sort_by_perm l : sort_by l ≡ₚ l.
Proof. induction l as [|x l IH]; [done|]. cbn [sort_by foldr]. by rewrite insert_by_perm, IH. Qed.

Lemma elem_of_sort_by x l : x ∈ sort_by l <-> x ∈ l.
Proof. by rewrite sort_by_perm. Qed.

Lemma sort_by_length l : length (sort_by l) = length l.
Proof. by rewrite sort_by_perm. Qed.

Lemma sort_by_sorted `{!Total R} `{!Transitive R} l : StronglySorted R (sort_by l).
Proof.
  induction l as [|x l IH]; [constructor|]. cbn [sort_by foldr]. fold (sort_by l).
  induction IH as [|y k Hk IHk Hy]; cbn [insert_by]; [by repeat constructor|].
  destruct (decide (R x y)) as [Hxy|Hxy].
  - constructor; [by constructor|]. constructor; [done|]. eapply Forall_impl; [exact Hy|].
    intros z Hz. by transitivity y.
  - constructor; [done|]. rewrite insert_by_perm. constructor; [|done].
    by destruct (total R x y).
Qed.

(** Stability: a class of pairwise related elements keeps its order. *)
Lemma sort_by_stable (P : A -> Prop) `{!forall x, Decision (P x)} l :
  (forall x y, P x -> P y -> R x y) -> filter P (sort_by l) = filter P l.
Proof.
  intros HP. induction l as [|x l IH]; [done|]. cbn [sort_by foldr]. fold (sort_by l).
  rewrite filter_cons, <- IH. clear IH. induction (sort_by l) as [|y k IHk]; cbn [insert_by].
  - by rewrite filter_cons, filter_nil.
  - destruct (decide (R x y)) as [Hxy|Hxy]; [by rewrite filter_cons|].
    rewrite !filter_cons, IHk. destruct (decide (P x)) as [Hx|Hx], (decide (P y)) as [Hy|Hy]; try done.
    by destruct Hxy; apply HP.
Qed.
End sort_by.

Definition key_asc {A} (f : A -> Z) (a b : A) : Prop := f a <= f b.
Definition key_desc {A} (f : A -> Z) (a b : A) : Prop := f b <= f a.

Section keys.
Context {A : Type} (f : A -> Z).
Global Instance key_asc_dec : RelDecision (key_asc f).
Proof. intros a b. unfold key_asc. apply _. Defined.
Global Instance key_desc_dec : RelDecision (key_desc f).
Proof. intros a b. unfold key_desc. apply _. Defined.
Global Instance key_asc_total : Total (key_asc f).
Proof. intros a b. unfold key_asc. lia. Qed.
Global Instance key_desc_total : Total (key_desc f).
Proof. intros a b. unfold key_desc. lia. Qed.
Global Instance key_asc_trans : Transitive (key_asc f).
Proof. intros a b c. unfold key_asc. lia. Qed.
Global Instance key_desc_trans : Transitive (key_desc f).
Proof. intros a b c. unfold key_desc. lia. Qed.
End keys.

Lemma sorted_take_drop {A} (R : relation A) (l : list A) n a b :
  StronglySorted R l -> a ∈ take n l -> b ∈ drop n l -> R a b.
Proof.
  intros Hs Ha Hb. rewrite <- (take_drop n l) in Hs. by eapply StronglySorted_app_1_elem_of.
Qed.
