(* ===== verification/External.v ===== *)
(** * Third-party code as parameters

    The workspace calls libp2p identities, BLAKE3, Base58, sled and bincode.
    Their code is outside the repository, so every definition that uses them
    takes them as a class argument; the [*Laws] classes name the documented
    behaviour the theorems rely on.  [Instances.v] builds one concrete instance
    of every class and proves its laws. *)

From S2P Require Import Prelude.

Open Scope Z_scope.

(** ** Keys, peer ids and hashes (libp2p-identity, blake3, hex, bs58) *)

Class Crypto := {
  PublicKey : Type;
  Keypair : Type;
  PeerId : Type;
  (** [Keypair::public], [Keypair::sign] *)
  kp_public : Keypair -> PublicKey;
  kp_sign : Keypair -> list byte -> anyhow (list byte);
  (** [PublicKey::verify], [encode_protobuf], [try_decode_protobuf] *)
  pk_verify : PublicKey -> list byte -> list byte -> bool;
  pk_encode : PublicKey -> list byte;
  pk_decode : list byte -> option PublicKey;
  (** [PublicKey::to_peer_id], the multihash of a peer id, its text form *)
  pk_peer_id : PublicKey -> PeerId;
  peer_code : PeerId -> Z;
  peer_digest : PeerId -> list byte;
  peer_parse : string -> option PeerId;
  peer_string : PeerId -> string;
  (** [blake3::hash] (32 bytes), [hex::encode], [hex::decode], [bs58] *)
  blake3 : list byte -> list byte;
  hex_encode : list byte -> string;
  hex_decode : string -> option (list byte);
  bs58_encode : list byte -> string;
  bs58_decode : string -> option (list byte);
}.

Class CryptoLaws (C : Crypto) : Prop := {
  (** Ed25519 signing does not fail and its signatures verify. *)
  kp_sign_total : forall kp m, exists s, kp_sign kp m = Ok s;
  kp_sign_verify : forall kp m s,
    kp_sign kp m = Ok s -> pk_verify (kp_public kp) m s = true;
  (** An Ed25519 peer id inlines the protobuf key (identity multihash). *)
  pk_decode_encode : forall pk, pk_decode (pk_encode pk) = Some pk;
  peer_code_pk : forall pk, peer_code (pk_peer_id pk) = 0;
  peer_digest_pk : forall pk, peer_digest (pk_peer_id pk) = pk_encode pk;
  peer_parse_string : forall p, peer_parse (peer_string p) = Some p;
  blake3_length : forall m, length (blake3 m) = 32%nat;
  hex_decode_encode : forall b, hex_decode (hex_encode b) = Some b;
  bs58_decode_encode : forall b, bs58_decode (bs58_encode b) = Some b;
}.

(** The event the security of the signature scheme makes infeasible for an
    honestly generated key: one signature that verifies on two texts.  The laws
    above do not exclude it (it exists for weak keys); theorems on what a
    signature binds name it as the alternative. *)
Definition two_texts `{C : Crypto} (pk : PublicKey) (m m' : list byte) (s : list byte) : Prop :=
  m ≠ m' /\ pk_verify pk m s = true /\ pk_verify pk m' s = true.

(** ** bincode: one codec per serialised type *)

Class Bincode (A : Type) := {
  ser : A -> anyhow (list byte);
  de : list byte -> anyhow A;
}.

Class BincodeLaws {A} (B : Bincode A) : Prop := {
  ser_total : forall a, exists b, ser a = Ok b;
  de_ser : forall a b, ser a = Ok b -> de b = Ok a;
}.

(** ** sled: a tree is an ordered map from byte keys to byte values *)

Class Sled := {
  Tree : Type;
  tree_new : Tree;
  tree_get : Tree -> string -> anyhow (option (list byte));
  tree_contains_key : Tree -> string -> anyhow bool;
  tree_insert : Tree -> string -> list byte -> anyhow Tree;
  tree_remove : Tree -> string -> anyhow Tree;
  (** all pairs, in key order *)
  tree_iter : Tree -> anyhow (list (string * list byte));
}.

(** A healthy disk: no call fails, and the calls behave as map operations on
    [tree_view]. *)
Class SledLaws (D : Sled) := {
  tree_view : Tree -> gmap string (list byte);
  tree_view_new : tree_view tree_new = ∅;
  tree_get_view : forall t k, tree_get t k = Ok (tree_view t !! k);
  tree_contains_view : forall t k,
    tree_contains_key t k = Ok (bool_decide (is_Some (tree_view t !! k)));
  tree_insert_view : forall t k v, exists t',
    tree_insert t k v = Ok t' /\ tree_view t' = <[k:=v]> (tree_view t);
  tree_remove_view : forall t k, exists t',
    tree_remove t k = Ok t' /\ tree_view t' = delete k (tree_view t);
  tree_iter_view : forall t, exists l,
    tree_iter t = Ok l /\ l ≡ₚ map_to_list (tree_view t);
}.

(** ** Typed trees

    Every tree of the workspace holds bincode values of one type.  [typed]
    decodes the whole tree; it is the abstraction the theorems are stated on. *)

Section typed.
Context `{D : Sled} `{DL : !SledLaws D} {A : Type} `{B : Bincode A} `{BL : !BincodeLaws B}.

Definition of_res {E X} (r : Res E X) : option X :=
  match r with Ok x => Some x | Err _ => None end.

Definition typed (t : Tree) : gmap string A := omap (fun b => of_res (de b)) (tree_view t).

(** every stored row decodes *)
Definition tree_ok (t : Tree) : Prop :=
  forall k b, tree_view t !! k = Some b -> exists a, de b = Ok a.

Lemma typed_new : typed tree_new = ∅.
Proof. unfold typed. by rewrite tree_view_new, omap_empty. Qed.

Lemma tree_ok_new : tree_ok tree_new.
Proof. intros k b. rewrite tree_view_new. by rewrite lookup_empty. Qed.

Lemma typed_get t k :
  tree_ok t ->
  match typed t !! k with
  | Some a => exists b, tree_get t k = Ok (Some b) /\ de b = Ok a
  | None => tree_get t k = Ok None
  end.
Proof.
  intros Hok. rewrite tree_get_view. unfold typed. rewrite lookup_omap.
  destruct (tree_view t !! k) as [b|] eqn:E; simpl; [|done].
  destruct (Hok _ _ E) as [a Ha]. rewrite Ha. simpl. eauto.
Qed.

Lemma typed_contains t k :
  tree_ok t -> tree_contains_key t k = Ok (bool_decide (is_Some (typed t !! k))).
Proof.
  intros Hok. rewrite tree_contains_view. unfold typed. rewrite lookup_omap.
  destruct (tree_view t !! k) as [b|] eqn:E; simpl; [|done].
  destruct (Hok _ _ E) as [a Ha]. by rewrite Ha.
Qed.

Lemma typed_insert t k a b :
  ser a = Ok b ->
  exists t', tree_insert t k b = Ok t' /\ typed t' = <[k:=a]> (typed t)
             /\ (tree_ok t -> tree_ok t').
Proof.
  intros Hs. pose proof (de_ser _ _ Hs) as Hd.
  destruct (tree_insert_view t k b) as (t' & Hi & Hv). exists t'. split_and!; [done| |].
  - unfold typed. rewrite Hv. apply omap_insert_Some. by rewrite Hd.
  - intros Hok k' b'. rewrite Hv.
    intros [[_ <-]|[_ ?]]%lookup_insert_Some; eauto.
Qed.

Lemma typed_remove t k :
  exists t', tree_remove t k = Ok t' /\ typed t' = delete k (typed t)
             /\ (tree_ok t -> tree_ok t').
Proof.
  destruct (tree_remove_view t k) as (t' & Hi & Hv). exists t'. split_and!; [done| |].
  - unfold typed. rewrite Hv. apply omap_delete.
  - intros Hok k' b'. rewrite Hv. intros [_ ?]%lookup_delete_Some. eauto.
Qed.
End typed.
