(* ===== verification/Text.v ===== *)
(** * Rust string primitives

    [str] methods the workspace uses, on strings of UTF-8 bytes: prefixes and
    suffixes, splitting and joining, [trim] with Unicode white space, decimal
    parsing, and [std::str::from_utf8]. *)

From Stdlib Require DecimalString DecimalN.
From S2P Require Import Prelude External.

Open Scope Z_scope.

Implicit Types s p r : string.

(** ** Prefixes and suffixes *)

Fixpoint strip_prefix p s : option string :=
  match p, s with
  | EmptyString, _ => Some s
  | String a p, String b s => if decide (a = b) then strip_prefix p s else None
  | String _ _, EmptyString => None
  end.

Definition starts_with p s : bool := bool_decide (is_Some (strip_prefix p s)).

Lemma strip_prefix_Some p s r : strip_prefix p s = Some r <-> s = (p +:+ r)%string.
Proof.
  revert s. induction p as [|a p IH]; intros s; simpl.
  - split; [by intros [= ->]|by intros ->].
  - destruct s as [|b s]; [done|]. case_decide as Hab.
    + rewrite IH. subst. split; [by intros ->|by intros [= ->]].
    + split; [done|]. by intros [= -> _].
Qed.

Lemma strip_prefix_app p r : strip_prefix p (p +:+ r) = Some r.
Proof. by apply strip_prefix_Some. Qed.

Lemma starts_with_true p s : starts_with p s = true <-> exists r, s = (p +:+ r)%string.
Proof.
  unfold starts_with. rewrite bool_decide_eq_true. unfold is_Some.
  by setoid_rewrite strip_prefix_Some.
Qed.

(** [&s\[n..\]] *)
Definition str_from (n : nat) s : string := of_bytes (drop n (as_bytes s)).

Definition strip_suffix p s : option string :=
  let l := as_bytes s in let q := as_bytes p in
  if decide (length q <= length l /\ drop (length l - length q) l = q)%nat
  then Some (of_bytes (take (length l - length q) l)) else None.

Lemma strip_suffix_Some p s r : strip_suffix p s = Some r <-> as_bytes s = as_bytes r ++ as_bytes p.
Proof.
  unfold strip_suffix. case_decide as Hd.
  - destruct Hd as [Hl Hd]. split.
    + intros [= <-]. rewrite as_of_bytes. rewrite <- Hd at 2. by rewrite take_drop.
    + intros E. f_equal. rewrite E, length_app, Nat.add_sub, take_app_length. apply of_as_bytes.
  - split; [done|]. intros E. destruct Hd. rewrite E, length_app, Nat.add_sub.
    split; [lia|]. apply drop_app_length.
Qed.

Definition ends_with p s : bool := bool_decide (is_Some (strip_suffix p s)).

(** [s.contains(needle)] *)
Fixpoint str_contains (needle s : string) : bool :=
  starts_with needle s || match s with EmptyString => false | String _ s => str_contains needle s end.

(** ** Splitting and joining *)

Fixpoint split_on (c : Ascii.ascii) s : list string :=
  match s with
  | EmptyString => [EmptyString]
  | String a s =>
      if decide (a = c) then EmptyString :: split_on c s
      else match split_on c s with
           | p :: ps => String a p :: ps
           | [] => [String a EmptyString]
           end
  end.

Fixpoint split_once (c : Ascii.ascii) s : option (string * string) :=
  match s with
  | EmptyString => None
  | String a s =>
      if decide (a = c) then Some (EmptyString, s)
      else '(p, r) ← split_once c s; Some (String a p, r)
  end.

Fixpoint join (sep : string) (l : list string) : string :=
  match l with
  | [] => EmptyString
  | [s] => s
  | s :: l => (s +:+ sep +:+ join sep l)%string
  end.

Fixpoint has_char (c : Ascii.ascii) s : bool :=
  match s with
  | EmptyString => false
  | String a s => bool_decide (a = c) || has_char c s
  end.

Lemma split_on_none c s : has_char c s = false -> split_on c s = [s].
Proof.
  induction s as [|a s IH]; simpl; [done|].
  intros [Ha%bool_decide_eq_false Hs]%orb_false_iff. rewrite decide_False by done. by rewrite IH.
Qed.

Lemma split_on_app c s r :
  has_char c s = false -> split_on c (s +:+ String c r) = s :: split_on c r.
Proof.
  induction s as [|a s IH]; simpl; [by rewrite decide_True|].
  intros [Ha%bool_decide_eq_false Hs]%orb_false_iff. rewrite decide_False by done. by rewrite IH.
Qed.

Lemma split_once_app c s r :
  has_char c s = false -> split_once c (s +:+ String c r) = Some (s, r).
Proof.
  induction s as [|a s IH]; simpl; [by rewrite decide_True|].
  intros [Ha%bool_decide_eq_false Hs]%orb_false_iff. rewrite decide_False by done.
  by rewrite IH.
Qed.

Lemma split_on_join c l :
  l ≠ [] -> Forall (fun s => has_char c s = false) l ->
  split_on c (join (String c EmptyString) l) = l.
Proof.
  induction l as [|s [|s' l] IH]; intros Hne Hl; [done|..].
  - apply split_on_none. by inversion Hl.
  - apply Forall_cons_1 in Hl as [Hs Hl].
    change (join _ (s :: s' :: l))
      with (s +:+ String c (join (String c EmptyString) (s' :: l)))%string.
    rewrite split_on_app by done. f_equal. by apply IH.
Qed.

Lemma str_append_assoc (a b c : string) : ((a +:+ b) +:+ c = a +:+ (b +:+ c))%string.
Proof. induction a as [|x a IH]; [done|]. exact (f_equal (String x) IH). Qed.

Lemma str_append_nil (a : string) : (a +:+ "" = a)%string.
Proof. induction a as [|x a IH]; [done|]. exact (f_equal (String x) IH). Qed.

Lemma has_char_app c s r : has_char c (s +:+ r) = has_char c s || has_char c r.
Proof.
  induction s as [|a s IH]; [done|].
  change (bool_decide (a = c) || has_char c (s +:+ r) =
          (bool_decide (a = c) || has_char c s) || has_char c r).
  by rewrite IH, orb_assoc.
Qed.

(** [str::lines]: split at newlines, a final empty piece and carriage returns
    dropped *)
Definition newline : Ascii.ascii := Ascii.ascii_of_nat 10.
Definition strip_cr s : string := default s (strip_suffix (String (Ascii.ascii_of_nat 13) EmptyString) s).
Definition lines s : list string :=
  let ps := split_on newline s in
  let ps := match list.last ps with Some EmptyString => take (length ps - 1) ps | _ => ps end in
  strip_cr <$> ps.

(** ** Decimal integers *)

Definition show (z : Z) : string :=
  DecimalString.NilEmpty.string_of_uint (N.to_uint (Z.to_N z)).

(** the character [+] *)
Definition plus_char : Ascii.ascii := Ascii.Ascii true true false true false true false false.

(** [str::parse::<uN>]: an optional [+], then at least one digit, in range *)
Definition parse_uint (w : Z) s : option Z :=
  let digits := match s with
                | String a (String b r) => if decide (a = plus_char) then String b r else s
                | _ => s
                end in
  if decide (digits = EmptyString) then None else
  match DecimalString.NilEmpty.uint_of_string digits with
  | Some d => let z := Z.of_N (N.of_uint d) in if decide (z <= umax w) then Some z else None
  | None => None
  end.

Lemma show_digits z a r : show z = String a r -> a ≠ plus_char.
Proof.
  unfold show. destruct (N.to_uint (Z.to_N z)); simpl; intros [= <- _]; discriminate.
Qed.

Lemma show_nonempty z : show z ≠ EmptyString.
Proof.
  unfold show. destruct (N.to_uint (Z.to_N z)) eqn:E; simpl; try done.
  intros _. pose proof (DecimalN.Unsigned.of_to (Z.to_N z)) as H. rewrite E in H. simpl in H.
  rewrite <- H in E. done.
Qed.

Lemma parse_show w z : 0 <= z <= umax w -> parse_uint w (show z) = Some z.
Proof.
  intros Hz. unfold parse_uint. pose proof (show_nonempty z) as Hne.
  assert (match show z with
          | String a (String b r) => if decide (a = plus_char) then String b r else show z
          | _ => show z end = show z) as ->.
  { destruct (show z) as [|a [|b r]] eqn:E; try done.
    rewrite decide_False; [done|]. exact (show_digits _ _ _ E). }
  rewrite decide_False by done. unfold show. rewrite DecimalString.NilEmpty.usu.
  rewrite DecimalN.Unsigned.of_to. rewrite Z2N.id by lia. rewrite decide_True by lia. done.
Qed.

(** ** White space *)

Definition is_cont (b : byte) : bool := (128 <=? Z_of_byte b) && (Z_of_byte b <=? 191).

(** the UTF-8 encodings of the [White_Space] code points of one, two and three
    bytes *)
Definition ws1 (a : byte) : bool :=
  ((9 <=? Z_of_byte a) && (Z_of_byte a <=? 13)) || bool_decide (a = x20).
Definition ws2 (a b : byte) : bool :=
  bool_decide (a = xc2) && (bool_decide (b = x85) || bool_decide (b = xa0)).
Definition ws3 (a b c : byte) : bool :=
  (bool_decide (a = xe1) && bool_decide (b = x9a) && bool_decide (c = x80))
  || (bool_decide (a = xe2) && bool_decide (b = x80)
      && (((128 <=? Z_of_byte c) && (Z_of_byte c <=? 138))
          || bool_decide (c = xa8) || bool_decide (c = xa9) || bool_decide (c = xaf)))
  || (bool_decide (a = xe2) && bool_decide (b = x81) && bool_decide (c = x9f))
  || (bool_decide (a = xe3) && bool_decide (b = x80) && bool_decide (c = x80)).

Section trim.
Variables (w1 : byte -> bool) (w2 : byte -> byte -> bool) (w3 : byte -> byte -> byte -> bool).

Fixpoint drop_ws (l : list byte) : list byte :=
  match l with
  | [] => []
  | a :: r =>
    if w1 a then drop_ws r else
    match r with
    | [] => l
    | b :: r2 =>
      if w2 a b then drop_ws r2 else
      match r2 with
      | [] => l
      | c :: r3 => if w3 a b c then drop_ws r3 else l
      end
    end
  end.
End trim.

Definition trim_start_bytes : list byte -> list byte := drop_ws ws1 ws2 ws3.
Definition trim_end_bytes (l : list byte) : list byte :=
  reverse (drop_ws ws1 (fun a b => ws2 b a) (fun a b c => ws3 c b a) (reverse l)).
Definition trim s : string := of_bytes (trim_end_bytes (trim_start_bytes (as_bytes s))).

(** *** Lemmas on [trim] *)

Section drop_ws.
Variables (w1 : byte -> bool) (w2 : byte -> byte -> bool) (w3 : byte -> byte -> byte -> bool).

(** does the list start with a white-space code point? *)
Definition ws_head (l : list byte) : bool :=
  match l with
  | [] => false
  | a :: r => w1 a || match r with
                      | [] => false
                      | b :: r2 => w2 a b || match r2 with [] => false | c :: _ => w3 a b c end
                      end
  end.

Lemma drop_ws_id l : ws_head l = false -> drop_ws w1 w2 w3 l = l.
Proof.
  destruct l as [|a [|b [|c l]]]; simpl; intros; repeat case_match; naive_solver.
Qed.

Lemma drop_ws_head l : ws_head (drop_ws w1 w2 w3 l) = false.
Proof.
  induction l as [l IH] using (induction_ltof1 _ (@length _)). unfold ltof in IH.
  destruct l as [|a [|b [|c l]]]; [done|..]; cbn [drop_ws].
  - destruct (w1 a) eqn:E; [done|]. simpl. by rewrite E.
  - destruct (w1 a) eqn:E; [apply (IH [b]); simpl; lia|].
    destruct (w2 a b) eqn:E2; [done|]. simpl. by rewrite E, E2.
  - destruct (w1 a) eqn:E; [apply (IH (b :: c :: l)); simpl; lia|].
    destruct (w2 a b) eqn:E2; [apply (IH (c :: l)); simpl; lia|].
    destruct (w3 a b c) eqn:E3; [apply IH; simpl; lia|]. simpl. by rewrite E, E2, E3.
Qed.

Lemma ws_head_prefix (z r : list byte) : ws_head (z ++ r) = false -> ws_head z = false.
Proof.
  destruct z as [|a [|b [|c z]]]; simpl; [done|..]; rewrite ?orb_false_r; try done;
    intros; repeat match goal with H : _ || _ = false |- _ => apply orb_false_iff in H as [? ?] end;
    rewrite ?orb_false_iff; auto.
Qed.

Hypothesis w2_cont : forall a b, w2 a b = true -> is_cont a = true.
Hypothesis w3_cont : forall a b c, w3 a b c = true -> is_cont a = true /\ is_cont b = true.

Lemma ws_head_app (l r : list byte) b :
  ws_head l = false -> list.last l = Some b -> is_cont b = false -> ws_head (l ++ r) = false.
Proof.
  intros Hl Hb Hc.
  assert (forall x, w2 b x = false) as H2.
  { intros x. destruct (w2 b x) eqn:E; [|done]. apply w2_cont in E. congruence. }
  assert (forall x y, w3 b x y = false) as H3.
  { intros x y. destruct (w3 b x y) eqn:E; [|done]. apply w3_cont in E as []. congruence. }
  assert (forall a y, w3 a b y = false) as H3'.
  { intros a y. destruct (w3 a b y) eqn:E; [|done]. apply w3_cont in E as []. congruence. }
  destruct l as [|a [|a' [|a'' l]]]; simpl in *; try done.
  - injection Hb as ->. rewrite orb_false_r in Hl. rewrite Hl; simpl.
    destruct r as [|x [|y r]]; simpl; by rewrite ?H2, ?H3.
  - injection Hb as ->. apply orb_false_iff in Hl as [-> Hl]. rewrite orb_false_r in Hl.
    rewrite Hl; simpl. by destruct r.
Qed.
End drop_ws.

Definition ws_head_end (l : list byte) : bool :=
  ws_head ws1 (fun a b => ws2 b a) (fun a b c => ws3 c b a) (reverse l).

Lemma ws2_cont a b : ws2 b a = true -> is_cont a = true.
Proof.
  unfold ws2. rewrite andb_true_iff, orb_true_iff, !bool_decide_eq_true.
  intros [_ [->| ->]]; done.
Qed.

Lemma ws3_cont a b c : ws3 c b a = true -> is_cont a = true /\ is_cont b = true.
Proof.
  unfold ws3, is_cont.
  rewrite !orb_true_iff, !andb_true_iff, !orb_true_iff, !andb_true_iff, !bool_decide_eq_true, !Z.leb_le.
  intuition subst; try done; lia.
Qed.

Lemma trim_start_id l : ws_head ws1 ws2 ws3 l = false -> trim_start_bytes l = l.
Proof. apply drop_ws_id. Qed.

Lemma trim_end_id l : ws_head_end l = false -> trim_end_bytes l = l.
Proof. intros E. unfold trim_end_bytes. rewrite drop_ws_id by done. apply reverse_involutive. Qed.

Lemma drop_ws_suffix w1 w2 w3 l : exists k, l = k ++ drop_ws w1 w2 w3 l.
Proof.
  induction l as [l IH] using (induction_ltof1 _ (@length _)). unfold ltof in IH.
  destruct l as [|a [|b [|c l]]]; simpl in *.
  - by exists [].
  - destruct (w1 a); [by exists [a]|by exists []].
  - destruct (w1 a); [destruct (IH [b]) as [k Hk]; [simpl; lia|]; exists (a :: k); simpl in *; by rewrite <- Hk|].
    destruct (w2 a b); [by exists [a; b]|by exists []].
  - destruct (w1 a).
    { destruct (IH (b :: c :: l)) as [k Hk]; [simpl; lia|]. exists (a :: k).
      cbn [app]. f_equal. exact Hk. }
    destruct (w2 a b).
    { destruct (IH (c :: l)) as [k Hk]; [simpl; lia|]. exists (a :: b :: k).
      cbn [app]. do 2 f_equal. exact Hk. }
    destruct (w3 a b c); [|by exists []].
    destruct (IH l) as [k Hk]; [simpl; lia|]. exists (a :: b :: c :: k). cbn [app]. by do 3 f_equal.
Qed.

Lemma trim_end_prefix l : exists k, l = trim_end_bytes l ++ k.
Proof.
  unfold trim_end_bytes.
  destruct (drop_ws_suffix ws1 (fun a b => ws2 b a) (fun a b c => ws3 c b a) (reverse l)) as [k Hk].
  exists (reverse k). rewrite <- reverse_app, <- Hk. by rewrite reverse_involutive.
Qed.

(** [trim] is idempotent: its result has no white space at either end. *)
Lemma trim_heads s :
  let t := as_bytes (trim s) in ws_head ws1 ws2 ws3 t = false /\ ws_head_end t = false.
Proof.
  intros t. unfold t, trim. rewrite as_of_bytes. split.
  - destruct (trim_end_prefix (trim_start_bytes (as_bytes s))) as [k Hk].
    eapply ws_head_prefix. rewrite <- Hk. apply drop_ws_head.
  - unfold ws_head_end, trim_end_bytes. rewrite reverse_involutive. apply drop_ws_head.
Qed.

Lemma trim_clean s :
  ws_head ws1 ws2 ws3 (as_bytes s) = false -> ws_head_end (as_bytes s) = false -> trim s = s.
Proof.
  intros H1 H2. unfold trim. rewrite trim_start_id, trim_end_id by done. apply of_as_bytes.
Qed.

Lemma trim_trim s : trim (trim s) = trim s.
Proof. destruct (trim_heads s). by apply trim_clean. Qed.

(** Text that starts like a code point (every valid UTF-8 string does). *)
Definition starts_char (s : string) : Prop :=
  match as_bytes s with b :: _ => is_cont b = false | [] => True end.

Lemma as_bytes_app (a b : string) : as_bytes (a +:+ b) = as_bytes a ++ as_bytes b.
Proof.
  induction a as [|x a IH]; [done|].
  unfold as_bytes, String.list_byte_of_string in *. simpl. by rewrite IH.
Qed.

Lemma ws_head_end_app p t :
  t ≠ EmptyString -> starts_char t -> ws_head_end (as_bytes t) = false ->
  ws_head_end (as_bytes (p +:+ t)) = false.
Proof.
  intros Hne Hc Ht. rewrite as_bytes_app. unfold ws_head_end. rewrite reverse_app.
  unfold starts_char in Hc. destruct (as_bytes t) as [|b l] eqn:E.
  - destruct Hne. by rewrite <- (of_as_bytes t), E.
  - eapply ws_head_app; [apply ws2_cont|intros; by apply (ws3_cont a b0 c)|done| |exact Hc].
    by rewrite last_reverse.
Qed.

(** ** UTF-8 validity ([std::str::from_utf8]) *)

Definition byte_in (lo hi : Z) (b : byte) : bool := (lo <=? Z_of_byte b) && (Z_of_byte b <=? hi).

Definition utf8_2 (a b : byte) : bool := byte_in 194 223 a && is_cont b.
Definition utf8_3 (a b c : byte) : bool :=
  ((byte_in 224 224 a && byte_in 160 191 b)
   || (byte_in 225 236 a && is_cont b)
   || (byte_in 237 237 a && byte_in 128 159 b)
   || (byte_in 238 239 a && is_cont b)) && is_cont c.
Definition utf8_4 (a b c d : byte) : bool :=
  ((byte_in 240 240 a && byte_in 144 191 b)
   || (byte_in 241 243 a && is_cont b)
   || (byte_in 244 244 a && byte_in 128 143 b)) && is_cont c && is_cont d.

Fixpoint utf8_valid (l : list byte) : bool :=
  match l with
  | [] => true
  | a :: r =>
    if byte_in 0 127 a then utf8_valid r else
    match r with
    | [] => false
    | b :: r2 =>
      if utf8_2 a b then utf8_valid r2 else
      match r2 with
      | [] => false
      | c :: r3 =>
        if utf8_3 a b c then utf8_valid r3 else
        match r3 with
        | [] => false
        | d :: r4 => if utf8_4 a b c d then utf8_valid r4 else false
        end
      end
    end
  end.

Lemma utf8_valid_app (l r : list byte) : utf8_valid l = true -> utf8_valid r = true -> utf8_valid (l ++ r) = true.
Proof.
  intros Hl Hr. revert Hl. induction l as [l IH] using (induction_ltof1 _ (@length _)). unfold ltof in IH.
  destruct l as [|a l]; [done|]. cbn [utf8_valid app].
  destruct (byte_in 0 127 a); [apply IH; cbn; lia|]. destruct l as [|b l]; [done|]. cbn [app].
  destruct (utf8_2 a b); [apply IH; cbn; lia|]. destruct l as [|c l]; [done|]. cbn [app].
  destruct (utf8_3 a b c); [apply IH; cbn; lia|]. destruct l as [|d l]; [done|]. cbn [app].
  destruct (utf8_4 a b c d); [apply IH; cbn; lia|done].
Qed.

(** [std::str::from_utf8] *)
Definition from_utf8 (l : list byte) : option string :=
  if utf8_valid l then Some (of_bytes l) else None.

Ltac bytes_bool :=
  repeat match goal with
  | H : _ && _ = true |- _ => apply andb_true_iff in H as [? ?]
  | H : _ || _ = true |- _ => apply orb_true_iff in H as [?|?]
  | H : bool_decide _ = true |- _ => apply bool_decide_eq_true in H; subst
  | H : (_ <=? _) = true |- _ => apply Z.leb_le in H
  end.

Lemma ws1_ascii a : ws1 a = true -> byte_in 0 127 a = true.
Proof.
  unfold ws1, byte_in. intros H. bytes_bool; [|done].
  apply andb_true_iff; split; apply Z.leb_le; lia.
Qed.

Lemma ws2_utf8 a b : ws2 a b = true -> byte_in 0 127 a = false /\ utf8_2 a b = true.
Proof. unfold ws2. intros H. bytes_bool; done. Qed.

Lemma ws3_utf8 a b c :
  ws3 a b c = true -> byte_in 0 127 a = false /\ utf8_2 a b = false /\ utf8_3 a b c = true.
Proof.
  unfold ws3. intros H. bytes_bool; try (split_and!; reflexivity).
  split_and!; [done..|]. unfold utf8_3. apply andb_true_iff. split; [done|].
  unfold is_cont. apply andb_true_iff; split; apply Z.leb_le; lia.
Qed.

Lemma utf8_drop_ws l : utf8_valid l = true -> utf8_valid (trim_start_bytes l) = true.
Proof.
  unfold trim_start_bytes.
  induction l as [l IH] using (induction_ltof1 _ (@length _)). unfold ltof in IH. intros H.
  destruct l as [|a r]; [done|]. cbn [drop_ws].
  destruct (ws1 a) eqn:E1.
  { apply IH; [simpl; lia|]. cbn [utf8_valid] in H. by rewrite ws1_ascii in H. }
  destruct r as [|b r]; [done|]. destruct (ws2 a b) eqn:E2.
  { apply ws2_utf8 in E2 as [Ea Eb]. apply IH; [simpl; lia|].
    cbn [utf8_valid] in H. by rewrite Ea, Eb in H. }
  destruct r as [|c r]; [done|]. destruct (ws3 a b c) eqn:E3; [|done].
  apply ws3_utf8 in E3 as (Ea & Eb & Ec). apply IH; [simpl; lia|].
  cbn [utf8_valid] in H. by rewrite Ea, Eb, Ec in H.
Qed.

Lemma utf8_head a (r : list byte) : utf8_valid (a :: r) = true -> is_cont a = false.
Proof.
  intros H. destruct (is_cont a) eqn:E; [|done]. exfalso.
  assert (forall lo hi, 192 <= lo -> byte_in lo hi a = false) as Hhi.
  { intros lo hi Hlo. unfold is_cont, byte_in in *. bytes_bool.
    apply andb_false_iff. left. apply Z.leb_gt. lia. }
  assert (byte_in 0 127 a = false) as Hlo.
  { unfold is_cont, byte_in in *. bytes_bool. apply andb_false_iff. right. apply Z.leb_gt. lia. }
  cbn [utf8_valid] in H. rewrite Hlo in H. unfold utf8_2, utf8_3, utf8_4 in H.
  rewrite !Hhi in H by lia. by destruct r as [|? [|? [|? ?]]].
Qed.

(** [trim] of valid UTF-8 starts at a code-point boundary. *)
Lemma trim_starts_char s : utf8_valid (as_bytes s) = true -> starts_char (trim s).
Proof.
  intros H. unfold starts_char, trim. rewrite as_of_bytes.
  apply utf8_drop_ws in H. destruct (trim_end_prefix (trim_start_bytes (as_bytes s))) as [k Hk].
  destruct (trim_end_bytes (trim_start_bytes (as_bytes s))) as [|b l]; [done|].
  rewrite Hk in H. by apply utf8_head in H.
Qed.

(** ** Key order of the embedded database

    sled keeps the keys of a tree in lexicographic byte order.  The stores of
    the application layer rely on it: time stamps are written as fixed-width
    big-endian or zero-padded decimal numbers so that iteration is by time.
    This file has the order, the two encodings and the fact that they are
    monotone. *)


(** ** Lexicographic order on bytes *)

Fixpoint bytes_leb (a b : list byte) : bool :=
  match a, b with
  | [], _ => true
  | _ :: _, [] => false
  | x :: a, y :: b =>
      (Z_of_byte x <? Z_of_byte y)
      || ((Z_of_byte x =? Z_of_byte y) && bytes_leb a b)
  end.

Definition key_le (a b : string) : Prop := bytes_leb (as_bytes a) (as_bytes b) = true.
Global Instance key_le_dec : RelDecision key_le.
Proof. intros a b. unfold key_le. apply _. Defined.

Lemma Z_of_byte_inj x y : Z_of_byte x = Z_of_byte y -> x = y.
Proof. intros E. by rewrite <- (byte_of_Z_of_byte x), E, byte_of_Z_of_byte. Qed.

Lemma bytes_leb_cons x y a b :
  bytes_leb (x :: a) (y :: b) = true <->
  Z_of_byte x < Z_of_byte y \/ x = y /\ bytes_leb a b = true.
Proof.
  cbn [bytes_leb]. rewrite orb_true_iff, andb_true_iff, Z.ltb_lt, Z.eqb_eq.
  split; intros [?|[E ?]]; [by left|right|by left|right]; split; try done.
  - by apply Z_of_byte_inj.
  - by subst.
Qed.

Lemma bytes_leb_total a b : bytes_leb a b = true \/ bytes_leb b a = true.
Proof.
  revert b. induction a as [|x a IH]; intros [|y b]; try (by left); [by right|].
  rewrite !bytes_leb_cons. destruct (Z.lt_trichotomy (Z_of_byte x) (Z_of_byte y)) as [?|[E|?]].
  - by left; left.
  - apply Z_of_byte_inj in E as ->. destruct (IH b); [left|right]; by right.
  - by right; left.
Qed.

Lemma bytes_leb_trans a b c : bytes_leb a b = true -> bytes_leb b c = true -> bytes_leb a c = true.
Proof.
  revert b c. induction a as [|x a IH]; intros [|y b] [|z c]; try done.
  rewrite !bytes_leb_cons. intros [?|[-> ?]] [?|[-> ?]]; try (left; lia).
  right. split; [done|]. by eapply IH.
Qed.

Lemma bytes_leb_antisym a b : bytes_leb a b = true -> bytes_leb b a = true -> a = b.
Proof.
  revert b. induction a as [|x a IH]; intros [|y b]; try done.
  rewrite !bytes_leb_cons. intros [?|[-> ?]] [?|[? ?]]; try (subst; lia).
  f_equal. by apply IH.
Qed.

Global Instance key_le_total : Total key_le.
Proof. intros a b. apply bytes_leb_total. Qed.
Global Instance key_le_trans : Transitive key_le.
Proof. intros a b c. apply bytes_leb_trans. Qed.
Global Instance key_le_antisym : AntiSymm (=) key_le.
Proof. intros a b H1 H2. apply (inj as_bytes). by apply bytes_leb_antisym. Qed.

(** An order decided within prefixes of the same length decides the whole. *)
Lemma bytes_leb_prefix (p q r s : list byte) :
  length p = length q -> p ≠ q -> bytes_leb (p ++ r) (q ++ s) = true -> bytes_leb p q = true.
Proof.
  revert q. induction p as [|x p IH]; intros [|y q]; try done.
  intros [= Hl] Hne. cbn [app]. rewrite !bytes_leb_cons. intros [?|[-> H]]; [by left|].
  right. split; [done|]. eapply IH; try done. congruence.
Qed.

(** The relation on rows of a tree, and what iteration guarantees. *)
Definition row_le {B} (a b : string * B) : Prop := key_le a.1 b.1.
Global Instance row_le_dec {B} : RelDecision (@row_le B).
Proof. intros a b. unfold row_le. apply _. Defined.
Global Instance row_le_total {B} : Total (@row_le B).
Proof. intros a b. unfold row_le. apply total. apply _. Qed.
Global Instance row_le_trans {B} : Transitive (@row_le B).
Proof. intros a b c. unfold row_le. apply transitivity. Qed.

(** sled iterates in key order. *)
Class SledOrder (D : Sled) : Prop :=
  tree_iter_sorted : forall t l, tree_iter t = Ok l -> StronglySorted row_le l.

(** ** Fixed-width numbers *)

(** [n] digits of [z] in base [B], most significant first *)
Fixpoint be_digits (B : Z) (n : nat) (z : Z) : list byte :=
  match n with
  | O => []
  | S n => byte_of_Z (z / B ^ Z.of_nat n) :: be_digits B n (z mod B ^ Z.of_nat n)
  end.

(** a decimal digit *)
Definition ascii_digit (b : byte) : byte := byte_of_Z (48 + Z_of_byte b).

(** [format!("{:020}", z)]: twenty digits are enough for a [u64] *)
Definition fmt_020 (z : Z) : string := of_bytes (ascii_digit <$> be_digits 10 20 z).

Lemma be_digits_length B n z : length (be_digits B n z) = n.
Proof. revert z. induction n; intros; simpl; auto. Qed.

Lemma be_digits_range B n z :
  0 < B <= 256 -> 0 <= z < B ^ Z.of_nat n -> Forall (fun b => Z_of_byte b < B) (be_digits B n z).
Proof.
  intros HB. revert z. induction n as [|n IH]; intros z Hz; [constructor|]. cbn [be_digits].
  rewrite Nat2Z.inj_succ, Z.pow_succ_r in Hz by lia.
  assert (0 < B ^ Z.of_nat n) by (apply Z.pow_pos_nonneg; lia).
  assert (0 <= z / B ^ Z.of_nat n < B).
  { split; [apply Z.div_pos; lia|]. apply Z.div_lt_upper_bound; lia. }
  constructor.
  - rewrite Z_of_byte_of_Z, Z.mod_small; lia.
  - apply IH. by apply Z.mod_pos_bound.
Qed.

(** Smaller numbers have smaller digit strings, after any monotone renaming of
    the digits. *)
Lemma be_digits_mono (g : byte -> byte) B n a b :
  0 < B <= 256 ->
  (forall x y, Z_of_byte x < B -> Z_of_byte y < B -> Z_of_byte x < Z_of_byte y -> Z_of_byte (g x) < Z_of_byte (g y)) ->
  0 <= a < B ^ Z.of_nat n -> 0 <= b < B ^ Z.of_nat n -> a < b ->
  bytes_leb (g <$> be_digits B n b) (g <$> be_digits B n a) = false.
Proof.
  intros HB Hg. revert a b. induction n as [|n IH]; intros a b Ha Hb Hab; [simpl in *; lia|].
  rewrite Nat2Z.inj_succ, Z.pow_succ_r in Ha, Hb by lia.
  set (P := B ^ Z.of_nat n) in *. assert (0 < P) by (apply Z.pow_pos_nonneg; lia).
  pose proof (Z.div_mod a P) as Ea. pose proof (Z.div_mod b P) as Eb.
  pose proof (Z.mod_pos_bound a P) as Ra. pose proof (Z.mod_pos_bound b P) as Rb.
  assert (0 <= a / P < B) by (split; [apply Z.div_pos; lia|apply Z.div_lt_upper_bound; lia]).
  assert (0 <= b / P < B) by (split; [apply Z.div_pos; lia|apply Z.div_lt_upper_bound; lia]).
  apply not_true_iff_false. cbn [be_digits fmap list_fmap]. fold P. rewrite bytes_leb_cons.
  destruct (Z.lt_trichotomy (a / P) (b / P)) as [Hlt|[He|Hgt]]; [| |nia].
  - specialize (Hg (byte_of_Z (a / P)) (byte_of_Z (b / P))).
    rewrite !Z_of_byte_of_Z, !Z.mod_small in Hg by lia.
    intros [?|[E _]]; [lia|]. rewrite E in Hg. lia.
  - rewrite He. intros [?|[_ E]]; [lia|]. rewrite IH in E; [done|lia|lia|nia].
Qed.

Lemma fmt_020_length z : length (as_bytes (fmt_020 z)) = 20%nat.
Proof. unfold fmt_020. rewrite as_of_bytes, length_fmap. apply be_digits_length. Qed.

Lemma ascii_digit_val b : Z_of_byte b < 10 -> Z_of_byte (ascii_digit b) = 48 + Z_of_byte b.
Proof.
  intros Hb. unfold ascii_digit. rewrite Z_of_byte_of_Z, Z.mod_small; [done|].
  pose proof (Z_of_byte_range b). lia.
Qed.

(** [u64::to_be_bytes] in the same form *)
Lemma le_bytes_snoc n z : le_bytes (S n) z = le_bytes n z ++ [byte_of_Z (z / 256 ^ Z.of_nat n)].
Proof.
  revert z. induction n as [|n IH]; intros z; [simpl; by rewrite Z.div_1_r|].
  change (le_bytes (S (S n)) z) with (byte_of_Z z :: le_bytes (S n) (z / 256)).
  rewrite IH. cbn [le_bytes app]. do 3 f_equal.
  rewrite Nat2Z.inj_succ, Z.pow_succ_r by lia.
  rewrite Z.div_div; [by rewrite Z.mul_comm|lia|apply Z.pow_pos_nonneg; lia].
Qed.

Lemma le_bytes_mod n z : le_bytes n (z mod 256 ^ Z.of_nat n) = le_bytes n z.
Proof.
  revert z. induction n as [|n IH]; intros z; [done|]. cbn [le_bytes].
  rewrite Nat2Z.inj_succ, Z.pow_succ_r by lia.
  assert (0 < 256 ^ Z.of_nat n) by (apply Z.pow_pos_nonneg; lia).
  rewrite Z.rem_mul_r by lia. f_equal.
  - unfold byte_of_Z. do 3 f_equal.
    rewrite Z.mul_comm, Z.mod_add by lia. apply Z.mod_mod. lia.
  - rewrite <- (IH (z / 256)). f_equal. pose proof (Z.mod_pos_bound z 256).
    rewrite Z.mul_comm, Z.div_add by lia. rewrite Z.div_small by lia. lia.
Qed.

Lemma be_bytes_digits n z : be_bytes n z = be_digits 256 n z.
Proof.
  revert z. induction n as [|n IH]; intros z; [done|].
  unfold be_bytes. rewrite le_bytes_snoc, reverse_snoc. cbn [be_digits]. f_equal.
  rewrite <- IH. unfold be_bytes. by rewrite le_bytes_mod.
Qed.

Lemma be_bytes_mono a b :
  in_u 64 a -> in_u 64 b -> a < b -> bytes_leb (be_bytes 8 b) (be_bytes 8 a) = false.
Proof.
  intros Ha Hb Hab. rewrite !be_bytes_digits.
  pose proof (be_digits_mono id 256 8 a b ltac:(lia) ltac:(done)) as H.
  rewrite !list_fmap_id in H. apply H; try done; unfold in_u in *;
    change (256 ^ Z.of_nat 8) with (2 ^ 64); lia.
Qed.

Lemma fmt_020_mono a b :
  in_u 64 a -> in_u 64 b -> a < b ->
  bytes_leb (as_bytes (fmt_020 b)) (as_bytes (fmt_020 a)) = false.
Proof.
  intros Ha Hb Hab. unfold fmt_020. rewrite !as_of_bytes. apply be_digits_mono; try done.
  - intros x y Hx Hy Hxy. rewrite !ascii_digit_val by lia. lia.
  - mach_unfold. change (10 ^ Z.of_nat 20) with 100000000000000000000. lia.
  - mach_unfold. change (10 ^ Z.of_nat 20) with 100000000000000000000. lia.
Qed.

(** Keys that start with a fixed-width time stamp are ordered by time. *)
Lemma stamped_le (p q : list byte) (r s : list byte) (a b : Z) :
  length p = length q ->
  (b < a -> bytes_leb p q = false) ->
  bytes_leb (p ++ r) (q ++ s) = true -> a <= b.
Proof.
  intros Hl Hlt H. destruct (decide (a <= b)) as [|Hn]; [done|]. exfalso.
  assert (bytes_leb p q = false) as Hf by (apply Hlt; lia).
  rewrite (bytes_leb_prefix p q r s) in Hf; try done.
  intros ->. specialize (Hlt ltac:(lia)). destruct (bytes_leb_total q q); congruence.
Qed.
