(* ===== verification/Instances.v ===== *)
(** * One concrete instance of every external interface

    These are stand-ins, not models of the real libraries: they show that the
    laws of [External.v] are satisfiable together and let the witnesses of the
    theorems run on concrete inputs. *)

From S2P Require Import Prelude External Text.

Open Scope Z_scope.

(** ** Self-delimiting codecs *)

Class Codec (A : Type) := {
  enc : A -> list byte;
  dec : list byte -> option (A * list byte);
  dec_enc : forall a r, dec (enc a ++ r) = Some (a, r);
}.

Global Program Instance codec_byte : Codec byte := {|
  enc b := [b];
  dec l := match l with b :: r => Some (b, r) | [] => None end;
|}.
Next Obligation. done. Qed.

Global Program Instance codec_prod {A B} `{Codec A, Codec B} : Codec (A * B) := {|
  enc ab := enc ab.1 ++ enc ab.2;
  dec l := '(a, r) ← dec l; '(b, r) ← dec r; Some ((a, b), r);
|}.
Next Obligation. intros A B ? ? [a b] r; simpl. rewrite <- app_assoc, dec_enc; simpl. by rewrite dec_enc. Qed.

Global Instance codec_option {A} `{Codec A} : Codec (option A).
Proof.
  refine {|
    enc o := match o with Some a => x01 :: enc a | None => [x00] end;
    dec l := match l with
             | x00 :: r => Some (None, r)
             | x01 :: r => '(a, r) ← dec r; Some (Some a, r)
             | _ => None
             end |}.
  intros [a|] r; simpl; [|done]. by rewrite dec_enc.
Defined.

Global Instance codec_sum {A B} `{Codec A, Codec B} : Codec (A + B).
Proof.
  refine {|
    enc s := match s with inl a => x00 :: enc a | inr b => x01 :: enc b end;
    dec l := match l with
             | x00 :: r => '(a, r) ← dec r; Some (inl a, r)
             | x01 :: r => '(b, r) ← dec r; Some (inr b, r)
             | _ => None
             end |}.
  intros [a|b] r; simpl; by rewrite dec_enc.
Defined.

Section codec_list.
Context {A} `{Codec A}.

Fixpoint enc_list (l : list A) : list byte :=
  match l with [] => [x00] | a :: l => x01 :: enc a ++ enc_list l end.

Fixpoint dec_list (fuel : nat) (b : list byte) : option (list A * list byte) :=
  match fuel with
  | O => None
  | S fuel =>
    match b with
    | x00 :: r => Some ([], r)
    | x01 :: r => '(a, r) ← dec r; '(l, r) ← dec_list fuel r; Some (a :: l, r)
    | _ => None
    end
  end.

Lemma dec_enc_list l r fuel :
  (length l < fuel)%nat -> dec_list fuel (enc_list l ++ r) = Some (l, r).
Proof.
  revert fuel. induction l as [|a l IH]; intros [|fuel] Hf; simpl in *; try lia; [done|].
  rewrite <- app_assoc, dec_enc; simpl. rewrite IH by lia. done.
Qed.

Lemma enc_list_length l : (length l < length (enc_list l))%nat.
Proof. induction l; simpl; rewrite ?length_app; lia. Qed.
End codec_list.

Global Program Instance codec_list {A} `{Codec A} : Codec (list A) := {|
  enc := enc_list;
  dec b := dec_list (S (length b)) b;
|}.
Next Obligation.
  intros A ? l r. apply dec_enc_list. rewrite length_app.
  pose proof (enc_list_length l). lia.
Qed.

Definition codec_iso {A B} `{Codec B} (f : A -> B) (g : B -> A) (gf : forall a, g (f a) = a) : Codec A.
Proof.
  refine {| enc a := enc (f a); dec l := '(b, r) ← dec l; Some (g b, r) |}.
  intros a r. rewrite dec_enc. simpl. by rewrite gf.
Defined.

Global Instance codec_string : Codec string := codec_iso as_bytes of_bytes of_as_bytes.

Fixpoint pos_bytes (p : positive) : list byte :=
  match p with xH => [] | xO p => x00 :: pos_bytes p | xI p => x01 :: pos_bytes p end.
Fixpoint bytes_pos (l : list byte) : positive :=
  match l with [] => xH | x00 :: l => xO (bytes_pos l) | _ :: l => xI (bytes_pos l) end.
Lemma bytes_pos_bytes p : bytes_pos (pos_bytes p) = p.
Proof. induction p; simpl; by rewrite ?IHp. Qed.

Global Instance codec_pos : Codec positive := codec_iso pos_bytes bytes_pos bytes_pos_bytes.

Definition Z_opt (z : Z) : option (option positive * positive) :=
  match z with 0 => None | Zpos p => Some (None, p) | Zneg p => Some (Some xH, p) end.
Definition opt_Z (o : option (option positive * positive)) : Z :=
  match o with None => 0 | Some (None, p) => Zpos p | Some (Some _, p) => Zneg p end.
Lemma opt_Z_opt z : opt_Z (Z_opt z) = z.
Proof. by destruct z. Qed.

Global Instance codec_Z : Codec Z := codec_iso Z_opt opt_Z opt_Z_opt.

Lemma gset_elements_id (s : gset string) : list_to_set (elements s) = s.
Proof. apply list_to_set_elements_L. Qed.

Global Instance codec_gset_string : Codec (gset string) :=
  codec_iso elements list_to_set gset_elements_id.

(** ** bincode from a codec *)

Global Instance bincode_codec {A} `{Codec A} : Bincode A := {|
  ser a := Ok (enc a);
  de b := match dec b with Some (a, []) => Ok a | _ => Err "bincode" end;
|}.

Global Instance bincode_codec_laws {A} `{Codec A} : BincodeLaws bincode_codec.
Proof.
  split; [by eexists|]. intros a b [= <-]. simpl. pose proof (dec_enc a []) as E.
  rewrite app_nil_r in E. by rewrite E.
Qed.

(** ** sled as a finite map *)

Global Instance sled_gmap : Sled := {|
  Tree := gmap string (list byte);
  tree_new := ∅;
  tree_get t k := Ok (t !! k);
  tree_contains_key t k := Ok (bool_decide (is_Some (t !! k)));
  tree_insert t k v := Ok (<[k:=v]> t);
  tree_remove t k := Ok (delete k t);
  tree_iter t := Ok (sort_by row_le (map_to_list t));
|}.

Global Program Instance sled_gmap_laws : SledLaws sled_gmap := {| tree_view t := t |}.
Solve Obligations with (simpl; eauto using sort_by_perm).

Global Instance sled_gmap_order : SledOrder sled_gmap.
Proof. intros t l [= <-]. apply sort_by_sorted; apply _. Qed.

(** ** Keys: a signature names its key and its message *)

Definition tag (k m : list byte) : list byte :=
  (replicate (length k) x01 ++ [x00]) ++ k ++ m.

(** a polynomial hash to 32 bytes *)
Definition poly_hash (m : list byte) : list byte :=
  le_bytes 32 (foldl (fun h b => (h * 1000003 + Z_of_byte b + 1) mod 2 ^ 256) 7 m).

Global Instance crypto_tag : Crypto := {|
  PublicKey := list byte;
  Keypair := list byte;
  PeerId := list byte;
  kp_public k := k;
  kp_sign k m := Ok (tag k m);
  pk_verify k m s := bool_decide (s = tag k m);
  pk_encode k := k;
  pk_decode b := Some b;
  pk_peer_id k := k;
  peer_code _ := 0;
  peer_digest p := p;
  peer_parse s := as_bytes <$> strip_prefix "12D3Koo" s;
  peer_string p := ("12D3Koo" +:+ of_bytes p)%string;
  blake3 := poly_hash;
  hex_encode := of_bytes;
  hex_decode s := Some (as_bytes s);
  bs58_encode := of_bytes;
  bs58_decode s := Some (as_bytes s);
|}.

Global Instance crypto_tag_laws : CryptoLaws crypto_tag.
Proof.
  split; try done.
  - by eexists.
  - intros kp m s [= <-]. by apply bool_decide_eq_true_2.
  - intros p. cbn [peer_parse peer_string crypto_tag].
    rewrite strip_prefix_app.
    change (Some (as_bytes (of_bytes p)) = Some p). by rewrite as_of_bytes.
  - intros b. change (Some (as_bytes (of_bytes b)) = Some b). by rewrite as_of_bytes.
  - intros b. change (Some (as_bytes (of_bytes b)) = Some b). by rewrite as_of_bytes.
Qed.
