(* ===== verification/Host.v ===== *)
(** * Services of the host

    What the vault and the application layer take from outside the repository
    beyond [External.v]: named sled trees, the file system, the OS keyring and
    serde_json.  As there, the classes are parameters, the [*Laws] classes name
    documented behaviour, and every class has a concrete instance. *)

From S2P Require Import Prelude External Text Instances.

Open Scope Z_scope.

(** ** Strings *)

Lemma str_length_app (a b : string) : String.length (a +:+ b) = (String.length a + String.length b)%nat.
Proof. induction a as [|x a IH]; [done|]. exact (f_equal S IH). Qed.

Lemma str_app_inj_r (a b c : string) : (a +:+ c = b +:+ c)%string -> a = b.
Proof.
  intros E. apply (inj as_bytes). apply (f_equal as_bytes) in E.
  rewrite !as_bytes_app in E. by apply app_inv_tail in E.
Qed.

Lemma str_app_nonempty (a b : string) : b ≠ ""%string -> (a +:+ b)%string ≠ ""%string.
Proof. by destruct a. Qed.

(** ** [sled::Db]: trees by name

    A tree handle writes through to the database, which is what [db_put] is
    for; opening a tree that does not exist creates an empty one. *)

Class SledDb `{D : Sled} := {
  Db : Type;
  db_new : Db;
  db_open_tree : Db -> string -> anyhow Tree;
  db_put : Db -> string -> Tree -> Db;
  db_tree_names : Db -> list string;
}.

Class SledDbLaws {D : Sled} {DL : SledLaws D} (DB : SledDb) := {
  db_view : Db -> string -> Tree;
  db_view_new : forall n, db_view db_new n = tree_new;
  db_open_view : forall d n, db_open_tree d n = Ok (db_view d n);
  db_put_view : forall d n t n',
    db_view (db_put d n t) n' = if decide (n = n') then t else db_view d n';
  db_names_nodup : forall d, NoDup (db_tree_names d);
  db_names_complete : forall d n, tree_view (db_view d n) ≠ ∅ -> n ∈ db_tree_names d;
}.

(** ** The file system *)

Inductive FsNode := FFile (b : list byte) | FDir.

(** [Path::join] with a relative second component *)
Definition path_join (a b : string) : string :=
  if decide (a = ""%string) then b
  else if ends_with "/" a then (a +:+ b)%string else (a +:+ "/" +:+ b)%string.

Class Disk := {
  DiskState : Type;
  disk_exists : DiskState -> string -> bool;
  disk_read : DiskState -> string -> anyhow (list byte);
  disk_write : DiskState -> string -> list byte -> DiskState * anyhow unit;
  disk_remove : DiskState -> string -> DiskState * anyhow unit;
  disk_create_dir_all : DiskState -> string -> DiskState * anyhow unit;
  disk_rename : DiskState -> string -> string -> DiskState * anyhow unit;
  disk_chmod_600 : DiskState -> string -> DiskState * anyhow unit;
}.

(** A healthy disk: reads see the last write, and the calls touch only the
    paths they name. *)
Class DiskLaws (F : Disk) := {
  disk_view : DiskState -> string -> option FsNode;
  disk_exists_view : forall f p, disk_exists f p = bool_decide (is_Some (disk_view f p));
  disk_read_view : forall f p b, disk_read f p = Ok b <-> disk_view f p = Some (FFile b);
  disk_write_view : forall f p b f', disk_write f p b = (f', Ok tt) ->
    forall q, disk_view f' q = if decide (p = q) then Some (FFile b) else disk_view f q;
  disk_write_frame : forall f p b f' r q, disk_write f p b = (f', r) -> p ≠ q -> disk_view f' q = disk_view f q;
  disk_write_ok : forall f d n b, disk_view f d = Some FDir -> disk_view f (path_join d n) ≠ Some FDir ->
    exists f', disk_write f (path_join d n) b = (f', Ok tt);
  disk_remove_ok : forall f p b, disk_view f p = Some (FFile b) ->
    exists f', disk_remove f p = (f', Ok tt) /\
      forall q, disk_view f' q = if decide (p = q) then None else disk_view f q;
  disk_remove_frame : forall f p f' r q, disk_remove f p = (f', r) -> p ≠ q -> disk_view f' q = disk_view f q;
  disk_create_dir_view : forall f d f', disk_create_dir_all f d = (f', Ok tt) ->
    disk_view f' d = Some FDir /\
    forall q, disk_view f q ≠ None \/ ~ (exists r, d = (q +:+ r)%string) -> disk_view f' q = disk_view f q;
  disk_create_dir_id : forall f d, disk_view f d = Some FDir -> disk_create_dir_all f d = (f, Ok tt);
}.

(** ** The OS keyring *)

Inductive KeyringGet := KrPassword (pw : string) | KrNoEntry | KrError (e : string).

Class Keyring := {
  KR : Type;
  (** [keyring::Entry::new] *)
  kr_entry : KR -> string -> anyhow unit;
  kr_get_password : KR -> string -> KeyringGet;
  kr_set_password : KR -> string -> string -> KR * anyhow unit;
  kr_delete_credential : KR -> string -> KR * anyhow unit;
}.

Class KeyringLaws (K : Keyring) : Prop := {
  kr_entry_stable : forall k a b p k' r, kr_set_password k a p = (k', r) -> kr_entry k' b = kr_entry k b;
  kr_get_set : forall k a p k', kr_set_password k a p = (k', Ok tt) -> kr_get_password k' a = KrPassword p;
}.

(** ** serde_json *)

Inductive JValue :=
| JNull
| JBool (b : bool)
| JNum (z : Z)
| JStr (s : string)
| JArr (items : list JValue)
| JObj (fields : list (string * JValue)).

(** [v\["key"\]] on a [Value]: [Null] when absent *)
Definition jget (v : JValue) (key : string) : JValue :=
  match v with
  | JObj fs => match list_find (fun kv => kv.1 = key) fs with Some (_, kv) => kv.2 | None => JNull end
  | _ => JNull
  end.

Definition jas_str (v : JValue) : option string := match v with JStr s => Some s | _ => None end.

Class Json := {
  json_to_string : JValue -> string;
  json_from_str : string -> anyhow JValue;
}.

Class JsonLaws (J : Json) : Prop :=
  json_from_to : forall v, json_from_str (json_to_string v) = Ok v.

(** Derived [Serialize]/[Deserialize] for one type. *)
Class Serde (A : Type) := {
  to_json : A -> anyhow (list byte);
  from_json : list byte -> anyhow A;
}.

Class SerdeLaws {A} (S : Serde A) : Prop := {
  to_json_total : forall a, exists b, to_json a = Ok b;
  from_to_json : forall a b, to_json a = Ok b -> from_json b = Ok a;
}.

(** ** Concrete instances *)

Global Instance db_gmap : SledDb := {|
  Db := gmap string Tree;
  db_new := ∅;
  db_open_tree d n := Ok (default tree_new (d !! n));
  db_put d n t := <[n := t]> d;
  db_tree_names d := (map_to_list d).*1;
|}.

Global Program Instance db_gmap_laws : SledDbLaws db_gmap := {|
  db_view d n := default tree_new (d !! n);
|}.
Next Obligation. done. Qed.
Next Obligation. done. Qed.
Next Obligation.
  intros d n t n'. cbn. destruct (decide (n = n')) as [->|Hn]; [by rewrite lookup_insert_eq|].
  by rewrite lookup_insert_ne.
Qed.
Next Obligation. intros d. apply NoDup_fst_map_to_list. Qed.
Next Obligation.
  intros d n Hn. cbn in *. destruct (d !! n) as [t|] eqn:E; [|by destruct Hn].
  apply list_elem_of_fmap. exists (n, t). split; [done|]. by apply elem_of_map_to_list.
Qed.

(** a file system where every write succeeds *)
Global Instance disk_gmap : Disk := {|
  DiskState := gmap string FsNode;
  disk_exists f p := bool_decide (is_Some (f !! p));
  disk_read f p := match f !! p with Some (FFile b) => Ok b | _ => Err "fs"%string end;
  disk_write f p b := (<[p := FFile b]> f, Ok tt);
  disk_remove f p := (delete p f, Ok tt);
  disk_create_dir_all f d := match f !! d with
                           | Some (FFile _) => (f, Err "fs"%string)
                           | _ => (<[d := FDir]> f, Ok tt) end;
  disk_rename f p q := match f !! p with
                     | Some x => (<[q := x]> (delete p f), Ok tt)
                     | None => (f, Err "fs"%string) end;
  disk_chmod_600 f p := (f, Ok tt);
|}.

Lemma str_app_nil_r (s : string) : s = (s +:+ "")%string.
Proof. by rewrite str_append_nil. Qed.

Global Program Instance disk_gmap_laws : DiskLaws disk_gmap := {|
  disk_view := fun (f : gmap string FsNode) p => f !! p;
|}.
Next Obligation. done. Qed.
Next Obligation. intros f p b. cbn in *. repeat case_match; split; congruence. Qed.
Next Obligation.
  intros f p b f' [= <-] q. cbn in *. destruct (decide (p = q)) as [->|].
  - apply lookup_insert_eq.
  - by apply lookup_insert_ne.
Qed.
Next Obligation. intros f p b f' r q [= <- _] Hn. cbn in *. change DiskState with (gmap string FsNode) in *. by apply lookup_insert_ne. Qed.
Next Obligation. intros; by eexists. Qed.
Next Obligation.
  intros f p b Hp. eexists. split; [done|]. intros q. destruct (decide (p = q)) as [->|].
  - apply lookup_delete_eq.
  - by apply lookup_delete_ne.
Qed.
Next Obligation. intros f p f' r q [= <- _] Hn. cbn in *. change DiskState with (gmap string FsNode) in *. by apply lookup_delete_ne. Qed.
Next Obligation.
  intros f d f'. cbn. change DiskState with (gmap string FsNode) in *. intros E.
  assert (f' = <[d:=FDir]> f /\ (forall b, f !! d ≠ Some (FFile b))) as [-> Hd] by (repeat case_match; naive_solver).
  split; [apply lookup_insert_eq|]. intros q Hq.
  destruct (decide (d = q)) as [->|]; [|by apply lookup_insert_ne].
  destruct Hq as [Hq|Hq]; [|destruct Hq; exists ""%string; apply str_app_nil_r].
  etransitivity; [apply lookup_insert_eq|]. symmetry.
  destruct (f !! q) as [[b|]|] eqn:Eq; [by destruct (Hd b)|done|by destruct Hq].
Qed.
Next Obligation. intros f d Hd. cbn in *. change DiskState with (gmap string FsNode) in *. case_match; [case_match|]; try congruence. f_equal. by apply insert_id. Qed.

Global Instance keyring_gmap : Keyring := {|
  KR := gmap string string;
  kr_entry _ _ := Ok tt;
  kr_get_password k a := match k !! a with Some p => KrPassword p | None => KrNoEntry end;
  kr_set_password k a p := (<[a := p]> k, Ok tt);
  kr_delete_credential k a := (delete a k, Ok tt);
|}.

Global Instance keyring_gmap_laws : KeyringLaws keyring_gmap.
Proof.
  split; [done|]. intros k a p k' [= <-]. cbn. by rewrite lookup_insert_eq.
Qed.

(** a host without a keyring *)
Definition keyring_none : Keyring := {|
  KR := unit;
  kr_entry _ _ := Err "no keyring"%string;
  kr_get_password _ _ := KrError "no keyring";
  kr_set_password k _ _ := (k, Err "no keyring"%string);
  kr_delete_credential k _ := (k, Err "no keyring"%string);
|}.

(** JSON values as trees of their scalars, through stdpp's countable trees *)
Abbreviation scalar := (bool + (Z + string))%type.

Fixpoint to_tree (v : JValue) : gen_tree scalar :=
  match v with
  | JNull => GenNode 1 []
  | JBool b => GenLeaf (inl b)
  | JNum z => GenLeaf (inr (inl z))
  | JStr s => GenLeaf (inr (inr s))
  | JArr l => GenNode 2 (to_tree <$> l)
  | JObj fs => GenNode 0 ((fix go (fs : list (string * JValue)) : list (gen_tree scalar) :=
      match fs with [] => [] | (k, v) :: fs => GenLeaf (inr (inr k)) :: to_tree v :: go fs end) fs)
  end.

Fixpoint of_tree (t : gen_tree scalar) : JValue :=
  match t with
  | GenNode 0 ts => JObj ((fix go (ts : list (gen_tree scalar)) : list (string * JValue) :=
      match ts with
      | GenLeaf (inr (inr k)) :: v :: ts => (k, of_tree v) :: go ts
      | _ => []
      end) ts)
  | GenNode 2 ts => JArr (of_tree <$> ts)
  | GenNode _ _ => JNull
  | GenLeaf (inl b) => JBool b
  | GenLeaf (inr (inl z)) => JNum z
  | GenLeaf (inr (inr s)) => JStr s
  end.

Lemma of_to_tree v : of_tree (to_tree v) = v.
Proof.
  revert v. fix IH 1. intros [|b|z|s|l|fs]; [reflexivity..| |]; cbn.
  - apply (f_equal JArr). induction l as [|v l IHl]; [reflexivity|]. cbn. by rewrite IH, IHl.
  - apply (f_equal JObj). induction fs as [|[k v] fs IHfs]; [reflexivity|]. by rewrite IH, IHfs.
Qed.

Global Instance json_tree : Json := {|
  json_to_string v := of_bytes (pos_bytes (encode (to_tree v)));
  json_from_str s := match decode (bytes_pos (as_bytes s)) with
                     | Some t => Ok (of_tree t)
                     | None => Err "json"%string
                     end;
|}.

Global Instance json_tree_laws : JsonLaws json_tree.
Proof.
  intros v. cbn [json_from_str json_to_string json_tree].
  by rewrite as_of_bytes, bytes_pos_bytes, decode_encode, of_to_tree.
Qed.

(** derived codecs from the binary ones *)
Global Instance serde_codec {A} `{Codec A} : Serde A := {| to_json := ser; from_json := de |}.
Global Instance serde_codec_laws {A} `{Codec A} : SerdeLaws serde_codec.
Proof. split; [apply ser_total|apply de_ser]. Qed.
