(* ===== verification/E2E.v ===== *)
(** * End-to-end encryption framing

    [mycelium-core/src/crypto.rs]: X25519, HKDF-SHA256 and ChaCha20-Poly1305
    are parameters; the blob layout and the error paths are the code's.
    Randomness (the ephemeral secret and the nonce) is an argument. *)

From S2P Require Import Prelude External Text.

Open Scope Z_scope.

Class E2EPrims := {
  x25519_public : list byte -> list byte;
  x25519_dh : list byte -> list byte -> list byte;
  (** [Hkdf::<Sha256>::new(None, ikm).expand(info, 32 bytes)] *)
  hkdf : list byte -> list byte -> anyhow (list byte);
  chacha_encrypt : list byte -> list byte -> list byte -> anyhow (list byte);
  chacha_decrypt : list byte -> list byte -> list byte -> option (list byte);
}.

Class E2ELaws (P : E2EPrims) : Prop := {
  x25519_public_length : forall s, length (x25519_public s) = 32%nat;
  x25519_dh_comm : forall a b, x25519_dh a (x25519_public b) = x25519_dh b (x25519_public a);
  (** 32 bytes is within HKDF's output limit *)
  hkdf_total : forall ikm info, exists k, hkdf ikm info = Ok k;
  chacha_decrypt_encrypt : forall k n m c, chacha_encrypt k n m = Ok c -> chacha_decrypt k n c = Some m;
}.

Record EncryptionKeypair := mkEnc { enc_public : list byte; enc_secret : list byte }.

Section e2e.
Context `{P : E2EPrims} `{C : Crypto}.

Definition enc_from_secret (s : list byte) : EncryptionKeypair := mkEnc (x25519_public s) s.

Definition public_hex (k : EncryptionKeypair) : string := hex_encode (enc_public k).

Definition diffie_hellman (k : EncryptionKeypair) (their : list byte) : list byte :=
  x25519_dh (enc_secret k) their.

Definition parse_x25519_public_hex (s : string) : anyhow (list byte) :=
  match hex_decode (trim s) with
  | None => Err "invalid hex"%string
  | Some b => if decide (length b = 32%nat) then Ok b else Err "x25519 public key must be 32 bytes"%string
  end.

Definition nonce_from_bytes (b : list byte) : anyhow (list byte) :=
  if decide (length b = 12%nat) then Ok b else Err "nonce must be 12 bytes"%string.

Definition derive_chacha_key (shared info : list byte) : anyhow (list byte) :=
  match hkdf shared info with Ok k => Ok k | Err _ => Err "HKDF expand failed"%string end.

Definition DIRECT_INFO : list byte := as_bytes "mycelium-direct-v1".

Definition encrypt_for (eph nonce_bytes plaintext recipient : list byte) : anyhow (list byte) :=
  key ← derive_chacha_key (x25519_dh eph recipient) DIRECT_INFO;
  nonce ← nonce_from_bytes nonce_bytes;
  match chacha_encrypt key nonce plaintext with
  | Err e => Err ("encrypt failed: " +:+ e)%string
  | Ok c => Ok (x25519_public eph ++ nonce_bytes ++ c)
  end.

Definition decrypt_with (blob : list byte) (recipient : EncryptionKeypair) : anyhow (list byte) :=
  if (length blob <? 44)%nat then Err "ciphertext too short"%string else
  nonce ← nonce_from_bytes (take 12 (drop 32 blob));
  key ← derive_chacha_key (diffie_hellman recipient (take 32 blob)) DIRECT_INFO;
  match chacha_decrypt key nonce (drop 44 blob) with
  | Some m => Ok m
  | None => Err "decryption failed – wrong key or tampered message"%string
  end.

Definition encrypt_group (nonce_bytes plaintext group_key : list byte) : anyhow (list byte) :=
  if decide (length group_key ≠ 32%nat) then Err "invalid group key"%string else
  nonce ← nonce_from_bytes nonce_bytes;
  match chacha_encrypt group_key nonce plaintext with
  | Err e => Err ("group encrypt failed: " +:+ e)%string
  | Ok c => Ok (nonce_bytes ++ c)
  end.

Definition decrypt_group (blob group_key : list byte) : anyhow (list byte) :=
  if (length blob <? 12)%nat then Err "group ciphertext too short"%string else
  nonce ← nonce_from_bytes (take 12 blob);
  if decide (length group_key ≠ 32%nat) then Err "invalid group key"%string else
  match chacha_decrypt group_key nonce (drop 12 blob) with
  | Some m => Ok m
  | None => Err "group decryption failed"%string
  end.

Context {L : E2ELaws P}.

Lemma take_drop_app3 (a b c : list byte) :
  length a = 32%nat -> length b = 12%nat ->
  take 32 (a ++ b ++ c) = a /\ take 12 (drop 32 (a ++ b ++ c)) = b /\ drop 44 (a ++ b ++ c) = c.
Proof.
  intros Ha Hb. rewrite <- Ha. rewrite take_app_length, drop_app_length.
  rewrite <- Hb, take_app_length. split_and!; try done.
  rewrite app_assoc. rewrite drop_app_ge; rewrite length_app, Ha, Hb; [done|simpl; lia].
Qed.

(** Direct messages: whatever [encrypt_for] produces for a recipient's
    public key, that recipient decrypts to the plaintext, for every ephemeral
    secret and nonce; blobs under 44 bytes are errors, never panics. *)
Theorem encrypt_decrypt_direct (eph nonce plain blob short : list byte) (secret : list byte) :
  (encrypt_for eph nonce plain (enc_public (enc_from_secret secret)) = Ok blob ->
   decrypt_with blob (enc_from_secret secret) = Ok plain)
  /\ ((length short < 44)%nat ->
      decrypt_with short (enc_from_secret secret) = Err "ciphertext too short"%string).
Proof.
  split.
  - unfold encrypt_for, derive_chacha_key. cbn [enc_public enc_from_secret].
    destruct (hkdf_total (x25519_dh eph (x25519_public secret)) DIRECT_INFO) as [k Hk]. rewrite Hk.
    cbn [mbind Res_bind]. unfold nonce_from_bytes. case_decide as Hn; [|done]. cbn [mbind Res_bind].
    destruct (chacha_encrypt k nonce plain) as [c|] eqn:Ec; [|done]. intros [= <-].
    destruct (take_drop_app3 (x25519_public eph) nonce c) as (E1 & E2 & E3); [apply x25519_public_length|done|].
    unfold decrypt_with. rewrite E1, E2, E3.
    rewrite !length_app, x25519_public_length, Hn, (proj2 (Nat.ltb_ge _ _)) by lia.
    unfold nonce_from_bytes. rewrite Hn, decide_True by done. cbn [mbind Res_bind].
    unfold diffie_hellman, derive_chacha_key. cbn [enc_secret enc_from_secret].
    rewrite <- x25519_dh_comm, Hk. cbn [mbind Res_bind]. by rewrite (chacha_decrypt_encrypt _ _ _ _ Ec).
  - intros Hs. unfold decrypt_with. by rewrite (proj2 (Nat.ltb_lt _ _)).
Qed.

(** Group messages: decrypting what was encrypted under the same 32-byte
    key and a 12-byte nonce gives the plaintext. *)
Theorem encrypt_decrypt_group (nonce plain key blob : list byte) :
  encrypt_group nonce plain key = Ok blob -> decrypt_group blob key = Ok plain.
Proof.
  unfold encrypt_group, nonce_from_bytes. case_decide as Hk; [done|].
  case_decide as Hn; [|done]. cbn [mbind Res_bind].
  destruct (chacha_encrypt key nonce plain) as [c|] eqn:Ec; [|done]. intros [= <-].
  unfold decrypt_group. rewrite length_app, Hn, (proj2 (Nat.ltb_ge _ _)) by lia.
  assert (take 12 (nonce ++ c) = nonce) as -> by (rewrite <- Hn; apply take_app_length).
  assert (drop 12 (nonce ++ c) = c) as -> by (rewrite <- Hn; apply drop_app_length).
  unfold nonce_from_bytes. rewrite decide_True by done. cbn [mbind Res_bind].
  rewrite decide_False by (intros Hx; by apply Hx).
  by rewrite (chacha_decrypt_encrypt _ _ _ _ Ec).
Qed.
End e2e.

(** ** A concrete instance for the witnesses: a keyed tag in front of the text *)

Definition pad32 (l : list byte) : list byte := take 32 (l ++ replicate 32 x00).

Definition e2e_toy : E2EPrims := {|
  x25519_public s := pad32 s;
  x25519_dh a b := le_bytes 40 (from_le (pad32 a) * from_le b);
  hkdf ikm info := Ok ikm;
  chacha_encrypt k n m := Ok (k ++ m);
  chacha_decrypt k n c := if decide (take (length k) c = k) then Some (drop (length k) c) else None;
|}.

Lemma e2e_toy_laws : E2ELaws e2e_toy.
Proof.
  split.
  - intros s. simpl. unfold pad32. rewrite length_take, length_app, length_replicate. lia.
  - intros a b. simpl. by rewrite Z.mul_comm.
  - intros. by eexists.
  - intros k n m c [= <-]. simpl. rewrite take_app_length, decide_True by done. by rewrite drop_app_length.
Qed.
