(* ===== verification/AtRest.v ===== *)
(** * Secrets at rest

    [mycelium-core/src/at_rest.rs] and [mycelium-node/src/secrets.rs]: the vault
    that encrypts key files under a master key, the resolution of that key
    (explicit, keyring, file), recovery with older keys, and the loading or
    creation of the node's two key pairs.  File system, keyring, legacy sled
    database and random numbers are parameters ([Host.v]). *)

From S2P Require Import Prelude External Text Instances Host E2E.

Open Scope Z_scope.

Definition SERVICE : string := "network.mycelium".
Definition NONCE_LEN : nat := 12.
Definition KEY_LEN : nat := 32.
Definition LEGACY_FALLBACK_CONTEXT : string := "mycelium-at-rest-fallback-v1".
Definition IDENTITY_SECRET : string := "ed25519_identity".
Definition ENC_SECRET : string := "enc_x25519".

(** The [n]-th draw of random bytes, BLAKE3 key derivation, Ed25519 secrets,
    [sled::open] and [Tree::flush]. *)
Class VaultHost `{C : Crypto} `{DB : SledDb} := {
  rng_bytes : nat -> nat -> list byte;
  derive_key : string -> list byte -> list byte;
  generate_ed25519 : nat -> Keypair;
  ed25519_from_bytes : list byte -> anyhow Keypair;
  ed25519_secret : Keypair -> option (list byte);
  sled_open : string -> anyhow unit;
  tree_flush : Tree -> anyhow unit;
}.

Class VaultHostLaws `{V : VaultHost} : Prop := {
  rng_length : forall i n, length (rng_bytes i n) = n;
  secret_roundtrip : forall kp b, ed25519_secret kp = Some b -> ed25519_from_bytes b = Ok kp;
}.

(** ChaCha20-Poly1305 does not fail on key-sized inputs and appends a 16-byte tag. *)
Class AeadLaws (P : E2EPrims) : Prop := {
  aead_encrypt_total : forall k n m, exists c, chacha_encrypt k n m = Ok c;
  aead_decrypt_encrypt : forall k n m c, chacha_encrypt k n m = Ok c -> chacha_decrypt k n c = Some m;
  aead_tag : forall k n m c, chacha_encrypt k n m = Ok c -> length c = (length m + 16)%nat;
}.

(** [Path::parent] of a path without [.] components *)
Definition is_slash (b : byte) : bool := bool_decide (b = x2f).
Fixpoint drop_while (p : byte -> bool) (l : list byte) : list byte :=
  match l with [] => [] | b :: r => if p b then drop_while p r else l end.

Definition path_parent (s : string) : option string :=
  match drop_while is_slash (reverse (as_bytes s)) with
  | [] => None
  | r => match drop_while (fun b => negb (is_slash b)) r with
         | [] => Some ""%string
         | r' => match drop_while is_slash r' with
                 | [] => Some "/"%string
                 | r'' => Some (of_bytes (reverse r''))
                 end
         end
  end.

Record SecretVault := mkVault { master : list byte; secrets_dir : string; v_db_path : string }.

Section at_rest.
Context `{V : VaultHost} `{F : Disk} `{K : Keyring} `{P : E2EPrims}.

(** disk, keyring, sled databases by path, random draws so far *)
Record VaultWorld := mkWorld {
  w_fs : DiskState;
  w_kr : KR;
  w_dbs : gmap string Db;
  w_draws : nat;
}.

Abbreviation vop := (ST VaultWorld).

Definition on_fs {A} (f : DiskState -> DiskState * anyhow A) : vop A := fun w =>
  let '(d, r) := f (w_fs w) in (mkWorld d (w_kr w) (w_dbs w) (w_draws w), r).
Definition on_kr {A} (f : KR -> KR * anyhow A) : vop A := fun w =>
  let '(k, r) := f (w_kr w) in (mkWorld (w_fs w) k (w_dbs w) (w_draws w), r).
Definition random (n : nat) : vop (list byte) := fun w =>
  (mkWorld (w_fs w) (w_kr w) (w_dbs w) (S (w_draws w)), Ok (rng_bytes (w_draws w) n)).
Definition read_file (p : string) : vop (list byte) := fun w => (w, disk_read (w_fs w) p).
Definition exists_file (p : string) : vop bool := st_gets (fun w => disk_exists (w_fs w) p).

(** ** Blobs *)

Definition vault_encrypt (key plaintext : list byte) : vop (list byte) :=
  nonce_bytes ← random NONCE_LEN;
  match chacha_encrypt key nonce_bytes plaintext with
  | Ok ct => mret (nonce_bytes ++ ct)
  | Err e => st_err ("encrypt failed: " +:+ e)%string
  end.

Definition vault_decrypt (key blob : list byte) : anyhow (list byte) :=
  if (length blob <? NONCE_LEN + 16)%nat then Err "ciphertext too short"%string else
  match chacha_decrypt key (take NONCE_LEN blob) (drop NONCE_LEN blob) with
  | Some m => Ok m
  | None => Err "decrypt failed: aead::Error"%string
  end.

(** ** Master keys *)

Definition to_key (b : list byte) (e : string) : anyhow (list byte) :=
  if decide (length b = KEY_LEN) then Ok b else Err e.

Definition parse_storage_key_hex (s : string) : anyhow (list byte) :=
  match hex_decode (trim s) with
  | None => Err "invalid storage_key hex"%string
  | Some b => to_key b "storage_key must be 32 bytes (64 hex chars)"
  end.

Definition keyring_account (db_path : string) : string :=
  ("master:" +:+ hex_encode (blake3 (as_bytes db_path)))%string.

Definition clear_keyring_master (db_path : string) : vop unit := fun w =>
  match kr_entry (w_kr w) (keyring_account db_path) with
  | Err _ => (w, Ok tt)
  | Ok _ => st_ignore (on_kr (fun k => kr_delete_credential k (keyring_account db_path))) w
  end.

Definition load_master_from_keyring (db_path : string) : vop (list byte) :=
  w ← st_get;
  let account := keyring_account db_path in
  _ ← st_lift (kr_entry (w_kr w) account);
  match kr_get_password (w_kr w) account with
  | KrPassword hex =>
      match hex_decode (trim hex) with
      | None => st_err "invalid hex"
      | Some b => st_lift (to_key b "invalid keyring master key length")
      end
  | KrNoEntry =>
      key ← random KEY_LEN;
      _ ← on_kr (fun k => kr_set_password k account (hex_encode key));
      mret key
  | KrError e => st_err e
  end.

Definition fallback_key_path (db_path : string) : string :=
  path_join (path_join db_path ".secrets") "fallback_master.key".

(** writing through a temporary file and a rename; the mode is set afterwards *)
Definition load_or_create_file_fallback_key (db_path : string) : vop (list byte) :=
  let key_path := fallback_key_path db_path in
  let generate :=
    key ← random KEY_LEN;
    _ ← on_fs (fun f => disk_create_dir_all f (path_join db_path ".secrets"));
    let tmp_path := path_join (path_join db_path ".secrets") "fallback_master.tmp" in
    _ ← on_fs (fun f => disk_write f tmp_path key);
    _ ← on_fs (fun f => disk_rename f tmp_path key_path);
    _ ← on_fs (fun f => disk_chmod_600 f key_path);
    mret key in
  ex ← exists_file key_path;
  if (ex : bool) then
    bytes ← read_file key_path;
    if decide (length bytes = KEY_LEN) then mret bytes else generate
  else generate.

Definition read_file_fallback_key_if_exists (db_path : string) (w : VaultWorld) : option (list byte) :=
  match disk_read (w_fs w) (fallback_key_path db_path) with
  | Ok b => if decide (length b ≠ KEY_LEN) then None else Some b
  | Err _ => None
  end.

Definition legacy_derive_fallback_master (db_path : string) : list byte :=
  derive_key LEGACY_FALLBACK_CONTEXT (as_bytes db_path).

Definition resolve_master_key (db_path : string) (storage_key : option (list byte)) : vop (list byte) :=
  match storage_key with
  | Some k => mret k
  | None =>
      r ← st_attempt (load_master_from_keyring db_path);
      match r with
      | Ok k => mret k
      | Err _ =>
          w ← st_get;
          match read_file_fallback_key_if_exists db_path w with
          | Some k => mret k
          | None => st_err "at-rest: OS keyring unavailable and no existing vault key"
          end
      end
  end.

(** ** The vault *)

Definition vault_open (db_path : string) (storage_key : option (list byte)) : vop SecretVault :=
  let dir := path_join db_path ".secrets" in
  _ ← on_fs (fun f => disk_create_dir_all f dir);
  m ← resolve_master_key db_path storage_key;
  mret (mkVault m dir db_path).

Definition secret_path (v : SecretVault) (name : string) : string :=
  path_join (secrets_dir v) (name +:+ ".enc").

Definition write_secret (v : SecretVault) (name : string) (plaintext : list byte) : vop unit :=
  blob ← vault_encrypt (master v) plaintext;
  on_fs (fun f => disk_write f (secret_path v name) blob).

Definition push_key (k : list byte) (keys : list (list byte)) : list (list byte) :=
  if decide (k ∈ keys) then keys else keys ++ [k].

Definition alternate_master_keys (v : SecretVault) : vop (list (list byte)) :=
  let keys := push_key (legacy_derive_fallback_master (v_db_path v)) [] in
  w ← st_get;
  let keys := match read_file_fallback_key_if_exists (v_db_path v) w with
              | Some k => push_key k keys
              | None => keys
              end in
  r ← st_attempt (load_master_from_keyring (v_db_path v));
  mret (match r with Ok k => push_key k keys | Err _ => keys end).

(** the loop over the alternate keys: the first that decrypts wins *)
Fixpoint recover_with (v : SecretVault) (name : string) (blob : list byte) (alts : list (list byte))
    : vop (option (list byte)) :=
  match alts with
  | [] => mret None
  | alt :: alts =>
      if decide (alt = master v) then recover_with v name blob alts else
      match vault_decrypt alt blob with
      | Ok plaintext => _ ← write_secret v name plaintext; mret (Some plaintext)
      | Err _ => recover_with v name blob alts
      end
  end.

Definition read_secret (v : SecretVault) (name : string) : vop (option (list byte)) :=
  ex ← exists_file (secret_path v name);
  if negb ex then mret None else
  blob ← read_file (secret_path v name);
  match vault_decrypt (master v) blob with
  | Ok plaintext => mret (Some plaintext)
  | Err primary_err =>
      alts ← alternate_master_keys v;
      r ← recover_with v name blob alts;
      match r with
      | Some plaintext => mret (Some plaintext)
      | None => st_err ("decrypt " +:+ name +:+ ": " +:+ primary_err)%string
      end
  end.

Definition delete_secret (v : SecretVault) (name : string) : vop unit :=
  ex ← exists_file (secret_path v name);
  if (ex : bool) then on_fs (fun f => disk_remove f (secret_path v name)) else mret tt.

Fixpoint migrate_secrets (v : SecretVault) (names : list string) : vop unit :=
  match names with
  | [] => mret tt
  | name :: names =>
      ex ← exists_file (secret_path v name);
      if negb ex then migrate_secrets v names else
      r ← st_attempt (read_secret v name);
      match r with
      | Ok _ => migrate_secrets v names
      | Err _ => _ ← st_ignore (delete_secret v name); migrate_secrets v names
      end
  end.

Definition migrated_names : list string := ["enc_x25519"; "enc_keypair"; "ed25519_identity"]%string.

Definition open_with_migration (db_path : string) (storage_key : option (list byte)) : vop SecretVault :=
  v ← vault_open db_path storage_key;
  _ ← migrate_secrets v migrated_names;
  mret v.

(** ** [secrets.rs] *)

Definition keypair_from_ed25519_secret (b : list byte) : anyhow Keypair :=
  match ed25519_from_bytes b with
  | Ok kp => Ok kp
  | Err e => Err ("invalid ed25519 secret: " +:+ e)%string
  end.

Definition ed25519_secret_bytes (kp : Keypair) : anyhow (list byte) :=
  match ed25519_secret kp with Some b => Ok b | None => Err "keypair is not ed25519"%string end.

Definition enc_from_secret_bytes (b : list byte) : anyhow EncryptionKeypair :=
  if decide (length b = 32%nat) then Ok (enc_from_secret b) else Err "invalid enc key length"%string.

Definition db_at (path : string) (w : VaultWorld) : Db := default db_new (w_dbs w !! path).

Definition read_legacy_sled_identity (path : string) : vop (option (list byte)) :=
  _ ← st_lift (sled_open path);
  w ← st_get;
  tree ← st_lift (db_open_tree (db_at path w) "identity");
  st_lift (tree_get tree "ed25519_secret_key").

Definition remove_legacy_sled_secret (path : string) : vop unit :=
  _ ← st_lift (sled_open path);
  w ← st_get;
  tree ← st_lift (db_open_tree (db_at path w) "identity");
  tree' ← st_lift (tree_remove tree "ed25519_secret_key");
  _ ← st_modify (fun w => mkWorld (w_fs w) (w_kr w)
        (<[path := db_put (db_at path w) "identity" tree']> (w_dbs w)) (w_draws w));
  st_lift (tree_flush tree').

(** reading a secret, dropping an unreadable one *)
Definition read_or_drop (v : SecretVault) (name : string) : vop (option (list byte)) :=
  r ← st_attempt (read_secret v name);
  match r with
  | Ok o => mret o
  | Err _ => _ ← st_ignore (delete_secret v name); mret None
  end.

Definition load_or_create_keypair (path : string) (storage_key : option (list byte)) : vop Keypair :=
  _ ← match path_parent path with
      | Some parent => on_fs (fun f => disk_create_dir_all f parent)
      | None => mret tt
      end;
  let db_path := default path (path_parent path) in
  v ← open_with_migration db_path storage_key;
  o ← read_or_drop v IDENTITY_SECRET;
  match o with
  | Some bytes => st_lift (keypair_from_ed25519_secret bytes)
  | None =>
      legacy ← read_legacy_sled_identity path;
      match legacy with
      | Some b =>
          _ ← write_secret v IDENTITY_SECRET b;
          _ ← remove_legacy_sled_secret path;
          st_lift (keypair_from_ed25519_secret b)
      | None =>
          w ← st_get;
          let keypair := generate_ed25519 (w_draws w) in
          _ ← random 32;
          secret ← st_lift (ed25519_secret_bytes keypair);
          _ ← write_secret v IDENTITY_SECRET secret;
          mret keypair
      end
  end.

Definition load_or_create_enc_keypair (db_path : string) (storage_key : option (list byte))
    : vop EncryptionKeypair :=
  v ← open_with_migration db_path storage_key;
  o ← read_or_drop v ENC_SECRET;
  match o with
  | Some bytes => st_lift (enc_from_secret_bytes bytes)
  | None =>
      let legacy_path := path_join db_path "enc_x25519.secret" in
      ex ← exists_file legacy_path;
      if (ex : bool) then
        bytes ← read_file legacy_path;
        _ ← write_secret v ENC_SECRET bytes;
        _ ← on_fs (fun f => disk_remove f legacy_path);
        st_lift (enc_from_secret_bytes bytes)
      else
        secret ← random 32;
        _ ← write_secret v ENC_SECRET secret;
        mret (enc_from_secret secret)
  end.
(** [std::fs::remove_dir_all] *)
Class DirRemoval := remove_dir_all : string -> ST VaultWorld unit.

(** a directory and what is in it *)
Definition under (dir p : string) : Prop := p = dir \/ exists n, p = path_join dir n.

(** when it succeeds nothing of the directory is left; it is no business of the
    keyring *)
Class DirRemovalLaws (RD : DirRemoval) {FL : DiskLaws F} : Prop := {
  remove_dir_view : forall p w w', remove_dir_all p w = (w', Ok tt) -> forall q, under p q -> disk_view (w_fs w') q = None;
  remove_dir_frame : forall p w q, ~ under p q -> disk_view (w_fs (remove_dir_all p w).1) q = disk_view (w_fs w) q;
  remove_dir_kr : forall p w, w_kr (remove_dir_all p w).1 = w_kr w;
}.
End at_rest.
