(* ===== verification/AtRestTheorems.v ===== *)
(** * Properties of the vault

    Writing, reading and deleting secrets; recovery with older master keys; the
    node keeps its identity across restarts, and the one way it loses it. *)

From S2P Require Import Prelude External Text Instances Host E2E AtRest.

Open Scope Z_scope.

Section vault.
Context `{V : VaultHost} `{VL : !VaultHostLaws} `{F : Disk} `{FL : !DiskLaws F} `{K : Keyring}.
Context `{P : E2EPrims} `{PL : !AeadLaws P}.
Implicit Types (w : VaultWorld) (v : SecretVault) (name : string).

Lemma path_join_longer d n : n ≠ ""%string -> (String.length d < String.length (path_join d n))%nat.
Proof.
  intros Hn. assert (0 < String.length n)%nat by (destruct n; [done|simpl; lia]).
  unfold path_join. destruct (decide (d = ""%string)) as [->|]; [done|].
  destruct (ends_with "/" d); rewrite ?str_length_app; cbn [String.length]; lia.
Qed.

Lemma path_join_inj d a b : path_join d a = path_join d b -> a = b.
Proof.
  unfold path_join. destruct (decide (d = ""%string)); [done|].
  destruct (ends_with "/" d); intros H.
  - by apply (inj (String.append d)) in H.
  - apply (inj (String.append d)) in H. by apply (inj (String.append "/")) in H.
Qed.

Lemma secret_path_not_dir v name : secret_path v name ≠ secrets_dir v.
Proof.
  unfold secret_path. intros E.
  pose proof (path_join_longer (secrets_dir v) (name +:+ ".enc") ltac:(by apply str_app_nonempty)) as H.
  rewrite E in H. lia.
Qed.

Lemma secret_path_inj v a b : secret_path v a = secret_path v b -> a = b.
Proof. intros E. apply path_join_inj in E. by apply str_app_inj_r in E. Qed.

(** ** Blobs *)

Lemma vault_decrypt_encrypt key m w :
  exists w' blob, vault_encrypt key m w = (w', Ok blob) /\ vault_decrypt key blob = Ok m
    /\ w_fs w' = w_fs w /\ w_kr w' = w_kr w /\ w_dbs w' = w_dbs w.
Proof.
  set (n := rng_bytes (w_draws w) NONCE_LEN).
  assert (length n = NONCE_LEN) as Hn by apply rng_length.
  destruct (aead_encrypt_total key n m) as [c Hc]. do 2 eexists. split_and!.
  - unfold vault_encrypt. erewrite ST_bind_Ok; [|reflexivity]. fold n. by rewrite Hc.
  - unfold vault_decrypt. rewrite length_app, (aead_tag _ _ _ _ Hc), Hn.
    rewrite (proj2 (Nat.ltb_ge _ _)) by lia. rewrite <- Hn, take_app_length, drop_app_length.
    by rewrite (aead_decrypt_encrypt _ _ _ _ Hc).
  - done.
  - done.
  - done.
Qed.

(** What a successful [write_secret] leaves, and what any call leaves alone. *)
Lemma write_secret_ok v name m w :
  disk_view (w_fs w) (secrets_dir v) = Some FDir ->
  disk_view (w_fs w) (secret_path v name) ≠ Some FDir ->
  exists w', write_secret v name m w = (w', Ok tt).
Proof.
  intros Hd Hp. destruct (vault_decrypt_encrypt (master v) m w) as (w1 & blob & He & _ & Hfs & _ & _).
  unfold write_secret. rewrite (ST_bind_Ok _ _ _ _ _ He). unfold on_fs. rewrite Hfs.
  destruct (disk_write_ok (w_fs w) (secrets_dir v) (name +:+ ".enc") blob Hd Hp) as [f' Hf].
  unfold secret_path. rewrite Hf. by eexists.
Qed.

Lemma write_secret_inv v name m w w' :
  write_secret v name m w = (w', Ok tt) ->
  exists blob, disk_view (w_fs w') (secret_path v name) = Some (FFile blob)
    /\ vault_decrypt (master v) blob = Ok m.
Proof.
  destruct (vault_decrypt_encrypt (master v) m w) as (w1 & blob & He & Hd & Hfs & Hkr & Hdb).
  unfold write_secret. rewrite (ST_bind_Ok _ _ _ _ _ He). unfold on_fs. rewrite Hfs.
  destruct (disk_write (w_fs w) (secret_path v name) blob) as [f' r] eqn:Ew. intros [= <- ->].
  exists blob. cbn [w_fs]. rewrite (disk_write_view _ _ _ _ Ew), decide_True by done. done.
Qed.

Lemma write_secret_frame v name m w :
  let w' := (write_secret v name m w).1 in
  w_kr w' = w_kr w /\ w_dbs w' = w_dbs w
  /\ forall q, q ≠ secret_path v name -> disk_view (w_fs w') q = disk_view (w_fs w) q.
Proof.
  destruct (vault_decrypt_encrypt (master v) m w) as (w1 & blob & He & _ & Hfs & Hkr & Hdb).
  intros w'. unfold w', write_secret. rewrite (ST_bind_Ok _ _ _ _ _ He). unfold on_fs. rewrite Hfs.
  destruct (disk_write (w_fs w) (secret_path v name) blob) as [f' r] eqn:Ew.
  cbn [fst w_kr w_dbs w_fs]. split_and!; [done|done|]. intros q Hq.
  apply (disk_write_frame _ _ _ _ _ _ Ew). congruence.
Qed.

(** ** Reading *)

Lemma read_secret_none v name w :
  disk_view (w_fs w) (secret_path v name) = None -> read_secret v name w = (w, Ok None).
Proof.
  intros Hv. unfold read_secret. erewrite ST_bind_Ok; [|reflexivity].
  rewrite disk_exists_view, Hv. by rewrite bool_decide_eq_false_2 by (by intros [? ?]).
Qed.

Lemma read_secret_master v name blob m w :
  disk_view (w_fs w) (secret_path v name) = Some (FFile blob) -> vault_decrypt (master v) blob = Ok m ->
  read_secret v name w = (w, Ok (Some m)).
Proof.
  intros Hv Hd. unfold read_secret. erewrite ST_bind_Ok; [|reflexivity].
  rewrite disk_exists_view, Hv, bool_decide_eq_true_2 by by eexists. cbn [negb].
  rewrite (ST_bind_Ok _ _ w w blob); [by rewrite Hd|].
  unfold read_file. by rewrite (proj2 (disk_read_view _ _ _) Hv).
Qed.

Lemma recover_with_inv v name blob alts w w' m :
  recover_with v name blob alts w = (w', Ok (Some m)) ->
  exists b', disk_view (w_fs w') (secret_path v name) = Some (FFile b') /\ vault_decrypt (master v) b' = Ok m.
Proof.
  induction alts as [|a alts IH]; cbn [recover_with]; [done|].
  destruct (decide (a = master v)); [done|]. destruct (vault_decrypt a blob) as [m'|]; [|done].
  intros (w1 & [] & Hw & [= <- <-])%ST_bind_inv. by apply write_secret_inv in Hw.
Qed.

(** A successful read, by whichever key, leaves the secret readable under the
    current master key. *)
Lemma read_secret_inv v name w w' m :
  read_secret v name w = (w', Ok (Some m)) ->
  exists b', disk_view (w_fs w') (secret_path v name) = Some (FFile b') /\ vault_decrypt (master v) b' = Ok m.
Proof.
  unfold read_secret. intros (w1 & ex & [= <- <-] & H)%ST_bind_inv.
  rewrite disk_exists_view in H. case_bool_decide as Hex; cbn [negb] in H; [|done].
  apply ST_bind_inv in H as (w1 & blob & Hr & H). injection Hr as <- Hr. apply disk_read_view in Hr.
  destruct (vault_decrypt (master v) blob) as [m'|e] eqn:Ed; [injection H as <- <-; eauto|].
  apply ST_bind_inv in H as (w2 & alts & _ & H). apply ST_bind_inv in H as (w3 & [r|] & Hrec & H); [|done].
  injection H as <- <-. by eapply recover_with_inv.
Qed.

(** Secrets round trip: what is written is read back under any number of
    reads, a deleted secret is absent, and no other file changes. *)
Theorem vault_roundtrip v name m w :
  disk_view (w_fs w) (secrets_dir v) = Some FDir ->
  disk_view (w_fs w) (secret_path v name) ≠ Some FDir ->
  exists w1 w2,
    write_secret v name m w = (w1, Ok tt) /\ read_secret v name w1 = (w1, Ok (Some m))
    /\ delete_secret v name w1 = (w2, Ok tt) /\ read_secret v name w2 = (w2, Ok None)
    /\ forall q, q ≠ secret_path v name -> disk_view (w_fs w2) q = disk_view (w_fs w) q.
Proof.
  intros Hd Hp. destruct (write_secret_ok v name m w Hd Hp) as [w1 H1].
  destruct (write_secret_inv _ _ _ _ _ H1) as (blob & Hb & Hdec).
  pose proof (write_secret_frame v name m w) as (_ & _ & Hfr). rewrite H1 in Hfr. cbn [fst] in Hfr.
  destruct (disk_remove_ok _ _ _ Hb) as (f2 & Hr & Hv2).
  exists w1, (mkWorld f2 (w_kr w1) (w_dbs w1) (w_draws w1)). split_and!; [done|..].
  - by apply (read_secret_master _ _ blob).
  - unfold delete_secret. erewrite ST_bind_Ok; [|reflexivity].
    rewrite disk_exists_view, Hb, bool_decide_eq_true_2 by by eexists. unfold on_fs. by rewrite Hr.
  - apply read_secret_none. cbn [w_fs]. by rewrite Hv2, decide_True.
  - intros q Hq. cbn [w_fs]. rewrite Hv2, decide_False by congruence. by apply Hfr.
Qed.

(** Recovery: a secret readable under any key the vault still knows is
    returned, and the file is re-encrypted so that the next read needs the
    current master key only. *)
Theorem read_secret_reencrypts v name w w' m :
  read_secret v name w = (w', Ok (Some m)) -> read_secret v name w' = (w', Ok (Some m)).
Proof.
  intros H. destruct (read_secret_inv _ _ _ _ _ H) as (b & Hb & Hd).
  by apply (read_secret_master _ _ b).
Qed.

(** ** The identity survives restarts *)

Section restart.
Variables (path : string) (sk : option (list byte)) (k : list byte).
Let db := default path (path_parent path).
Let dir := path_join db ".secrets".
Let v := mkVault k dir db.

(** the master key resolves to [k]: given explicitly, or held by the keyring *)
Definition resolves w : Prop :=
  sk = Some k \/
  sk = None /\ kr_entry (w_kr w) (keyring_account db) = Ok tt
  /\ exists h, kr_get_password (w_kr w) (keyring_account db) = KrPassword h
      /\ hex_decode (trim h) = Some k /\ length k = KEY_LEN.

Definition vault_ready w : Prop :=
  disk_view (w_fs w) dir = Some FDir
  /\ (path_parent path = Some db -> disk_view (w_fs w) db = Some FDir)
  /\ resolves w.

Definition holds name b w : Prop :=
  vault_ready w /\ exists blob,
    disk_view (w_fs w) (secret_path v name) = Some (FFile blob) /\ vault_decrypt k blob = Ok b.

Lemma load_master_resolves w :
  sk = None -> resolves w -> load_master_from_keyring db w = (w, Ok k).
Proof.
  intros Hsk [Hx|(_ & He & h & Hg & Hh & Hl)]; [congruence|]. unfold load_master_from_keyring.
  erewrite ST_bind_Ok; [|reflexivity]. rewrite (ST_bind_lift _ _ _ _ He), Hg, Hh.
  unfold st_lift, to_key. by rewrite decide_True.
Qed.

Lemma load_master_frame w :
  w_fs (load_master_from_keyring db w).1 = w_fs w /\ w_dbs (load_master_from_keyring db w).1 = w_dbs w.
Proof.
  unfold load_master_from_keyring. erewrite ST_bind_Ok; [|reflexivity].
  unfold mbind, ST_bind, st_lift. destruct (kr_entry (w_kr w) (keyring_account db)); [|done].
  destruct (kr_get_password (w_kr w) (keyring_account db)) as [h| |e]; [by destruct (hex_decode (trim h))| |done].
  unfold random, on_kr. cbn. by destruct (kr_set_password _ _ _) as [k' [|]].
Qed.

(** [vault_ready] and [holds] only look at the disk and the keyring *)
Definition quiet (I : VaultWorld -> Prop) : Prop :=
  (I = vault_ready) \/ exists name b, I = holds name b.

Lemma ready_frame w w' :
  vault_ready w -> (sk = None -> w_kr w' = w_kr w) ->
  (forall q, q = dir \/ q = db -> disk_view (w_fs w') q = disk_view (w_fs w) q) -> vault_ready w'.
Proof.
  intros (H1 & H2 & H3) Hk Hq. split_and!.
  - rewrite Hq by auto. done.
  - intros Hp. rewrite Hq by auto. auto.
  - destruct H3 as [?|(Hs & H3)]; [by left|right]. rewrite Hk by done. done.
Qed.

Lemma load_master_kr w : resolves w -> sk = None -> w_kr (load_master_from_keyring db w).1 = w_kr w.
Proof. intros Hr Hs. by rewrite load_master_resolves. Qed.

Lemma dir_longer : (String.length db < String.length dir)%nat.
Proof. by apply path_join_longer. Qed.

Lemma secret_path_fresh name q : q = dir \/ q = db -> q ≠ secret_path v name.
Proof.
  intros Hq E. pose proof dir_longer.
  pose proof (path_join_longer dir (name +:+ ".enc") ltac:(by apply str_app_nonempty)) as H'.
  unfold secret_path in E. cbn [secrets_dir v] in E. rewrite <- E in H'. destruct Hq as [->| ->]; lia.
Qed.

(** Any operation that leaves the keyring resolution, the directories and the
    secret [name] alone keeps both. *)
Lemma ready_write name m : keeps vault_ready (write_secret v name m).
Proof.
  intros w Hw. destruct (write_secret_frame v name m w) as (Hk & _ & Hq).
  apply (ready_frame w); [done|done|]. intros q Hd. apply Hq. by apply secret_path_fresh.
Qed.

Lemma holds_write name b n m : n ≠ name -> keeps (holds name b) (write_secret v n m).
Proof.
  intros Hn w [Hr (blob & Hb & Hd)]. split; [by apply ready_write|]. exists blob.
  destruct (write_secret_frame v n m w) as (_ & _ & Hq). rewrite Hq; [done|].
  intros E. by apply secret_path_inj in E.
Qed.

Lemma load_master_keeps I : quiet I -> keeps I (load_master_from_keyring db).
Proof.
  intros HI w Hw. destruct (load_master_frame w) as [Hf _].
  destruct HI as [->|(name & b & ->)]; [|destruct Hw as [Hw Hb]; split; [|by rewrite Hf]];
    (apply (ready_frame w); [done| |by rewrite Hf]); apply load_master_kr; by destruct Hw as (_ & _ & ?).
Qed.

Lemma alternate_keeps I : keeps I (load_master_from_keyring db) -> keeps I (alternate_master_keys v).
Proof. intros HI. unfold alternate_master_keys. keeps_auto. Qed.

Lemma recover_keeps I n blob alts :
  (forall m, keeps I (write_secret v n m)) -> keeps I (recover_with v n blob alts).
Proof.
  intros Hw. induction alts as [|a alts IH]; cbn [recover_with]; [apply keeps_ret|].
  destruct (decide (a = master v)); [done|]. destruct (vault_decrypt a blob); [|done].
  keeps_auto.
Qed.

Lemma read_keeps I n :
  keeps I (load_master_from_keyring db) -> (forall m, keeps I (write_secret v n m)) ->
  keeps I (read_secret v n).
Proof.
  intros HI Hw. pose proof (alternate_keeps I HI). pose proof (fun b a => recover_keeps I n b a Hw).
  unfold read_secret. unfold exists_file, read_file. keeps_auto.
Qed.

Lemma delete_frame n w :
  let w' := (delete_secret v n w).1 in
  w_kr w' = w_kr w /\ w_dbs w' = w_dbs w
  /\ forall q, q ≠ secret_path v n -> disk_view (w_fs w') q = disk_view (w_fs w) q.
Proof.
  unfold delete_secret. erewrite ST_bind_Ok; [|reflexivity].
  destruct (disk_exists (w_fs w) (secret_path v n)); [|done]. unfold on_fs.
  destruct (disk_remove (w_fs w) (secret_path v n)) as [f r] eqn:E. cbn. split_and!; [done|done|].
  intros q Hq. apply (disk_remove_frame _ _ _ _ _ E). congruence.
Qed.

Lemma ready_delete n : keeps vault_ready (delete_secret v n).
Proof.
  intros w Hw. destruct (delete_frame n w) as (Hk & _ & Hq).
  apply (ready_frame w); [done|done|]. intros q Hd. apply Hq. by apply secret_path_fresh.
Qed.

Lemma holds_delete name b n : n ≠ name -> keeps (holds name b) (delete_secret v n).
Proof.
  intros Hn w [Hr (blob & Hb & Hd)]. split; [by apply ready_delete|]. exists blob.
  destruct (delete_frame n w) as (_ & _ & Hq). rewrite Hq; [done|].
  intros E. by apply secret_path_inj in E.
Qed.

Lemma read_holds name b w : holds name b w -> read_secret v name w = (w, Ok (Some b)).
Proof. intros [_ (blob & Hb & Hd)]. by apply (read_secret_master _ _ blob). Qed.

Lemma ready_read n : keeps vault_ready (read_secret v n).
Proof. apply read_keeps; [apply load_master_keeps; by left|]. apply ready_write. Qed.

Lemma holds_read name b n : keeps (holds name b) (read_secret v n).
Proof.
  destruct (decide (n = name)) as [->|Hn].
  - intros w Hw. by rewrite (read_holds name b).
  - apply read_keeps; [apply load_master_keeps; right; eauto|]. intros m. by apply holds_write.
Qed.

Lemma migrate_ready names : keeps vault_ready (migrate_secrets v names).
Proof.
  pose proof ready_read. pose proof ready_delete.
  induction names as [|n names IH]; cbn [migrate_secrets]; [apply keeps_ret|].
  unfold exists_file. keeps_auto.
Qed.

Lemma migrate_holds name b names : keeps (holds name b) (migrate_secrets v names).
Proof.
  induction names as [|n names IH]; cbn [migrate_secrets]; [apply keeps_ret|].
  unfold exists_file. apply keeps_bind; [apply keeps_gets|]. intros ex. destruct (negb ex); [done|].
  destruct (decide (n = name)) as [->|Hn].
  - intros w Hw. rewrite (ST_bind_Ok _ _ w w (Ok (Some b))); [by apply IH|].
    unfold st_attempt. by rewrite (read_holds name b).
  - pose proof (holds_read name b n). pose proof (holds_delete name b n Hn). keeps_auto.
Qed.

Lemma migrate_total names w : exists w', migrate_secrets v names w = (w', Ok tt).
Proof.
  revert w. induction names as [|n names IH]; intros w; cbn [migrate_secrets]; [by eexists|].
  unfold exists_file. erewrite ST_bind_Ok; [|reflexivity].
  destruct (negb (disk_exists (w_fs w) (secret_path v n))); [apply IH|].
  unfold mbind, ST_bind, st_attempt, st_ignore in *.
  destruct (read_secret v n w) as [w1 [o|e]]; cbn; apply IH.
Qed.

Lemma resolve_ready w : resolves w -> resolve_master_key db sk w = (w, Ok k).
Proof.
  intros Hr. unfold resolve_master_key. destruct sk as [k'|] eqn:Esk.
  - destruct Hr as [E|[E _]]; rewrite Esk in E; [by injection E as ->|done].
  - rewrite (ST_bind_Ok _ _ w w (Ok k)); [done|].
    unfold st_attempt. by rewrite load_master_resolves.
Qed.

(** Opening the vault makes it ready and never disturbs a readable secret. *)
Lemma open_ready w w' v' :
  resolves w -> (path_parent path = Some db -> disk_view (w_fs w) db = Some FDir) ->
  open_with_migration db sk w = (w', Ok v') -> v' = v /\ vault_ready w'.
Proof.
  intros Hr Hp. unfold open_with_migration, vault_open. fold dir.
  intros (w1 & v1 & Ho & H)%ST_bind_inv. apply ST_bind_inv in Ho as (w2 & [] & Hc & Ho).
  unfold on_fs in Hc. destruct (disk_create_dir_all (w_fs w) dir) as [f r] eqn:Ed.
  injection Hc as <- ->. destruct (disk_create_dir_view _ _ _ Ed) as [Hd Hq].
  set (w2 := mkWorld f (w_kr w) (w_dbs w) (w_draws w)) in *.
  assert (resolves w2) as Hr2 by exact Hr.
  rewrite (ST_bind_Ok _ _ w2 w2 k) in Ho by by apply resolve_ready. injection Ho as <- <-. fold v in H.
  destruct (migrate_total migrated_names w2) as [w3 Hm].
  rewrite (ST_bind_Ok _ _ _ _ _ Hm) in H. injection H as <- <-. split; [done|].
  assert (vault_ready w2) as H2.
  { split_and!; [done| |done]. intros E. cbn [w_fs w2]. rewrite Hq; [by apply Hp|]. left. by rewrite Hp. }
  pose proof (migrate_ready migrated_names _ H2) as H3. by rewrite Hm in H3.
Qed.

Lemma open_holds name b w :
  holds name b w -> exists w', open_with_migration db sk w = (w', Ok v) /\ holds name b w'.
Proof.
  intros Hw. pose proof Hw as [(Hd & Hp & Hr) _]. unfold open_with_migration, vault_open. fold dir.
  rewrite (ST_bind_Ok _ _ w w v).
  - destruct (migrate_total migrated_names w) as [w3 Hm].
    rewrite (ST_bind_Ok _ _ _ _ _ Hm). exists w3. split; [done|].
    pose proof (migrate_holds name b migrated_names _ Hw) as H3. by rewrite Hm in H3.
  - rewrite (ST_bind_Ok _ _ w w tt).
    + by rewrite (ST_bind_Ok _ _ w w k) by by apply resolve_ready.
    + unfold on_fs. rewrite disk_create_dir_id by done. by destruct w.
Qed.

Lemma read_or_drop_holds name b w : holds name b w -> read_or_drop v name w = (w, Ok (Some b)).
Proof.
  intros Hw. unfold read_or_drop. rewrite (ST_bind_Ok _ _ w w (Ok (Some b))); [done|].
  unfold st_attempt. by rewrite (read_holds name b).
Qed.

Lemma read_or_drop_ready name : keeps vault_ready (read_or_drop v name).
Proof. pose proof ready_read. pose proof ready_delete. unfold read_or_drop. keeps_auto. Qed.

Lemma read_or_drop_inv name w w' b :
  vault_ready w -> read_or_drop v name w = (w', Ok (Some b)) -> holds name b w'.
Proof.
  intros Hw H. pose proof (read_or_drop_ready name w Hw) as H1. rewrite H in H1. split; [done|].
  unfold read_or_drop, st_attempt in H. unfold mbind, ST_bind in H.
  destruct (read_secret v name w) as [w1 [o|e]] eqn:E; cbn in H.
  - injection H as <- ->. by eapply read_secret_inv.
  - done.
Qed.

Lemma write_holds name b w w' :
  vault_ready w -> write_secret v name b w = (w', Ok tt) -> holds name b w'.
Proof.
  intros Hw H. pose proof (ready_write name b w Hw) as H1. rewrite H in H1. split; [done|].
  by eapply write_secret_inv.
Qed.

Lemma remove_legacy_frame w w' :
  remove_legacy_sled_secret path w = (w', Ok tt) -> w_fs w' = w_fs w /\ w_kr w' = w_kr w.
Proof.
  unfold remove_legacy_sled_secret.
  intros (w1 & [] & [= <- _] & H)%ST_bind_inv. apply ST_bind_inv in H as (w2 & x & [= <- <-] & H).
  apply ST_bind_inv in H as (w2 & t & [= <- _] & H). apply ST_bind_inv in H as (w2 & t' & [= <- _] & H).
  apply ST_bind_inv in H as (w2 & [] & [= <-] & H). by injection H as <- _.
Qed.

Lemma read_legacy_pure w w' o : read_legacy_sled_identity path w = (w', Ok o) -> w' = w.
Proof.
  unfold read_legacy_sled_identity.
  intros (w1 & [] & [= <- _] & H)%ST_bind_inv. apply ST_bind_inv in H as (w2 & x & [= <- <-] & H).
  apply ST_bind_inv in H as (w2 & t & [= <- _] & H). by injection H as <- _.
Qed.

Lemma keypair_from_inv b kp : keypair_from_ed25519_secret b = Ok kp -> ed25519_from_bytes b = Ok kp.
Proof. unfold keypair_from_ed25519_secret. by destruct (ed25519_from_bytes b). Qed.

Definition create_parent : ST VaultWorld unit :=
  match path_parent path with
  | Some parent => on_fs (fun f => disk_create_dir_all f parent)
  | None => mret tt
  end.

Lemma parent_db p : path_parent path = Some p -> db = p.
Proof. intros E. unfold db. by rewrite E. Qed.

Lemma create_parent_ok w w1 :
  create_parent w = (w1, Ok tt) ->
  w_kr w1 = w_kr w /\ (path_parent path = Some db -> disk_view (w_fs w1) db = Some FDir).
Proof.
  pose proof parent_db as Hdb. unfold create_parent.
  destruct (path_parent path) as [p|]; [|by intros [= <-]].
  rewrite (Hdb p eq_refl). unfold on_fs. destruct (disk_create_dir_all (w_fs w) p) as [f r] eqn:Ed.
  intros [= <- ->]. by destruct (disk_create_dir_view _ _ _ Ed) as [Hd _].
Qed.

Lemma create_parent_id w :
  (path_parent path = Some db -> disk_view (w_fs w) db = Some FDir) -> create_parent w = (w, Ok tt).
Proof.
  pose proof parent_db as Hdb. unfold create_parent. destruct (path_parent path) as [p|]; [|done].
  rewrite (Hdb p eq_refl). intros Hp. unfold on_fs. rewrite disk_create_dir_id by by apply Hp. by destruct w.
Qed.

(** After the first load the vault holds the bytes of the returned key. *)
Lemma load_keypair_holds w w' kp :
  resolves w -> load_or_create_keypair path sk w = (w', Ok kp) ->
  exists b, holds IDENTITY_SECRET b w' /\ ed25519_from_bytes b = Ok kp.
Proof.
  intros Hr. unfold load_or_create_keypair. fold db.
  fold create_parent. intros (w1 & [] & Hp & H)%ST_bind_inv.
  apply create_parent_ok in Hp as [Hkr Hp1].
  assert (resolves w1) as Hr1 by (unfold resolves; by rewrite Hkr).
  apply ST_bind_inv in H as (w2 & v' & Ho & H).
  destruct (open_ready _ _ _ Hr1 Hp1 Ho) as [-> H2].
  apply ST_bind_inv in H as (w3 & o & Hrd & H).
  pose proof (read_or_drop_ready IDENTITY_SECRET w2 H2) as H3. rewrite Hrd in H3.
  destruct o as [b|].
  { injection H as <- Hk. exists b. split; [exact (read_or_drop_inv _ _ _ _ H2 Hrd)|by apply keypair_from_inv]. }
  apply ST_bind_inv in H as (w4 & o & Hl & H). apply read_legacy_pure in Hl as ->. destruct o as [b|].
  - apply ST_bind_inv in H as (w4 & [] & Hw & H). apply ST_bind_inv in H as (w5 & [] & Hrm & H).
    injection H as <- Hk. exists b. split; [|by apply keypair_from_inv].
    apply write_holds in Hw as [Hw Hb]; [|done]. destruct (remove_legacy_frame _ _ Hrm) as [Hf Hkr5].
    split; [|by rewrite Hf]. apply (ready_frame w4); [done|by rewrite Hkr5|by rewrite Hf].
  - apply ST_bind_inv in H as (w4 & x & [= <- <-] & H).
    apply ST_bind_inv in H as (w4 & y & [= <- _] & H).
    apply ST_bind_inv in H as (w4 & b & Hs & H). apply ST_bind_inv in H as (w5 & [] & Hw & [= <- <-]).
    injection Hs as <- Hs. exists b. split.
    + eapply write_holds; [|done]. exact H3.
    + unfold ed25519_secret_bytes in Hs.
      destruct (ed25519_secret (generate_ed25519 (w_draws w3))) eqn:Es; [|done]. injection Hs as ->.
      by apply secret_roundtrip.
Qed.

(** ** Both secrets *)

Lemma open_exact name b w : holds name b w -> open_with_migration db sk w = ((open_with_migration db sk w).1, Ok v).
Proof. intros Hw. by destruct (open_holds _ _ _ Hw) as (w' & -> & _). Qed.

Lemma open_keeps name b : keeps (holds name b) (open_with_migration db sk).
Proof. intros w Hw. by destruct (open_holds _ _ _ Hw) as (w' & -> & ?). Qed.

Lemma load_keypair_run b kp w :
  holds IDENTITY_SECRET b w -> ed25519_from_bytes b = Ok kp ->
  load_or_create_keypair path sk w = ((open_with_migration db sk w).1, Ok kp).
Proof.
  intros Hb Hk. pose proof (open_keeps _ _ w Hb) as H2.
  unfold load_or_create_keypair. fold db create_parent. rewrite (ST_bind_Ok _ _ w w tt).
  - rewrite (ST_bind_Ok _ _ _ _ _ (open_exact _ _ _ Hb)), (ST_bind_Ok _ _ _ _ _ (read_or_drop_holds _ _ _ H2)).
    unfold st_lift, keypair_from_ed25519_secret. by rewrite Hk.
  - apply create_parent_id. by destruct Hb as [(_ & Hp & _) _].
Qed.

Lemma load_enc_run e enc w :
  holds ENC_SECRET e w -> enc_from_secret_bytes e = Ok enc ->
  load_or_create_enc_keypair db sk w = ((open_with_migration db sk w).1, Ok enc).
Proof.
  intros Hb Hk. pose proof (open_keeps _ _ w Hb) as H2. unfold load_or_create_enc_keypair.
  rewrite (ST_bind_Ok _ _ _ _ _ (open_exact _ _ _ Hb)), (ST_bind_Ok _ _ _ _ _ (read_or_drop_holds _ _ _ H2)).
  unfold st_lift. by rewrite Hk.
Qed.

(** a file beside the vault *)
Definition beside n : Prop := n ≠ ""%string /\ n ≠ ".secrets"%string /\ forall name, n ≠ (".secrets/" +:+ name +:+ ".enc")%string.

Lemma path_join_prefix d : exists pre, forall n, path_join d n = (pre +:+ n)%string.
Proof.
  unfold path_join. destruct (decide (d = ""%string)); [by exists ""%string|]. destruct (ends_with "/" d); [by exists d|].
  exists (d +:+ "/")%string. intros x. apply (inj as_bytes). by rewrite !as_bytes_app, <- (assoc_L (++)).
Qed.

Lemma dir_no_slash : ends_with "/" dir = false.
Proof.
  apply bool_decide_eq_false. intros [r H%strip_suffix_Some]. revert H. unfold dir.
  destruct (path_join_prefix db) as [pre ->]. rewrite as_bytes_app. intros H%(f_equal list.last).
  by rewrite !last_app in H.
Qed.

Lemma secret_path_rel name : secret_path v name = path_join db (".secrets/" +:+ name +:+ ".enc").
Proof.
  unfold secret_path. cbn [secrets_dir v]. unfold path_join at 1. rewrite decide_False, dir_no_slash.
  - unfold dir. destruct (path_join_prefix db) as [pre Hp]. rewrite !Hp. apply (inj as_bytes).
    by rewrite !as_bytes_app, <- !(assoc_L (++)).
  - intros E. pose proof dir_longer as Hl. rewrite E in Hl. cbn in Hl. lia.
Qed.

Lemma beside_fresh n name : beside n -> path_join db n ≠ dir /\ path_join db n ≠ db /\ path_join db n ≠ secret_path v name.
Proof.
  intros (H0 & H1 & H2). split_and!.
  - by intros E%path_join_inj.
  - intros E. pose proof (path_join_longer db n H0) as Hl. rewrite E in Hl. lia.
  - rewrite secret_path_rel. intros E%path_join_inj. by apply (H2 name).
Qed.

Lemma holds_beside name b n w w' :
  beside n -> (forall q, q ≠ path_join db n -> disk_view (w_fs w') q = disk_view (w_fs w) q) -> w_kr w' = w_kr w ->
  holds name b w -> holds name b w'.
Proof.
  intros Hn Hq Hk [Hr (blob & Hb & Hd)]. destruct (beside_fresh n name Hn) as (H1 & H2 & H3). split.
  - apply (ready_frame w); [done|done|]. intros q [-> | ->]; by apply Hq.
  - exists blob. by rewrite Hq.
Qed.

Lemma write_beside name b n x : beside n -> keeps (holds name b) (on_fs (fun f => disk_write f (path_join db n) x)).
Proof.
  intros Hn w Hw. unfold on_fs. destruct (disk_write _ _ _) as [f r] eqn:E. apply (holds_beside _ _ n w); [done| |done|done].
  intros q Hq. by eapply disk_write_frame.
Qed.
Lemma remove_beside name b n : beside n -> keeps (holds name b) (on_fs (fun f => disk_remove f (path_join db n))).
Proof.
  intros Hn w Hw. unfold on_fs. destruct (disk_remove _ _) as [f r] eqn:E. apply (holds_beside _ _ n w); [done| |done|done].
  intros q Hq. by eapply disk_remove_frame.
Qed.

Lemma legacy_beside : beside "enc_x25519.secret".
Proof. split_and!; [done|done|]. intros name E. discriminate E. Qed.

Lemma load_enc_keeps b : keeps (holds IDENTITY_SECRET b) (load_or_create_enc_keypair db sk).
Proof.
  unfold load_or_create_enc_keypair. apply keeps_bind_eq; [apply open_keeps|]. intros w0 w v' Hw0 E Hw.
  rewrite (open_exact _ _ _ Hw0) in E. injection E as _ <-. revert w Hw.
  assert (ENC_SECRET ≠ IDENTITY_SECRET) as Hne by done. pose proof legacy_beside as Hl.
  pose proof (holds_read IDENTITY_SECRET b ENC_SECRET). pose proof (holds_delete IDENTITY_SECRET b ENC_SECRET Hne).
  pose proof (fun m => holds_write IDENTITY_SECRET b ENC_SECRET m Hne). pose proof (remove_beside IDENTITY_SECRET b _ Hl).
  change (keeps (holds IDENTITY_SECRET b) (o ← read_or_drop v ENC_SECRET;
    match o with
    | Some bytes => st_lift (enc_from_secret_bytes bytes)
    | None =>
        ex ← exists_file (path_join db "enc_x25519.secret");
        if (ex : bool) then
          bytes ← read_file (path_join db "enc_x25519.secret");
          _ ← write_secret v ENC_SECRET bytes;
          _ ← on_fs (fun f => disk_remove f (path_join db "enc_x25519.secret"));
          st_lift (enc_from_secret_bytes bytes)
        else secret ← random 32; _ ← write_secret v ENC_SECRET secret; mret (enc_from_secret secret)
    end)).
  unfold read_or_drop, exists_file, read_file. keeps_auto.
Qed.

Lemma load_enc_holds w w' enc :
  vault_ready w -> load_or_create_enc_keypair db sk w = (w', Ok enc) ->
  exists e, holds ENC_SECRET e w' /\ enc_from_secret_bytes e = Ok enc.
Proof.
  intros (Hd & Hp & Hr). unfold load_or_create_enc_keypair. intros (w1 & v' & Ho & H)%ST_bind_inv.
  destruct (open_ready _ _ _ Hr Hp Ho) as [-> H1]. apply ST_bind_inv in H as (w2 & o & Hrd & H).
  pose proof (read_or_drop_ready ENC_SECRET w1 H1) as H2. rewrite Hrd in H2. destruct o as [e|].
  { injection H as <- Hk. exists e. split; [exact (read_or_drop_inv _ _ _ _ H1 Hrd)|done]. }
  apply ST_bind_inv in H as (w3 & ex & [= <- <-] & H). destruct (disk_exists _ _).
  - apply ST_bind_inv in H as (w4 & bytes & Hf & H). injection Hf as <- _.
    apply ST_bind_inv in H as (w4 & [] & Hw & H). apply ST_bind_inv in H as (w5 & [] & Hrm & H).
    injection H as <- Hk. exists bytes. split; [|done]. apply write_holds in Hw; [|done].
    pose proof (remove_beside _ _ _ legacy_beside w4 Hw) as H5. by rewrite Hrm in H5.
  - apply ST_bind_inv in H as (w4 & e & Hrnd & H). injection Hrnd as <- <-.
    apply ST_bind_inv in H as (w5 & [] & Hw & [= <- <-]). exists (rng_bytes (w_draws w2) 32). split.
    + eapply write_holds; [|done]. exact H2.
    + unfold enc_from_secret_bytes. by rewrite decide_True by apply rng_length.
Qed.

(** What happens on the disk between two starts, with the same storage key (or
    keyring entry) throughout: further starts, the vault opened, other secrets
    written and deleted, any secret read, files beside the vault written and
    removed; whether each of them succeeds or fails. *)
Inductive VaultOp :=
| VIdentity
| VEncKeys
| VOpen
| VRead (name : string)
| VReadOrDrop (name : string)
| VWrite (name : string) (b : list byte)
| VDelete (name : string)
| VWriteFile (n : string) (b : list byte)
| VRemoveFile (n : string).

Definition run_vault (o : VaultOp) (w : VaultWorld) : VaultWorld :=
  match o with
  | VIdentity => (load_or_create_keypair path sk w).1
  | VEncKeys => (load_or_create_enc_keypair db sk w).1
  | VOpen => (open_with_migration db sk w).1
  | VRead name => (read_secret v name w).1
  | VReadOrDrop name => (read_or_drop v name w).1
  | VWrite name b => (write_secret v name b w).1
  | VDelete name => (delete_secret v name w).1
  | VWriteFile n b => (on_fs (fun f => disk_write f (path_join db n) b) w).1
  | VRemoveFile n => (on_fs (fun f => disk_remove f (path_join db n)) w).1
  end.
Definition run_vaults (os : list VaultOp) (w : VaultWorld) : VaultWorld := foldl (fun w o => run_vault o w) w os.

Definition spares_identity (o : VaultOp) : Prop :=
  match o with
  | VWrite name _ | VDelete name => name ≠ IDENTITY_SECRET
  | VWriteFile n _ | VRemoveFile n => beside n
  | _ => True
  end.

Lemma holds_read_or_drop name b n : keeps (holds name b) (read_or_drop v n).
Proof.
  destruct (decide (n = name)) as [->|Hn].
  - intros w Hw. by rewrite (read_or_drop_holds name b).
  - pose proof (holds_read name b n). pose proof (holds_delete name b n Hn). unfold read_or_drop. keeps_auto.
Qed.

Lemma run_vault_holds b kp o w :
  ed25519_from_bytes b = Ok kp -> spares_identity o -> holds IDENTITY_SECRET b w -> holds IDENTITY_SECRET b (run_vault o w).
Proof.
  intros Hk Ho Hw. destruct o; cbn [run_vault spares_identity] in *.
  - rewrite (load_keypair_run b kp w Hw Hk). by apply open_keeps.
  - by apply load_enc_keeps.
  - by apply open_keeps.
  - by apply holds_read.
  - by apply holds_read_or_drop.
  - by apply holds_write.
  - by apply holds_delete.
  - by apply write_beside.
  - by apply remove_beside.
Qed.

(** C30. The identity survives restarts: once [load_or_create_keypair] has returned
    a key pair, any later call with the same storage key (or the same keyring
    entry) returns the same key pair, whatever happened in between on the disk
    with that key: further starts, other secrets written, deleted or pruned
    because they do not decrypt, files beside the vault, failing operations
    included.  The vault must not have been opened with another key in between,
    and the identity secret itself not written or deleted. *)
Theorem identity_survives_restart w w' kp os :
  resolves w -> load_or_create_keypair path sk w = (w', Ok kp) -> Forall spares_identity os ->
  exists w'', load_or_create_keypair path sk (run_vaults os w') = (w'', Ok kp).
Proof.
  intros Hr H Hos. destruct (load_keypair_holds _ _ _ Hr H) as (b & Hb & Hk).
  assert (holds IDENTITY_SECRET b (run_vaults os w')) as Hb'.
  { clear H. revert w' Hb. induction Hos as [|o os Ho Hos IH]; intros w' Hb; [done|]. cbn. by apply IH, (run_vault_holds b kp). }
  eexists. by apply (load_keypair_run b).
Qed.

(** ** The identity is lost with the storage key

    On a host without a keyring and without a fallback key file. *)

Definition file_is (p : string) (x : option FsNode) w : Prop := disk_view (w_fs w) p = x.

Lemma file_keeps_read n p x : p ≠ secret_path v n -> keeps (file_is p x) (read_secret v n).
Proof.
  intros Hp. apply read_keeps.
  - intros w Hw. unfold file_is. by rewrite (proj1 (load_master_frame w)).
  - intros m w Hw. unfold file_is. destruct (write_secret_frame v n m w) as (_ & _ & Hq). by rewrite Hq.
Qed.

Lemma file_keeps_delete n p x : p ≠ secret_path v n -> keeps (file_is p x) (delete_secret v n).
Proof. intros Hp w Hw. unfold file_is. destruct (delete_frame n w) as (_ & _ & Hq). by rewrite Hq. Qed.

Lemma keeps_and {A} (I J : VaultWorld -> Prop) (m : ST VaultWorld A) :
  keeps I m -> keeps J m -> keeps (fun w => I w /\ J w) m.
Proof. intros HI HJ w [? ?]. split; [by apply HI|by apply HJ]. Qed.

(** one round of [open_with_migration]'s loop *)
Definition migrate_one name : ST VaultWorld unit :=
  r ← st_attempt (read_secret v name);
  match r with Ok _ => mret tt | Err _ => st_ignore (delete_secret v name) end.

Lemma migrate_cons name names w :
  (migrate_secrets v (name :: names) w).1 =
  if disk_exists (w_fs w) (secret_path v name)
  then (migrate_secrets v names (migrate_one name w).1).1 else (migrate_secrets v names w).1.
Proof.
  cbn [migrate_secrets]. unfold exists_file. erewrite ST_bind_Ok; [|reflexivity].
  destruct (disk_exists (w_fs w) (secret_path v name)); [|done]. cbn [negb].
  unfold migrate_one, mbind, ST_bind, st_attempt, st_ignore.
  destruct (read_secret v name w) as [w1 [o|e]]; done.
Qed.

Section wrong_key.
Variables (name : string) (blob : list byte).
Hypothesis no_keyring : forall kr a, exists e, kr_entry kr a = Err e.
Hypothesis wrong_master : exists e, vault_decrypt k blob = Err e.
Hypothesis wrong_legacy : exists e, vault_decrypt (legacy_derive_fallback_master db) blob = Err e.

Definition doomed w : Prop :=
  file_is (secret_path v name) (Some (FFile blob)) w /\ file_is (fallback_key_path db) None w.

Lemma doomed_unreadable w : doomed w -> exists e, read_secret v name w = (w, Err e).
Proof.
  intros [Hb Hf]. destruct wrong_master as [e He], wrong_legacy as [e' He'].
  assert (alternate_master_keys v w = (w, Ok [legacy_derive_fallback_master db])) as Ha.
  { unfold alternate_master_keys. change (v_db_path v) with db. erewrite ST_bind_Ok; [|reflexivity].
    assert (read_file_fallback_key_if_exists db w = None) as ->.
    { unfold read_file_fallback_key_if_exists. destruct (disk_read _ _) eqn:E; [|done].
      apply disk_read_view in E. unfold file_is in Hf. congruence. }
    destruct (no_keyring (w_kr w) (keyring_account db)) as [ek Hk].
    rewrite (ST_bind_Ok _ _ w w (Err ek)); [done|].
    unfold st_attempt, load_master_from_keyring. erewrite ST_bind_Ok; [|reflexivity].
    unfold mbind, ST_bind, st_lift. by rewrite Hk. }
  eexists. unfold read_secret. erewrite ST_bind_Ok; [|reflexivity].
  rewrite disk_exists_view, Hb, bool_decide_eq_true_2 by by eexists. cbn [negb].
  rewrite (ST_bind_Ok _ _ w w blob).
  - change (master v) with k. rewrite He, (ST_bind_Ok _ _ _ _ _ Ha).
    rewrite (ST_bind_Ok _ _ w w None); [reflexivity|]. cbn [recover_with].
    destruct (decide _); [done|]. by rewrite He'.
  - unfold read_file. by rewrite (proj2 (disk_read_view _ _ _) Hb).
Qed.

Lemma migrate_doomed w : doomed w -> file_is (secret_path v name) None (migrate_one name w).1.
Proof.
  intros Hw. destruct (doomed_unreadable w Hw) as [e He]. destruct Hw as [Hb _].
  unfold migrate_one. rewrite (ST_bind_Ok _ _ w w (Err e)) by (unfold st_attempt; by rewrite He).
  unfold st_ignore, delete_secret. erewrite ST_bind_Ok; [|reflexivity].
  rewrite disk_exists_view, Hb, bool_decide_eq_true_2 by by eexists. unfold on_fs.
  destruct (disk_remove_ok _ _ _ Hb) as (f & -> & Hq). unfold file_is. cbn. by rewrite Hq, decide_True.
Qed.

Lemma migrate_one_other n p x : p ≠ secret_path v n -> keeps (file_is p x) (migrate_one n).
Proof.
  intros Hp. pose proof (file_keeps_read n p x Hp). pose proof (file_keeps_delete n p x Hp).
  unfold migrate_one. keeps_auto.
Qed.

Lemma fallback_not_secret n : fallback_key_path db ≠ secret_path v n.
Proof.
  unfold fallback_key_path, secret_path. fold dir. intros E%path_join_inj%(f_equal as_bytes).
  rewrite as_bytes_app in E. apply (f_equal (fun l => list.last l)) in E.
  by rewrite last_app in E.
Qed.

Lemma migrate_gone names : keeps (file_is (secret_path v name) None) (migrate_secrets v names).
Proof.
  induction names as [|n names IH]; [apply keeps_ret|]. intros w Hw. rewrite migrate_cons.
  destruct (decide (n = name)) as [->|Hn].
  - rewrite disk_exists_view, Hw. by apply IH.
  - destruct (disk_exists _ _); apply IH; [|done].
    apply migrate_one_other; [|done]. intros E. by apply secret_path_inj in E.
Qed.

Lemma migrate_drops names w : name ∈ names -> doomed w -> file_is (secret_path v name) None (migrate_secrets v names w).1.
Proof.
  revert w. induction names as [|n names IH]; intros w Hin Hw; [by apply not_elem_of_nil in Hin|].
  rewrite migrate_cons. destruct (decide (n = name)) as [->|Hn].
  - pose proof (migrate_doomed w Hw) as H1. destruct Hw as [Hb _].
    rewrite disk_exists_view, Hb. by apply migrate_gone.
  - apply elem_of_cons in Hin as [->|Hin]; [done|].
    assert (secret_path v name ≠ secret_path v n) as Hp by (intros E; by apply secret_path_inj in E).
    destruct (disk_exists _ _); apply IH; try done. destruct Hw as [H1 H2].
    split; apply migrate_one_other; try done. apply fallback_not_secret.
Qed.
End wrong_key.

(** Opening the vault with another storage key destroys the identity: on a host
    without keyring and fallback file, if the stored secret decrypts neither
    under the given key nor under the legacy path-derived key, then
    [open_with_migration] succeeds and deletes the file, although the secret
    was intact under its own key. *)
Theorem wrong_storage_key_deletes_identity name blob w :
  (forall kr a, exists e, kr_entry kr a = Err e) ->
  (exists e, vault_decrypt k blob = Err e) ->
  (exists e, vault_decrypt (legacy_derive_fallback_master db) blob = Err e) ->
  sk = Some k -> name ∈ migrated_names ->
  disk_view (w_fs w) dir = Some FDir ->
  disk_view (w_fs w) (secret_path v name) = Some (FFile blob) ->
  disk_view (w_fs w) (fallback_key_path db) = None ->
  exists w', open_with_migration db sk w = (w', Ok v) /\ disk_view (w_fs w') (secret_path v name) = None.
Proof.
  intros Hkr Hm Hl Hsk Hn Hd Hb Hf.
  destruct (migrate_total migrated_names w) as [w' Hw']. exists w'. split.
  - unfold open_with_migration, vault_open. fold dir. rewrite (ST_bind_Ok _ _ w w v).
    + by rewrite (ST_bind_Ok _ _ _ _ _ Hw').
    + rewrite (ST_bind_Ok _ _ w w tt).
      * rewrite (ST_bind_Ok _ _ w w k); [done|]. apply resolve_ready. by left.
      * unfold on_fs. rewrite disk_create_dir_id by done. by destruct w.
  - pose proof (migrate_drops name blob Hkr Hm Hl migrated_names w Hn (conj Hb Hf)) as H.
    by rewrite Hw' in H.
Qed.
End restart.
End vault.
