(* ===== verification/AtRestDemo.v ===== *)
(** * Witnesses for the vault

    A concrete host: an in-memory disk, a keyring or none, draws that count up,
    and a cipher that puts sixteen bytes of the key in front of the text. *)

From S2P Require Import Prelude External Text Instances Host E2E AtRest AtRestTheorems.

Open Scope Z_scope.

Definition tag16 (k : list byte) : list byte := take 16 (k ++ replicate 16 x00).

Definition aead_toy : E2EPrims := {|
  x25519_public s := pad32 s;
  x25519_dh a b := a ++ b;
  hkdf ikm info := Ok (poly_hash (ikm ++ info));
  chacha_encrypt k n m := Ok (tag16 k ++ m);
  chacha_decrypt k n c := if decide (take 16 c = tag16 k) then Some (drop 16 c) else None;
|}.

Lemma tag16_length k : length (tag16 k) = 16%nat.
Proof. unfold tag16. rewrite length_take, length_app, length_replicate. lia. Qed.

Lemma aead_toy_laws : AeadLaws aead_toy.
Proof.
  split; cbn.
  - by eexists.
  - intros k n m c [= <-]. rewrite <- (tag16_length k), take_app_length, decide_True by done.
    by rewrite drop_app_length.
  - intros k n m c [= <-]. rewrite length_app, tag16_length. lia.
Qed.

Definition vault_host : VaultHost := {|
  rng_bytes i n := replicate n (byte_of_Z (Z.of_nat i));
  derive_key ctx b := pad32 (as_bytes ctx);
  generate_ed25519 i := (replicate 32 (byte_of_Z (100 + Z.of_nat i)) : list byte);
  ed25519_from_bytes b := Ok (b : list byte);
  ed25519_secret kp := Some (kp : list byte);
  sled_open _ := Ok tt;
  tree_flush _ := Ok tt;
|}.

Lemma vault_host_laws : VaultHostLaws (V := vault_host).
Proof.
  split; cbn.
  - intros. apply length_replicate.
  - by intros kp b [= ->].
Qed.

Definition key_a : list byte := replicate 32 x0a.
Definition key_b : list byte := replicate 32 x0b.

Definition world0 : VaultWorld (K := keyring_none) :=
  mkWorld (K := keyring_none) (DB := db_gmap) ({["/d" := FDir; "/d/.secrets" := FDir]}%string : gmap string FsNode) tt ∅ 0.

Definition vault_a : SecretVault := mkVault key_a "/d/.secrets" "/d".

Lemma vault_roundtrip_witness : exists w1 w2,
  write_secret (V := vault_host) (K := keyring_none) (P := aead_toy) vault_a "enc_x25519" [x01; x02] world0 = (w1, Ok tt)
  /\ read_secret (V := vault_host) (K := keyring_none) (P := aead_toy) vault_a "enc_x25519" w1 = (w1, Ok (Some [x01; x02]))
  /\ delete_secret (K := keyring_none) vault_a "enc_x25519" w1 = (w2, Ok tt)
  /\ read_secret (V := vault_host) (K := keyring_none) (P := aead_toy) vault_a "enc_x25519" w2 = (w2, Ok None).
Proof.
  destruct (vault_roundtrip (V := vault_host) (VL := vault_host_laws) (K := keyring_none) (P := aead_toy)
              (PL := aead_toy_laws) vault_a "enc_x25519" [x01; x02] world0) as (w1 & w2 & H1 & H2 & H3 & H4 & _).
  - by vm_compute.
  - by vm_compute.
  - by exists w1, w2.
Defined.

(** an identity is created, and found again after a restart *)
Definition load_a (w : VaultWorld (K := keyring_none)) :=
  load_or_create_keypair (V := vault_host) (K := keyring_none) (P := aead_toy) "/d/identity" (Some key_a) w.

(** other keys are created, a secret comes and goes, and a file is written *)
Definition between : list VaultOp :=
  [VEncKeys; VWrite "other" [x01]; VIdentity; VDelete "other"; VWriteFile "ui_settings.json" [x02]; VReadOrDrop "other"].

Lemma identity_survives_restart_witness : exists kp w'',
  (load_a world0).2 = Ok kp
  /\ load_a (run_vaults (V := vault_host) (K := keyring_none) (P := aead_toy) "/d/identity" (Some key_a) key_a between (load_a world0).1) = (w'', Ok kp).
Proof.
  destruct (load_a world0) as [w' r] eqn:E.
  assert (r = Ok (replicate 32 x64 : list byte)) as ->.
  { change r with (w', r).2. rewrite <- E. by vm_compute. }
  exists (replicate 32 x64).
  destruct (identity_survives_restart (V := vault_host) (VL := vault_host_laws) (K := keyring_none) (P := aead_toy)
              (PL := aead_toy_laws) "/d/identity" (Some key_a) key_a world0 w' (replicate 32 x64) between) as [w'' H].
  - by left.
  - exact E.
  - by repeat constructor.
  - by exists w''.
Defined.

(** the identity stored under one key, the vault opened with another *)
Definition blob_a : list byte := replicate 12 x00 ++ tag16 key_a ++ replicate 32 x07.
Definition world1 : VaultWorld (K := keyring_none) :=
  mkWorld (K := keyring_none) (DB := db_gmap)
    ({["/d" := FDir; "/d/.secrets" := FDir; "/d/.secrets/ed25519_identity.enc" := FFile blob_a]}%string : gmap string FsNode)
    tt ∅ 0.

Lemma wrong_storage_key_deletes_identity_witness :
  vault_decrypt (P := aead_toy) key_a blob_a = Ok (replicate 32 x07)
  /\ exists w', open_with_migration (V := vault_host) (K := keyring_none) (P := aead_toy) "/d" (Some key_b) world1
      = (w', Ok (mkVault key_b "/d/.secrets" "/d"))
    /\ disk_view (w_fs w') "/d/.secrets/ed25519_identity.enc" = None.
Proof.
  split; [by vm_compute|].
  apply (wrong_storage_key_deletes_identity (V := vault_host) (VL := vault_host_laws) (K := keyring_none)
           (P := aead_toy) (PL := aead_toy_laws) "/d/identity" (Some key_b) key_b "ed25519_identity" blob_a world1).
  - intros. by eexists.
  - by eexists.
  - by eexists.
  - done.
  - right; right; left.
  - by vm_compute.
  - by vm_compute.
  - by vm_compute.
Defined.

(** reading with an older key re-encrypts the file *)
Definition world2 : VaultWorld (K := keyring_none) :=
  mkWorld (K := keyring_none) (DB := db_gmap)
    ({["/d" := FDir; "/d/.secrets" := FDir; "/d/.secrets/fallback_master.key" := FFile key_a;
       "/d/.secrets/ed25519_identity.enc" := FFile blob_a]}%string : gmap string FsNode) tt ∅ 0.
Definition vault_b : SecretVault := mkVault key_b "/d/.secrets" "/d".
Definition read_b (w : VaultWorld (K := keyring_none)) :=
  read_secret (V := vault_host) (K := keyring_none) (P := aead_toy) vault_b "ed25519_identity" w.

Lemma read_secret_reencrypts_witness :
  (read_b world2).2 = Ok (Some (replicate 32 x07))
  /\ read_b (read_b world2).1 = ((read_b world2).1, Ok (Some (replicate 32 x07))).
Proof.
  assert ((read_b world2).2 = Ok (Some (replicate 32 x07))) as E by by vm_compute.
  split; [done|].
  apply (read_secret_reencrypts (V := vault_host) (VL := vault_host_laws) (K := keyring_none) (P := aead_toy)
           (PL := aead_toy_laws) vault_b "ed25519_identity" world2).
  unfold read_b in E. destruct (read_secret _ _ _) as [w' r] eqn:E'. cbn in E. subst r.
  unfold read_b. by rewrite E'.
Defined.
