(* ===== verification/Transaction.v ===== *)
(** * MeshCoin addresses, transactions and refill requests

    [mycelium-coin/src/address.rs], the [Transaction] half of [ledger.rs], and
    [refill.rs]: derivation and validation of addresses, the signed byte
    strings, and verification. *)

From S2P Require Import Prelude External Text.

Open Scope Z_scope.

Section coin_types.
Context `{C : Crypto}.

(** ** [address.rs] *)

Definition address_from_public_key (pk : PublicKey) : string :=
  let pk_bytes := pk_encode pk in
  let hash := blake3 pk_bytes in
  let payload := take 20 hash in
  let checksum_full := blake3 payload in
  let checksum := take 4 checksum_full in
  ("mxc1" +:+ bs58_encode (payload ++ checksum))%string.

Definition address_from_keypair (kp : Keypair) : string :=
  address_from_public_key (kp_public kp).

Definition validate_address (addr : string) : bool :=
  if negb (starts_with "mxc1" addr) then false else
  let encoded := str_from 4 addr in
  match bs58_decode encoded with
  | None => false
  | Some decoded =>
      if decide (length decoded ≠ 24%nat) then false else
      let payload := take 20 decoded in
      let stored_checksum := drop 20 decoded in
      let expected := take 4 (blake3 payload) in
      bool_decide (stored_checksum = expected)
  end.
End coin_types.

(** ** [Transaction] *)

Definition MUON_PER_MXC : Z := 1000000.

Record Transaction := mkTx {
  tx_id : string;
  tx_from : string;
  tx_to : string;
  amount_muon : Z;
  fee_muon : Z;
  timestamp_ms : Z;
  tx_nonce : Z;
  memo : option string;
  from_public_key : list byte;
  tx_signature : list byte;
  witnesses : gset string;
}.

Global Instance Transaction_eq_dec : EqDecision Transaction.
Proof. solve_decision. Defined.

Definition set_witnesses (w : gset string) (t : Transaction) : Transaction :=
  mkTx (tx_id t) (tx_from t) (tx_to t) (amount_muon t) (fee_muon t) (timestamp_ms t)
    (tx_nonce t) (memo t) (from_public_key t) (tx_signature t) w.

Definition tx_add_witness (peer_id : string) (t : Transaction) : Transaction :=
  set_witnesses ({[peer_id]} ∪ witnesses t) t.

Definition is_confirmed (t : Transaction) : bool := (3 <=? size (witnesses t))%nat.

Definition tx_bytes_for_signing (t : Transaction) : list byte :=
  as_bytes (tx_from t) ++ as_bytes (tx_to t)
  ++ le_bytes 8 (amount_muon t) ++ le_bytes 8 (fee_muon t)
  ++ le_bytes 8 (timestamp_ms t) ++ le_bytes 8 (tx_nonce t)
  ++ from_public_key t
  ++ match memo t with Some m => as_bytes m | None => [] end.

(** The integer fields are [u64]s. *)
Definition tx_wf (t : Transaction) : Prop :=
  in_u 64 (amount_muon t) /\ in_u 64 (fee_muon t)
  /\ in_u 64 (timestamp_ms t) /\ in_u 64 (tx_nonce t).

(** ** [RefillRequest] *)

Definition REFILL_REQUEST_TTL_MS : Z := 15 * 60 * 1000.

Record RefillRequest := mkRefill {
  request_id : string;
  hot_address : string;
  cold_address : string;
  rf_amount_muon : Z;
  rf_fee_muon : Z;
  created_at_ms : Z;
  expires_at_ms : Z;
  hot_public_key : list byte;
  rf_signature : list byte;
}.

Definition rf_bytes_for_signing (r : RefillRequest) : list byte :=
  as_bytes (request_id r) ++ as_bytes (hot_address r) ++ as_bytes (cold_address r)
  ++ le_bytes 8 (rf_amount_muon r) ++ le_bytes 8 (rf_fee_muon r)
  ++ le_bytes 8 (created_at_ms r) ++ le_bytes 8 (expires_at_ms r)
  ++ hot_public_key r.

Definition rf_set_signature (s : list byte) (r : RefillRequest) : RefillRequest :=
  mkRefill (request_id r) (hot_address r) (cold_address r) (rf_amount_muon r)
    (rf_fee_muon r) (created_at_ms r) (expires_at_ms r) (hot_public_key r) s.

Section signed.
Context `{C : Crypto}.

Definition tx_new (to : string) (amount fee nonce : Z) (m : option string)
    (kp : Keypair) (now : Z) : anyhow Transaction :=
  let from := address_from_keypair kp in
  let tx := mkTx "" from to amount fee now nonce m (pk_encode (kp_public kp)) [] ∅ in
  let bytes := tx_bytes_for_signing tx in
  match kp_sign kp bytes with
  | Err e => Err ("signing failed: " +:+ e)%string
  | Ok sig =>
      Ok (mkTx (hex_encode (blake3 (bytes ++ sig))) from to amount fee now nonce m
            (pk_encode (kp_public kp)) sig ∅)
  end.

Definition tx_verify (t : Transaction) : bool :=
  if negb (validate_address (tx_from t)) || negb (validate_address (tx_to t)) then false else
  match pk_decode (from_public_key t) with
  | None => false
  | Some pk =>
      if negb (bool_decide (address_from_public_key pk = tx_from t)) then false else
      pk_verify pk (tx_bytes_for_signing t) (tx_signature t)
  end.

(** [uuid] is the fresh [Uuid::new_v4()] string. *)
Definition rf_new_signed (kp : Keypair) (cold : string) (amount fee : Z)
    (now : Z) (uuid : string) : anyhow RefillRequest :=
  let req := mkRefill uuid (address_from_keypair kp) cold amount fee now
               (now +sat REFILL_REQUEST_TTL_MS) (pk_encode (kp_public kp)) [] in
  match kp_sign kp (rf_bytes_for_signing req) with
  | Err e => Err ("refill sign failed: " +:+ e)%string
  | Ok sig => Ok (rf_set_signature sig req)
  end.

Definition rf_verify (r : RefillRequest) : bool :=
  if negb (validate_address (hot_address r)) || negb (validate_address (cold_address r))
  then false else
  if bool_decide (hot_address r = cold_address r) then false else
  if expires_at_ms r <? created_at_ms r then false else
  match pk_decode (hot_public_key r) with
  | None => false
  | Some pk =>
      if negb (bool_decide (address_from_public_key pk = hot_address r)) then false else
      pk_verify pk (rf_bytes_for_signing r) (rf_signature r)
  end.
End signed.

(** ** Lemmas *)

Section lemmas.
Context `{C : Crypto} `{CL : !CryptoLaws C}.

Lemma str_from_app p r :
  str_from (String.length p) (p +:+ r) = r.
Proof.
  unfold str_from.
  enough (drop (String.length p) (as_bytes (p +:+ r)) = as_bytes r) as ->
    by apply of_as_bytes.
  unfold as_bytes, String.list_byte_of_string.
  induction p as [|a p IH]; [done|]. simpl. exact IH.
Qed.

Lemma tx_verify_key t :
  tx_verify t = true ->
  validate_address (tx_from t) = true /\ validate_address (tx_to t) = true
  /\ exists pk, pk_decode (from_public_key t) = Some pk
     /\ address_from_public_key pk = tx_from t
     /\ pk_verify pk (tx_bytes_for_signing t) (tx_signature t) = true.
Proof.
  unfold tx_verify.
  destruct (validate_address (tx_from t)), (validate_address (tx_to t)); simpl; try done.
  destruct (pk_decode _) as [pk|]; [|done].
  case_bool_decide; simpl; [|done]. intros. split_and!; [done..|]. by exists pk.
Qed.

Lemma validate_address_from_public_key pk :
  validate_address (address_from_public_key pk) = true.
Proof.
  unfold validate_address, address_from_public_key.
  rewrite (proj2 (starts_with_true _ _)) by eauto. simpl negb; cbv iota.
  rewrite (str_from_app "mxc1"), bs58_decode_encode.
  set (payload := take 20 (blake3 (pk_encode pk))).
  assert (length payload = 20%nat) as Hp.
  { unfold payload. by rewrite length_take, blake3_length. }
  rewrite decide_False.
  - rewrite take_app_length' by done. rewrite drop_app_length' by done.
    by apply bool_decide_eq_true_2.
  - rewrite length_app, length_take, blake3_length. lia.
Qed.

Lemma tx_new_verify to amount fee nonce m kp now tx :
  validate_address to = true ->
  tx_new to amount fee nonce m kp now = Ok tx -> tx_verify tx = true.
Proof.
  unfold tx_new. intros Hto.
  destruct (kp_sign kp _) as [sig|e] eqn:Hs; [|done]. intros [= <-].
  unfold tx_verify; cbn [tx_from tx_to from_public_key tx_signature].
  unfold address_from_keypair. rewrite validate_address_from_public_key, Hto; simpl.
  rewrite pk_decode_encode, bool_decide_eq_true_2 by done. simpl.
  apply kp_sign_verify. exact Hs.
Qed.

Lemma rf_new_signed_verify kp cold amount fee now uuid r :
  validate_address cold = true -> cold ≠ address_from_keypair kp ->
  in_u 64 now -> rf_new_signed kp cold amount fee now uuid = Ok r -> rf_verify r = true.
Proof.
  unfold rf_new_signed. intros Hc Hne Hnow.
  destruct (kp_sign kp _) as [sig|e] eqn:Hs; [|done]. intros [= <-].
  unfold rf_verify, rf_set_signature; cbn.
  unfold address_from_keypair in *. rewrite validate_address_from_public_key, Hc; simpl.
  rewrite bool_decide_eq_false_2 by congruence.
  destruct (_ <? _) eqn:Hlt.
  { apply Z.ltb_lt in Hlt. unfold REFILL_REQUEST_TTL_MS in Hlt. mach. }
  rewrite pk_decode_encode, bool_decide_eq_true_2 by done. simpl.
  apply kp_sign_verify. exact Hs.
Qed.
End lemmas.
