(* ===== verification/Policy.v ===== *)
(** * Settlement policy and outbound velocity windows

    [mycelium-coin/src/settlement_policy.rs] and [velocity.rs]. *)

From S2P Require Import Prelude External Text Transaction.

Open Scope Z_scope.

(** ** [settlement_policy.rs] *)

Definition DEFAULT_MAX_BALANCE_MXC : Z := 100.
Definition HARD_MAX_BALANCE_MXC : Z := 300.
Definition DEFAULT_MAX_TX_MXC : Z := 25.
Definition MAX_TX_SERIALIZED_BYTES : Z := 4096.
Definition DEFAULT_MAX_TX_PER_HOUR : Z := 20.
Definition DEFAULT_MAX_OUTBOUND_MXC_PER_HOUR : Z := 50.
Definition HOUR_MS : Z := 3600000.

Record SettlementPolicy := mkPolicy {
  max_balance_muon : Z;
  max_transfer_muon : Z;
  max_tx_bytes : Z;
  max_tx_per_hour : Z;
  max_outbound_muon_per_hour : Z;
}.

Definition beta_defaults : SettlementPolicy :=
  mkPolicy (DEFAULT_MAX_BALANCE_MXC * MUON_PER_MXC) (DEFAULT_MAX_TX_MXC * MUON_PER_MXC)
    MAX_TX_SERIALIZED_BYTES DEFAULT_MAX_TX_PER_HOUR
    (DEFAULT_MAX_OUTBOUND_MXC_PER_HOUR * MUON_PER_MXC).

Definition hard_cap : SettlementPolicy :=
  let p := beta_defaults in
  mkPolicy (HARD_MAX_BALANCE_MXC * MUON_PER_MXC) (max_transfer_muon p) (max_tx_bytes p)
    (max_tx_per_hour p) (max_outbound_muon_per_hour p).

Section checks.
Variable p : SettlementPolicy.

Definition check_transfer_amount (amount : Z) : anyhow unit :=
  if decide (amount = 0) then Err "transfer amount must be positive" else
  if decide (max_transfer_muon p < amount) then
    Err ("transfer exceeds max single settlement (" +:+ show (max_transfer_muon p)
         +:+ " muon cap)")%string
  else Ok tt.

Definition check_tx_size (tx : Transaction) (encoded_len : Z) : anyhow unit :=
  if decide (max_tx_bytes p < encoded_len) then
    Err ("settlement event exceeds max size (" +:+ show (max_tx_bytes p)
         +:+ " bytes)")%string
  else check_transfer_amount (amount_muon tx).

Definition check_balance_cap (balance pending incoming : Z) : anyhow unit :=
  let total := (balance +sat pending) +sat incoming in
  if decide (max_balance_muon p < total) then
    Err ("balance would exceed vault cap (" +:+ show (max_balance_muon p)
         +:+ " muon max)")%string
  else Ok tt.

(** The loop body over [recent]; [count] is a [u32]. *)
Definition velocity_acc (window_start : Z) (acc : Z * Z) (e : Z * Z) : Z * Z :=
  if decide (window_start <= e.1) then (wadd 32 acc.1 1, acc.2 +sat e.2) else acc.

Definition check_velocity (recent : list (Z * Z)) (now new_amount : Z) : anyhow unit :=
  let window_start := now -sat HOUR_MS in
  let '(count, outbound) := foldl (velocity_acc window_start) (0, 0) recent in
  if decide (max_tx_per_hour p <= count) then
    Err "velocity limit: too many settlements per hour"
  else
    let projected := outbound +sat new_amount in
    if decide (max_outbound_muon_per_hour p < projected) then
      Err "velocity limit: hourly outbound settlement cap exceeded"
    else Ok tt.
End checks.

(** A policy whose limits are the [u64]/[u32] values the code can hold, below
    the saturation point. *)
Definition policy_wf (p : SettlementPolicy) : Prop :=
  0 <= max_balance_muon p < umax 64 /\ 0 <= max_transfer_muon p < umax 64
  /\ 0 <= max_tx_per_hour p < umax 32 /\ 0 <= max_outbound_muon_per_hour p < umax 64.

Global Instance policy_wf_dec p : Decision (policy_wf p).
Proof. unfold policy_wf. apply _. Defined.

Lemma check_transfer_amount_Ok p a :
  0 <= a -> check_transfer_amount p a = Ok tt <-> 0 < a <= max_transfer_muon p.
Proof.
  intros Ha. unfold check_transfer_amount. repeat case_decide; split; intros; (done || lia).
Qed.

Lemma check_balance_cap_Ok p b pe i :
  policy_wf p -> 0 <= b -> 0 <= pe -> 0 <= i ->
  check_balance_cap p b pe i = Ok tt <-> b + pe + i <= max_balance_muon p.
Proof.
  intros (Hp & _) Hb Hpe Hi. unfold check_balance_cap. case_decide as Hd.
  - split; [done|]. mach.
  - split; [|done]. intros _. mach.
Qed.

(** What the loop of [check_velocity] computes: the number of events in the
    window and the sum of their amounts. *)
Definition window_count (start : Z) (l : list (Z * Z)) : Z :=
  Z.of_nat (length (filter (fun e => start <= e.1) l)).
Definition window_sum (start : Z) (l : list (Z * Z)) : Z :=
  sumZ (fun e => if decide (start <= e.1) then e.2 else 0) l.

Lemma velocity_loop start l c o :
  0 <= c -> 0 <= o <= umax 64 -> c + Z.of_nat (length l) <= umax 32 ->
  Forall (fun e => 0 <= e.2) l ->
  foldl (velocity_acc start) (c, o) l =
  (c + window_count start l, Z.min (o + window_sum start l) (umax 64)).
Proof.
  revert c o. induction l as [|e l IH]; intros c o Hc Ho Hlen Hl.
  - unfold window_count, window_sum; simpl. f_equal; lia.
  - apply Forall_cons_1 in Hl as [He Hl].
    assert (0 <= window_sum start l) as Hws.
    { apply sumZ_nonneg. intros x Hx. rewrite Forall_forall in Hl.
      specialize (Hl x Hx). case_decide; lia. }
    cbn [foldl length] in *. unfold velocity_acc at 2; cbn [fst snd].
    unfold window_count, window_sum in *. cbn [sumZ foldr]. rewrite filter_cons.
    case_decide as Hw.
    + rewrite (wadd_small 32) by (unfold in_u, umax in *; lia).
      unfold sat_add. rewrite IH by (try done; unfold umax in *; lia).
      cbn [length]. f_equal; unfold sumZ in *; lia.
    + rewrite IH by (done || lia). f_equal.
Qed.

Lemma window_count_nonneg start l : 0 <= window_count start l.
Proof. unfold window_count. lia. Qed.

(** [check_velocity] accepts exactly when the window holds fewer than
    [max_tx_per_hour] events and its total plus the new amount is within the
    hourly cap. *)
Lemma check_velocity_Ok p l now a :
  policy_wf p -> 0 <= a -> Forall (fun e => 0 <= e.2) l ->
  Z.of_nat (length l) <= umax 32 ->
  let start := now -sat HOUR_MS in
  check_velocity p l now a = Ok tt <->
  window_count start l < max_tx_per_hour p
  /\ window_sum start l + a <= max_outbound_muon_per_hour p.
Proof.
  intros (_ & _ & Hn & Ho) Ha Hl Hlen start. unfold check_velocity. fold start.
  rewrite velocity_loop by (done || (unfold umax in *; lia)).
  assert (0 <= window_sum start l) as Hws.
  { apply sumZ_nonneg. intros x Hx. rewrite Forall_forall in Hl.
    specialize (Hl x Hx). case_decide; lia. }
  rewrite Z.add_0_l. unfold sat_add.
  repeat case_decide; (split; [done||lia|]); (lia || intuition lia).
Qed.

(** ** [velocity.rs] *)

Definition MAX_STORED_EVENTS : nat := 64.

Record VelocityWindow := mkWindow { events : list (Z * Z) }.

Definition window_default : VelocityWindow := mkWindow [].

Definition window_push (ts amount : Z) (w : VelocityWindow) : VelocityWindow :=
  mkWindow (pop_front_to MAX_STORED_EVENTS (events w ++ [(ts, amount)])).

Definition window_recent (w : VelocityWindow) : list (Z * Z) := events w.

Section tracker.
Context `{D : Sled} `{BV : Bincode VelocityWindow}.

Definition recent_for (t : Tree) (address : string) : anyhow (list (Z * Z)) :=
  row ← tree_get t address;
  match row with
  | Some bytes => w ← de bytes; Ok (window_recent w)
  | None => Ok []
  end.

Definition record_outbound (t : Tree) (address : string) (ts amount : Z) : anyhow Tree :=
  row ← tree_get t address;
  w ← match row with
      | Some bytes => de bytes
      | None => Ok window_default
      end;
  bytes ← ser (window_push ts amount w);
  tree_insert t address bytes.

Context `{DL : !SledLaws D} `{BVL : !BincodeLaws BV}.

Definition events_of (t : Tree) (a : string) : list (Z * Z) :=
  default [] (events <$> typed t !! a).

Lemma recent_for_spec t a : tree_ok t -> recent_for t a = Ok (events_of t a).
Proof.
  intros Hok. unfold recent_for, events_of.
  pose proof (typed_get t a Hok) as Hg.
  destruct (typed t !! a) as [w|]; simpl.
  - destruct Hg as (b & -> & Hd). simpl. by rewrite Hd.
  - by rewrite Hg.
Qed.

Lemma record_outbound_spec t a ts amt :
  tree_ok t ->
  exists t', record_outbound t a ts amt = Ok t' /\ tree_ok t' /\
    typed t' =
    <[a := mkWindow (pop_front_to MAX_STORED_EVENTS (events_of t a ++ [(ts, amt)]))]> (typed t).
Proof.
  intros Hok. unfold record_outbound, events_of.
  pose proof (typed_get t a Hok) as Hg.
  assert (exists w, (row ← tree_get t a; match row with Some b => de b | None => Ok window_default end)
            = Ok w /\ events w = default [] (events <$> typed t !! a)) as (w & Hw & Hev).
  { destruct (typed t !! a) as [w|]; simpl.
    - destruct Hg as (b & -> & Hd). simpl. eauto.
    - rewrite Hg. simpl. by exists window_default. }
  destruct (ser_total (window_push ts amt w)) as [bs Hs].
  destruct (typed_insert t a _ _ Hs) as (t' & Hi & Ht & Hok').
  exists t'. split_and!; [|by apply Hok'|].
  - destruct (tree_get t a) as [row|e]; [|done]. simpl in *.
    rewrite Hw. simpl. by rewrite Hs.
  - rewrite Ht. unfold window_push. by rewrite Hev.
Qed.
End tracker.
