(* ===== verification/Ledger.v ===== *)
(** * The local ledger

    [LocalLedger] of [mycelium-coin/src/ledger.rs]: four sled trees and a
    settlement policy.  The operations are translated against the sled and
    bincode interfaces; [view] decodes the trees into finite maps, and the
    lemmas of the second half say what each operation does to the view. *)

From S2P Require Import Prelude External Text Transaction Policy.

Open Scope Z_scope.

Record AccountState := mkAcc {
  acc_address : string;
  balance_muon : Z;
  next_nonce : Z;
  pending_received : Z;
}.

Inductive ApplyResult :=
| Accepted
| Duplicate
| InvalidNonce (expected got : Z)
| InsufficientFunds (have need : Z)
| Invalid (msg : string).

(** ** Operations *)

Section ledger.
Context `{C : Crypto} `{D : Sled}.
Context `{BT : Bincode Transaction} `{BA : Bincode AccountState} `{BV : Bincode VelocityWindow}.

(** The named trees of the database. *)
Record Db := mkDb {
  accounts : Tree;
  transactions : Tree;
  refill_tree : Tree;
  settlement_velocity : Tree;
}.

Record LocalLedger := mkLedger { db : Db; policy : SettlementPolicy }.

Definition ledger_open (d : Db) : LocalLedger := mkLedger d beta_defaults.
Definition db_new : Db := mkDb tree_new tree_new tree_new tree_new.

Definition set_policy (p : SettlementPolicy) (l : LocalLedger) : LocalLedger :=
  mkLedger (db l) p.

Definition set_accounts (t : Tree) (l : LocalLedger) : LocalLedger :=
  mkLedger (mkDb t (transactions (db l)) (refill_tree (db l)) (settlement_velocity (db l))) (policy l).
Definition set_transactions (t : Tree) (l : LocalLedger) : LocalLedger :=
  mkLedger (mkDb (accounts (db l)) t (refill_tree (db l)) (settlement_velocity (db l))) (policy l).
Definition set_refills (t : Tree) (l : LocalLedger) : LocalLedger :=
  mkLedger (mkDb (accounts (db l)) (transactions (db l)) t (settlement_velocity (db l))) (policy l).
Definition set_velocity (t : Tree) (l : LocalLedger) : LocalLedger :=
  mkLedger (mkDb (accounts (db l)) (transactions (db l)) (refill_tree (db l)) t) (policy l).

Definition account_state (address : string) (l : LocalLedger) : anyhow AccountState :=
  row ← tree_get (accounts (db l)) address;
  match row with
  | Some bytes => de bytes
  | None => Ok (mkAcc address 0 0 0)
  end.

Definition update_account (address : string) (f : AccountState -> AccountState)
    : ST LocalLedger unit :=
  l ← st_get;
  acc ← st_lift (account_state address l);
  bytes ← st_lift (ser (f acc));
  t ← st_lift (tree_insert (accounts (db l)) address bytes);
  st_modify (set_accounts t).

(** [|acc| { acc.balance_muon -= total; acc.next_nonce += 1; }] *)
Definition debit (total : Z) (a : AccountState) : AccountState :=
  mkAcc (acc_address a) (balance_muon a -64 total) (next_nonce a +64 1) (pending_received a).

(** the credit closure of [apply_transaction] *)
Definition credit (tx : Transaction) (a : AccountState) : AccountState :=
  if is_confirmed tx then
    mkAcc (acc_address a) (balance_muon a +64 amount_muon tx) (next_nonce a) (pending_received a)
  else
    mkAcc (acc_address a) (balance_muon a) (next_nonce a) (pending_received a +64 amount_muon tx).

(** the settlement closure of [add_witness] *)
Definition settle (amt : Z) (a : AccountState) : AccountState :=
  mkAcc (acc_address a) (balance_muon a +64 amt) (next_nonce a) (pending_received a -sat amt).

Definition grant (amt : Z) (a : AccountState) : AccountState :=
  mkAcc (acc_address a) (balance_muon a +64 amt) (next_nonce a) (pending_received a).

Definition memo_len (tx : Transaction) : nat :=
  match memo tx with Some m => String.length m | None => 0%nat end.

Definition apply_transaction (tx : Transaction) : ST LocalLedger ApplyResult :=
  l ← st_get;
  dup ← st_lift (tree_contains_key (transactions (db l)) (tx_id tx));
  if (dup : bool) then mret Duplicate else
  if negb (tx_verify tx) then mret (Invalid "invalid signature") else
  if decide (tx_from tx = tx_to tx) then mret (Invalid "from and to must differ") else
  account ← st_lift (account_state (tx_from tx) l);
  if decide (tx_nonce tx ≠ next_nonce account) then
    mret (InvalidNonce (next_nonce account) (tx_nonce tx)) else
  match checked_add 64 (amount_muon tx) (fee_muon tx) with
  | None => st_err "amount overflow"
  | Some total =>
    if decide (balance_muon account < total) then
      mret (InsufficientFunds (balance_muon account) total) else
    if decide (64 < memo_len tx)%nat then mret (Invalid "memo too long") else
    match check_transfer_amount (policy l) (amount_muon tx) with
    | Err msg => mret (Invalid msg)
    | Ok _ =>
      encoded ← st_lift (ser tx);
      match check_tx_size (policy l) tx (Z.of_nat (length encoded)) with
      | Err msg => mret (Invalid msg)
      | Ok _ =>
        to_acc ← st_lift (account_state (tx_to tx) l);
        match check_balance_cap (policy l) (balance_muon to_acc) (pending_received to_acc)
                (amount_muon tx) with
        | Err msg => mret (Invalid msg)
        | Ok _ =>
          recent ← st_lift (recent_for (settlement_velocity (db l)) (tx_from tx));
          match check_velocity (policy l) recent (timestamp_ms tx) (amount_muon tx) with
          | Err msg => mret (Invalid msg)
          | Ok _ =>
            t ← st_lift (tree_insert (transactions (db l)) (tx_id tx) encoded);
            _ ← st_modify (set_transactions t);
            _ ← update_account (tx_from tx) (debit total);
            _ ← update_account (tx_to tx) (credit tx);
            l1 ← st_get;
            v ← st_lift (record_outbound (settlement_velocity (db l1)) (tx_from tx)
                           (timestamp_ms tx) (amount_muon tx));
            _ ← st_modify (set_velocity v);
            mret Accepted
          end
        end
      end
    end
  end.

Definition ledger_add_witness (txid peer : string) : ST LocalLedger bool :=
  l ← st_get;
  row ← st_lift (tree_get (transactions (db l)) txid);
  match row with
  | None => mret false
  | Some bytes =>
    tx ← st_lift (de bytes);
    let was_unconfirmed := negb (is_confirmed tx) in
    if decide (peer ∈ witnesses tx) then mret false else
    let tx' := tx_add_witness peer tx in
    _ ← (if was_unconfirmed && is_confirmed tx' then
           let amt := amount_muon tx' in
           to_acc ← st_lift (account_state (tx_to tx') l);
           match check_balance_cap (policy l) (balance_muon to_acc)
                   (pending_received to_acc -sat amt) amt with
           | Err msg => st_err msg
           | Ok _ => update_account (tx_to tx') (settle amt)
           end
         else mret tt);
    encoded ← st_lift (ser tx');
    l1 ← st_get;
    t ← st_lift (tree_insert (transactions (db l1)) txid encoded);
    _ ← st_modify (set_transactions t);
    mret true
  end.

Definition transaction (id : string) (l : LocalLedger) : anyhow (option Transaction) :=
  row ← tree_get (transactions (db l)) id;
  match row with
  | Some bytes => tx ← de bytes; Ok (Some tx)
  | None => Ok None
  end.

(** [sort_by_key(Reverse(timestamp_ms))] is a stable sort, newest first. *)
Definition newer (a b : Transaction) : Prop := timestamp_ms b <= timestamp_ms a.
Global Instance newer_dec : RelDecision newer.
Proof. intros a b. unfold newer. apply _. Defined.

Fixpoint decode_all (rows : list (string * list byte)) : anyhow (list Transaction) :=
  match rows with
  | [] => Ok []
  | (_, b) :: rows => tx ← de b; rest ← decode_all rows; Ok (tx :: rest)
  end.

Definition recent_transactions (limit : nat) (l : LocalLedger) : anyhow (list Transaction) :=
  rows ← tree_iter (transactions (db l));
  txs ← decode_all rows;
  Ok (take limit (sort_by newer txs)).

Definition genesis_credit (address : string) (amount : Z) : ST LocalLedger unit :=
  l ← st_get;
  acc ← st_lift (account_state address l);
  _ ← st_lift (check_balance_cap (policy l) (balance_muon acc) (pending_received acc) amount);
  update_account address (grant amount).

Definition refill_already_applied (rid : string) (l : LocalLedger) : anyhow bool :=
  tree_contains_key (refill_tree (db l)) rid.

Definition mark_refill_applied (rid : string) : ST LocalLedger unit :=
  l ← st_get;
  t ← st_lift (tree_insert (refill_tree (db l)) rid [x01]);
  st_modify (set_refills t).
End ledger.
