(* ===== verification/LedgerView.v ===== *)
(** * What the ledger operations do to the decoded trees

    [LedgerView] is the abstract ledger: finite maps of accounts, transactions
    and velocity windows and a set of refill ids.  [view] reads it off the sled
    trees.  The lemmas characterise every operation of [Ledger.v] on the view;
    the invariants of [LedgerTheorems.v] never look at bytes. *)

From S2P Require Import Prelude External Text Transaction Policy Ledger.

Open Scope Z_scope.

Record LedgerView := mkView {
  v_accounts : gmap string AccountState;
  v_txs : gmap string Transaction;
  v_refills : gset string;
  v_velocity : gmap string VelocityWindow;
  v_policy : SettlementPolicy;
}.

Definition v_acct (v : LedgerView) (a : string) : AccountState :=
  default (mkAcc a 0 0 0) (v_accounts v !! a).

Definition v_events (v : LedgerView) (a : string) : list (Z * Z) :=
  default [] (events <$> v_velocity v !! a).

Definition v_set_accounts (m : gmap string AccountState) (v : LedgerView) : LedgerView :=
  mkView m (v_txs v) (v_refills v) (v_velocity v) (v_policy v).
Definition v_set_txs (m : gmap string Transaction) (v : LedgerView) : LedgerView :=
  mkView (v_accounts v) m (v_refills v) (v_velocity v) (v_policy v).
Definition v_set_velocity (m : gmap string VelocityWindow) (v : LedgerView) : LedgerView :=
  mkView (v_accounts v) (v_txs v) (v_refills v) m (v_policy v).
Definition v_set_refills (s : gset string) (v : LedgerView) : LedgerView :=
  mkView (v_accounts v) (v_txs v) s (v_velocity v) (v_policy v).

(** One account rewritten by [f]. *)
Definition v_update (a : string) (f : AccountState -> AccountState) (v : LedgerView) : LedgerView :=
  v_set_accounts (<[a := f (v_acct v a)]> (v_accounts v)) v.

Definition v_push (a : string) (ts amt : Z) (v : LedgerView) : LedgerView :=
  v_set_velocity
    (<[a := mkWindow (pop_front_to MAX_STORED_EVENTS (v_events v a ++ [(ts, amt)]))]> (v_velocity v)) v.

(** The whole effect of an accepted transaction. *)
Definition v_accept (tx : Transaction) (v : LedgerView) : LedgerView :=
  v_push (tx_from tx) (timestamp_ms tx) (amount_muon tx)
    (v_update (tx_to tx) (credit tx)
      (v_update (tx_from tx) (debit (amount_muon tx + fee_muon tx))
        (v_set_txs (<[tx_id tx := tx]> (v_txs v)) v))).

(** The whole effect of a recorded witness. *)
Definition v_witness (txid peer : string) (tx : Transaction) (v : LedgerView) : LedgerView :=
  let tx' := tx_add_witness peer tx in
  let v1 := if negb (is_confirmed tx) && is_confirmed tx'
            then v_update (tx_to tx) (settle (amount_muon tx)) v else v in
  v_set_txs (<[txid := tx']> (v_txs v1)) v1.

(** Every guard of [apply_transaction], on the view; [len] is the serialised
    length of the transaction. *)
Record admissible `{C : Crypto} (len : Z) (v : LedgerView) (tx : Transaction) : Prop := {
  adm_fresh : v_txs v !! tx_id tx = None;
  adm_verify : tx_verify tx = true;
  adm_distinct : tx_from tx ≠ tx_to tx;
  adm_nonce : tx_nonce tx = next_nonce (v_acct v (tx_from tx));
  adm_no_overflow : amount_muon tx + fee_muon tx <= umax 64;
  adm_funds : amount_muon tx + fee_muon tx <= balance_muon (v_acct v (tx_from tx));
  adm_memo : (memo_len tx <= 64)%nat;
  adm_amount : check_transfer_amount (v_policy v) (amount_muon tx) = Ok tt;
  adm_size : len <= max_tx_bytes (v_policy v);
  adm_cap : check_balance_cap (v_policy v) (balance_muon (v_acct v (tx_to tx)))
              (pending_received (v_acct v (tx_to tx))) (amount_muon tx) = Ok tt;
  adm_velocity : check_velocity (v_policy v) (v_events v (tx_from tx)) (timestamp_ms tx)
                   (amount_muon tx) = Ok tt;
}.

Lemma v_acct_update a f v b :
  v_acct (v_update a f v) b = if decide (a = b) then f (v_acct v a) else v_acct v b.
Proof.
  unfold v_acct, v_update. simpl. case_decide as E.
  - subst. by rewrite lookup_insert_eq.
  - by rewrite lookup_insert_ne.
Qed.

Section view.
Context `{C : Crypto} `{D : Sled} `{DL : !SledLaws D}.
Context `{BT : Bincode Transaction} `{BTL : !BincodeLaws BT}.
Context `{BA : Bincode AccountState} `{BAL : !BincodeLaws BA}.
Context `{BV : Bincode VelocityWindow} `{BVL : !BincodeLaws BV}.

Definition view (l : LocalLedger) : LedgerView :=
  mkView (typed (accounts (db l))) (typed (transactions (db l)))
    (dom (tree_view (refill_tree (db l)))) (typed (settlement_velocity (db l))) (policy l).

(** Every row of the typed trees decodes. *)
Definition ledger_ok (l : LocalLedger) : Prop :=
  tree_ok (A:=AccountState) (accounts (db l))
  /\ tree_ok (A:=Transaction) (transactions (db l))
  /\ tree_ok (A:=VelocityWindow) (settlement_velocity (db l)).

Lemma ledger_ok_new : ledger_ok (ledger_open db_new).
Proof. split_and!; apply tree_ok_new. Qed.

Lemma view_new : view (ledger_open db_new) = mkView ∅ ∅ ∅ ∅ beta_defaults.
Proof.
  unfold view; simpl. rewrite !typed_new, tree_view_new, dom_empty_L. done.
Qed.

Lemma account_state_view a l :
  ledger_ok l -> account_state a l = Ok (v_acct (view l) a).
Proof.
  intros (Hok & _). unfold account_state, v_acct; simpl.
  pose proof (typed_get _ a Hok) as Hg.
  destruct (typed _ !! a) as [acc|]; simpl.
  - destruct Hg as (b & -> & Hd). exact Hd.
  - by rewrite Hg.
Qed.

Lemma update_account_view a f l :
  ledger_ok l -> exists l',
    update_account a f l = (l', Ok tt) /\ ledger_ok l' /\ view l' = v_update a f (view l).
Proof.
  intros Hok. unfold update_account, mbind, ST_bind, st_get, st_lift, st_modify.
  rewrite account_state_view by done.
  destruct (ser_total (f (v_acct (view l) a))) as [bs Hs]. rewrite Hs.
  destruct (typed_insert (accounts (db l)) a _ _ Hs) as (t' & -> & Ht & Hok').
  eexists. split; [done|]. destruct Hok as (H1 & H2 & H3). split.
  - split_and!; simpl; auto.
  - unfold view, v_update, v_set_accounts; simpl. by rewrite Ht.
Qed.

Lemma insert_tx_view id tx b l :
  ledger_ok l -> ser tx = Ok b -> exists t',
    tree_insert (transactions (db l)) id b = Ok t'
    /\ ledger_ok (set_transactions t' l)
    /\ view (set_transactions t' l) = v_set_txs (<[id := tx]> (v_txs (view l))) (view l).
Proof.
  intros (H1 & H2 & H3) Hs.
  destruct (typed_insert (transactions (db l)) id _ _ Hs) as (t' & Hi & Ht & Hok').
  exists t'. split_and!; [done|split_and!; simpl; auto|].
  unfold view, v_set_txs; simpl. by rewrite Ht.
Qed.

Lemma record_outbound_view a ts amt l :
  ledger_ok l -> exists t',
    record_outbound (settlement_velocity (db l)) a ts amt = Ok t'
    /\ ledger_ok (set_velocity t' l) /\ view (set_velocity t' l) = v_push a ts amt (view l).
Proof.
  intros (H1 & H2 & H3).
  destruct (record_outbound_spec _ a ts amt H3) as (t' & Hr & Hok' & Ht).
  exists t'. split_and!; [done|split_and!; simpl; auto|].
  unfold view, v_push, v_set_velocity; simpl. by rewrite Ht.
Qed.

Lemma contains_tx_view id l :
  ledger_ok l ->
  tree_contains_key (transactions (db l)) id = Ok (bool_decide (is_Some (v_txs (view l) !! id))).
Proof. intros (_ & H & _). by apply typed_contains. Qed.

Lemma recent_for_view a l :
  ledger_ok l -> recent_for (settlement_velocity (db l)) a = Ok (v_events (view l) a).
Proof. intros (_ & _ & H). by apply recent_for_spec. Qed.

(** The commit sequence of [apply_transaction]. *)
Lemma commit_view tx b l :
  ledger_ok l -> ser tx = Ok b -> exists l',
    (t ← st_lift (tree_insert (transactions (db l)) (tx_id tx) b);
     _ ← st_modify (set_transactions t);
     _ ← update_account (tx_from tx) (debit (amount_muon tx + fee_muon tx));
     _ ← update_account (tx_to tx) (credit tx);
     l1 ← st_get;
     v ← st_lift (record_outbound (settlement_velocity (db l1)) (tx_from tx)
                    (timestamp_ms tx) (amount_muon tx));
     _ ← st_modify (set_velocity v);
     mret Accepted) l = (l', Ok Accepted)
    /\ ledger_ok l' /\ view l' = v_accept tx (view l).
Proof.
  intros Hok Hs.
  destruct (insert_tx_view (tx_id tx) tx b l Hok Hs) as (t & Hi & Hok1 & Hv1).
  destruct (update_account_view (tx_from tx) (debit (amount_muon tx + fee_muon tx)) _ Hok1)
    as (l2 & Hu2 & Hok2 & Hv2).
  destruct (update_account_view (tx_to tx) (credit tx) _ Hok2) as (l3 & Hu3 & Hok3 & Hv3).
  destruct (record_outbound_view (tx_from tx) (timestamp_ms tx) (amount_muon tx) _ Hok3)
    as (t4 & Hr & Hok4 & Hv4).
  exists (set_velocity t4 l3). split_and!; [|done|].
  - unfold st_lift, st_modify, st_get. rewrite Hi.
    do 2 (erewrite ST_bind_Ok; [|done]).
    erewrite ST_bind_Ok by exact Hu2. erewrite ST_bind_Ok by exact Hu3.
    erewrite ST_bind_Ok by done. rewrite Hr. done.
  - rewrite Hv4, Hv3, Hv2, Hv1. done.
Qed.
End view.

(** [st_run] evaluates the reads of a ledger operation at a well-formed ledger. *)
Ltac st_run Hok :=
  unfold mret, ST_ret, st_err in *;
  repeat first
    [ erewrite ST_bind_Ok; [|unfold st_get, st_lift, st_gets; reflexivity]
    | erewrite ST_bind_Ok;
      [|unfold st_lift; first
        [ rewrite (contains_tx_view _ _ Hok) | rewrite (account_state_view _ _ Hok)
        | rewrite (recent_for_view _ _ Hok) ]; reflexivity] ].

Section ops.
Context `{C : Crypto} `{D : Sled} `{DL : !SledLaws D}.
Context `{BT : Bincode Transaction} `{BTL : !BincodeLaws BT}.
Context `{BA : Bincode AccountState} `{BAL : !BincodeLaws BA}.
Context `{BV : Bincode VelocityWindow} `{BVL : !BincodeLaws BV}.

(** [apply_transaction] always returns; it commits exactly the admissible
    transactions and otherwise leaves the ledger untouched. *)
Lemma apply_transaction_view tx b l :
  ledger_ok l -> ser tx = Ok b ->
  let adm := admissible (Z.of_nat (length b)) (view l) tx in
  (adm /\ exists l', apply_transaction tx l = (l', Ok Accepted)
            /\ ledger_ok l' /\ view l' = v_accept tx (view l))
  \/ (~ adm /\ exists r, apply_transaction tx l = (l, r) /\ r ≠ Ok Accepted).
Proof.
  intros Hok Hs adm. unfold apply_transaction. st_run Hok.
  case_bool_decide as Hdup.
  { right. split; [|by eexists]. intros [Hf]. rewrite Hf in Hdup. by destruct Hdup. }
  destruct (tx_verify tx) eqn:Hv; simpl.
  2:{ right. split; [|by eexists]. intros []. congruence. }
  case_decide as Hd.
  { right. split; [|by eexists]. by intros []. }
  st_run Hok. case_decide as Hn.
  { right. split; [|by eexists]. by intros []. }
  unfold checked_add. case_decide as Hov.
  2:{ right. split; [|by eexists]. by intros []. }
  case_decide as Hf.
  { right. split; [|by eexists]. intros []. lia. }
  case_decide as Hm.
  { right. split; [|by eexists]. intros []. lia. }
  destruct (check_transfer_amount (policy l) (amount_muon tx)) as [[]|e] eqn:Ha.
  2:{ right. split; [|by eexists]. intros []. simpl in *. congruence. }
  rewrite Hs. st_run Hok. unfold check_tx_size. case_decide as Hsz.
  { right. split; [|by eexists]. intros []. simpl in *. lia. }
  rewrite Ha. st_run Hok.
  destruct (check_balance_cap (policy l) _ _ _) as [[]|e] eqn:Hc.
  2:{ right. split; [|by eexists]. intros []. simpl in *. congruence. }
  st_run Hok.
  destruct (check_velocity (policy l) _ _ _) as [[]|e] eqn:Hve.
  2:{ right. split; [|by eexists]. intros []. simpl in *. congruence. }
  left. split; [|exact (commit_view tx b l Hok Hs)].
  constructor; simpl in *; try (done || lia).
  by apply eq_None_not_Some.
Qed.

Lemma add_witness_view id p l :
  ledger_ok l ->
  match v_txs (view l) !! id with
  | None => ledger_add_witness id p l = (l, Ok false)
  | Some tx =>
    if decide (p ∈ witnesses tx) then ledger_add_witness id p l = (l, Ok false) else
    let acc := v_acct (view l) (tx_to tx) in
    let amt := amount_muon tx in
    match (if negb (is_confirmed tx) && is_confirmed (tx_add_witness p tx)
           then check_balance_cap (policy l) (balance_muon acc)
                  (pending_received acc -sat amt) amt
           else Ok tt) with
    | Err e => ledger_add_witness id p l = (l, Err e)
    | Ok _ => exists l', ledger_add_witness id p l = (l', Ok true)
                /\ ledger_ok l' /\ view l' = v_witness id p tx (view l)
    end
  end.
Proof.
  intros Hok. pose proof Hok as (_ & Htx & _).
  pose proof (typed_get _ id Htx) as Hg. unfold ledger_add_witness. simpl.
  destruct (typed (transactions (db l)) !! id) as [tx|] eqn:El.
  2:{ st_run Hok. by rewrite Hg. }
  destruct Hg as (b & Hb & Hd). st_run Hok.
  rewrite (ST_bind_lift _ _ _ _ Hb). cbn beta iota. rewrite (ST_bind_lift _ _ _ _ Hd).
  case_decide as Hp; [done|]. cbn [tx_to amount_muon tx_add_witness set_witnesses].
  destruct (ser_total (tx_add_witness p tx)) as [b' Hs].
  unfold v_witness. fold (tx_add_witness p tx).
  destruct (negb (is_confirmed tx) && is_confirmed (tx_add_witness p tx)) eqn:Hcf.
  - destruct (check_balance_cap _ _ _ _) as [[]|e] eqn:Hc.
    + destruct (update_account_view (tx_to tx) (settle (amount_muon tx)) l Hok)
        as (l1 & Hu & Hok1 & Hv1).
      destruct (insert_tx_view id _ _ l1 Hok1 Hs) as (t & Hi & Hok2 & Hv2).
      exists (set_transactions t l1). split_and!; [|done|by rewrite Hv2, Hv1].
      erewrite ST_bind_Ok.
      2:{ st_run Hok. rewrite Hc. exact Hu. }
      rewrite (ST_bind_lift _ _ _ _ Hs). st_run Hok. by rewrite (ST_bind_lift _ _ _ _ Hi).
    + erewrite ST_bind_Err; [done|]. st_run Hok. by rewrite Hc.
  - destruct (insert_tx_view id _ _ l Hok Hs) as (t & Hi & Hok2 & Hv2).
    exists (set_transactions t l). split_and!; [|done|by rewrite Hv2].
    erewrite ST_bind_Ok by done. rewrite (ST_bind_lift _ _ _ _ Hs). st_run Hok.
    by rewrite (ST_bind_lift _ _ _ _ Hi).
Qed.

Lemma genesis_credit_view a amt l :
  ledger_ok l ->
  let acc := v_acct (view l) a in
  match check_balance_cap (policy l) (balance_muon acc) (pending_received acc) amt with
  | Err e => genesis_credit a amt l = (l, Err e)
  | Ok _ => exists l', genesis_credit a amt l = (l', Ok tt)
              /\ ledger_ok l' /\ view l' = v_update a (grant amt) (view l)
  end.
Proof.
  intros Hok acc. unfold genesis_credit. st_run Hok. fold acc.
  unfold mbind, ST_bind, st_lift.
  destruct (check_balance_cap _ _ _ _) as [[]|e]; [|done].
  exact (update_account_view a (grant amt) l Hok).
Qed.

Lemma mark_refill_view r l :
  ledger_ok l -> exists l',
    mark_refill_applied r l = (l', Ok tt) /\ ledger_ok l'
    /\ view l' = v_set_refills ({[r]} ∪ v_refills (view l)) (view l).
Proof.
  intros Hok. unfold mark_refill_applied, mbind, ST_bind, st_get, st_lift, st_modify.
  destruct (tree_insert_view (refill_tree (db l)) r [x01]) as (t & -> & Ht).
  eexists. split_and!; [done|exact Hok|].
  unfold view, v_set_refills; simpl. by rewrite Ht, dom_insert_L.
Qed.

Lemma refill_applied_view r l :
  refill_already_applied r l = Ok (bool_decide (r ∈ v_refills (view l))).
Proof.
  unfold refill_already_applied. rewrite tree_contains_view. f_equal.
  apply bool_decide_ext. simpl. by rewrite elem_of_dom.
Qed.
End ops.
