(* ===== verification/LedgerTheorems.v ===== *)
(** * Ledger invariants

    Reachable ledgers: no account exceeds the vault cap, the pending column is
    exactly the sum of the unconfirmed incoming transactions, nonces count the
    accepted outgoing ones (so no nonce is spent twice), and money is neither
    created nor lost apart from the fees. *)

From S2P Require Import Prelude External Text Transaction Policy Ledger LedgerView Instances.

Open Scope Z_scope.

(** ** Quantities read off the view *)

Definition funds (a : AccountState) : Z := balance_muon a + pending_received a.

(** what one transaction contributes to the pending column of [a] *)
Definition pending_for (a : string) (tx : Transaction) : Z :=
  if decide (tx_to tx = a /\ is_confirmed tx = false) then amount_muon tx else 0.

Definition sent_by (a : string) (tx : Transaction) : Z :=
  if decide (tx_from tx = a) then 1 else 0.

Definition v_sent (v : LedgerView) (a : string) : Z := msum (sent_by a) (v_txs v).

Definition supply (v : LedgerView) : Z := msum funds (v_accounts v).
Definition fees_paid (v : LedgerView) : Z := msum fee_muon (v_txs v).

(** ** The invariant *)

Record stored_tx_ok (p : SettlementPolicy) `{C : Crypto} (id : string) (tx : Transaction) : Prop := {
  st_id : tx_id tx = id;
  st_amount : 0 < amount_muon tx <= max_transfer_muon p;
  st_fee : 0 <= fee_muon tx;
  st_nonce : 0 <= tx_nonce tx;
  st_distinct : tx_from tx ≠ tx_to tx;
  st_verify : tx_verify tx = true;
  st_memo : (memo_len tx <= 64)%nat;
}.

Record acct_ok (p : SettlementPolicy) (a : string) (acc : AccountState) : Prop := {
  ac_address : acc_address acc = a;
  ac_balance : 0 <= balance_muon acc;
  ac_pending : 0 <= pending_received acc;
  ac_cap : funds acc <= max_balance_muon p;
}.

Record ledger_inv `{C : Crypto} (p : SettlementPolicy) (issued : Z) (v : LedgerView) : Prop := {
  inv_policy : v_policy v = p;
  inv_acct : forall a, acct_ok p a (v_acct v a);
  inv_tx : forall id tx, v_txs v !! id = Some tx -> stored_tx_ok p id tx;
  inv_pending : forall a, pending_received (v_acct v a) = msum (pending_for a) (v_txs v);
  inv_nonce : forall a, next_nonce (v_acct v a) = wrap 64 (v_sent v a);
  inv_below : forall id tx, v_txs v !! id = Some tx ->
    v_sent v (tx_from tx) < 2 ^ 64 -> tx_nonce tx < v_sent v (tx_from tx);
  inv_spend_once : forall id1 tx1 id2 tx2,
    v_txs v !! id1 = Some tx1 -> v_txs v !! id2 = Some tx2 ->
    v_sent v (tx_from tx1) < 2 ^ 64 ->
    tx_from tx1 = tx_from tx2 -> tx_nonce tx1 = tx_nonce tx2 -> id1 = id2;
  inv_supply : supply v + fees_paid v = issued;
  inv_events : forall a, Forall (fun e => 0 <= e.2) (v_events v a)
                         /\ (length (v_events v a) <= MAX_STORED_EVENTS)%nat;
}.

Create HintDb ledger.

Lemma sent_by_nonneg a tx : 0 <= sent_by a tx.
Proof. unfold sent_by. case_decide; lia. Qed.

Lemma v_sent_nonneg v a : 0 <= v_sent v a.
Proof. apply msum_nonneg. intros. apply sent_by_nonneg. Qed.

Lemma supply_update a f v :
  supply (v_update a f v) = supply v + funds (f (v_acct v a)) - funds (v_acct v a).
Proof.
  unfold supply, v_update, v_acct; simpl. rewrite msum_insert.
  destruct (v_accounts v !! a) as [acc|]; simpl; unfold funds; simpl; lia.
Qed.

Lemma v_sent_insert v id tx a :
  v_txs v !! id = None ->
  v_sent (v_set_txs (<[id:=tx]> (v_txs v)) v) a = sent_by a tx + v_sent v a.
Proof. intros. unfold v_sent; simpl. by rewrite msum_insert_new. Qed.

Lemma v_events_push a ts amt v b :
  v_events (v_push a ts amt v) b =
  if decide (a = b) then pop_front_to MAX_STORED_EVENTS (v_events v a ++ [(ts, amt)])
  else v_events v b.
Proof.
  unfold v_events, v_push; simpl. case_decide as E.
  - subst. by rewrite lookup_insert_eq.
  - by rewrite lookup_insert_ne.
Qed.

Lemma events_ok_push l ts amt :
  0 <= amt -> Forall (fun e : Z * Z => 0 <= e.2) l ->
  Forall (fun e : Z * Z => 0 <= e.2) (pop_front_to MAX_STORED_EVENTS (l ++ [(ts, amt)]))
  /\ (length (pop_front_to MAX_STORED_EVENTS (l ++ [(ts, amt)])) <= MAX_STORED_EVENTS)%nat.
Proof.
  intros Ha Hl. split; [|apply pop_front_to_length].
  rewrite pop_front_to_drop. apply Forall_drop, Forall_app. split; [done|]. by constructor.
Qed.

Section inv.
Context `{C : Crypto} (p : SettlementPolicy) (Hp : policy_wf p).

Lemma ledger_inv_new : ledger_inv p 0 (mkView ∅ ∅ ∅ ∅ p).
Proof.
  split; try done; unfold v_acct, v_sent, supply, fees_paid, v_events; simpl.
  - intros a. rewrite lookup_empty; simpl. destruct Hp as [[] _].
    split; unfold funds; simpl; lia || done.
  - intros a. rewrite lookup_empty; simpl. split; [constructor|]. unfold MAX_STORED_EVENTS. lia.
Qed.

Section accept.
Context (n len : Z) (v : LedgerView) (tx : Transaction).
Hypothesis Hinv : ledger_inv p n v.
Hypothesis Hwf : tx_wf tx.
Hypothesis Hadm : admissible len v tx.

Lemma accept_acct a :
  v_acct (v_accept tx v) a =
  if decide (tx_to tx = a) then credit tx (v_acct v (tx_to tx))
  else if decide (tx_from tx = a)
  then debit (amount_muon tx + fee_muon tx) (v_acct v (tx_from tx))
  else v_acct v a.
Proof.
  pose proof (adm_distinct _ _ _ Hadm).
  unfold v_accept. change (v_acct (v_push _ _ _ ?w) a) with (v_acct w a).
  rewrite !v_acct_update. rewrite (decide_False (P := tx_from tx = tx_to tx)) by done.
  done.
Qed.

Lemma accept_amount : 0 < amount_muon tx <= max_transfer_muon p.
Proof.
  pose proof (adm_amount _ _ _ Hadm) as H. rewrite (inv_policy _ _ _ Hinv) in H.
  apply check_transfer_amount_Ok in H; [done|]. apply Hwf.
Qed.

Lemma accept_cap :
  funds (v_acct v (tx_to tx)) + amount_muon tx <= max_balance_muon p.
Proof.
  pose proof (adm_cap _ _ _ Hadm) as H. rewrite (inv_policy _ _ _ Hinv) in H.
  destruct (inv_acct _ _ _ Hinv (tx_to tx)) as [_ ? ? _]. pose proof accept_amount.
  apply check_balance_cap_Ok in H; [done|done|lia..].
Qed.

Lemma accept_debit :
  let a := v_acct v (tx_from tx) in
  let t := amount_muon tx + fee_muon tx in
  debit t a = mkAcc (tx_from tx) (balance_muon a - t) (next_nonce a +64 1) (pending_received a).
Proof.
  intros a t. pose proof (adm_funds _ _ _ Hadm). fold a in H.
  destruct (inv_acct _ _ _ Hinv (tx_from tx)) as [Ha ? ? Hc]. fold a in Ha, Hc.
  pose proof accept_amount. destruct Hwf as (_ & [? _] & _). destruct Hp as [Hm _].
  unfold debit. rewrite Ha, wsub_small; [done|].
  unfold funds in *. subst t a. unfold in_u, umax in *. lia.
Qed.

Lemma accept_credit :
  let a := v_acct v (tx_to tx) in
  credit tx a =
  mkAcc (tx_to tx)
    (balance_muon a + if is_confirmed tx then amount_muon tx else 0) (next_nonce a)
    (pending_received a + if is_confirmed tx then 0 else amount_muon tx).
Proof.
  intros a. pose proof accept_cap as Hc. pose proof accept_amount.
  destruct (inv_acct _ _ _ Hinv (tx_to tx)) as [Ha ? ? _]. fold a in Ha, Hc.
  destruct Hp as [Hm _]. unfold credit, funds in *.
  destruct (is_confirmed tx); rewrite Ha, wadd_small, ?Z.add_0_r;
    (done || unfold in_u, umax in *; subst a; lia).
Qed.

Lemma accept_acct_ok a : acct_ok p a (v_acct (v_accept tx v) a).
Proof.
  rewrite accept_acct. pose proof accept_cap. pose proof accept_amount.
  pose proof (adm_funds _ _ _ Hadm). destruct Hwf as (_ & [? _] & _).
  destruct (inv_acct _ _ _ Hinv (tx_to tx)) as [_ ? ? ?].
  destruct (inv_acct _ _ _ Hinv (tx_from tx)) as [_ ? ? ?].
  repeat case_decide; subst; [..|apply (inv_acct _ _ _ Hinv)].
  - rewrite accept_credit. split; unfold funds in *; simpl; destruct (is_confirmed tx); done || lia.
  - rewrite accept_debit. split; unfold funds in *; simpl; done || lia.
Qed.

Lemma accept_pending a :
  pending_received (v_acct (v_accept tx v) a) = msum (pending_for a) (v_txs (v_accept tx v)).
Proof.
  change (v_txs (v_accept tx v)) with (<[tx_id tx := tx]> (v_txs v)).
  rewrite msum_insert_new by apply Hadm. rewrite <- (inv_pending _ _ _ Hinv), accept_acct.
  unfold pending_for. pose proof (adm_distinct _ _ _ Hadm).
  case_decide as Ht; [|case_decide as Hf]; rewrite ?accept_credit, ?accept_debit; simpl.
  - subst. destruct (is_confirmed tx); case_decide as Hd; intuition (done || lia).
  - rewrite decide_False by naive_solver. by subst.
  - rewrite decide_False by naive_solver. lia.
Qed.

Lemma accept_sent a : v_sent (v_accept tx v) a = sent_by a tx + v_sent v a.
Proof. apply (v_sent_insert v (tx_id tx) tx a). apply Hadm. Qed.

Lemma accept_nonce a :
  next_nonce (v_acct (v_accept tx v) a) = wrap 64 (v_sent (v_accept tx v) a).
Proof.
  rewrite accept_sent, accept_acct. unfold sent_by. pose proof (adm_distinct _ _ _ Hadm).
  case_decide as Ht; [|case_decide as Hf]; rewrite ?accept_credit, ?accept_debit; simpl.
  - rewrite decide_False by congruence. subst. apply (inv_nonce _ _ _ Hinv).
  - subst. rewrite (inv_nonce _ _ _ Hinv). unfold wadd, wrap. rewrite Zplus_mod_idemp_l.
    f_equal. lia.
  - apply (inv_nonce _ _ _ Hinv).
Qed.

(** the nonce of the accepted transaction is the number of earlier ones *)
Lemma accept_fresh_nonce :
  v_sent v (tx_from tx) < 2 ^ 64 -> tx_nonce tx = v_sent v (tx_from tx).
Proof.
  intros Hlt. rewrite (adm_nonce _ _ _ Hadm), (inv_nonce _ _ _ Hinv).
  apply wrap_small. pose proof (v_sent_nonneg v (tx_from tx)). unfold in_u. lia.
Qed.

Lemma accept_below id t :
  v_txs (v_accept tx v) !! id = Some t ->
  v_sent (v_accept tx v) (tx_from t) < 2 ^ 64 ->
  tx_nonce t < v_sent (v_accept tx v) (tx_from t).
Proof.
  change (v_txs (v_accept tx v)) with (<[tx_id tx := tx]> (v_txs v)).
  rewrite accept_sent. pose proof (sent_by_nonneg (tx_from t) tx).
  intros [[<- <-]|[_ Ht]]%lookup_insert_Some Hlt.
  - unfold sent_by in *. rewrite decide_True in * by done.
    rewrite accept_fresh_nonce by lia. lia.
  - pose proof (inv_below _ _ _ Hinv _ _ Ht ltac:(lia)). lia.
Qed.

Lemma accept_spend_once id1 t1 id2 t2 :
  v_txs (v_accept tx v) !! id1 = Some t1 -> v_txs (v_accept tx v) !! id2 = Some t2 ->
  v_sent (v_accept tx v) (tx_from t1) < 2 ^ 64 ->
  tx_from t1 = tx_from t2 -> tx_nonce t1 = tx_nonce t2 -> id1 = id2.
Proof.
  change (v_txs (v_accept tx v)) with (<[tx_id tx := tx]> (v_txs v)).
  rewrite accept_sent. intros H1 H2 Hlt Hf Hn.
  pose proof (sent_by_nonneg (tx_from t1) tx).
  apply lookup_insert_Some in H1 as [[<- <-]|[_ H1]];
    apply lookup_insert_Some in H2 as [[<- <-]|[_ H2]]; [done|..].
  - pose proof (inv_below _ _ _ Hinv _ _ H2) as Hb. rewrite <- Hf in Hb.
    rewrite accept_fresh_nonce in Hn by lia. lia.
  - pose proof (inv_below _ _ _ Hinv _ _ H1 ltac:(lia)) as Hb.
    rewrite Hf in *. rewrite accept_fresh_nonce in Hn by lia. lia.
  - eapply (inv_spend_once _ _ _ Hinv); eauto. lia.
Qed.

Lemma accept_supply : supply (v_accept tx v) + fees_paid (v_accept tx v) = n.
Proof.
  unfold v_accept. change (supply (v_push _ _ _ ?w)) with (supply w).
  rewrite !supply_update, v_acct_update.
  rewrite decide_False by apply Hadm.
  change (v_acct (v_set_txs ?m v)) with (v_acct v).
  change (supply (v_set_txs ?m v)) with (supply v).
  change (fees_paid _) with (msum fee_muon (<[tx_id tx := tx]> (v_txs v))).
  rewrite msum_insert_new by apply Hadm. rewrite accept_debit, accept_credit.
  rewrite <- (inv_supply _ _ _ Hinv). unfold fees_paid, funds; simpl.
  destruct (is_confirmed tx); lia.
Qed.

Lemma accept_inv : ledger_inv p n (v_accept tx v).
Proof.
  split; eauto using accept_acct_ok, accept_pending, accept_nonce, accept_below,
           accept_spend_once, accept_supply.
  - apply Hinv.
  - change (v_txs (v_accept tx v)) with (<[tx_id tx := tx]> (v_txs v)).
    intros id t [[<- <-]|[_ Ht]]%lookup_insert_Some; [|by apply Hinv].
    destruct Hwf as (_ & [? _] & _ & [? _]). pose proof accept_amount.
    by split; try apply Hadm.
  - intros a. unfold v_accept. rewrite v_events_push.
    change (v_events (v_update _ _ ?w)) with (v_events w).
    change (v_events (v_update _ _ ?w)) with (v_events w).
    change (v_events (v_set_txs _ ?w)) with (v_events w).
    case_decide; [|apply Hinv]. apply events_ok_push; [|apply Hinv].
    pose proof accept_amount. lia.
Qed.
End accept.

Section witness.
Context (n : Z) (v : LedgerView) (id peer : string) (tx : Transaction).
Hypothesis Hinv : ledger_inv p n v.
Hypothesis Htx : v_txs v !! id = Some tx.

Lemma pending_covers : is_confirmed tx = false ->
  amount_muon tx <= pending_received (v_acct v (tx_to tx)).
Proof.
  intros Hc. rewrite (inv_pending _ _ _ Hinv).
  replace (amount_muon tx) with (pending_for (tx_to tx) tx)
    by (unfold pending_for; by rewrite decide_True).
  apply (msum_elem _ _ id); [|done]. intros k t Ht. unfold pending_for.
  destruct (inv_tx _ _ _ Hinv _ _ Ht). case_decide; lia.
Qed.

(** the cap check of [add_witness] cannot fail on a reachable ledger *)
Lemma witness_cap_ok : is_confirmed tx = false ->
  check_balance_cap p (balance_muon (v_acct v (tx_to tx)))
    (pending_received (v_acct v (tx_to tx)) -sat amount_muon tx) (amount_muon tx) = Ok tt.
Proof.
  intros Hc. pose proof (pending_covers Hc). destruct (inv_tx _ _ _ Hinv _ _ Htx).
  destruct (inv_acct _ _ _ Hinv (tx_to tx)) as [_ ? ? ?]. unfold funds in *.
  apply check_balance_cap_Ok; unfold sat_sub; done || lia.
Qed.

Lemma settle_acct : is_confirmed tx = false ->
  let a := v_acct v (tx_to tx) in
  settle (amount_muon tx) a =
  mkAcc (tx_to tx) (balance_muon a + amount_muon tx) (next_nonce a)
    (pending_received a - amount_muon tx).
Proof.
  intros Hc a. pose proof (pending_covers Hc). destruct (inv_tx _ _ _ Hinv _ _ Htx).
  destruct (inv_acct _ _ _ Hinv (tx_to tx)) as [Ha ? ? ?]. fold a in Ha.
  destruct Hp as [Hm _]. unfold settle, funds in *. rewrite Ha, wadd_small.
  - f_equal. unfold sat_sub. subst a. lia.
  - unfold in_u, umax in *. subst a. lia.
Qed.

Hypothesis Hnew : peer ∉ witnesses tx.
Let tx' := tx_add_witness peer tx.
Let v' := v_witness id peer tx v.
Let flips := negb (is_confirmed tx) && is_confirmed tx'.

Lemma witness_mono : is_confirmed tx = true -> is_confirmed tx' = true.
Proof.
  unfold is_confirmed. subst tx'. rewrite !Nat.leb_le.
  cbn [witnesses tx_add_witness set_witnesses]. rewrite size_union by set_solver.
  rewrite size_singleton. lia.
Qed.

Lemma witness_txs : v_txs v' = <[id := tx']> (v_txs v).
Proof. subst v'. unfold v_witness. by destruct (_ && _). Qed.

Lemma witness_msum f : msum f (v_txs v') = f tx' - f tx + msum f (v_txs v).
Proof. rewrite witness_txs, msum_insert, Htx. done. Qed.

Lemma witness_sent a : v_sent v' a = v_sent v a.
Proof. unfold v_sent. rewrite witness_msum. unfold sent_by. simpl. lia. Qed.

Lemma witness_acct a :
  v_acct v' a = if flips then
    (if decide (tx_to tx = a) then settle (amount_muon tx) (v_acct v (tx_to tx)) else v_acct v a)
  else v_acct v a.
Proof.
  subst v' flips tx'. unfold v_witness. destruct (_ && _); [|done].
  change (v_acct (v_set_txs _ ?w)) with (v_acct w). apply v_acct_update.
Qed.

Lemma witness_tx_cases k t :
  v_txs v' !! k = Some t ->
  exists t0, v_txs v !! k = Some t0 /\ t = set_witnesses (witnesses t) t0.
Proof.
  rewrite witness_txs. intros [[<- <-]|[_ Ht]]%lookup_insert_Some.
  - by exists tx.
  - exists t. split; [done|]. by destruct t.
Qed.

Lemma witness_pending a :
  pending_received (v_acct v' a) = msum (pending_for a) (v_txs v').
Proof.
  rewrite witness_msum, <- (inv_pending _ _ _ Hinv), witness_acct.
  pose proof witness_mono. unfold flips. unfold pending_for at 1. simpl.
  change (tx_to tx') with (tx_to tx). change (amount_muon tx') with (amount_muon tx).
  unfold pending_for.
  destruct (is_confirmed tx) eqn:E, (is_confirmed tx') eqn:E'; simpl; try (intuition congruence);
    repeat case_decide; subst; try (intuition congruence); try lia.
  rewrite settle_acct by done. simpl. lia.
Qed.

Lemma witness_supply : supply v' + fees_paid v' = n.
Proof.
  unfold fees_paid. rewrite witness_msum. change (fee_muon tx') with (fee_muon tx).
  rewrite <- (inv_supply _ _ _ Hinv). unfold fees_paid.
  enough (supply v' = supply v) by lia.
  subst v'. unfold v_witness. destruct (negb (is_confirmed tx) && _) eqn:E; [|done].
  change (supply (v_set_txs _ ?w)) with (supply w).
  apply andb_prop in E as [E%negb_true_iff _].
  rewrite supply_update, settle_acct by done. unfold funds; simpl. lia.
Qed.

Lemma witness_inv : ledger_inv p n v'.
Proof.
  split; eauto using witness_pending, witness_supply.
  - subst v'. unfold v_witness. destruct (_ && _); apply Hinv.
  - intros a. rewrite witness_acct. pose proof (inv_acct _ _ _ Hinv a).
    destruct flips eqn:E; [|done]. case_decide; [subst a|done].
    apply andb_prop in E as [E%negb_true_iff _]. rewrite settle_acct by done.
    pose proof (pending_covers E). destruct (inv_tx _ _ _ Hinv _ _ Htx).
    destruct H as [? ? ? ?]. split; unfold funds in *; simpl; done || lia.
  - intros k t (t0 & Ht0 & ->)%witness_tx_cases.
    destruct (inv_tx _ _ _ Hinv _ _ Ht0). by split.
  - intros a. rewrite witness_sent, <- (inv_nonce _ _ _ Hinv), witness_acct.
    destruct flips; [|done]. by case_decide; subst.
  - intros k t (t0 & Ht0 & ->)%witness_tx_cases. rewrite witness_sent.
    apply (inv_below _ _ _ Hinv _ _ Ht0).
  - intros k1 t1 k2 t2 (s1 & Hs1 & ->)%witness_tx_cases (s2 & Hs2 & ->)%witness_tx_cases.
    rewrite witness_sent. apply (inv_spend_once _ _ _ Hinv _ _ _ _ Hs1 Hs2).
  - intros a. replace (v_events v' a) with (v_events v a); [apply Hinv|].
    subst v'. unfold v_witness. by destruct (_ && _).
Qed.
End witness.

Lemma genesis_inv n v a amt :
  ledger_inv p n v -> 0 <= amt ->
  check_balance_cap p (balance_muon (v_acct v a)) (pending_received (v_acct v a)) amt = Ok tt ->
  ledger_inv p (n + amt) (v_update a (grant amt) v).
Proof.
  intros Hinv Hamt Hc. destruct (inv_acct _ _ _ Hinv a) as [Ha Hb Hpe Hcap].
  apply check_balance_cap_Ok in Hc; [|done..].
  assert (grant amt (v_acct v a) = mkAcc a (balance_muon (v_acct v a) + amt)
            (next_nonce (v_acct v a)) (pending_received (v_acct v a))) as Hg.
  { unfold grant. rewrite Ha, wadd_small; [done|]. destruct Hp as [? _].
    unfold in_u, umax in *. lia. }
  split; try apply Hinv.
  - intros b. rewrite v_acct_update. case_decide; [subst b|apply Hinv].
    rewrite Hg. split; unfold funds; simpl; done || lia.
  - intros b. rewrite v_acct_update. case_decide; [subst b; rewrite Hg|]; apply Hinv.
  - intros b. rewrite v_acct_update. case_decide; [subst b; rewrite Hg|]; apply Hinv.
  - rewrite supply_update, Hg. change (fees_paid (v_update a (grant amt) v)) with (fees_paid v).
    rewrite <- (inv_supply _ _ _ Hinv). unfold funds; simpl. lia.
Qed.

Lemma refills_inv n v s : ledger_inv p n v -> ledger_inv p n (v_set_refills s v).
Proof. intros []. by split. Qed.
End inv.

(** ** Theorems about reachable ledgers

    [reach issued l]: the ledger [l] is obtained from an empty database by any
    sequence of operations, [issued] muon having been granted by
    [genesis_credit].  The theorems restate the invariant in the terms of the
    public API. *)


Lemma beta_wf : policy_wf beta_defaults.
Proof. apply (bool_decide_eq_true_1 _). vm_compute. done. Qed.

Section reach.
Context `{C : Crypto} `{D : Sled} `{DL : !SledLaws D}.
Context `{BT : Bincode Transaction} `{BTL : !BincodeLaws BT}.
Context `{BA : Bincode AccountState} `{BAL : !BincodeLaws BA}.
Context `{BV : Bincode VelocityWindow} `{BVL : !BincodeLaws BV}.

Inductive reach : Z -> LocalLedger -> Prop :=
| reach_open : reach 0 (ledger_open db_new)
| reach_reopen n l : reach n l -> reach n (ledger_open (db l))
| reach_apply n l tx l' r :
    reach n l -> tx_wf tx -> apply_transaction tx l = (l', r) -> reach n l'
| reach_witness n l id peer l' r :
    reach n l -> ledger_add_witness id peer l = (l', r) -> reach n l'
| reach_genesis n l a amt l' r :
    reach n l -> in_u 64 amt -> genesis_credit a amt l = (l', r) ->
    reach (n + if is_ok r then amt else 0) l'
| reach_refill n l rid l' r :
    reach n l -> mark_refill_applied rid l = (l', r) -> reach n l'.

Lemma witness_step n l id peer :
  ledger_ok l -> ledger_inv beta_defaults n (view l) -> exists l' b,
    ledger_add_witness id peer l = (l', Ok b) /\ ledger_ok l'
    /\ ledger_inv beta_defaults n (view l').
Proof.
  intros Hok Hinv. pose proof (add_witness_view id peer l Hok) as H.
  destruct (v_txs (view l) !! id) as [tx|] eqn:Htx; [|by eauto].
  case_decide as Hp; [by eauto|]. cbv zeta in H.
  destruct (negb (is_confirmed tx) && _) eqn:E.
  - apply andb_prop in E as [E%negb_true_iff _].
    pose proof (inv_policy _ _ _ Hinv) as Hpol. simpl in Hpol. rewrite Hpol in H.
    rewrite (witness_cap_ok _ beta_wf _ _ _ _ Hinv Htx E) in H.
    destruct H as (l' & ? & ? & Hv). exists l', true. rewrite Hv.
    eauto using witness_inv, beta_wf.
  - destruct H as (l' & ? & ? & Hv). exists l', true. rewrite Hv.
    eauto using witness_inv, beta_wf.
Qed.

Lemma reach_inv n l :
  reach n l -> ledger_ok l /\ ledger_inv beta_defaults n (view l).
Proof.
  induction 1 as [|n l _ [Hok Hinv]|n l tx l' r _ [Hok Hinv] Hwf Hr|n l id peer l' r _ [Hok Hinv] Hr
    |n l a amt l' r _ [Hok Hinv] Hamt Hr|n l rid l' r _ [Hok Hinv] Hr].
  - split; [apply ledger_ok_new|]. rewrite view_new. apply ledger_inv_new, beta_wf.
  - split; [exact Hok|]. unfold ledger_open. pose proof (inv_policy _ _ _ Hinv) as Hp.
    simpl in Hp. rewrite <- Hp at 2. exact Hinv.
  - destruct (ser_total tx) as [b Hs].
    destruct (apply_transaction_view tx b l Hok Hs) as [[Hadm (l1 & H1 & Hok1 & Hv)]|[_ (r1 & H1 & _)]];
      rewrite H1 in Hr; injection Hr as <- <-; [|done].
    split; [done|]. rewrite Hv. eauto using accept_inv, beta_wf.
  - destruct (witness_step n l id peer Hok Hinv) as (l1 & b & H1 & ? & ?).
    rewrite H1 in Hr. by injection Hr as <- <-.
  - pose proof (genesis_credit_view a amt l Hok) as H. cbv zeta in H.
    pose proof (inv_policy _ _ _ Hinv) as Hp. simpl in Hp. rewrite Hp in H.
    destruct (check_balance_cap _ _ _ _) as [[]|e] eqn:Hc.
    + destruct H as (l1 & H1 & ? & Hv). rewrite H1 in Hr. injection Hr as <- <-. simpl.
      split; [done|]. rewrite Hv. destruct Hamt. apply genesis_inv; auto using beta_wf.
    + rewrite H in Hr. injection Hr as <- <-. simpl. by rewrite Z.add_0_r.
  - destruct (mark_refill_view rid l Hok) as (l1 & H1 & ? & Hv).
    rewrite H1 in Hr. injection Hr as <- <-. split; [done|]. rewrite Hv. by apply refills_inv.
Qed.

Lemma transaction_view id l : ledger_ok l -> transaction id l = Ok (v_txs (view l) !! id).
Proof.
  intros (_ & Hok & _). unfold transaction. simpl.
  pose proof (typed_get _ id Hok) as Hg. destruct (typed _ !! id) as [tx|].
  - destruct Hg as (b & -> & Hd). simpl. by rewrite Hd.
  - by rewrite Hg.
Qed.

Lemma v_sent_size v a : v_sent v a <= Z.of_nat (size (v_txs v)).
Proof.
  unfold v_sent. generalize (v_txs v). intros m.
  induction m as [|id tx m Hid IH] using map_ind.
  - by rewrite msum_empty.
  - rewrite msum_insert_new, map_size_insert_None by done.
    unfold sent_by at 1. case_decide; lia.
Qed.

(** ** Properties *)

(** C1. Conservation: on every reachable ledger the sum of all balances and
    pending credits, plus the fees of all stored transactions, is exactly the
    amount granted by [genesis_credit].  Transfers, witness confirmations and
    refill marks neither create nor lose muon, and no [u64] ever wraps. *)
Theorem ledger_conservation n l :
  reach n l -> supply (view l) + fees_paid (view l) = n.
Proof. intros [_ Hinv]%reach_inv. apply Hinv. Qed.

(** C3. Vault cap: on every reachable ledger, [account_state] succeeds for
    every address and reports a balance and a pending credit that are
    non-negative and together within 100 MXC. *)
Theorem vault_cap_respected n l a :
  reach n l -> exists acc, account_state a l = Ok acc
    /\ 0 <= balance_muon acc /\ 0 <= pending_received acc
    /\ balance_muon acc + pending_received acc <= 100 * MUON_PER_MXC.
Proof.
  intros [Hok Hinv]%reach_inv. exists (v_acct (view l) a).
  destruct (inv_acct _ _ _ Hinv a) as [_ ? ? Hc].
  split_and!; [by apply account_state_view|done|done|exact Hc].
Qed.

(** C2. No double spend: two stored transactions of one sender never carry the
    same nonce (as long as fewer than 2^64 transactions are stored). *)
Theorem no_double_spend n l id1 tx1 id2 tx2 :
  reach n l -> Z.of_nat (size (v_txs (view l))) < 2 ^ 64 ->
  transaction id1 l = Ok (Some tx1) -> transaction id2 l = Ok (Some tx2) ->
  tx_from tx1 = tx_from tx2 -> tx_nonce tx1 = tx_nonce tx2 -> id1 = id2.
Proof.
  intros [Hok Hinv]%reach_inv Hsz. rewrite !transaction_view by done.
  intros [= H1] [= H2]. pose proof (v_sent_size (view l) (tx_from tx1)).
  apply (inv_spend_once _ _ _ Hinv _ _ _ _ H1 H2). lia.
Qed.

(** C4. The pending column is exact: it always equals the sum of the amounts
    of the stored transactions to that address that have fewer than three
    witnesses. *)
Theorem pending_exact n l a acc :
  reach n l -> account_state a l = Ok acc ->
  pending_received acc = msum (pending_for a) (v_txs (view l)).
Proof.
  intros [Hok Hinv]%reach_inv. rewrite account_state_view by done. intros [= <-].
  apply (inv_pending _ _ _ Hinv).
Qed.

(** C5. [apply_transaction] refines the abstract transition [v_accept]: on a
    decodable ledger it always returns; when every guard holds
    ([admissible]) it answers [Accepted] and the view is exactly [v_accept];
    otherwise it answers something else and the ledger is unchanged. *)
Theorem apply_transaction_refines tx b l :
  ledger_ok l -> ser tx = Ok b ->
  (admissible (Z.of_nat (length b)) (view l) tx /\
     exists l', apply_transaction tx l = (l', Ok Accepted)
       /\ ledger_ok l' /\ view l' = v_accept tx (view l))
  \/ (~ admissible (Z.of_nat (length b)) (view l) tx /\
     exists r, apply_transaction tx l = (l, r) /\ r ≠ Ok Accepted).
Proof. apply apply_transaction_view. Qed.

(** Witnesses are never refused on a reachable ledger: [add_witness]
    returns without error whatever the transaction id and peer, in particular
    the vault-cap check at confirmation cannot fail. *)
Theorem add_witness_total n l id peer :
  reach n l -> exists l' b, ledger_add_witness id peer l = (l', Ok b).
Proof.
  intros [Hok Hinv]%reach_inv. destruct (witness_step n l id peer Hok Hinv) as (? & ? & ? & _).
  eauto.
Qed.

(** Settlement happens at the third distinct witness: the call that adds
    it moves exactly the amount from the pending column to the balance of the
    recipient and touches no other account. *)
Theorem third_witness_settles n l id peer tx a :
  reach n l -> transaction id l = Ok (Some tx) ->
  size (witnesses tx) = 2%nat -> peer ∉ witnesses tx ->
  exists l' acc acc', ledger_add_witness id peer l = (l', Ok true)
    /\ account_state a l = Ok acc /\ account_state a l' = Ok acc'
    /\ acc' = if decide (a = tx_to tx)
              then mkAcc a (balance_muon acc + amount_muon tx) (next_nonce acc)
                     (pending_received acc - amount_muon tx)
              else acc.
Proof.
  intros [Hok Hinv]%reach_inv. rewrite transaction_view by done. intros [= Htx] Hsz Hnew.
  change (v_txs (view l) !! id = Some tx) in Htx.
  assert (is_confirmed tx = false) as Hc by (unfold is_confirmed; by rewrite Hsz).
  assert (is_confirmed (tx_add_witness peer tx) = true) as Hc'.
  { unfold is_confirmed, tx_add_witness. cbn [witnesses set_witnesses].
    rewrite size_union, size_singleton, Hsz by set_solver. done. }
  pose proof (add_witness_view id peer l Hok) as H. rewrite Htx, decide_False in H by done.
  cbv zeta in H. rewrite Hc, Hc' in H. cbn [negb andb] in H.
  pose proof (inv_policy _ _ _ Hinv) as Hp. simpl in Hp. rewrite Hp in H.
  rewrite (witness_cap_ok _ beta_wf _ _ _ _ Hinv Htx Hc) in H.
  destruct H as (l' & H & Hok' & Hv). exists l', (v_acct (view l) a), (v_acct (view l') a).
  rewrite !account_state_view by done. split_and!; [done..|].
  rewrite Hv. unfold v_witness. rewrite Hc, Hc'. cbn [negb andb].
  change (v_acct (v_set_txs _ ?w)) with (v_acct w). rewrite v_acct_update.
  destruct (decide (tx_to tx = a)) as [<-|Hne].
  - rewrite decide_True by done. by apply (settle_acct _ beta_wf _ _ _ _ Hinv Htx).
  - by rewrite decide_False by congruence.
Qed.

(** The witness set is not covered by the signature: any witness set can
    be attached to a valid transaction and it still verifies.  A transaction
    that arrives with three self-declared witnesses is therefore credited to
    the balance at once, without any witness message. *)
Theorem prefilled_witnesses_settle_at_once tx w b l :
  ledger_ok l -> ser (set_witnesses w tx) = Ok b -> (3 <= size w)%nat ->
  admissible (Z.of_nat (length b)) (view l) (set_witnesses w tx) ->
  tx_verify tx = true /\
  exists l' acc acc', apply_transaction (set_witnesses w tx) l = (l', Ok Accepted)
    /\ account_state (tx_to tx) l = Ok acc /\ account_state (tx_to tx) l' = Ok acc'
    /\ balance_muon acc' = balance_muon acc +64 amount_muon tx
    /\ pending_received acc' = pending_received acc.
Proof.
  intros Hok Hs Hw Hadm. split; [apply (adm_verify _ _ _ Hadm)|].
  destruct (apply_transaction_view _ b l Hok Hs) as [[_ (l' & H & Hok' & Hv)]|[Hn _]]; [|done].
  exists l', (v_acct (view l) (tx_to tx)), (v_acct (view l') (tx_to tx)).
  rewrite !account_state_view by done. split_and!; try done; rewrite Hv.
  all: rewrite (accept_acct _ _ _ Hadm), decide_True by done.
  all: unfold credit, is_confirmed; cbn [witnesses set_witnesses].
  all: by rewrite (proj2 (Nat.leb_le _ _) Hw).
Qed.
End reach.
