(* ===== verification/CoinDemo.v ===== *)
(** * A concrete ledger run

    The interfaces instantiated with [Instances.v] and a small scenario: Alice
    is granted 10 MXC, pays Bob 5 MXC, three peers witness the payment.  The
    scenario serves as the witness of the ledger theorems. *)

From S2P Require Import Prelude External Text Instances Transaction Policy Ledger LedgerView LedgerTheorems.

Open Scope Z_scope.

Definition tx_tuple (t : Transaction) :=
  (tx_id t, (tx_from t, (tx_to t, (amount_muon t, (fee_muon t, (timestamp_ms t, (tx_nonce t,
   (memo t, (from_public_key t, (tx_signature t, witnesses t)))))))))).
Definition tuple_tx (x : string * (string * (string * (Z * (Z * (Z * (Z * (option string *
   (list byte * (list byte * gset string)))))))))) : Transaction :=
  let '(i, (f, (to, (a, (fe, (ts, (n, (m, (pk, (sg, w)))))))))) := x in
  mkTx i f to a fe ts n m pk sg w.
Lemma tuple_tx_tuple t : tuple_tx (tx_tuple t) = t.
Proof. by destruct t. Qed.
Global Instance codec_tx : Codec Transaction := codec_iso tx_tuple tuple_tx tuple_tx_tuple.

Lemma acc_roundtrip a :
  (fun x : string * (Z * (Z * Z)) => let '(ad, (b, (n, p))) := x in mkAcc ad b n p)
    (acc_address a, (balance_muon a, (next_nonce a, pending_received a))) = a.
Proof. by destruct a. Qed.
Global Instance codec_acc : Codec AccountState := codec_iso _ _ acc_roundtrip.

Lemma window_roundtrip w : mkWindow (events w) = w.
Proof. by destruct w. Qed.
Global Instance codec_window : Codec VelocityWindow := codec_iso events mkWindow window_roundtrip.

Module Demo.
Definition alice : list byte := [x61].
Definition bob : list byte := [x62].
Definition addrA : string := Eval vm_compute in address_from_keypair alice.
Definition addrB : string := Eval vm_compute in address_from_keypair bob.

Definition the_tx (r : anyhow Transaction) : Transaction :=
  match r with Ok t => t | Err _ => mkTx "" "" "" 0 0 0 0 None [] [] ∅ end.
Definition pay (amount nonce ts : Z) : Transaction :=
  the_tx (tx_new addrB amount 1000 nonce None alice ts).
Definition tx1 : Transaction := Eval vm_compute in pay 5000000 0 1000.

Definition l0 : LocalLedger := ledger_open db_new.
Definition l1 : LocalLedger := (genesis_credit addrA 10000000 l0).1.
Definition l2 : LocalLedger := (apply_transaction tx1 l1).1.
Definition l3 : LocalLedger := (ledger_add_witness (tx_id tx1) "peer1" l2).1.
Definition l4 : LocalLedger := (ledger_add_witness (tx_id tx1) "peer2" l3).1.

Lemma tx1_wf : tx_wf tx1.
Proof. unfold tx_wf, in_u. vm_compute. intuition congruence. Qed.

Lemma reach_l2 : reach 10000000 l2.
Proof.
  apply (reach_apply _ l1 tx1 _ (apply_transaction tx1 l1).2);
    [|exact tx1_wf|apply surjective_pairing].
  apply (reach_genesis 0 l0 addrA 10000000 l1 (Ok tt)); [constructor| |].
  - unfold in_u. lia.
  - vm_compute. reflexivity.
Qed.

Lemma reach_l4 : reach 10000000 l4.
Proof.
  do 2 (eapply reach_witness; [|apply surjective_pairing]). apply reach_l2.
Qed.
End Demo.

Import Demo.

Lemma ledger_conservation_witness :
  supply (view l2) + fees_paid (view l2) = 10000000.
Proof. exact (ledger_conservation _ l2 reach_l2). Defined.

Lemma vault_cap_respected_witness : exists acc, account_state addrB l2 = Ok acc
  /\ 0 <= balance_muon acc /\ 0 <= pending_received acc
  /\ balance_muon acc + pending_received acc <= 100 * MUON_PER_MXC.
Proof. exact (vault_cap_respected _ l2 addrB reach_l2). Defined.

Lemma no_double_spend_witness : tx_id tx1 = tx_id tx1.
Proof.
  apply (no_double_spend _ l2 (tx_id tx1) tx1 (tx_id tx1) tx1 reach_l2); vm_compute; reflexivity.
Defined.

Lemma pending_exact_witness :
  pending_received (mkAcc addrB 0 0 5000000) = msum (pending_for addrB) (v_txs (view l2)).
Proof. apply (pending_exact _ l2 addrB _ reach_l2). vm_compute. reflexivity. Defined.

Lemma reach_l1 : reach 10000000 l1.
Proof.
  apply (reach_genesis 0 l0 addrA 10000000 l1 (Ok tt)); [constructor|unfold in_u; lia|].
  vm_compute. reflexivity.
Qed.

Lemma ledger_ok_l1 : ledger_ok l1.
Proof. exact (proj1 (reach_inv _ _ reach_l1)). Qed.

Lemma apply_transaction_refines_witness :
  (admissible (Z.of_nat (length (enc tx1))) (view l1) tx1 /\
     exists l', apply_transaction tx1 l1 = (l', Ok Accepted)
       /\ ledger_ok l' /\ view l' = v_accept tx1 (view l1))
  \/ (~ admissible (Z.of_nat (length (enc tx1))) (view l1) tx1 /\
     exists r, apply_transaction tx1 l1 = (l1, r) /\ r ≠ Ok Accepted).
Proof. exact (apply_transaction_refines tx1 (enc tx1) l1 ledger_ok_l1 eq_refl). Defined.

Lemma add_witness_total_witness :
  exists l' b, ledger_add_witness (tx_id tx1) "peer1" l2 = (l', Ok b).
Proof. exact (add_witness_total _ l2 (tx_id tx1) "peer1" reach_l2). Defined.

Definition tx1_two : Transaction := set_witnesses {["peer1"; "peer2"]} tx1.

Lemma third_witness_settles_witness :
  exists l' acc acc', ledger_add_witness (tx_id tx1) "peer3" l4 = (l', Ok true)
    /\ account_state addrB l4 = Ok acc /\ account_state addrB l' = Ok acc'
    /\ acc' = if decide (addrB = tx_to tx1_two)
              then mkAcc addrB (balance_muon acc + amount_muon tx1_two) (next_nonce acc)
                     (pending_received acc - amount_muon tx1_two)
              else acc.
Proof.
  apply (third_witness_settles _ l4 (tx_id tx1) "peer3" tx1_two addrB reach_l4).
  - vm_compute. reflexivity.
  - vm_compute. reflexivity.
  - apply (bool_decide_eq_true_1 _). vm_compute. reflexivity.
Defined.

Definition three : gset string := {["x"; "y"; "z"]}.

Lemma admissible_prefilled :
  admissible (Z.of_nat (length (enc (set_witnesses three tx1)))) (view l1) (set_witnesses three tx1).
Proof.
  split; try (vm_compute; reflexivity); try (vm_compute; discriminate).
  vm_compute. lia.
Qed.

Lemma prefilled_witnesses_settle_at_once_witness :
  tx_verify tx1 = true /\
  exists l' acc acc', apply_transaction (set_witnesses three tx1) l1 = (l', Ok Accepted)
    /\ account_state (tx_to tx1) l1 = Ok acc /\ account_state (tx_to tx1) l' = Ok acc'
    /\ balance_muon acc' = balance_muon acc +64 amount_muon tx1
    /\ pending_received acc' = pending_received acc.
Proof.
  apply (prefilled_witnesses_settle_at_once tx1 three (enc (set_witnesses three tx1)) l1
           ledger_ok_l1 eq_refl).
  - vm_compute. lia.
  - exact admissible_prefilled.
Defined.
