(* ===== verification/CoinNode.v ===== *)
(** * The coin node and the hot wallet

    [mycelium-coin/src/node.rs], [payload.rs] and [hot_wallet.rs]: message
    handlers over the ledger.  The host supplies the clock, fresh uuids and the
    transport; frames handed to the transport are kept in an outbox, and the
    identity is loaded from the vault of [AtRest.v], which is part of the state. *)

From S2P Require Import Prelude External Text Instances Host E2E AtRest Transaction Policy Ledger LedgerView LedgerTheorems.

Open Scope Z_scope.

Inductive CoinPayload :=
| PTransaction (tx : Transaction)
| PWitness (txid peer : string)
| PBalanceQuery (address : string)
| PBalanceResponse (address : string) (balance pending : Z)
| PRefillRequest (req : RefillRequest).

(** The calls of the [CoinTransport] trait. *)
Inductive CoinSend :=
| BroadcastCoinInner (inner : list byte)
| SendDirectCoinInner (to_peer : string) (inner : list byte).

Record CoinConfig := mkCoinConfig {
  local_address : string;
  coin_local_peer_id : string;
  coin_identity_path : string;
}.

Record HotWalletConfig := mkHotConfig {
  max_cache_muon : Z;
  refill_threshold_muon : Z;
  refill_amount_muon : Z;
  cold_wallet_address : option string;
}.

Definition hot_default : HotWalletConfig :=
  let max := 50 * MUON_PER_MXC in mkHotConfig max (max * 80 / 100) max None.

Inductive RefillResult :=
| NoColdWallet
| NotNeeded (current : Z)
| RefillBroadcast (amount : Z) (rid : string).

(** [{result:?}] *)
Definition quote (s : string) : string :=
  (String (Ascii.ascii_of_nat 34) EmptyString +:+ s +:+ String (Ascii.ascii_of_nat 34) EmptyString)%string.
Definition debug_result (r : ApplyResult) : string :=
  match r with
  | Accepted => "Accepted"
  | Duplicate => "Duplicate"
  | InvalidNonce e g =>
      "InvalidNonce { expected: " +:+ show e +:+ ", got: " +:+ show g +:+ " }"
  | InsufficientFunds h n =>
      "InsufficientFunds { have: " +:+ show h +:+ ", need: " +:+ show n +:+ " }"
  | Invalid msg => "Invalid(" +:+ quote msg +:+ ")"
  end%string.

(** What the node takes from its host: the [n]-th reading of the clock and the
    [n]-th fresh uuid, and the outcome of a transport call given the frames
    already sent. *)
Class CoinEnv := {
  clock : nat -> Z;
  uuids : nat -> string;
  transport_send : list CoinSend -> CoinSend -> anyhow unit;
}.

(** The host of a coin node: with these, the disk, the keyring, the primitives and
    the sled databases that hold the identity it signs with. *)
Class CoinHost `{C : Crypto} `{D : Sled} := {
  coin_env :: CoinEnv;
  coin_db : SledDb;
  coin_vault : VaultHost (DB := coin_db);
  coin_disk : Disk;
  coin_keyring : Keyring;
  coin_prims : E2EPrims;
}.

(** disk, keyring and databases as the coin node sees them *)
Definition IdentityVault `{H : CoinHost} : Type := VaultWorld (DB := coin_db) (F := coin_disk) (K := coin_keyring).

(** [load_or_create_keypair(path, None)] *)
Definition load_identity `{H : CoinHost} (path : string) : ST IdentityVault Keypair :=
  load_or_create_keypair (V := coin_vault) (F := coin_disk) (K := coin_keyring) (P := coin_prims) path None.

Section coin_node.
Context `{C : Crypto} `{D : Sled}.
Context `{BT : Bincode Transaction} `{BA : Bincode AccountState} `{BV : Bincode VelocityWindow}.
Context `{BP : Bincode CoinPayload} `{H : !CoinHost}.
Variable cfg : CoinConfig.

Record CoinState := mkCoin {
  cn_ledger : LocalLedger;
  cn_outbox : list CoinSend;
  cn_ticks : nat;
  cn_vault : IdentityVault;
}.

Definition on_ledger {A} (m : ST LocalLedger A) : ST CoinState A := fun s =>
  let '(l, r) := m (cn_ledger s) in (mkCoin l (cn_outbox s) (cn_ticks s) (cn_vault s), r).

Definition load_keypair (path : string) : ST CoinState Keypair := fun s =>
  let '(w, r) := load_identity path (cn_vault s) in (mkCoin (cn_ledger s) (cn_outbox s) (cn_ticks s) w, r).

Definition now_ms : ST CoinState Z := fun s =>
  (mkCoin (cn_ledger s) (cn_outbox s) (S (cn_ticks s)) (cn_vault s), Ok (clock (cn_ticks s))).

Definition new_uuid : ST CoinState string := fun s =>
  (mkCoin (cn_ledger s) (cn_outbox s) (S (cn_ticks s)) (cn_vault s), Ok (uuids (cn_ticks s))).

(** [match m.await { Ok(..) => .., Err(e) => .. }] *)
Definition st_try {A} (m : ST CoinState A) : ST CoinState (anyhow A) := fun s =>
  let '(s', r) := m s in (s', Ok r).

Definition transport (c : CoinSend) : ST CoinState unit := fun s =>
  match transport_send (cn_outbox s) c with
  | Ok _ => (mkCoin (cn_ledger s) (cn_outbox s ++ [c]) (cn_ticks s) (cn_vault s), Ok tt)
  | Err e => (s, Err e)
  end.

Definition broadcast_coin_payload (p : CoinPayload) : ST CoinState unit :=
  inner ← st_lift (ser p);
  transport (BroadcastCoinInner inner).

Definition send_transaction (tx : Transaction) : ST CoinState unit :=
  r ← on_ledger (apply_transaction tx);
  match r with
  | Accepted =>
      inner ← st_lift (ser (PTransaction tx));
      _ ← transport (BroadcastCoinInner inner);
      mret tt
  | r => st_err ("TX rejected: " +:+ debug_result r)%string
  end.

Definition submit_transfer_from_identity_path (path to : string) (amount fee : Z)
    (m : option string) : ST CoinState unit :=
  kp ← load_keypair path;
  if decide (address_from_keypair kp ≠ local_address cfg)
  then st_err "identity does not match coin address" else
  s ← st_get;
  acc ← st_lift (account_state (local_address cfg) (cn_ledger s));
  now ← now_ms;
  tx ← st_lift (tx_new to amount fee (next_nonce acc) m kp now);
  send_transaction tx.

Definition handle_transaction (tx : Transaction) : ST CoinState unit :=
  r ← on_ledger (apply_transaction tx);
  match r with
  | Accepted =>
      _ ← on_ledger (ledger_add_witness (tx_id tx) (coin_local_peer_id cfg));
      inner ← st_lift (ser (PWitness (tx_id tx) (coin_local_peer_id cfg)));
      transport (BroadcastCoinInner inner)
  | Duplicate =>
      added ← on_ledger (ledger_add_witness (tx_id tx) (coin_local_peer_id cfg));
      if (added : bool) then
        inner ← st_lift (ser (PWitness (tx_id tx) (coin_local_peer_id cfg)));
        transport (BroadcastCoinInner inner)
      else mret tt
  | _ => mret tt
  end.

Definition handle_refill (req : RefillRequest) : ST CoinState unit :=
  if decide (cold_address req ≠ local_address cfg) then mret tt else
  now ← now_ms;
  if decide (expires_at_ms req < now) then mret tt else
  if negb (rf_verify req) then mret tt else
  s ← st_get;
  applied ← st_lift (refill_already_applied (request_id req) (cn_ledger s));
  if (applied : bool) then mret tt else
  r ← st_try (submit_transfer_from_identity_path (coin_identity_path cfg) (hot_address req)
                (rf_amount_muon req) (rf_fee_muon req) (Some "refill"%string));
  match r with
  | Ok _ => _ ← st_try (on_ledger (mark_refill_applied (request_id req))); mret tt
  | Err _ => mret tt
  end.

Definition handle_incoming (p : CoinPayload) (from_peer : string) : ST CoinState unit :=
  match p with
  | PTransaction tx => handle_transaction tx
  | PWitness txid peer => _ ← on_ledger (ledger_add_witness txid peer); mret tt
  | PBalanceQuery address =>
      s ← st_get;
      acc ← st_lift (account_state address (cn_ledger s));
      inner ← st_lift (ser (PBalanceResponse address (balance_muon acc) (pending_received acc)));
      transport (SendDirectCoinInner from_peer inner)
  | PBalanceResponse _ _ _ => mret tt
  | PRefillRequest req => handle_refill req
  end.

Definition coin_balance : ST CoinState (Z * Z) :=
  s ← st_get;
  acc ← st_lift (account_state (local_address cfg) (cn_ledger s));
  mret (balance_muon acc, pending_received acc).

Definition request_faucet_coins : ST CoinState unit :=
  s ← st_get;
  acc ← st_lift (account_state (local_address cfg) (cn_ledger s));
  if decide (balance_muon acc = 0 /\ pending_received acc = 0)
  then on_ledger (genesis_credit (local_address cfg) (10 * MUON_PER_MXC))
  else mret tt.

(** ** [hot_wallet.rs] *)

Definition maybe_refill (hot : HotWalletConfig) (path : string) : ST CoinState RefillResult :=
  '(confirmed, _) ← coin_balance;
  match cold_wallet_address hot with
  | None => mret NoColdWallet
  | Some cold_addr =>
      if decide (refill_threshold_muon hot <= confirmed) then mret (NotNeeded confirmed) else
      let to_request := refill_amount_muon hot -sat confirmed in
      kp ← load_keypair path;
      now ← now_ms;
      uuid ← new_uuid;
      req ← st_lift (rf_new_signed kp cold_addr to_request 1000 now uuid);
      _ ← broadcast_coin_payload (PRefillRequest req);
      mret (RefillBroadcast to_request (request_id req))
  end.

(** [while excess > 0 { .. }]; every round either fails or lowers [excess]. *)
Fixpoint return_excess (fuel : nat) (path cold_addr : string) (chunk excess : Z)
    : ST CoinState unit :=
  if decide (excess <= 0) then mret tt else
  match fuel with
  | O => st_err "out of fuel"
  | S fuel =>
      let amt := Z.min excess chunk in
      _ ← submit_transfer_from_identity_path path cold_addr amt 1000 (Some "auto-cap-return"%string);
      return_excess fuel path cold_addr chunk (excess -64 amt)
  end.

Definition enforce_cap (fuel : nat) (hot : HotWalletConfig) (path : string) : ST CoinState unit :=
  '(confirmed, _) ← coin_balance;
  if decide (max_cache_muon hot < confirmed) then
    match cold_wallet_address hot with
    | Some cold_addr =>
        s ← st_get;
        let chunk := max_transfer_muon (policy (cn_ledger s)) in
        return_excess fuel path cold_addr chunk (confirmed -64 max_cache_muon hot)
    | None => mret tt
    end
  else mret tt.
End coin_node.
