(* ===== verification/CoinNodeTheorems.v ===== *)
(** * Theorems about the coin node and the hot wallet *)

From S2P Require Import Prelude External Text Instances Host E2E AtRest Transaction Policy Ledger LedgerView LedgerTheorems CoinNode.

Open Scope Z_scope.

(** ** A small program logic: [m] keeps [P], and [Q] holds of its result *)

Definition triple {S A} (P : S -> Prop) (m : ST S A) (Q : A -> Prop) : Prop :=
  forall s s' r, P s -> m s = (s', r) -> P s' /\ forall a, r = Ok a -> Q a.

Create HintDb triple.

Lemma triple_ret {S A} (P : S -> Prop) (a : A) (Q : A -> Prop) : Q a -> triple P (mret a) Q.
Proof. intros Ha s s' r Hs [= <- <-]. split; [done|]. by intros ? [= <-]. Qed.

Lemma triple_err {S A} (P : S -> Prop) e (Q : A -> Prop) : triple P (st_err e) Q.
Proof. intros s s' r Hs [= <- <-]. by split. Qed.

Lemma triple_lift {S A} (P : S -> Prop) (r : anyhow A) (Q : A -> Prop) :
  (forall a, r = Ok a -> Q a) -> triple P (st_lift r) Q.
Proof. intros Hr s s' r' Hs [= <- <-]. by split. Qed.

Lemma triple_get {S} (P : S -> Prop) : triple P st_get P.
Proof. intros s s' r Hs [= <- <-]. split; [done|]. by intros ? [= <-]. Qed.

Lemma triple_bind {S A B} (P : S -> Prop) (m : ST S A) (f : A -> ST S B) Q R :
  triple P m Q -> (forall a, Q a -> triple P (f a) R) -> triple P (m ≫= f) R.
Proof.
  intros Hm Hf s s' r Hs. unfold mbind, ST_bind.
  destruct (m s) as [s1 [a|e]] eqn:E; destruct (Hm _ _ _ Hs E) as [H1 Ha].
  - intros Hr. exact (Hf a (Ha a eq_refl) _ _ _ H1 Hr).
  - intros [= <- <-]. by split.
Qed.

Lemma triple_weaken {S A} (P : S -> Prop) (m : ST S A) (Q R : A -> Prop) :
  triple P m Q -> (forall a, Q a -> R a) -> triple P m R.
Proof. intros Hm HQ s s' r Hs E. destruct (Hm _ _ _ Hs E). eauto. Qed.

#[export] Hint Resolve triple_ret triple_err triple_get : triple.

Section node_theorems.
Context `{C : Crypto} `{D : Sled} `{DL : !SledLaws D}.
Context `{BT : Bincode Transaction} `{BTL : !BincodeLaws BT}.
Context `{BA : Bincode AccountState} `{BAL : !BincodeLaws BA}.
Context `{BV : Bincode VelocityWindow} `{BVL : !BincodeLaws BV}.
Context `{BP : Bincode CoinPayload} `{H : !CoinHost}.
Variable cfg : CoinConfig.

(** The state invariant: the ledger is reachable with [n] muon issued. *)
Definition node_ok (n : Z) (s : CoinState) : Prop := reach n (cn_ledger s).

Lemma triple_on_ledger {A} n (m : ST LocalLedger A) :
  (forall l l' r, reach n l -> m l = (l', r) -> reach n l') ->
  triple (node_ok n) (on_ledger m) (fun _ => True).
Proof.
  intros Hm s s' r Hs. unfold on_ledger. destruct (m (cn_ledger s)) as [l r0] eqn:E.
  intros [= <- <-]. split; [exact (Hm _ _ _ Hs E)|done].
Qed.

Lemma triple_ticks {A} n (f : nat -> A) (Q : A -> Prop) :
  (forall k, Q (f k)) ->
  triple (node_ok n) (fun s => (mkCoin (cn_ledger s) (cn_outbox s) (S (cn_ticks s)) (cn_vault s), Ok (f (cn_ticks s)))) Q.
Proof. intros Hf s s' r Hs [= <- <-]. split; [done|]. by intros ? [= <-]. Qed.

Lemma triple_load n path : triple (node_ok n) (load_keypair path) (fun _ => True).
Proof.
  intros s s' r Hs. unfold load_keypair. destruct (load_identity path (cn_vault s)). by intros [= <- <-].
Qed.

Lemma triple_transport n c : triple (node_ok n) (transport c) (fun _ => True).
Proof.
  intros s s' r Hs. unfold transport. destruct (transport_send _ _); by intros [= <- <-].
Qed.

Lemma triple_try {A} n (m : ST CoinState A) Q :
  triple (node_ok n) m Q -> triple (node_ok n) (st_try m) (fun _ => True).
Proof.
  intros Hm s s' r Hs. unfold st_try. destruct (m s) as [s1 r1] eqn:E.
  intros [= <- <-]. destruct (Hm _ _ _ Hs E). by split.
Qed.

Lemma triple_apply n tx : tx_wf tx -> triple (node_ok n) (on_ledger (apply_transaction tx)) (fun _ => True).
Proof. intros Hwf. apply triple_on_ledger. eauto using reach_apply. Qed.

Lemma triple_witness n id p : triple (node_ok n) (on_ledger (ledger_add_witness id p)) (fun _ => True).
Proof. apply triple_on_ledger. eauto using reach_witness. Qed.

Lemma triple_mark n rid : triple (node_ok n) (on_ledger (mark_refill_applied rid)) (fun _ => True).
Proof. apply triple_on_ledger. eauto using reach_refill. Qed.

#[local] Hint Resolve triple_transport triple_witness triple_mark triple_apply : triple.

(** [tstep] walks through a handler. *)
Ltac tstep :=
  repeat first
    [ solve [eauto with triple]
    | case_decide
    | eapply triple_bind; [solve [eauto with triple]|intros ? ?]
    | match goal with
      | |- triple _ (if ?b then _ else _) _ => destruct b
      | |- triple _ (match ?r with _ => _ end) _ => destruct r
      | |- triple _ (st_lift _ ≫= _) _ => eapply triple_bind; [apply (triple_lift _ _ (fun _ => True)); done|intros ? ?]
      end ].

Lemma send_transaction_ok n tx :
  tx_wf tx -> triple (node_ok n) (send_transaction tx) (fun _ => True).
Proof. intros Hwf. unfold send_transaction. tstep. Qed.

Lemma account_nonce_in_u n l a acc :
  reach n l -> account_state a l = Ok acc -> in_u 64 (next_nonce acc).
Proof.
  intros [Hok Hinv]%reach_inv. rewrite account_state_view by done. intros [= <-].
  rewrite (inv_nonce _ _ _ Hinv). by apply wrap_in_u.
Qed.

Lemma tx_new_wf to amount fee nonce m kp now tx :
  in_u 64 amount -> in_u 64 fee -> in_u 64 nonce -> in_u 64 now ->
  tx_new to amount fee nonce m kp now = Ok tx -> tx_wf tx.
Proof.
  intros. unfold tx_new in *. destruct (kp_sign _ _); [|done].
  by match goal with E : Ok _ = Ok _ |- _ => injection E as <- end.
Qed.

(** The clock is a [u64]. *)
Definition host_ok : Prop := forall k, in_u 64 (clock k).

Lemma submit_ok n path to amount fee m :
  host_ok -> in_u 64 amount -> in_u 64 fee ->
  triple (node_ok n) (submit_transfer_from_identity_path cfg path to amount fee m) (fun _ => True).
Proof.
  intros Hh Ha Hf. unfold submit_transfer_from_identity_path.
  eapply triple_bind; [apply triple_load|intros kp _].
  case_decide; [apply triple_err|].
  eapply triple_bind; [apply triple_get|intros s Hs].
  eapply triple_bind.
  { apply (triple_lift _ _ (fun acc => in_u 64 (next_nonce acc))).
    intros acc E. eapply account_nonce_in_u; eauto. }
  intros acc Hacc. eapply triple_bind; [apply (triple_ticks n clock (in_u 64)); done|].
  intros now Hnow. eapply triple_bind.
  { apply (triple_lift _ _ tx_wf). intros tx. apply tx_new_wf; done. }
  intros tx Htx. by apply send_transaction_ok.
Qed.

(** The [u64] fields of a decoded payload are in range. *)
Definition payload_wf (p : CoinPayload) : Prop :=
  match p with
  | PTransaction tx => tx_wf tx
  | PRefillRequest r => in_u 64 (rf_amount_muon r) /\ in_u 64 (rf_fee_muon r)
  | _ => True
  end.

Lemma handle_refill_ok n req :
  host_ok -> in_u 64 (rf_amount_muon req) -> in_u 64 (rf_fee_muon req) ->
  triple (node_ok n) (handle_refill cfg req) (fun _ => True).
Proof.
  intros Hh Ha Hf. unfold handle_refill. case_decide; [by apply triple_ret|].
  eapply triple_bind; [apply (triple_ticks n clock (fun _ => True)); done|intros now _].
  case_decide; [by apply triple_ret|]. destruct (negb _); [by apply triple_ret|].
  eapply triple_bind; [apply triple_get|intros s _].
  eapply triple_bind; [apply (triple_lift _ _ (fun _ => True)); done|intros [] _]; [by apply triple_ret|].
  eapply triple_bind; [eapply triple_try, submit_ok; done|intros [] _]; [|by apply triple_ret].
  eapply triple_bind; [eapply triple_try, triple_mark|intros ? _]. by apply triple_ret.
Qed.

Lemma handle_incoming_ok n p from :
  host_ok -> payload_wf p -> triple (node_ok n) (handle_incoming cfg p from) (fun _ => True).
Proof.
  intros Hh Hp. destruct p as [tx|id q|a|a b c|req]; simpl.
  - unfold handle_transaction. simpl in Hp. tstep.
  - tstep.
  - tstep.
  - tstep.
  - destruct Hp. by apply handle_refill_ok.
Qed.

(** ** Properties *)

(** C6. No network input can break the ledger: whatever (well-typed) payload
    any peer sends, and however the transport, the clock and the identity store
    behave, the ledger after [handle_incoming] is again reachable with the same
    issued amount, so conservation, the vault cap, the exact pending column and
    single spending continue to hold. *)
Theorem handle_incoming_preserves_ledger n p from s s' r :
  host_ok -> payload_wf p -> reach n (cn_ledger s) ->
  handle_incoming cfg p from s = (s', r) -> reach n (cn_ledger s').
Proof. intros Hh Hp Hs E. exact (proj1 (handle_incoming_ok n p from Hh Hp s s' r Hs E)). Qed.
(** *** Refills *)

Lemma mark_refill_refills rid l :
  exists l', mark_refill_applied rid l = (l', Ok tt)
    /\ v_refills (view l') = {[rid]} ∪ v_refills (view l).
Proof.
  unfold mark_refill_applied, mbind, ST_bind, st_get, st_lift, st_modify.
  destruct (tree_insert_view (refill_tree (db l)) rid [x01]) as (t & -> & Ht).
  eexists. split; [done|]. simpl. by rewrite Ht, dom_insert_L.
Qed.

Lemma handle_refill_applied req s :
  request_id req ∈ v_refills (view (cn_ledger s)) ->
  exists k, handle_refill cfg req s = (mkCoin (cn_ledger s) (cn_outbox s) k (cn_vault s), Ok tt).
Proof.
  intros Hin. unfold handle_refill. case_decide.
  { exists (cn_ticks s). by destruct s. }
  unfold mbind, ST_bind, now_ms, mret, ST_ret. exists (S (cn_ticks s)).
  case_decide; [done|]. destruct (negb _); [done|].
  unfold st_get, st_lift. simpl cn_ledger. rewrite refill_applied_view.
  by rewrite bool_decide_eq_true_2.
Qed.

(** A frame only leaves the node as the last effect of a successful transfer. *)
Lemma send_transaction_err_outbox tx s s' e :
  send_transaction tx s = (s', Err e) -> cn_outbox s' = cn_outbox s.
Proof.
  unfold send_transaction, mbind, ST_bind, on_ledger, st_lift, st_err, mret, ST_ret, transport.
  destruct (apply_transaction tx (cn_ledger s)) as [l [[]|?]]; repeat case_match; naive_solver.
Qed.

Lemma submit_err_outbox path to amount fee m s s' e :
  submit_transfer_from_identity_path cfg path to amount fee m s = (s', Err e) ->
  cn_outbox s' = cn_outbox s.
Proof.
  unfold submit_transfer_from_identity_path, mbind, ST_bind, st_lift, st_get, now_ms, st_err, load_keypair.
  destruct (load_identity path (cn_vault s)) as [w [kp|]]; [|by intros [= <- _]].
  case_decide; [by intros [= <- _]|]. destruct (account_state _ _) as [acc|]; [|by intros [= <- _]].
  destruct (tx_new _ _ _ _ _ _ _) as [tx|]; [|by intros [= <- _]].
  intros E. by apply send_transaction_err_outbox in E.
Qed.

Lemma handle_refill_marks req s s' r :
  handle_refill cfg req s = (s', r) -> cn_outbox s' ≠ cn_outbox s ->
  request_id req ∈ v_refills (view (cn_ledger s')).
Proof.
  unfold handle_refill. case_decide; [by intros [= <- _]|].
  unfold mbind, ST_bind, now_ms, mret, ST_ret. case_decide; [by intros [= <- _]|].
  destruct (negb _); [by intros [= <- _]|]. unfold st_get, st_lift. simpl cn_ledger.
  rewrite refill_applied_view. case_bool_decide; [by intros [= <- _]|].
  unfold st_try. destruct (submit_transfer_from_identity_path _ _ _ _ _ _ _) as [s1 [u|e]] eqn:E.
  - unfold on_ledger. destruct (mark_refill_refills (request_id req) (cn_ledger s1)) as (l' & -> & Hl).
    intros [= <- _] _. cbn [cn_ledger]. rewrite Hl. set_solver.
  - intros [= <- _]. by rewrite (submit_err_outbox _ _ _ _ _ _ _ _ E).
Qed.

(** ** Every operation *)

Inductive CoinOp :=
| OpIncoming (p : CoinPayload) (from_peer : string)
| OpSubmit (path to : string) (amount fee : Z) (m : option string)
| OpSend (tx : Transaction)
| OpBroadcast (p : CoinPayload)
| OpFaucet
| OpRefill (hot : HotWalletConfig) (path : string)
| OpCap (fuel : nat) (hot : HotWalletConfig) (path : string).

Definition run_coin (o : CoinOp) (s : CoinState) : CoinState :=
  match o with
  | OpIncoming p from => (handle_incoming cfg p from s).1
  | OpSubmit path to amount fee m => (submit_transfer_from_identity_path cfg path to amount fee m s).1
  | OpSend tx => (send_transaction tx s).1
  | OpBroadcast p => (broadcast_coin_payload p s).1
  | OpFaucet => (request_faucet_coins cfg s).1
  | OpRefill hot path => (maybe_refill cfg hot path s).1
  | OpCap fuel hot path => (enforce_cap cfg fuel hot path s).1
  end.
Definition run_coins (os : list CoinOp) (s : CoinState) : CoinState := foldl (fun s o => run_coin o s) s os.

Section remembered.
Variable rid : string.

Definition known (l : LocalLedger) : Prop := rid ∈ v_refills (view l).
Definition remembers (s : CoinState) : Prop := known (cn_ledger s).

Lemma known_update a g : keeps known (update_account a g).
Proof. unfold update_account. keeps_auto; by apply keeps_modify. Qed.
Lemma known_apply tx : keeps known (apply_transaction tx).
Proof.
  pose proof known_update. unfold apply_transaction. keeps_auto; by apply keeps_modify.
Qed.
Lemma known_witness id p : keeps known (ledger_add_witness id p).
Proof.
  pose proof known_update. unfold ledger_add_witness. keeps_auto; by apply keeps_modify.
Qed.
Lemma known_genesis a x : keeps known (genesis_credit a x).
Proof. pose proof known_update. unfold genesis_credit. keeps_auto. Qed.
Lemma known_mark r : keeps known (mark_refill_applied r).
Proof.
  intros l Hl. destruct (mark_refill_refills r l) as (l' & -> & Hr). unfold known in *. cbn [fst]. rewrite Hr. set_solver.
Qed.

Lemma rem_ledger {A} (m : ST LocalLedger A) : keeps known m -> keeps remembers (on_ledger m).
Proof. intros Hm s Hs. unfold on_ledger. specialize (Hm _ Hs). by destruct (m (cn_ledger s)). Qed.
Lemma rem_load path : keeps remembers (load_keypair path).
Proof. intros s Hs. unfold load_keypair. by destruct (load_identity path (cn_vault s)). Qed.
Lemma rem_now : keeps remembers now_ms.
Proof. by intros s Hs. Qed.
Lemma rem_uuid : keeps remembers new_uuid.
Proof. by intros s Hs. Qed.
Lemma rem_transport c : keeps remembers (transport c).
Proof. intros s Hs. unfold transport. by destruct (transport_send _ _). Qed.
Lemma rem_try {A} (m : ST CoinState A) : keeps remembers m -> keeps remembers (st_try m).
Proof. intros Hm s Hs. unfold st_try. specialize (Hm s Hs). by destruct (m s). Qed.

#[local] Hint Resolve known_apply known_witness known_genesis known_mark rem_ledger rem_load rem_now rem_uuid rem_transport rem_try : keeps.

Lemma rem_send tx : keeps remembers (send_transaction tx).
Proof. unfold send_transaction. keeps_auto. Qed.
#[local] Hint Resolve rem_send : keeps.
Lemma rem_submit path to amount fee m : keeps remembers (submit_transfer_from_identity_path cfg path to amount fee m).
Proof. unfold submit_transfer_from_identity_path. keeps_auto. Qed.
#[local] Hint Resolve rem_submit : keeps.
Lemma rem_return fuel path cold chunk excess : keeps remembers (return_excess cfg fuel path cold chunk excess).
Proof.
  revert excess. induction fuel as [|fuel IH]; intros ex; cbn [return_excess]; keeps_auto.
Qed.
#[local] Hint Resolve rem_return : keeps.

Lemma rem_run o s : remembers s -> remembers (run_coin o s).
Proof.
  revert s. destruct o as [[]| | | | | |]; cbn [run_coin handle_incoming];
    lazymatch goal with |- forall s, remembers s -> remembers (?m s).1 => change (keeps remembers m) end;
    unfold handle_transaction, handle_refill, broadcast_coin_payload, request_faucet_coins, maybe_refill, enforce_cap, coin_balance;
    keeps_auto; unfold broadcast_coin_payload; keeps_auto.
Qed.

Lemma rem_runs os s : remembers s -> remembers (run_coins os s).
Proof. revert s. induction os as [|o os IH]; intros s Hs; [done|]. cbn. by apply IH, rem_run. Qed.
End remembered.

(** C7. A refill request is paid at most once on the network: after a call of
    the refill handler that sent a payment, and any further operations of the
    coin node in any order (payloads from peers, other refills among them,
    transfers, the faucet, rounds of the hot wallet, failing ones included),
    handling any request with the same id (a replay, or a modified copy) changes
    neither the ledger nor the outbox nor the vault. *)
Theorem refill_paid_once req req' from from' ops s s1 r1 s2 r2 :
  handle_incoming cfg (PRefillRequest req) from s = (s1, r1) ->
  cn_outbox s1 ≠ cn_outbox s ->
  request_id req' = request_id req ->
  handle_incoming cfg (PRefillRequest req') from' (run_coins ops s1) = (s2, r2) ->
  cn_ledger s2 = cn_ledger (run_coins ops s1) /\ cn_outbox s2 = cn_outbox (run_coins ops s1)
  /\ cn_vault s2 = cn_vault (run_coins ops s1).
Proof.
  simpl. intros E1 Hne Hid E2.
  pose proof (rem_runs _ ops _ (handle_refill_marks _ _ _ _ E1 Hne)) as Hin. unfold remembers, known in Hin.
  rewrite <- Hid in Hin. destruct (handle_refill_applied _ _ Hin) as [k Hk]. rewrite Hk in E2.
  by injection E2 as <- <-.
Qed.
(** *** The hot wallet *)

Definition local_acct (s : CoinState) : AccountState :=
  v_acct (view (cn_ledger s)) (local_address cfg).

Lemma send_transaction_accepts tx s s' :
  send_transaction tx s = (s', Ok tt) ->
  exists l', apply_transaction tx (cn_ledger s) = (l', Ok Accepted) /\ cn_ledger s' = l'.
Proof.
  unfold send_transaction. intros (s1 & r & H1 & H2)%ST_bind_inv.
  unfold on_ledger in H1. destruct (apply_transaction tx (cn_ledger s)) as [l r'].
  injection H1 as <- ->. destruct r; try done.
  apply ST_bind_inv in H2 as (s2 & inner & [= <- _] & H2).
  apply ST_bind_inv in H2 as (s3 & [] & Ht & [= <-]). exists l. split; [done|].
  unfold transport in Ht. destruct (transport_send _ _); by injection Ht as <-.
Qed.

Lemma load_keypair_ledger path s s' r : load_keypair path s = (s', r) -> cn_ledger s' = cn_ledger s.
Proof. unfold load_keypair. destruct (load_identity path (cn_vault s)). by intros [= <- _]. Qed.

(** A successful transfer debits the local account by amount and fee. *)
Lemma submit_debits n path to amount fee m s s' :
  host_ok -> in_u 64 amount -> in_u 64 fee -> node_ok n s ->
  submit_transfer_from_identity_path cfg path to amount fee m s = (s', Ok tt) ->
  node_ok n s' /\ balance_muon (local_acct s') = balance_muon (local_acct s) - (amount + fee).
Proof.
  intros Hh Ha Hf Hs E.
  split; [exact (proj1 (submit_ok n path to amount fee m Hh Ha Hf s s' _ Hs E))|].
  unfold submit_transfer_from_identity_path in E.
  apply ST_bind_inv in E as (s1 & kp & Hkp & E). apply load_keypair_ledger in Hkp as Hl1.
  apply (triple_load n _ _ _ _ Hs) in Hkp as [Hs1 _]. case_decide as Hk; [done|].
  apply ST_bind_inv in E as (s2 & s2' & [= <- <-] & E).
  apply ST_bind_inv in E as (s3 & acc & [= <- Hacc] & E).
  apply ST_bind_inv in E as (s4 & now & [= <- <-] & E).
  apply ST_bind_inv in E as (s5 & tx & [= <- Htx] & E).
  pose proof (tx_new_wf _ _ _ _ _ _ _ _ Ha Hf (account_nonce_in_u n _ _ _ Hs1 Hacc) (Hh _) Htx) as Hwf.
  apply send_transaction_accepts in E as (l' & E & Hl). cbn [cn_ledger] in E.
  rewrite Hl1 in E. destruct (reach_inv _ _ Hs) as [Hok Hinv]. destruct (ser_total tx) as [b Hb].
  destruct (apply_transaction_view tx b _ Hok Hb) as [[Hadm (l1 & E1 & _ & Hv)]|[_ (r & E1 & Hr)]];
    [|exfalso; congruence].
  rewrite E in E1. injection E1 as <-.
  assert (tx_from tx = local_address cfg /\ amount_muon tx = amount /\ fee_muon tx = fee)
    as (Hfrom & <- & <-).
  { unfold tx_new in Htx. destruct (kp_sign _ _); [|done]. by injection Htx as <-. }
  unfold local_acct. rewrite Hl, Hv, (accept_acct _ _ _ Hadm), <- Hfrom.
  rewrite decide_False by (apply not_eq_sym, Hadm). rewrite decide_True by done.
  by rewrite (accept_debit _ beta_wf _ _ _ _ Hinv Hwf Hadm).
Qed.

Lemma return_excess_debits n fuel path cold chunk excess s s' :
  host_ok -> in_u 64 chunk -> 0 <= excess < 2 ^ 64 -> node_ok n s ->
  return_excess cfg fuel path cold chunk excess s = (s', Ok tt) ->
  balance_muon (local_acct s') <= balance_muon (local_acct s) - excess.
Proof.
  intros Hh Hc. revert excess s. induction fuel as [|fuel IH]; intros excess s He Hs; simpl.
  { case_decide; [|done]. intros [= <-]. lia. }
  case_decide; [intros [= <-]; lia|]. intros (s1 & [] & E1 & E2)%ST_bind_inv.
  assert (in_u 64 (Z.min excess chunk)) as Hamt by (unfold in_u in *; lia).
  apply (submit_debits n) in E1 as [Hs1 Hb]; [|done..].
  rewrite wsub_small in E2 by (unfold in_u in *; lia).
  apply IH in E2; [lia| |done]. unfold in_u in *. lia.
Qed.

Lemma return_excess_ok n fuel path cold chunk excess :
  host_ok -> in_u 64 chunk -> 0 <= excess < 2 ^ 64 ->
  triple (node_ok n) (return_excess cfg fuel path cold chunk excess) (fun _ => True).
Proof.
  intros Hh Hc. revert excess.
  induction fuel as [|fuel IH]; intros ex Hex; simpl; (case_decide; [by apply triple_ret|]).
  - apply triple_err.
  - eapply triple_bind; [apply submit_ok; [done| |]; unfold in_u in *; lia|intros _ _].
    rewrite wsub_small by (unfold in_u in *; lia). apply IH. unfold in_u in *. lia.
Qed.

Lemma coin_balance_run s :
  ledger_ok (cn_ledger s) ->
  coin_balance cfg s = (s, Ok (balance_muon (local_acct s), pending_received (local_acct s))).
Proof.
  intros. unfold coin_balance, mbind, ST_bind, st_get, st_lift. by rewrite account_state_view.
Qed.

(** When [enforce_cap] reports success and a cold wallet is configured,
    the confirmed balance of the hot wallet is at most [max_cache_muon]. *)
Theorem enforce_cap_bounds n fuel hot path cold s s' :
  host_ok -> reach n (cn_ledger s) -> in_u 64 (max_cache_muon hot) ->
  cold_wallet_address hot = Some cold ->
  enforce_cap cfg fuel hot path s = (s', Ok tt) ->
  exists acc, account_state (local_address cfg) (cn_ledger s') = Ok acc
    /\ balance_muon acc <= max_cache_muon hot.
Proof.
  intros Hh Hs Hm Hcold E. destruct (reach_inv _ _ Hs) as [Hok Hinv].
  destruct (inv_acct _ _ _ Hinv (local_address cfg)) as [_ Hb Hpe Hcap].
  fold (local_acct s) in Hb, Hpe, Hcap.
  unfold enforce_cap in E. erewrite ST_bind_Ok in E by (by apply coin_balance_run).
  cbn beta iota in E. case_decide as Hgt.
  - rewrite Hcold in E. apply ST_bind_inv in E as (s0 & s0' & [= <- <-] & E).
    assert (policy (cn_ledger s) = beta_defaults) as Hpol by apply (inv_policy _ _ _ Hinv).
    rewrite Hpol in E.
    assert (in_u 64 (max_transfer_muon beta_defaults)) as Hch
      by (unfold in_u; vm_compute; intuition congruence).
    assert (0 <= balance_muon (local_acct s) - max_cache_muon hot < 2 ^ 64) as Hex.
    { unfold funds in *. pose proof beta_wf as [? _]. unfold in_u, umax in *. lia. }
    rewrite wsub_small in E by done.
    pose proof (return_excess_ok n fuel path cold _ _ Hh Hch Hex _ _ _ Hs E) as [Hs' _].
    destruct (reach_inv _ _ Hs') as [Hok' _]. exists (local_acct s').
    split; [by apply account_state_view|].
    apply (return_excess_debits n) in E; [lia|done..].
  - injection E as <-. exists (local_acct s). split; [by apply account_state_view|lia].
Qed.

(** The cap-return loop terminates: with a positive chunk size, any fuel
    at least the excess gives the same run, so the loop never depends on the
    bound (and in particular never stops because of it). *)
Theorem return_excess_terminates fuel1 fuel2 path cold chunk excess s :
  0 < chunk -> 0 <= excess < 2 ^ 64 ->
  excess <= Z.of_nat fuel1 -> excess <= Z.of_nat fuel2 ->
  return_excess cfg fuel1 path cold chunk excess s =
  return_excess cfg fuel2 path cold chunk excess s.
Proof.
  intros Hc. revert fuel2 excess s.
  induction fuel1 as [|f1 IH]; intros [|f2] excess s He H1 H2; simpl;
    (case_decide; [done|]); try lia.
  unfold mbind, ST_bind.
  destruct (submit_transfer_from_identity_path _ _ _ _ _ _ _) as [s1 [u|e]]; [|done].
  rewrite wsub_small by (unfold in_u; lia). apply IH; lia.
Qed.
End node_theorems.
