(* ===== verification/CoinNodeDemo.v ===== *)
(** * Concrete runs of the coin node

    Hosts whose transport works and fails, the witnesses of the theorems of
    [CoinNodeTheorems.v], and the run that pays one refill request twice. *)

From S2P Require Import Prelude External Text Instances Host E2E AtRest AtRestDemo Transaction Policy Ledger LedgerView LedgerTheorems CoinDemo CoinNode CoinNodeTheorems.

Open Scope Z_scope.

Definition refill_tuple (r : RefillRequest) :=
  (request_id r, (hot_address r, (cold_address r, (rf_amount_muon r, (rf_fee_muon r,
   (created_at_ms r, (expires_at_ms r, (hot_public_key r, rf_signature r)))))))).
Definition tuple_refill (x : string * (string * (string * (Z * (Z * (Z * (Z *
   (list byte * list byte)))))))) : RefillRequest :=
  let '(i, (h, (c, (a, (f, (cr, (ex, (pk, sg)))))))) := x in mkRefill i h c a f cr ex pk sg.
Lemma tuple_refill_tuple r : tuple_refill (refill_tuple r) = r.
Proof. by destruct r. Qed.
Global Instance codec_refill : Codec RefillRequest := codec_iso _ _ tuple_refill_tuple.

Definition payload_sum (p : CoinPayload) :
    (Transaction + (string * string)) + (string + ((string * (Z * Z)) + RefillRequest)) :=
  match p with
  | PTransaction t => inl (inl t)
  | PWitness i q => inl (inr (i, q))
  | PBalanceQuery a => inr (inl a)
  | PBalanceResponse a b c => inr (inr (inl (a, (b, c))))
  | PRefillRequest r => inr (inr (inr r))
  end.
Definition sum_payload
    (x : (Transaction + (string * string)) + (string + ((string * (Z * Z)) + RefillRequest))) :=
  match x with
  | inl (inl t) => PTransaction t
  | inl (inr (i, q)) => PWitness i q
  | inr (inl a) => PBalanceQuery a
  | inr (inr (inl (a, (b, c)))) => PBalanceResponse a b c
  | inr (inr (inr r)) => PRefillRequest r
  end.
Lemma sum_payload_sum p : sum_payload (payload_sum p) = p.
Proof. by destruct p. Qed.
Global Instance codec_payload : Codec CoinPayload := codec_iso _ _ sum_payload_sum.

Module NodeDemo.
Import Demo.

(** a vault whose first identity is [kp] *)
Definition vault_of (kp : list byte) : VaultHost := {|
  rng_bytes i n := replicate n (byte_of_Z (Z.of_nat i));
  derive_key ctx b := pad32 (as_bytes ctx);
  generate_ed25519 i := kp;
  ed25519_from_bytes b := Ok (b : list byte);
  ed25519_secret kp := Some (kp : list byte);
  sled_open _ := Ok tt;
  tree_flush _ := Ok tt;
|}.

Definition host_of (env : CoinEnv) (kp : list byte) : CoinHost := {|
  coin_env := env; coin_db := db_gmap; coin_vault := vault_of kp; coin_disk := disk_gmap; coin_keyring := keyring_gmap;
  coin_prims := aead_toy;
|}.
Definition env (up : bool) : CoinEnv := {|
  clock k := 1000 + Z.of_nat k;
  uuids k := "uuid"%string;
  transport_send _ _ := if up then Ok tt else Err "transport down"%string;
|}.
Definition host (up : bool) (kp : list byte) : CoinHost := host_of (env up) kp.

(** an empty disk *)
Definition no_vault {e kp} : IdentityVault (H := host_of e kp) := mkWorld (DB := db_gmap) (F := disk_gmap) (K := keyring_gmap) ∅ ∅ ∅ 0.

(** Alice is the cold wallet of Bob. *)
Definition cold_cfg : CoinConfig := mkCoinConfig addrA "cold-peer" "/d/identity".
Definition the_refill (r : anyhow RefillRequest) : RefillRequest :=
  match r with Ok r => r | Err _ => mkRefill "" "" "" 0 0 0 0 [] [] end.
Definition req : RefillRequest :=
  Eval vm_compute in the_refill (rf_new_signed bob addrA 2000000 1000 500 "uuid-1").

Definition s0 {e} : CoinState (H := host_of e alice) := mkCoin (H := host_of e alice) l1 [] 0 no_vault.

Definition deliver_refill (up : bool) (s : CoinState (H := host up alice)) : CoinState (H := host up alice) :=
  (handle_incoming (H := host up alice) cold_cfg (PRefillRequest req) "bob" s).1.

Definition hot : HotWalletConfig := mkHotConfig 4000000 3000000 4000000 (Some addrB).
End NodeDemo.

Import Demo NodeDemo.

Definition balance_of (a : string) (l : LocalLedger) : Z :=
  match account_state a l with Ok acc => balance_muon acc | Err _ => -1 end.

(** One refill request can be debited twice: when the transport fails after
    the transfer was applied to the ledger, the handler does not record the
    request id, and the same request is paid again at the next delivery (here
    10 MXC become 10 - 2 * (2 + 0.001) MXC). *)
Theorem refill_debited_twice_on_send_failure :
  balance_of addrA (cn_ledger (deliver_refill false s0)) = 10000000 - 2001000
  /\ balance_of addrA (cn_ledger (deliver_refill false (deliver_refill false s0))) = 10000000 - 2 * 2001000.
Proof. vm_compute. done. Qed.

Lemma reach_s0 {e} : reach 10000000 (cn_ledger (s0 (e := e))).
Proof. exact reach_l1. Qed.

Definition env1 (up : bool) : CoinEnv := {| clock _ := 1000; uuids _ := "uuid"%string;
  transport_send _ _ := if up then Ok tt else Err "down"%string |}.
Definition host1 (up : bool) : CoinHost := host_of (env1 up) alice.

Lemma host_clock_ok up : host_ok (H := host1 up).
Proof. intros k. unfold in_u. simpl. lia. Qed.

Lemma handle_incoming_preserves_ledger_witness :
  reach 10000000
    (cn_ledger (handle_incoming (H := host1 true) cold_cfg (PRefillRequest req) "bob" s0).1).
Proof.
  eapply (handle_incoming_preserves_ledger (H := host1 true) cold_cfg 10000000
           (PRefillRequest req) "bob" s0).
  - exact (host_clock_ok true).
  - simpl. unfold in_u. vm_compute. intuition congruence.
  - exact reach_s0.
  - apply surjective_pairing.
Defined.

Definition s1 : CoinState (H := host true alice) := deliver_refill true s0.
(** another refill request of Bob, and a transfer *)
Definition req2 : RefillRequest :=
  Eval vm_compute in the_refill (rf_new_signed bob addrA 1000000 1000 500 "uuid-2").
Definition meanwhile : list CoinOp :=
  [OpIncoming (PRefillRequest req2) "bob"; OpFaucet; OpSubmit "/d/identity" addrB 500000 1000 None].
Definition s1' : CoinState (H := host true alice) := run_coins (H := host true alice) cold_cfg meanwhile s1.

Lemma refill_paid_once_witness :
  (length (cn_outbox (s0 (e := env true))) < length (cn_outbox s1) < length (cn_outbox s1'))%nat
  /\ cn_ledger (deliver_refill true s1') = cn_ledger s1' /\ cn_outbox (deliver_refill true s1') = cn_outbox s1'.
Proof.
  destruct (refill_paid_once (H := host true alice) cold_cfg req req "bob" "bob" meanwhile s0 s1
    (handle_incoming (H := host true alice) cold_cfg (PRefillRequest req) "bob" s0).2 (deliver_refill true s1')
    (handle_incoming (H := host true alice) cold_cfg (PRefillRequest req) "bob" s1').2) as (H1 & H2 & _).
  - apply surjective_pairing.
  - intros E. apply (f_equal (@length _)) in E. revert E. vm_compute. discriminate.
  - reflexivity.
  - apply surjective_pairing.
  - split; [vm_compute; lia|]. exact (conj H1 H2).
Defined.

Lemma enforce_cap_bounds_witness :
  exists acc, account_state addrA
      (cn_ledger (enforce_cap (H := host1 true) cold_cfg 10 hot "/d/identity" s0).1) = Ok acc
    /\ balance_muon acc <= 4000000.
Proof.
  eapply (enforce_cap_bounds (H := host1 true) cold_cfg 10000000 10 hot "/d/identity" addrB s0).
  - exact (host_clock_ok true).
  - exact reach_s0.
  - unfold in_u. vm_compute. intuition congruence.
  - reflexivity.
  - apply injective_projections; [reflexivity|by vm_compute].
Defined.

Lemma return_excess_terminates_witness :
  return_excess (H := host1 true) cold_cfg 7 "/d/identity" addrB 3 7 s0 =
  return_excess (H := host1 true) cold_cfg 9 "/d/identity" addrB 3 7 s0.
Proof. apply (return_excess_terminates (H := host1 true)); lia. Defined.
