(* ===== verification/Payment.v ===== *)
(** * Payment URIs

    [mycelium-coin/src/payment.rs]: the [mxcpay:] text form of a payment
    request.  [urlencoding] is a parameter; fresh uuids and the clock are
    arguments. *)

From S2P Require Import Prelude Text.

Open Scope Z_scope.

Record PaymentRequest := mkPayment {
  to_address : string;
  pay_amount_muon : Z;
  pay_memo : option string;
  pay_expires_at_ms : option Z;
  pay_request_id : string;
}.

Class UrlEncoding := {
  url_encode : string -> string;
  url_decode : string -> anyhow string;
}.

Definition amp : Ascii.ascii := Ascii.ascii_of_nat 38.
Definition qmark : Ascii.ascii := Ascii.ascii_of_nat 63.

(** Percent encoding leaves unreserved characters and [%XX], so never [&]. *)
Class UrlEncodingLaws (U : UrlEncoding) : Prop := {
  url_decode_encode : forall s, url_decode (url_encode s) = Ok s;
  url_encode_amp : forall s, has_char amp (url_encode s) = false;
}.

Definition pay_new (to : string) (amount : Z) (memo : option string) (now : Z) (uuid : string) : PaymentRequest :=
  mkPayment to amount memo (Some (now +sat (30 * 60 * 1000))) uuid.

Section payment.
Context `{U : UrlEncoding}.

Definition to_uri (p : PaymentRequest) : string :=
  ("mxcpay:" +:+ to_address p +:+ "?amount=" +:+ show (pay_amount_muon p)
   +:+ match pay_memo p with Some memo => "&memo=" +:+ url_encode memo | None => "" end
   +:+ match pay_expires_at_ms p with Some e => "&expires=" +:+ show e | None => "" end)%string.

(** the mutable variables of the parameter loop *)
Record PayParams := mkParams { pp_amount : Z; pp_memo : option string; pp_expires : option Z }.

Definition pay_param (acc : PayParams) (param : string) : anyhow PayParams :=
  match strip_prefix "amount=" param with
  | Some v => Ok (mkParams (default 0 (parse_uint 64 v)) (pp_memo acc) (pp_expires acc))
  | None =>
  match strip_prefix "memo=" param with
  | Some v => m ← url_decode v; Ok (mkParams (pp_amount acc) (Some m) (pp_expires acc))
  | None =>
  match strip_prefix "expires=" param with
  | Some v => Ok (mkParams (pp_amount acc) (pp_memo acc) (parse_uint 64 v))
  | None => Ok acc
  end end end.

Fixpoint pay_params (acc : PayParams) (ps : list string) : anyhow PayParams :=
  match ps with
  | [] => Ok acc
  | p :: ps => if decide (p = ""%string) then pay_params acc ps
               else acc ← pay_param acc p; pay_params acc ps
  end.

Definition from_uri (uri uuid : string) : anyhow PaymentRequest :=
  match strip_prefix "mxcpay:" uri with
  | None => Err "not a mxcpay URI"%string
  | Some rest =>
      let '(address, params) := default (rest, ""%string) (split_once qmark rest) in
      acc ← pay_params (mkParams 0 None None) (split_on amp params);
      Ok (mkPayment address (pp_amount acc) (pp_memo acc) (pp_expires acc) uuid)
  end.

Definition pay_is_expired (p : PaymentRequest) (now : Z) : bool :=
  match pay_expires_at_ms p with Some e => bool_decide (e < now) | None => false end.

Context {UL : UrlEncodingLaws U}.

Lemma show_no_amp z : has_char amp (show z) = false.
Proof. unfold show. generalize (N.to_uint (Z.to_N z)) as d. by induction d. Qed.

(** the query of [to_uri], as the list its [&]s separate *)
Definition pay_query (p : PaymentRequest) : list string :=
  ("amount=" +:+ show (pay_amount_muon p))%string
  :: option_list ((fun m => "memo=" +:+ url_encode m)%string <$> pay_memo p)
  ++ option_list ((fun e => "expires=" +:+ show e)%string <$> pay_expires_at_ms p).

Lemma to_uri_query p :
  to_uri p = ("mxcpay:" +:+ to_address p +:+ String qmark (join (String amp EmptyString) (pay_query p)))%string.
Proof.
  unfold to_uri, pay_query. f_equal. f_equal.
  destruct (pay_memo p) as [m|], (pay_expires_at_ms p) as [e|]; simpl option_list; cbn [app join];
    rewrite ?str_append_assoc; try reflexivity.
  - by rewrite str_append_nil.
  - change ("" +:+ "")%string with ""%string. by rewrite str_append_nil.
Qed.

Lemma pay_query_no_amp p : Forall (fun s => has_char amp s = false) (pay_query p).
Proof.
  unfold pay_query. constructor; [rewrite has_char_app; apply show_no_amp|]. apply Forall_app. split.
  - destruct (pay_memo p); simpl; repeat constructor. rewrite has_char_app. apply url_encode_amp.
  - destruct (pay_expires_at_ms p); simpl; repeat constructor. rewrite has_char_app. apply show_no_amp.
Qed.

Lemma pay_params_memo acc o ps :
  pp_memo acc = None ->
  pay_params acc (option_list ((fun m => "memo=" +:+ url_encode m)%string <$> o) ++ ps)
  = pay_params (mkParams (pp_amount acc) o (pp_expires acc)) ps.
Proof.
  intros Hn. destruct o as [m|]; [|by destruct acc; simpl in *; subst].
  unfold option_list. cbn [fmap option_fmap option_map option_rect app pay_params].
  rewrite decide_False by done. unfold pay_param. change (strip_prefix "amount=" ("memo=" +:+ url_encode m)%string) with (@None string).
  by rewrite strip_prefix_app, url_decode_encode.
Qed.

Lemma pay_params_expires acc o :
  pp_expires acc = None -> (forall e, o = Some e -> in_u 64 e) ->
  pay_params acc (option_list ((fun e => "expires=" +:+ show e)%string <$> o))
  = Ok (mkParams (pp_amount acc) (pp_memo acc) o).
Proof.
  intros Hn He. destruct o as [e|]; [|by destruct acc; simpl in *; subst].
  unfold option_list. cbn [fmap option_fmap option_map option_rect app pay_params].
  rewrite decide_False by done. unfold pay_param. change (strip_prefix "amount=" ("expires=" +:+ show e)%string) with (@None string).
  change (strip_prefix "memo=" ("expires=" +:+ show e)%string) with (@None string).
  specialize (He e eq_refl). rewrite strip_prefix_app, parse_show; [done|]. unfold in_u, umax in *. lia.
Qed.

Lemma pay_query_parse p :
  in_u 64 (pay_amount_muon p) -> (forall e, pay_expires_at_ms p = Some e -> in_u 64 e) ->
  pay_params (mkParams 0 None None) (pay_query p)
  = Ok (mkParams (pay_amount_muon p) (pay_memo p) (pay_expires_at_ms p)).
Proof.
  intros Ha He. unfold pay_query. cbn [pay_params]. rewrite decide_False by done. unfold pay_param.
  rewrite strip_prefix_app, parse_show by (unfold in_u, umax in *; lia).
  cbn [mbind Res_bind]. rewrite pay_params_memo by done. by rewrite pay_params_expires.
Qed.

(** Payment URI round trip: scanning the URI printed for a request gives
    back its address, amount, memo and expiry (the request id is always drawn
    afresh), for every address without a [?] and every memo text. *)
Theorem payment_uri_roundtrip (p : PaymentRequest) (uuid : string) :
  has_char qmark (to_address p) = false -> in_u 64 (pay_amount_muon p) ->
  (forall e, pay_expires_at_ms p = Some e -> in_u 64 e) ->
  from_uri (to_uri p) uuid
  = Ok (mkPayment (to_address p) (pay_amount_muon p) (pay_memo p) (pay_expires_at_ms p) uuid).
Proof.
  intros Hq Ha He. unfold from_uri. rewrite to_uri_query, strip_prefix_app, split_once_app by done.
  cbn [from_option]. unfold id.
  rewrite split_on_join by (done || apply pay_query_no_amp). by rewrite pay_query_parse.
Qed.
End payment.

(** ** Witness: hexadecimal percent encoding *)

Definition hexd (n : Z) : byte := byte_of_Z (if decide (n < 10) then 48 + n else 55 + n).
Definition hexv (b : byte) : Z := let n := Z_of_byte b in if decide (n < 58) then n - 48 else n - 55.

(** every byte as [%XX] *)
Fixpoint pct (l : list byte) : list byte :=
  match l with
  | [] => []
  | b :: l => x25 :: hexd (Z_of_byte b / 16) :: hexd (Z_of_byte b mod 16) :: pct l
  end.
Fixpoint unpct (l : list byte) : anyhow (list byte) :=
  match l with
  | [] => Ok []
  | x25 :: a :: b :: l => r ← unpct l; Ok (byte_of_Z (16 * hexv a + hexv b) :: r)
  | _ => Err "urlencoding"%string
  end.

Definition url_pct : UrlEncoding := {|
  url_encode s := of_bytes (pct (as_bytes s));
  url_decode s := l ← unpct (as_bytes s); Ok (of_bytes l);
|}.

Lemma pct_byte b : byte_of_Z (16 * hexv (hexd (Z_of_byte b / 16)) + hexv (hexd (Z_of_byte b mod 16))) = b.
Proof. by destruct b. Qed.

Lemma unpct_pct l : unpct (pct l) = Ok l.
Proof.
  induction l as [|b l IH]; [done|]. cbn [pct unpct]. rewrite IH. cbn [mbind Res_bind].
  by rewrite pct_byte.
Qed.

Lemma pct_no_amp l : has_char amp (of_bytes (pct l)) = false.
Proof. induction l as [|b l IH]; [done|]. by destruct b. Qed.

Lemma url_pct_laws : UrlEncodingLaws url_pct.
Proof.
  split; intros s; [|apply pct_no_amp]. simpl. rewrite as_of_bytes, unpct_pct. simpl.
  by rewrite of_as_bytes.
Qed.

Lemma payment_uri_roundtrip_witness :
  let p := mkPayment "MXC1abc" 2500000 (Some "a & b?"%string) (Some 1700000000000) "id" in
  from_uri (U := url_pct) (to_uri (U := url_pct) p) "new"
  = Ok (mkPayment "MXC1abc" 2500000 (Some "a & b?"%string) (Some 1700000000000) "new").
Proof.
  intros p. refine (payment_uri_roundtrip (UL := url_pct_laws) p "new" _ _ _).
  - reflexivity.
  - unfold in_u; simpl; lia.
  - intros e [= <-]. unfold in_u; lia.
Defined.
