(* ===== verification/Bootstrap.v ===== *)
(** * Invites and bootstrap peers

    [mycelium-core/src/invite.rs] and [bootstrap.rs]: the invite text that QR
    codes carry, the relay circuit address, and the two small text files of
    the data directory ([bootstrap.txt], [dial_peers.txt]). *)

From S2P Require Import Prelude Text.

Open Scope Z_scope.

Definition RELAY_IPV4 : string := "149.248.194.198".
Definition RELAY_PEER_ID : string := "12D3KooWSkVL5ThExB7paWskDKc2pUobKrV9yWVabMpUdw8hE2wj".

Definition is_relay_peer (peer_id : string) : bool := bool_decide (trim peer_id = RELAY_PEER_ID).

Definition BOOTSTRAP_PEERS : list string :=
  [ "/ip4/149.248.194.198/tcp/4001/p2p/12D3KooWSkVL5ThExB7paWskDKc2pUobKrV9yWVabMpUdw8hE2wj";
    "/ip4/149.248.194.198/udp/4001/quic-v1/p2p/12D3KooWSkVL5ThExB7paWskDKc2pUobKrV9yWVabMpUdw8hE2wj" ]%string.

Definition relay_circuit_multiaddr (remote_peer_id : string) : option string :=
  let remote := trim remote_peer_id in
  if decide (remote = ""%string) then None else
  base ← List.find (fun addr => str_contains "/tcp/" addr) BOOTSTRAP_PEERS;
  Some (base +:+ "/p2p-circuit/p2p/" +:+ remote)%string.

(** ** [invite.rs] *)

Definition PREFIX_V1 : string := "mycelium://invite/v1#".

Inductive InviteTarget :=
| InvitePeerId (id : string)
| InviteMultiaddr (addr : string).

Definition encode_invite (peer_id : string) : string := (PREFIX_V1 +:+ trim peer_id)%string.

Definition looks_like_peer_id (s : string) : bool :=
  (40 <=? String.length s)%nat && starts_with "12D3Koo" s.

Definition at_char : Ascii.ascii := Ascii.ascii_of_nat 64.
Definition colon : Ascii.ascii := Ascii.ascii_of_nat 58.

Definition legacy_host_port_to_multiaddr (input : string) : option InviteTarget :=
  match split_on at_char input with
  | [p0; p1] =>
      let peer_id := trim p0 in
      if decide (peer_id = ""%string) then None else
      match split_on colon p1 with
      | [host; port] =>
          match parse_uint 16 port with
          | None => None
          | Some _ => Some (InviteMultiaddr ("/ip4/" +:+ host +:+ "/tcp/" +:+ port +:+ "/p2p/" +:+ peer_id))
          end
      | _ => None
      end
  | _ => None
  end%string.

Definition parse_invite (raw : string) : option InviteTarget :=
  let input := trim raw in
  if decide (input = ""%string) then None else
  match strip_prefix PREFIX_V1 input with
  | Some peer_id =>
      let peer_id := trim peer_id in
      if decide (peer_id = ""%string) then None else Some (InvitePeerId peer_id)
  | None =>
      if starts_with "/" input then Some (InviteMultiaddr input) else
      if looks_like_peer_id input then Some (InvitePeerId input) else
      legacy_host_port_to_multiaddr input
  end.

Definition to_dial_multiaddr (t : InviteTarget) : option string :=
  match t with
  | InviteMultiaddr addr => Some addr
  | InvitePeerId id => relay_circuit_multiaddr id
  end.

Definition shareable_dial_multiaddrs (local_peer_id : string) (listen_addrs : list string) : list string :=
  [encode_invite local_peer_id]
  ++ option_list (relay_circuit_multiaddr local_peer_id)
  ++ omap (fun addr =>
       let trimmed := trim addr in
       if decide (trimmed = ""%string) then None else
       if str_contains "/p2p/" trimmed then Some trimmed
       else Some (trimmed +:+ "/p2p/" +:+ local_peer_id)%string) listen_addrs.

(** ** The data directory

    A file is absent, unreadable ([Err]) or has a content.  What a failed
    write leaves behind is the file system's choice. *)

Definition file : Type := option (anyhow string).

Record DataDir := mkDir {
  bootstrap_txt : file;
  dial_peers_txt : file;
}.

Class FileSys := {
  create_dir_all : anyhow unit;
  fs_write : file -> string -> file * anyhow unit;
  fs_remove : file -> file * anyhow unit;
}.

Class FileSysLaws (F : FileSys) : Prop := {
  create_dir_ok : create_dir_all = Ok tt;
  fs_write_ok : forall f s, fs_write f s = (Some (Ok s), Ok tt);
  fs_remove_ok : forall f, fs_remove f = (None, Ok tt);
}.

(** [.lines().map(trim).filter(non-empty, not a comment)] *)
Definition peer_lines (content : string) : list string :=
  filter (fun l => l ≠ ""%string /\ starts_with "#" l = false) (trim <$> lines content).

Definition comma : Ascii.ascii := Ascii.ascii_of_nat 44.

Definition env_peers (env : option string) : list string :=
  match env with
  | Some v => filter (fun s => s ≠ ""%string) (trim <$> split_on comma v)
  | None => []
  end.

Definition read_peers (f : file) : list string :=
  match f with Some (Ok content) => peer_lines content | _ => [] end.

Definition load_bootstrap_peers (env : option string) (d : DataDir) : list string :=
  let peers := env_peers env in
  if decide (peers ≠ []) then peers else
  let peers := read_peers (bootstrap_txt d) in
  if decide (peers ≠ []) then peers else BOOTSTRAP_PEERS.

Definition load_custom_bootstrap_peers (d : DataDir) : list string := read_peers (bootstrap_txt d).
Definition load_persisted_dial_peers (d : DataDir) : list string := read_peers (dial_peers_txt d).

Definition nl : string := String newline EmptyString.

Section files.
Context `{F : FileSys}.

Definition persist_dial_peer (multiaddr : string) : ST DataDir unit := fun d =>
  let trimmed := trim multiaddr in
  if decide (trimmed = ""%string) then (d, Ok tt) else
  let peers := load_persisted_dial_peers d in
  if decide (trimmed ∈ peers) then (d, Ok tt) else
  match create_dir_all with
  | Err e => (d, Err e)
  | Ok _ =>
      let '(f, r) := fs_write (dial_peers_txt d) (join nl (peers ++ [trimmed])) in
      (mkDir (bootstrap_txt d) f, r)
  end.

Definition save_custom_bootstrap_peers (peers : list string) : ST DataDir unit := fun d =>
  match create_dir_all with
  | Err e => (d, Err e)
  | Ok _ =>
      if decide (peers = []) then
        match bootstrap_txt d with
        | None => (d, Ok tt)
        | Some _ => let '(f, r) := fs_remove (bootstrap_txt d) in (mkDir f (dial_peers_txt d), r)
        end
      else
        let '(f, r) := fs_write (bootstrap_txt d) (join nl peers) in
        (mkDir f (dial_peers_txt d), r)
  end.
End files.

(** ** Theorems *)

Lemma strip_prefix_app_trim s : trim s ≠ ""%string ->
  starts_char (trim s) -> trim (encode_invite s) = encode_invite s.
Proof.
  intros Hne Hc. apply trim_clean.
  - unfold encode_invite. rewrite as_bytes_app. reflexivity.
  - unfold encode_invite. apply ws_head_end_app; [done..|]. apply trim_heads.
Qed.

(** Every line the loaders return: trimmed, non-empty, one line, no comment. *)
Definition clean_line (s : string) : Prop :=
  trim s = s /\ s ≠ ""%string /\ has_char newline s = false /\ starts_with "#" s = false.

Lemma has_char_bytes c s : has_char c s = true <-> Ascii.byte_of_ascii c ∈ as_bytes s.
Proof.
  induction s as [|a s IH]; [split; [done|by intros ?%elem_of_nil]|]. cbn [has_char].
  change (as_bytes (String a s)) with (Ascii.byte_of_ascii a :: as_bytes s).
  rewrite orb_true_iff, bool_decide_eq_true, elem_of_cons, IH.
  split; (intros [H|H]; [left|by right]); [by subst|].
  by rewrite <- (Ascii.ascii_of_byte_of_ascii a), <- H, Ascii.ascii_of_byte_of_ascii.
Qed.

Lemma trim_sub s : as_bytes (trim s) ⊆ as_bytes s.
Proof.
  unfold trim. rewrite as_of_bytes. unfold trim_start_bytes.
  destruct (drop_ws_suffix ws1 ws2 ws3 (as_bytes s)) as [k Hk].
  destruct (trim_end_prefix (drop_ws ws1 ws2 ws3 (as_bytes s))) as [k' Hk'].
  rewrite Hk at 2. rewrite Hk' at 2. set_solver.
Qed.

Lemma trim_no_char c s : has_char c s = false -> has_char c (trim s) = false.
Proof. rewrite <- !not_true_iff_false, !has_char_bytes. intros H H'. by apply H, trim_sub. Qed.

Lemma split_on_no_char c s p : p ∈ split_on c s -> has_char c p = false.
Proof.
  revert p. induction s as [|a s IH]; intros p; cbn [split_on].
  { by intros ->%list_elem_of_singleton. }
  destruct (decide (a = c)) as [Ha|Ha].
  { intros [->|Hp]%elem_of_cons; [done|by apply IH]. }
  destruct (split_on c s) as [|q qs].
  { intros ->%list_elem_of_singleton. simpl. by rewrite bool_decide_eq_false_2. }
  intros [->|Hp]%elem_of_cons; [|apply IH; by right].
  simpl. rewrite bool_decide_eq_false_2 by done. apply IH. left.
Qed.

Lemma strip_cr_trim s : strip_cr (trim s) = trim s.
Proof.
  unfold strip_cr. destruct (strip_suffix _ (trim s)) as [r|] eqn:E; [|done].
  apply strip_suffix_Some in E. pose proof (trim_heads s) as [_ Hend].
  rewrite E in Hend. unfold ws_head_end in Hend. rewrite reverse_app in Hend. done.
Qed.

Lemma lines_no_newline s p : p ∈ lines s -> has_char newline p = false.
Proof.
  unfold lines. intros (q & -> & Hq)%list_elem_of_fmap.
  assert (has_char newline q = false) as H.
  { apply (split_on_no_char _ s). revert Hq. repeat case_match; try done.
    all: intros Hq; apply list_elem_of_lookup in Hq as [i Hi];
      apply lookup_take_Some in Hi as [Hi _]; by eapply list_elem_of_lookup_2. }
  unfold strip_cr. destruct (strip_suffix _ q) as [r|] eqn:E; [|done]. simpl.
  apply strip_suffix_Some in E. revert H. rewrite <- !not_true_iff_false, !has_char_bytes, E.
  set_solver.
Qed.

Lemma peer_lines_clean content : Forall clean_line (peer_lines content).
Proof.
  apply Forall_forall. intros p [[Hne Hh] Hp]%list_elem_of_filter.
  apply list_elem_of_fmap in Hp as (q & -> & Hq). split_and!; try done.
  - apply trim_trim.
  - by apply trim_no_char, lines_no_newline with content.
Qed.

Lemma read_peers_clean f : Forall clean_line (read_peers f).
Proof. destruct f as [[c|]|]; simpl; [apply peer_lines_clean|constructor..]. Qed.

Lemma lines_join ps : Forall clean_line ps -> lines (join nl ps) = ps.
Proof.
  intros H. destruct (decide (ps = [])) as [->|Hne]; [done|]. unfold lines, nl.
  rewrite split_on_join; [|done|eapply Forall_impl; [exact H|by intros ? (? & ? & ? & ?)]].
  destruct (list.last ps) as [p|] eqn:E; [|by apply last_None in E].
  assert (clean_line p) as (_ & Hp & _).
  { apply (Forall_forall clean_line ps); [done|]. apply last_Some in E as [l ->]. set_solver. }
  destruct p as [|a p]; [done|].
  clear E Hne. induction H as [|q ps (Hq & _) _ IH]; [done|]. rewrite fmap_cons, IH. f_equal.
  rewrite <- Hq. apply strip_cr_trim.
Qed.

(** Writing clean lines and reading them back gives the same list. *)
Lemma peer_lines_join ps : Forall clean_line ps -> peer_lines (join nl ps) = ps.
Proof.
  intros H. unfold peer_lines. rewrite lines_join by done.
  induction H as [|q ps (Hq & Hne & _ & Hh) _ IH]; [done|].
  rewrite fmap_cons, Hq, filter_cons_True by done. by f_equal.
Qed.

(** An invite made for any peer id that is valid UTF-8 and not blank is
    parsed back to that id (trimmed), and dials it through the relay circuit. *)
Theorem invite_roundtrip (id : string) :
  utf8_valid (as_bytes id) = true -> trim id ≠ ""%string ->
  parse_invite (encode_invite id) = Some (InvitePeerId (trim id))
  /\ (parse_invite (encode_invite id) ≫= to_dial_multiaddr) = relay_circuit_multiaddr id
  /\ is_Some (relay_circuit_multiaddr id).
Proof.
  intros Hu Hne.
  assert (parse_invite (encode_invite id) = Some (InvitePeerId (trim id))) as E.
  { unfold parse_invite. rewrite strip_prefix_app_trim; [|done|by apply trim_starts_char].
    rewrite decide_False by done. unfold encode_invite. rewrite strip_prefix_app.
    rewrite trim_trim. by rewrite decide_False by done. }
  rewrite E. split_and!; [done| |].
  - simpl. unfold relay_circuit_multiaddr. by rewrite trim_trim.
  - unfold relay_circuit_multiaddr. rewrite decide_False by done. by eexists.
Qed.

(** On a healthy disk, [persist_dial_peer] of a one-line address that is
    not a comment makes the stored list the old one, with the trimmed address
    appended when it is new; repeating the call changes nothing. *)
Theorem persist_dial_roundtrip {F : FileSys} {FL : FileSysLaws F} (d d' : DataDir) (m : string) r :
  has_char newline (trim m) = false -> starts_with "#" (trim m) = false ->
  persist_dial_peer m d = (d', r) ->
  r = Ok tt
  /\ load_persisted_dial_peers d' =
       (if decide (trim m = ""%string \/ trim m ∈ load_persisted_dial_peers d)
        then load_persisted_dial_peers d else load_persisted_dial_peers d ++ [trim m])
  /\ load_custom_bootstrap_peers d' = load_custom_bootstrap_peers d
  /\ persist_dial_peer m d' = (d', Ok tt).
Proof.
  intros Hnl Hh. unfold persist_dial_peer at 1. rewrite create_dir_ok, fs_write_ok.
  destruct (decide (trim m = ""%string)) as [He|He].
  { intros [= <- <-]. rewrite decide_True by auto. split_and!; try done.
    unfold persist_dial_peer. by rewrite decide_True. }
  destruct (decide (trim m ∈ _)) as [Hin|Hin].
  { intros [= <- <-]. rewrite decide_True by auto. split_and!; try done.
    unfold persist_dial_peer. by rewrite decide_False, decide_True. }
  intros [= <- <-]. rewrite decide_False by tauto.
  set (ps := load_persisted_dial_peers d ++ [trim m]).
  assert (Forall clean_line ps) as Hps.
  { apply Forall_app. split; [apply read_peers_clean|]. repeat constructor; try done.
    apply trim_trim. }
  assert (load_persisted_dial_peers (mkDir (bootstrap_txt d) (Some (Ok (join nl ps)))) = ps) as Hld
    by (by apply peer_lines_join).
  split_and!; try done.
  unfold persist_dial_peer. rewrite decide_False by done. rewrite Hld, decide_True; [done|].
  unfold ps. set_solver.
Qed.

(** Whatever the environment variable and the file hold, the node gets at
    least one bootstrap address, and every address it gets is trimmed and not
    blank; saving custom peers and loading them back returns them. *)
Theorem bootstrap_peers_usable {F : FileSys} {FL : FileSysLaws F} (env : option string) (d : DataDir) (ps : list string) :
  load_bootstrap_peers env d ≠ []
  /\ Forall (fun s => s ≠ ""%string /\ trim s = s) (load_bootstrap_peers env d)
  /\ (Forall clean_line ps ->
       exists d', save_custom_bootstrap_peers ps d = (d', Ok tt)
                  /\ load_custom_bootstrap_peers d' = ps
                  /\ (ps ≠ [] -> load_bootstrap_peers None d' = ps)).
Proof.
  split_and!.
  - unfold load_bootstrap_peers. by repeat case_decide.
  - unfold load_bootstrap_peers. case_decide; [|case_decide].
    + apply Forall_forall. unfold env_peers. destruct env as [v|]; [|set_solver].
      intros p [Hne Hp]%list_elem_of_filter. apply list_elem_of_fmap in Hp as (q & -> & _).
      split; [done|]. apply trim_trim.
    + eapply Forall_impl; [apply read_peers_clean|]. by intros ? (? & ? & _).
    + repeat constructor; discriminate.
  - intros Hps. unfold save_custom_bootstrap_peers. rewrite create_dir_ok.
    destruct (decide (ps = [])) as [->|Hne].
    + destruct (bootstrap_txt d) eqn:E; rewrite ?fs_remove_ok; eexists; split_and!; try done.
      unfold load_custom_bootstrap_peers. by rewrite E.
    + rewrite fs_write_ok. eexists; split_and!; [done|by apply peer_lines_join|].
      intros _. unfold load_bootstrap_peers. cbn [env_peers bootstrap_txt read_peers].
      rewrite peer_lines_join by done. rewrite decide_False by (intros H; by apply H).
      by rewrite decide_True.
Qed.

(** ** Witnesses: an in-memory file system *)

Definition fs_mem : FileSys := {|
  create_dir_all := Ok tt;
  fs_write _ s := (Some (Ok s), Ok tt);
  fs_remove _ := (None, Ok tt);
|}.

Lemma fs_mem_laws : FileSysLaws fs_mem.
Proof. by split. Qed.

Lemma invite_roundtrip_witness :
  parse_invite (encode_invite " 12D3KooWGv6goWd2fHwcigDjqQm5Dfw28UijwEjnMcYwTpPRPZy6 ")
  = Some (InvitePeerId "12D3KooWGv6goWd2fHwcigDjqQm5Dfw28UijwEjnMcYwTpPRPZy6").
Proof.
  refine (eq_trans (proj1 (invite_roundtrip " 12D3KooWGv6goWd2fHwcigDjqQm5Dfw28UijwEjnMcYwTpPRPZy6 " _ _)) _);
    [reflexivity | discriminate | reflexivity].
Defined.

Definition demo_dir : DataDir := mkDir None (Some (Ok ("/ip4/1.2.3.4/tcp/1" +:+ nl +:+ "# old" +:+ nl)%string)).

Lemma persist_dial_roundtrip_witness :
  load_persisted_dial_peers (persist_dial_peer (F := fs_mem) " /ip4/5.6.7.8/tcp/2 " demo_dir).1
  = ["/ip4/1.2.3.4/tcp/1"; "/ip4/5.6.7.8/tcp/2"]%string.
Proof.
  destruct (persist_dial_peer (F := fs_mem) " /ip4/5.6.7.8/tcp/2 " demo_dir) as [d' r] eqn:E.
  destruct (persist_dial_roundtrip (FL := fs_mem_laws) _ _ " /ip4/5.6.7.8/tcp/2 " _
              ltac:(reflexivity) ltac:(reflexivity) E) as (_ & H & _).
  exact (eq_trans H eq_refl).
Defined.

Lemma bootstrap_peers_usable_witness :
  exists d', save_custom_bootstrap_peers (F := fs_mem) ["/dns4/a/tcp/1"; "/dns4/b/tcp/2"]%string demo_dir = (d', Ok tt)
             /\ load_custom_bootstrap_peers d' = ["/dns4/a/tcp/1"; "/dns4/b/tcp/2"]%string.
Proof.
  destruct (bootstrap_peers_usable (FL := fs_mem_laws) None demo_dir
              ["/dns4/a/tcp/1"; "/dns4/b/tcp/2"]%string) as (_ & _ & H).
  destruct H as (d' & H1 & H2 & _); [repeat constructor; discriminate|]. eauto.
Defined.
