(* ===== verification/Wire.v ===== *)
(** * Envelopes and wire messages

    [mycelium-core/src/data.rs], [transport.rs] and [e2e_direct_wrap.rs]: the
    signed envelope, the wire frames and their signatures, scopes, expiry, and
    the author framing inside end-to-end ciphertexts. *)

From S2P Require Import Prelude External Text.

Open Scope Z_scope.

(** ** [data.rs] *)

Definition SIG_V1_LAUNCH_MS : Z := 1779430651000.
Definition SIG_TRANSITION_MS : Z := 7 * 24 * 60 * 60 * 1000.

Inductive Priority := Low | Normal | High.

Global Instance Priority_eq_dec : EqDecision Priority.
Proof. solve_decision. Defined.

(** [priority as u8] *)
Definition priority_byte (p : Priority) : byte :=
  match p with Low => x00 | Normal => x01 | High => x02 end.

Record Envelope := mkEnvelope {
  e_id : string;
  from_peer : string;
  to_peer : option string;
  payload : list byte;
  created_at_ms : Z;
  ttl_secs : Z;
  priority : Priority;
  signature : option (list byte);
  sig_version : Z;
  hop_count : Z;
  max_hops : Z;
  author_peer : option string;
}.

Global Instance Envelope_eq_dec : EqDecision Envelope.
Proof. solve_decision. Defined.

Definition default_max_hops : Z := 8.

Definition set_signature (s : option (list byte)) (v : Z) (e : Envelope) : Envelope :=
  mkEnvelope (e_id e) (from_peer e) (to_peer e) (payload e) (created_at_ms e) (ttl_secs e)
    (priority e) s v (hop_count e) (max_hops e) (author_peer e).

(** the integer fields are [u64], [u32] and [u8] *)
Definition env_wf (e : Envelope) : Prop :=
  in_u 64 (created_at_ms e) /\ in_u 32 (ttl_secs e) /\ in_u 8 (sig_version e)
  /\ in_u 8 (hop_count e) /\ in_u 8 (max_hops e).

(** the bytes after the payload, of fixed width *)
Definition sign_tail (e : Envelope) : list byte :=
  le_bytes 8 (created_at_ms e) ++ le_bytes 4 (ttl_secs e)
  ++ [priority_byte (priority e); byte_of_Z (hop_count e); byte_of_Z (max_hops e)].

Definition opt_bytes (o : option string) : list byte :=
  match o with Some t => as_bytes t | None => [] end.

Definition bytes_for_signing_v0 (e : Envelope) : list byte :=
  as_bytes (from_peer e) ++ opt_bytes (to_peer e) ++ payload e ++ sign_tail e.

Definition bytes_for_signing (e : Envelope) : list byte :=
  as_bytes (e_id e) ++ as_bytes (from_peer e) ++ opt_bytes (to_peer e) ++ payload e ++ sign_tail e.

Definition signature_author_peer (e : Envelope) : string := default (from_peer e) (author_peer e).

Definition signature_transition_active (now : Z) : bool :=
  bool_decide (now < SIG_V1_LAUNCH_MS +sat SIG_TRANSITION_MS).

Section envelope.
Context `{C : Crypto}.

Definition content_id (data : list byte) : string := hex_encode (blake3 data).

Definition envelope_new (from : string) (to : option string) (p : list byte) (now : Z) : Envelope :=
  mkEnvelope (content_id (as_bytes from ++ p ++ le_bytes 8 now)) from to p now (7 * 24 * 60 * 60)
    Normal None 1 0 default_max_hops None.

Definition envelope_new_unsigned (from : string) (to : option string) (p : list byte) (now : Z) : Envelope :=
  set_signature None 0 (envelope_new from to p now).

Definition env_sign (kp : Keypair) (e : Envelope) : Envelope * anyhow unit :=
  let e := set_signature (signature e) 1 e in
  match kp_sign kp (bytes_for_signing e) with
  | Err m => (e, Err ("failed to sign envelope: " +:+ m)%string)
  | Ok sig => (set_signature (Some sig) 1 e, Ok tt)
  end.

(** The key inlined in a peer id, when its multihash is the identity one. *)
Definition inline_key (p : PeerId) : option PublicKey :=
  if decide (peer_code p ≠ 0) then None else pk_decode (peer_digest p).

Definition env_verify (from_peer_id : PeerId) (e : Envelope) : bool :=
  match signature e with
  | None => false
  | Some sig =>
      let bytes := if decide (sig_version e = 0) then bytes_for_signing_v0 e else bytes_for_signing e in
      match inline_key from_peer_id with
      | None => false
      | Some pk => pk_verify pk bytes sig
      end
  end.

Definition verify_or_transition (from_peer_id : PeerId) (now : Z) (e : Envelope) : bool :=
  if env_verify from_peer_id e then true else signature_transition_active now.
End envelope.

(** ** [transport.rs] *)

Record DirectMessage := mkDM { dm_envelope : Envelope; dm_body : string }.

Global Instance DirectMessage_eq_dec : EqDecision DirectMessage.
Proof. solve_decision. Defined.

Record EncryptedDirectFrame := mkED {
  ed_to_peer : string;
  sender_enc_pubkey : string;
  encrypted_payload : list byte;
  mesh_signature : option (list byte);
  ed_hop_count : Z;
  ed_max_hops : Z;
}.

Inductive WireMessage :=
| Data (m : DirectMessage)
| SyncBloom (bloom : list byte) (count : Z)
| SyncIds (ids : list string)
| SyncRequest (ids : list string)
| SyncData (messages : list DirectMessage)
| ScopeAnnounce (scopes : list string)
| EncryptedDirect (f : EncryptedDirectFrame)
| EncryptedGroup (group_id : string) (encrypted : list byte)
| PeerInfo (enc_pubkey_hex : string) (display_name : option string) (supported_scopes : list string).

Definition ED_MAGIC : list byte := as_bytes "MYCEL/ENC_DIRECT/v1" ++ [x00].

Definition encrypted_direct_signing_bytes (to sender : string) (enc : list byte) (hop max : Z) : list byte :=
  ED_MAGIC ++ as_bytes to ++ [x00] ++ as_bytes sender ++ [x00]
  ++ le_bytes 4 (wrap 32 (Z.of_nat (length enc))) ++ enc ++ [byte_of_Z hop; byte_of_Z max].

Definition ed_bytes (f : EncryptedDirectFrame) : list byte :=
  encrypted_direct_signing_bytes (ed_to_peer f) (sender_enc_pubkey f) (encrypted_payload f)
    (ed_hop_count f) (ed_max_hops f).

Section mesh_signature.
Context `{C : Crypto}.

Definition sign_encrypted_direct (kp : Keypair) (m : WireMessage) : anyhow WireMessage :=
  match m with
  | EncryptedDirect f =>
      match kp_sign kp (ed_bytes f) with
      | Err e => Err ("failed to sign EncryptedDirect: " +:+ e)%string
      | Ok sig =>
          Ok (EncryptedDirect (mkED (ed_to_peer f) (sender_enc_pubkey f) (encrypted_payload f) (Some sig)
                (ed_hop_count f) (ed_max_hops f)))
      end
  | _ => Err "not EncryptedDirect"%string
  end.

Definition verify_encrypted_direct (m : WireMessage) (sender : PeerId) : bool :=
  match m with
  | EncryptedDirect f =>
      match mesh_signature f with
      | None => false
      | Some sig =>
          match inline_key sender with
          | None => false
          | Some pk => pk_verify pk (ed_bytes f) sig
          end
      end
  | _ => false
  end.
End mesh_signature.

Definition is_expired (m : DirectMessage) (now : Z) : bool :=
  bool_decide (created_at_ms (dm_envelope m) +sat ttl_secs (dm_envelope m) * 1000 <= now).

Record MessageAck := mkAck { message_id : string; accepted : bool }.

Inductive ConnectivityMode := Internet | MeshOnly.

Global Instance ConnectivityMode_eq_dec : EqDecision ConnectivityMode.
Proof. solve_decision. Defined.

(** [Scope::matches] *)
Definition scope_matches (scope pattern : string) : bool :=
  match strip_suffix "/*" pattern with
  | Some prefix => starts_with prefix scope
  | None => bool_decide (scope = pattern)
  end.

Record StoreStats := mkStats { st_count : nat; oldest_ms : Z }.

Inductive TransportEvent :=
| Listening (address : string)
| PeerUp (peer_id : string)
| PeerDown (peer_id : string)
| DirectReceived (from : string) (message : WireMessage)
| ScopedReceived (from scope : string) (scoped_payload : list byte)
| DirectAck (from : string) (ack : MessageAck)
| SendFailure (to reason : string)
| ConnectivityChanged (mode : ConnectivityMode).

(** ** [energy.rs] *)

Inductive NodeState := Active | Intermittent | Passive.

Definition sync_interval_secs (s : NodeState) : Z :=
  match s with Active => 2 | Intermittent => 10 | Passive => 45 end.

(** ** [e2e_direct_wrap.rs] *)

Definition WRAP_MAGIC : list byte := as_bytes "MYCDR01" ++ [x00].
Definition MAX_AUTHOR_BYTES : nat := 512.

(** [None] is the failed [assert!]. *)
Definition wrap_inner (author : string) (app : list byte) : option (list byte) :=
  let auth := as_bytes author in
  if decide (length auth <= MAX_AUTHOR_BYTES)%nat
  then Some (WRAP_MAGIC ++ be_bytes 4 (Z.of_nat (length auth)) ++ auth ++ app)
  else None.

Definition unwrap_inner (data : list byte) (relay_from : string) : string * list byte :=
  if (length data <? length WRAP_MAGIC + 4)%nat
     || negb (bool_decide (take (length WRAP_MAGIC) data = WRAP_MAGIC))
  then (relay_from, data) else
  let rest := drop (length WRAP_MAGIC) data in
  let n := Z.to_nat (from_be (take 4 rest)) in
  if (MAX_AUTHOR_BYTES <? n)%nat || (length rest <? 4 + n)%nat then (relay_from, data) else
  let author := default ""%string (from_utf8 (take n (drop 4 rest))) in
  let author := if decide (author = ""%string) then relay_from else author in
  (author, drop (4 + n) rest).

(** ** What envelope and frame signatures guarantee

    Signing and verifying round trips, which fields a verified signature
    binds, and the framing of the logical author. *)


(** ** Fixed-width fields *)

Lemma byte_of_Z_inj a b : in_u 8 a -> in_u 8 b -> byte_of_Z a = byte_of_Z b -> a = b.
Proof.
  intros Ha Hb H. apply (f_equal Z_of_byte) in H. rewrite !Z_of_byte_of_Z in H.
  unfold in_u in *. rewrite !Z.mod_small in H; lia.
Qed.

Lemma app_tail_inj {A} (l l' t t' : list A) :
  length t = length t' -> l ++ t = l' ++ t' -> l = l' /\ t = t'.
Proof. intros. by apply app_inj_2. Qed.

Lemma sign_tail_length e : length (sign_tail e) = 15%nat.
Proof. unfold sign_tail. rewrite !length_app, !le_bytes_length. done. Qed.

Lemma sign_tail_inj e e' :
  env_wf e -> env_wf e' -> sign_tail e = sign_tail e' ->
  created_at_ms e = created_at_ms e' /\ ttl_secs e = ttl_secs e' /\ priority e = priority e'
  /\ hop_count e = hop_count e' /\ max_hops e = max_hops e'.
Proof.
  intros (W1 & W2 & _ & W3 & W4) (W1' & W2' & _ & W3' & W4') E. unfold sign_tail in E.
  apply app_inj_1 in E as [E1 E]; [|by rewrite !le_bytes_length].
  apply app_inj_1 in E as [E2 E]; [|by rewrite !le_bytes_length].
  injection E as E3 E4 E5. unfold in_u in *. split_and!.
  - apply (le_bytes_inj 8); simpl; (lia || done).
  - apply (le_bytes_inj 4); simpl; (lia || done).
  - destruct (priority e), (priority e'); done.
  - by apply byte_of_Z_inj.
  - by apply byte_of_Z_inj.
Qed.

(** NUL-terminated fields *)
Lemma nul_field_inj (a b r r' : list byte) :
  x00 ∉ a -> x00 ∉ b -> a ++ [x00] ++ r = b ++ [x00] ++ r' -> a = b /\ r = r'.
Proof.
  revert b. induction a as [|x a IH]; intros [|y b] Ha Hb E; simpl in *.
  - by injection E as ->.
  - injection E as <- _. destruct Hb. left.
  - injection E as -> _. destruct Ha. left.
  - injection E as -> E. rewrite elem_of_cons in Ha, Hb. by destruct (IH b) as [-> ->]; [tauto..|].
Qed.

Section theorems.
Context `{C : Crypto}.

Lemma inline_key_pk {CL : CryptoLaws C} (pk : PublicKey) : inline_key (pk_peer_id pk) = Some pk.
Proof.
  unfold inline_key. rewrite peer_code_pk, peer_digest_pk, pk_decode_encode.
  by rewrite decide_False by (intros H; by apply H).
Qed.

(** Signing cannot fail and verifies: for every envelope and key pair,
    [sign] returns [Ok], leaves every field but the signature and the version
    as it was, and the result verifies under the signer's peer id. *)
Theorem envelope_sign_verifies {CL : CryptoLaws C} (kp : Keypair) (e : Envelope) :
  exists sig, env_sign kp e = (set_signature (Some sig) 1 e, Ok tt)
              /\ env_verify (pk_peer_id (kp_public kp)) (set_signature (Some sig) 1 e) = true.
Proof.
  destruct (kp_sign_total kp (bytes_for_signing e)) as [sig Hs]. exists sig.
  unfold env_sign. change (bytes_for_signing (set_signature (signature e) 1 e)) with (bytes_for_signing e).
  rewrite Hs. split; [done|]. unfold env_verify. cbn [signature set_signature].
  rewrite inline_key_pk. by apply kp_sign_verify.
Qed.

(** the fields a signature covers one by one, and those it covers run together *)
Definition same_signed (e e' : Envelope) : Prop :=
  (created_at_ms e = created_at_ms e' /\ ttl_secs e = ttl_secs e' /\ priority e = priority e'
   /\ hop_count e = hop_count e' /\ max_hops e = max_hops e')
  /\ as_bytes (e_id e) ++ as_bytes (from_peer e) ++ opt_bytes (to_peer e) ++ payload e
     = as_bytes (e_id e') ++ as_bytes (from_peer e') ++ opt_bytes (to_peer e') ++ payload e'.

Lemma signing_bytes_same e e' :
  env_wf e -> env_wf e' -> bytes_for_signing e = bytes_for_signing e' <-> same_signed e e'.
Proof.
  intros W W'. unfold bytes_for_signing. split.
  - intros E. rewrite !(app_assoc _ _ (sign_tail _)) in E. rewrite <- !app_assoc in E. rewrite !app_assoc in E.
    apply app_tail_inj in E as [E Ht]; [|by rewrite !sign_tail_length].
    rewrite <- !app_assoc in E. split; [by apply sign_tail_inj|done].
  - intros [(E1 & E2 & E3 & E4 & E5) E]. rewrite !app_assoc in E |- *. rewrite E.
    assert (sign_tail e = sign_tail e') as -> by (unfold sign_tail; by rewrite E1, E2, E3, E4, E5). by rewrite <- !app_assoc.
Qed.

(** C14. What an envelope signature binds.  Two version-1 envelopes have the same
    signed bytes exactly when they agree on creation time, time to live,
    priority, hop count and hop limit, and on the concatenation of id, sender,
    recipient and payload.  So when an envelope verifies for its author, another
    one with the same signature verifies exactly when it agrees on all of that,
    or the author's key has one signature valid on two different texts, the
    signing bytes of the two envelopes; nothing is assumed of the signature
    scheme.  A relay that changes the hop count, or a replay that changes the time
    stamp, is accepted in the latter case only.  Where id, sender and recipient
    agree, the payload does. *)
Theorem envelope_signature_binds (p : PeerId) (e e' : Envelope) :
  env_wf e -> env_wf e' ->
  signature e = signature e' -> sig_version e ≠ 0 -> sig_version e' ≠ 0 ->
  env_verify p e = true ->
  (bytes_for_signing e = bytes_for_signing e' <-> same_signed e e')
  /\ (env_verify p e' = true <->
        same_signed e e'
        \/ exists pk sig, inline_key p = Some pk /\ signature e = Some sig
             /\ two_texts pk (bytes_for_signing e) (bytes_for_signing e') sig)
  /\ (same_signed e e' -> e_id e = e_id e' -> from_peer e = from_peer e' -> to_peer e = to_peer e' ->
      payload e = payload e').
Proof.
  intros W W' Hs Hv Hv'. pose proof (signing_bytes_same e e' W W') as Hb.
  unfold env_verify. rewrite <- Hs. destruct (signature e) as [sig|]; [|done].
  destruct (inline_key p) as [pk|]; [|done]. rewrite !decide_False by done. intros V.
  split_and!; [done| |].
  - split.
    + intros V'. destruct (decide (bytes_for_signing e = bytes_for_signing e')) as [E|E]; [left; by apply Hb|].
      right. exists pk, sig. by split_and!.
    + intros [E|(pk' & sig' & [= <-] & [= <-] & _ & _ & V')]; [|done]. apply Hb in E. by rewrite <- E.
  - intros [_ E] E1 E2 E3. rewrite E1, E2, E3 in E. by repeat apply app_inv_head in E.
Qed.

(** The recipient is not bound apart from the payload: a verified envelope
    for one recipient still verifies once it is turned into a broadcast whose
    payload starts with the recipient's id. *)
Theorem envelope_recipient_malleable (p : PeerId) (e : Envelope) (t : string) :
  to_peer e = Some t -> env_verify p e = true ->
  env_verify p (mkEnvelope (e_id e) (from_peer e) None (as_bytes t ++ payload e) (created_at_ms e)
                  (ttl_secs e) (priority e) (signature e) (sig_version e) (hop_count e) (max_hops e)
                  (author_peer e)) = true.
Proof.
  intros Ht. unfold env_verify, bytes_for_signing, bytes_for_signing_v0.
  cbn [signature sig_version from_peer to_peer payload e_id opt_bytes].
  rewrite Ht. cbn [opt_bytes]. by rewrite <- !app_assoc.
Qed.

(** Mesh frames: one signature that verifies for one peer on two
    [EncryptedDirect] frames (NUL-free names, payload below 4 GiB) fixes every
    signed field, recipient, sender key, ciphertext, hop count and hop limit, or
    is one signature of that peer's key on two texts. *)
Theorem encrypted_direct_binds (p : PeerId) (f f' : EncryptedDirectFrame) :
  mesh_signature f = mesh_signature f' ->
  x00 ∉ as_bytes (ed_to_peer f) -> x00 ∉ as_bytes (ed_to_peer f') ->
  x00 ∉ as_bytes (sender_enc_pubkey f) -> x00 ∉ as_bytes (sender_enc_pubkey f') ->
  in_u 32 (Z.of_nat (length (encrypted_payload f))) ->
  in_u 32 (Z.of_nat (length (encrypted_payload f'))) ->
  in_u 8 (ed_hop_count f) -> in_u 8 (ed_hop_count f') ->
  in_u 8 (ed_max_hops f) -> in_u 8 (ed_max_hops f') ->
  verify_encrypted_direct (EncryptedDirect f) p = true ->
  verify_encrypted_direct (EncryptedDirect f') p = true ->
  f = f' \/ exists pk sig, inline_key p = Some pk /\ mesh_signature f = Some sig
             /\ two_texts pk (ed_bytes f) (ed_bytes f') sig.
Proof.
  intros Hs N1 N1' N2 N2' L L' H1 H1' H2 H2'. unfold verify_encrypted_direct. rewrite <- Hs.
  destruct (mesh_signature f) as [sig|] eqn:Es; [|done].
  destruct (inline_key p) as [pk|]; [|done]. intros V V'.
  destruct (decide (ed_bytes f = ed_bytes f')) as [E|E]; [left|right; exists pk, sig; by split_and!].
  unfold ed_bytes, encrypted_direct_signing_bytes in E.
  apply app_inv_head in E.
  apply nul_field_inj in E as [E1 E]; [|done..].
  apply nul_field_inj in E as [E2 E]; [|done..].
  apply app_inj_1 in E as [_ E]; [|by rewrite !le_bytes_length].
  apply app_tail_inj in E as [E3 E]; [|done]. injection E as E4 E5.
  apply byte_of_Z_inj in E4; [|done..]. apply byte_of_Z_inj in E5; [|done..].
  apply (inj as_bytes) in E1, E2. destruct f, f'; simpl in *. by subst.
Qed.

(** the frame [f] with the signature [sig] *)
Definition with_mesh_signature (sig : list byte) (f : EncryptedDirectFrame) : EncryptedDirectFrame :=
  mkED (ed_to_peer f) (sender_enc_pubkey f) (encrypted_payload f) (Some sig) (ed_hop_count f) (ed_max_hops f).

Lemma sign_ed_spec {CL : CryptoLaws C} (kp : Keypair) (f : EncryptedDirectFrame) :
  exists sig, kp_sign kp (ed_bytes f) = Ok sig
    /\ sign_encrypted_direct kp (EncryptedDirect f) = Ok (EncryptedDirect (with_mesh_signature sig f))
    /\ forall pk : PublicKey,
         verify_encrypted_direct (EncryptedDirect (with_mesh_signature sig f)) (pk_peer_id pk)
         = pk_verify pk (ed_bytes f) sig.
Proof.
  destruct (kp_sign_total kp (ed_bytes f)) as [sig Hs]. exists sig.
  unfold sign_encrypted_direct. rewrite Hs. split_and!; [done..|].
  intros pk. unfold verify_encrypted_direct. cbn [mesh_signature with_mesh_signature]. by rewrite inline_key_pk.
Qed.

(** Signing a frame for the next hop: it never fails on an
    [EncryptedDirect], changes no signed field, the receiver accepts the result
    under the signer's peer id, and under another one only when that key also
    verifies the signer's signature of the frame. *)
Theorem sign_encrypted_direct_verifies {CL : CryptoLaws C} (kp : Keypair) (f : EncryptedDirectFrame) :
  exists sig, kp_sign kp (ed_bytes f) = Ok sig
    /\ sign_encrypted_direct kp (EncryptedDirect f) = Ok (EncryptedDirect (with_mesh_signature sig f))
    /\ verify_encrypted_direct (EncryptedDirect (with_mesh_signature sig f)) (pk_peer_id (kp_public kp)) = true
    /\ forall pk : PublicKey,
         verify_encrypted_direct (EncryptedDirect (with_mesh_signature sig f)) (pk_peer_id pk)
         = pk_verify pk (ed_bytes f) sig.
Proof.
  destruct (sign_ed_spec kp f) as (sig & Es & E & Hv). exists sig. split_and!; try done.
  rewrite Hv. by apply kp_sign_verify.
Qed.
End theorems.

(** ** The author framing *)

Lemma from_be_be4 n : (n <= MAX_AUTHOR_BYTES)%nat -> from_be (be_bytes 4 (Z.of_nat n)) = Z.of_nat n.
Proof. intros H. apply from_be_bytes. unfold MAX_AUTHOR_BYTES in H. simpl. lia. Qed.

Lemma unwrap_framed (auth app : list byte) relay :
  (length auth <= MAX_AUTHOR_BYTES)%nat ->
  unwrap_inner (WRAP_MAGIC ++ be_bytes 4 (Z.of_nat (length auth)) ++ auth ++ app) relay
  = (let a := default ""%string (from_utf8 auth) in if decide (a = ""%string) then relay else a, app).
Proof.
  intros Hl. unfold unwrap_inner.
  rewrite take_app_length, drop_app_length, bool_decide_eq_true_2 by done. cbn [negb]. rewrite orb_false_r.
  assert (length (be_bytes 4 (Z.of_nat (length auth))) = 4%nat) as H4 by apply be_bytes_length.
  rewrite (take_app_le _ _ 4), take_ge, from_be_be4, Nat2Z.id by lia.
  rewrite !length_app, H4.
  rewrite (proj2 (Nat.ltb_ge _ _)) by lia.
  rewrite (proj2 (Nat.ltb_ge _ _)) by lia.
  rewrite (proj2 (Nat.ltb_ge _ _)) by lia. cbn [orb].
  rewrite (drop_app_ge _ _ (4 + length auth)) by lia. rewrite H4.
  replace (4 + length auth - 4)%nat with (length auth) by lia.
  rewrite drop_app_length. rewrite (drop_app_ge _ _ 4) by lia. rewrite H4. cbn [Nat.sub drop].
  by rewrite drop_0, take_app_length.
Qed.

(** The logical author survives the relays: for every non-empty UTF-8
    author of at most 512 bytes [wrap_inner] does not panic and [unwrap_inner]
    gives back author and payload whatever the relaying peer; a longer author
    panics; data without the magic is delivered whole under the relay's name. *)
Theorem wrap_unwrap_roundtrip (author : string) (app data : list byte) (relay : string) :
  ((length (as_bytes author) <= MAX_AUTHOR_BYTES)%nat -> utf8_valid (as_bytes author) = true ->
   author ≠ ""%string ->
   exists w, wrap_inner author app = Some w /\ unwrap_inner w relay = (author, app))
  /\ ((MAX_AUTHOR_BYTES < length (as_bytes author))%nat -> wrap_inner author app = None)
  /\ (take 8 data ≠ WRAP_MAGIC -> unwrap_inner data relay = (relay, data)).
Proof.
  split_and!.
  - intros Hl Hu Hne. unfold wrap_inner. rewrite decide_True by done. eexists. split; [done|].
    rewrite unwrap_framed by done. unfold from_utf8. rewrite Hu. cbn [from_option]. unfold id.
    rewrite of_as_bytes. cbv zeta. by rewrite decide_False.
  - intros Hl. unfold wrap_inner. by rewrite decide_False by lia.
  - intros Hm. unfold unwrap_inner. change (length WRAP_MAGIC) with 8%nat.
    rewrite (bool_decide_eq_false_2 _ Hm). cbn [negb]. by rewrite orb_true_r.
Qed.

(** ** Scopes and expiry *)

Lemma starts_with_app p r : starts_with p (p +:+ r)%string = true.
Proof. apply starts_with_true. by exists r. Qed.

(** A pattern [prefix/*] also matches scopes that merely share the prefix,
    without a path separator; in particular the bare prefix and every longer
    sibling name. *)
Theorem scope_wildcard_ignores_separator (prefix rest : string) :
  scope_matches (prefix +:+ rest)%string (prefix +:+ "/*")%string = true.
Proof.
  unfold scope_matches.
  assert (strip_suffix "/*" (prefix +:+ "/*")%string = Some prefix) as ->
    by (apply strip_suffix_Some; by rewrite as_bytes_app).
  apply starts_with_app.
Qed.

Lemma is_expired_mono m t t' : is_expired m t = true -> t <= t' -> is_expired m t' = true.
Proof. unfold is_expired. rewrite !bool_decide_eq_true. lia. Qed.
