(* ===== verification/Bloom.v ===== *)
(** * The synchronisation Bloom filter

    [mycelium-core/src/sync.rs].  [DefaultHasher] is a parameter: its algorithm
    is unspecified, and only that it is a function into [u64] matters here.
    An out-of-range index would panic; it is [None]. *)

From S2P Require Import Prelude.

Open Scope Z_scope.

Class IdHash := {
  id_hash : string -> Z -> Z;
  id_hash_u64 : forall id seed, in_u 64 (id_hash id seed);
}.

Record BloomFilter := mkBloom { bits : list Z; bloom_k : Z }.

Definition bloom_new : BloomFilter := mkBloom (replicate 128 0) 3.

Section bloom.
Context `{H : IdHash}.

(** [self.hash(id, i as u64) % 8192] *)
Definition bloom_bit (id : string) (i : nat) : Z := id_hash id (Z.of_nat i) mod 8192.

(** [self.bits\[(bit / 64) as usize\] |= 1u64 << (bit % 64)] *)
Definition set_bit (bs : list Z) (bit : Z) : option (list Z) :=
  w ← bs !! Z.to_nat (bit / 64);
  Some (<[Z.to_nat (bit / 64) := Z.lor w (Z.shiftl 1 (bit mod 64))]> bs).

Definition bloom_insert (id : string) (b : BloomFilter) : option BloomFilter :=
  bs ← foldr (fun bit m => bs ← m; set_bit bs bit) (Some (bits b))
         (reverse (bloom_bit id <$> seq 0 (Z.to_nat (bloom_k b))));
  Some (mkBloom bs (bloom_k b)).

Fixpoint check_bits (bs : list Z) (l : list Z) : option bool :=
  match l with
  | [] => Some true
  | bit :: l =>
      w ← bs !! Z.to_nat (bit / 64);
      if decide (Z.land w (Z.shiftl 1 (bit mod 64)) = 0) then Some false else check_bits bs l
  end.

Definition bloom_contains (id : string) (b : BloomFilter) : option bool :=
  check_bits (bits b) (bloom_bit id <$> seq 0 (Z.to_nat (bloom_k b))).

Definition bloom_to_bytes (b : BloomFilter) : list byte := bits b ≫= le_bytes 8.

(** [bytes.chunks(8)], [None] on a short chunk *)
Fixpoint words_of (fuel : nat) (l : list byte) : option (list Z) :=
  match fuel, l with
  | _, [] => Some []
  | S fuel, _ =>
      if decide (length (take 8 l) = 8%nat)
      then ws ← words_of fuel (drop 8 l); Some (from_le (take 8 l) :: ws) else None
  | O, _ => None
  end.

Definition bloom_from_bytes (l : list byte) : option BloomFilter :=
  if decide (length l ≠ 1024%nat) then None else
  ws ← words_of (length l) l; Some (mkBloom ws 3).

(** ** Invariant *)

Definition bloom_wf (b : BloomFilter) : Prop :=
  length (bits b) = 128%nat /\ bloom_k b = 3 /\ Forall (in_u 64) (bits b).

(** bit [n] of the filter is set *)
Definition has_bit (bs : list Z) (n : Z) : Prop :=
  exists w, bs !! Z.to_nat (n / 64) = Some w /\ Z.testbit w (n mod 64) = true.

Lemma bloom_new_wf : bloom_wf bloom_new.
Proof.
  split_and!; [done..|]. apply Forall_forall. intros x Hx%elem_of_replicate. destruct Hx as [-> _].
  unfold in_u; lia.
Qed.

Lemma bloom_bit_range id i : 0 <= bloom_bit id i < 8192.
Proof. apply Z.mod_pos_bound. lia. Qed.

Lemma in_u64_lor a m : in_u 64 a -> 0 <= m < 64 -> in_u 64 (Z.lor a (Z.shiftl 1 m)).
Proof.
  intros [Ha Ha'] Hm. split; [apply Z.lor_nonneg; split; [lia|apply Z.shiftl_nonneg; lia]|].
  rewrite Z.shiftl_1_l.
  assert (Z.log2 (Z.lor a (2 ^ m)) < 64) as Hl.
  { rewrite Z.log2_lor by (try apply Z.pow_nonneg; lia). rewrite Z.log2_pow2 by lia.
    destruct (decide (a = 0)) as [->|]; [simpl; lia|].
    assert (Z.log2 a < 64) by (apply Z.log2_lt_pow2; lia). lia. }
  destruct (decide (Z.lor a (2 ^ m) = 0)) as [->|Hn]; [lia|].
  assert (0 <= Z.lor a (2 ^ m)) by (apply Z.lor_nonneg; split; [lia|apply Z.pow_nonneg; lia]).
  apply Z.log2_lt_pow2; lia.
Qed.

Lemma set_bit_spec bs n :
  0 <= n < 8192 -> length bs = 128%nat -> Forall (in_u 64) bs ->
  exists bs', set_bit bs n = Some bs' /\ length bs' = 128%nat /\ Forall (in_u 64) bs'
              /\ has_bit bs' n /\ forall m, 0 <= m -> has_bit bs m -> has_bit bs' m.
Proof.
  intros Hn Hl Hu. unfold set_bit.
  assert (Z.to_nat (n / 64) < length bs)%nat as Hi by (rewrite Hl; Z.div_mod_to_equations; lia).
  destruct (lookup_lt_is_Some_2 bs _ Hi) as [w Hw]. rewrite Hw. simpl.
  pose proof (Z.mod_pos_bound n 64 ltac:(lia)) as Hm.
  eexists. split_and!; [done|by rewrite length_insert| | |].
  - apply Forall_insert; [done|]. apply in_u64_lor; [|done]. by eapply Forall_lookup_1.
  - eexists. rewrite list_lookup_insert_eq by done. split; [done|].
    rewrite Z.lor_spec, Z.shiftl_spec, Z.sub_diag by lia. apply orb_true_r.
  - intros m Hm0 (v & Hv & Ht). destruct (decide (Z.to_nat (m / 64) = Z.to_nat (n / 64))) as [E|E].
    + eexists. rewrite E, list_lookup_insert_eq by done. split; [done|].
      rewrite E, Hw in Hv. injection Hv as ->. rewrite Z.lor_spec, Ht. done.
    + exists v. rewrite list_lookup_insert_ne by done. done.
Qed.

Lemma set_bits_spec l bs :
  Forall (fun n => 0 <= n < 8192) l -> length bs = 128%nat -> Forall (in_u 64) bs ->
  exists bs', foldr (fun bit m => bs ← m; set_bit bs bit) (Some bs) l = Some bs'
              /\ length bs' = 128%nat /\ Forall (in_u 64) bs' /\ (forall n, n ∈ l -> has_bit bs' n)
              /\ forall m, 0 <= m -> has_bit bs m -> has_bit bs' m.
Proof.
  intros Hl Hlen Hu. induction Hl as [|n l Hn Hl IH].
  { exists bs. split_and!; try done. by intros n ?%elem_of_nil. }
  destruct IH as (b1 & E1 & L1 & U1 & B1 & K1). cbn [foldr]. rewrite E1. simpl.
  destruct (set_bit_spec b1 n Hn L1 U1) as (b2 & E2 & L2 & U2 & B2 & K2).
  exists b2. split_and!; try done.
  - intros m [->|Hm]%elem_of_cons; [done|]. apply K2; [|by apply B1].
    pose proof (proj1 (Forall_forall _ _) Hl m Hm) as Hr. simpl in Hr. lia.
  - intros m H0 Hb. by apply K2, K1.
Qed.

Lemma land_bit_0 w m : 0 <= m -> Z.land w (Z.shiftl 1 m) = 0 <-> Z.testbit w m = false.
Proof.
  intros Hm. rewrite Z.shiftl_1_l. split; intros E.
  - apply (f_equal (fun z => Z.testbit z m)) in E.
    rewrite Z.land_spec, Z.pow2_bits_true, Z.bits_0, andb_true_r in E by lia. done.
  - apply Z.bits_inj. intros i. rewrite Z.land_spec, Z.bits_0.
    destruct (decide (i = m)) as [->|]; [by rewrite E|].
    rewrite Z.pow2_bits_false by lia. apply andb_false_r.
Qed.

Lemma check_bits_true bs l :
  check_bits bs l = Some true <-> Forall (has_bit bs) l.
Proof.
  induction l as [|n l IH]; [split; [constructor|done]|]. simpl. rewrite Forall_cons.
  pose proof (Z.mod_pos_bound n 64 ltac:(lia)) as Hm. unfold has_bit at 1.
  destruct (bs !! Z.to_nat (n / 64)) as [w|]; simpl; [|split; [done|by intros [(? & ? & ?) _]]].
  case_decide as Hd; rewrite land_bit_0 in Hd by lia.
  - split; [done|]. intros [(? & [= ->] & ?) _]. congruence.
  - rewrite IH. split; [intros HF|by intros [_ ?]]. split; [|done].
    exists w. split; [done|]. by apply not_false_iff_true.
Qed.

(** Inserting never panics, keeps the filter well formed, and there are no
    false negatives: the inserted id and every id the filter already contained
    are contained afterwards. *)
Theorem bloom_no_false_negatives (b : BloomFilter) (id : string) :
  bloom_wf b ->
  exists b', bloom_insert id b = Some b' /\ bloom_wf b' /\ bloom_contains id b' = Some true
             /\ forall id', bloom_contains id' b = Some true -> bloom_contains id' b' = Some true.
Proof.
  intros (Hlen & Hk & Hu). unfold bloom_insert.
  destruct (set_bits_spec (reverse (bloom_bit id <$> seq 0 (Z.to_nat (bloom_k b)))) (bits b))
    as (bs & E & L & U & Hin & Hkeep); [|done..|].
  { apply Forall_reverse, Forall_fmap, Forall_true. intros i. apply bloom_bit_range. }
  rewrite E. simpl. eexists. split_and!; [done|done| |].
  - apply check_bits_true, Forall_forall. intros n Hn. apply Hin. by apply elem_of_reverse.
  - intros id' Hc. apply check_bits_true. apply check_bits_true in Hc. cbn [bits bloom_k].
    rewrite Forall_fmap in Hc |- *. eapply Forall_impl; [exact Hc|].
    intros i Hi. apply Hkeep; [apply bloom_bit_range|done].
Qed.

Lemma words_of_bytes ws fuel :
  Forall (in_u 64) ws -> (length ws <= fuel)%nat -> words_of fuel (ws ≫= le_bytes 8) = Some ws.
Proof.
  intros Hu. revert fuel. induction Hu as [|w ws Hw Hu IH]; intros fuel Hf; [by destruct fuel|].
  destruct fuel as [|fuel]; [simpl in Hf; lia|].
  change ((w :: ws) ≫= le_bytes 8) with (le_bytes 8 w ++ (ws ≫= le_bytes 8)).
  assert (take 8 (le_bytes 8 w ++ (ws ≫= le_bytes 8)) = le_bytes 8 w) as Et
    by (rewrite take_app_le, take_ge; by rewrite ?le_bytes_length).
  assert (drop 8 (le_bytes 8 w ++ (ws ≫= le_bytes 8)) = ws ≫= le_bytes 8) as Ed
    by (rewrite drop_app_ge, le_bytes_length; by rewrite ?le_bytes_length).
  destruct (le_bytes 8 w ++ (ws ≫= le_bytes 8)) as [|x l] eqn:E; [by destruct w|].
  cbn [words_of]. rewrite Et, Ed, le_bytes_length, decide_True, IH by (done || (simpl in Hf; lia)).
  cbn [mbind option_bind]. rewrite (from_le_bytes 8 w); [done|]. unfold in_u in Hw. simpl. lia.
Qed.

Lemma bloom_to_bytes_length b : length (bloom_to_bytes b) = (8 * length (bits b))%nat.
Proof.
  unfold bloom_to_bytes. induction (bits b) as [|w ws IH]; [done|].
  change ((w :: ws) ≫= le_bytes 8) with (le_bytes 8 w ++ (ws ≫= le_bytes 8)).
  rewrite length_app, le_bytes_length, IH. simpl. lia.
Qed.

Lemma bloom_bytes_wf b : bloom_wf b -> bloom_from_bytes (bloom_to_bytes b) = Some b.
Proof.
  intros (Hl & Hk & Hu). unfold bloom_from_bytes.
  rewrite bloom_to_bytes_length, Hl, decide_False by lia. unfold bloom_to_bytes.
  rewrite words_of_bytes by (done || lia). simpl. destruct b; simpl in *. by subst.
Qed.

Lemma words_of_total fuel l :
  (length l `mod` 8 = 0)%nat -> (length l <= fuel)%nat ->
  exists ws, words_of fuel l = Some ws /\ Forall (in_u 64) ws /\ (8 * length ws = length l)%nat
             /\ ws ≫= le_bytes 8 = l.
Proof.
  revert l. induction fuel as [|fuel IH]; intros l Hm Hf.
  { destruct l; [|simpl in Hf; lia]. by exists []. }
  destruct l as [|x l']; [by exists []|]. cbn [words_of]. set (l := x :: l') in *.
  assert (8 <= length l)%nat as H8.
  { assert (0 < length l)%nat by (simpl; lia).
    pose proof (Nat.div_mod_eq (length l) 8). lia. }
  assert (length (take 8 l) = 8%nat) as Ht by (rewrite length_take; lia).
  rewrite Ht, decide_True by done.
  destruct (IH (drop 8 l)) as (ws & E & U & L & B).
  { rewrite length_drop. pose proof (Nat.div_mod_eq (length l) 8) as Hd.
    replace (length l - 8)%nat with ((length l / 8 - 1) * 8)%nat by lia. apply Nat.Div0.mod_mul. }
  { rewrite length_drop. lia. }
  rewrite E. cbn [mbind option_bind]. eexists. split_and!; [done| | |].
  - constructor; [|done]. pose proof (from_le_range (take 8 l)) as Hr. rewrite Ht in Hr.
    unfold in_u. simpl in Hr |- *. lia.
  - cbn [length]. rewrite length_drop in L. lia.
  - change ((from_le (take 8 l) :: ws) ≫= le_bytes 8) with (le_bytes 8 (from_le (take 8 l)) ++ (ws ≫= le_bytes 8)).
    rewrite B. rewrite <- Ht at 1. rewrite le_bytes_from_le. apply take_drop.
Qed.

(** The wire form is a bijection between well-formed filters and 1024-byte
    strings: parsing accepts exactly the 1024-byte strings, always yields a
    well-formed filter that prints back to the same bytes, and every
    well-formed filter survives the trip, so membership answers are the same
    on both sides of the wire. *)
Theorem bloom_wire_roundtrip (l : list byte) (b : BloomFilter) :
  (bloom_wf b -> bloom_from_bytes (bloom_to_bytes b) = Some b)
  /\ (length l ≠ 1024%nat -> bloom_from_bytes l = None)
  /\ (length l = 1024%nat ->
       exists b', bloom_from_bytes l = Some b' /\ bloom_wf b' /\ bloom_to_bytes b' = l).
Proof.
  split_and!.
  - apply bloom_bytes_wf.
  - intros Hl. unfold bloom_from_bytes. by rewrite decide_True.
  - intros Hl. unfold bloom_from_bytes. rewrite decide_False by (intros Hn; by apply Hn).
    destruct (words_of_total (length l) l) as (ws & E & U & L & B); [by rewrite Hl|lia|].
    rewrite E. simpl. eexists. split_and!; [done| |done]. split_and!; simpl; (lia || done).
Qed.
End bloom.
