(* ===== verification/IngestGuard.v ===== *)
(** * Ingest guard: freshness, replay window, rate limits

    [mycelium-node/src/ingest_guard.rs] (SD-032, SD-060). *)

From S2P Require Import Prelude Wire.

Open Scope Z_scope.

Definition MAX_GOSSIP_PAYLOAD_BYTES : nat := Z.to_nat 65536.
Definition REPLAY_MAX_AGE_MS : Z := 30 * 60 * 1000.
Definition REPLAY_MAX_FUTURE_SKEW_MS : Z := 5 * 60 * 1000.
Definition DIRECT_RATE_PER_MINUTE : Z := 120.
Definition GOSSIP_RATE_PER_MINUTE : Z := 60.
Definition RATE_WINDOW_MS : Z := 60 * 1000.
Definition AUTHOR_ID_WINDOW : nat := 512.

Inductive IngestReject := Stale | Replay | RateLimit | Oversize.

Global Instance IngestReject_eq_dec : EqDecision IngestReject.
Proof. solve_decision. Defined.

Definition check_envelope_freshness (created now : Z) : bool :=
  if decide (now +sat REPLAY_MAX_FUTURE_SKEW_MS < created) then false
  else bool_decide (now -sat created <= REPLAY_MAX_AGE_MS).

(** ** [FixedWindowRateLimiter] *)

Record FixedWindowRateLimiter := mkRate {
  rl_limit : Z;
  rl_window_ms : Z;
  buckets : gmap string (Z * Z);
}.

Definition rate_new (limit window : Z) : FixedWindowRateLimiter := mkRate limit window ∅.

Definition rate_allow (key : string) (now : Z) (r : FixedWindowRateLimiter) : FixedWindowRateLimiter * bool :=
  let entry := default (0, now) (buckets r !! key) in
  let entry := if decide (rl_window_ms r <= now -sat entry.2) then (0, now) else entry in
  let put e := mkRate (rl_limit r) (rl_window_ms r) (<[key := e]> (buckets r)) in
  if decide (rl_limit r <= entry.1) then (put entry, false)
  else (put (wadd 32 entry.1 1, entry.2), true).

(** ** [AuthorReplayWindow] *)

Record AuthorReplayWindow := mkReplay {
  max_per_author : nat;
  by_author : gmap string (gset string * list string);
}.

Definition replay_new (max : nat) : AuthorReplayWindow := mkReplay max ∅.

(** [while queue.len() > max { set.remove(queue.pop_front()) }] *)
Fixpoint evict_old (max : nat) (seen : gset string) (queue : list string) : gset string * list string :=
  match queue with
  | [] => (seen, [])
  | old :: queue' => if decide (max < length queue)%nat then evict_old max (seen ∖ {[old]}) queue' else (seen, queue)
  end.

Definition is_duplicate (author id : string) (w : AuthorReplayWindow) : AuthorReplayWindow * bool :=
  let '(seen, queue) := default (∅, []) (by_author w !! author) in
  let put e := mkReplay (max_per_author w) (<[author := e]> (by_author w)) in
  if decide (id ∈ seen) then (put (seen, queue), true)
  else (put (evict_old (max_per_author w) ({[id]} ∪ seen) (queue ++ [id])), false).

(** ** [IngestGuard] *)

Record IngestGuard := mkGuard {
  rate_direct : FixedWindowRateLimiter;
  rate_gossip : FixedWindowRateLimiter;
  replay : AuthorReplayWindow;
}.

Definition guard_new : IngestGuard :=
  mkGuard (rate_new DIRECT_RATE_PER_MINUTE RATE_WINDOW_MS)
    (rate_new GOSSIP_RATE_PER_MINUTE RATE_WINDOW_MS) (replay_new AUTHOR_ID_WINDOW).

Definition allow_direct (author : string) (msg : DirectMessage) (now : Z) (g : IngestGuard)
    : IngestGuard * Res IngestReject unit :=
  if negb (check_envelope_freshness (created_at_ms (dm_envelope msg)) now) then (g, Err Stale) else
  let '(w, dup) := is_duplicate author (e_id (dm_envelope msg)) (replay g) in
  if (dup : bool) then (mkGuard (rate_direct g) (rate_gossip g) w, Err Replay) else
  let '(r, ok) := rate_allow author now (rate_direct g) in
  (mkGuard r (rate_gossip g) w, if (ok : bool) then Ok tt else Err RateLimit).

Definition check_gossip_payload (from : string) (len : nat) (now : Z) (g : IngestGuard)
    : IngestGuard * Res IngestReject unit :=
  if decide (MAX_GOSSIP_PAYLOAD_BYTES < len)%nat then (g, Err Oversize) else
  let '(r, ok) := rate_allow from now (rate_gossip g) in
  (mkGuard (rate_direct g) r (replay g), if (ok : bool) then Ok tt else Err RateLimit).

Definition check_gossip_message (from id : string) (created now : Z) (g : IngestGuard)
    : IngestGuard * Res IngestReject unit :=
  if negb (check_envelope_freshness created now) then (g, Err Stale) else
  let '(w, dup) := is_duplicate from id (replay g) in
  (mkGuard (rate_direct g) (rate_gossip g) w, if (dup : bool) then Err Replay else Ok tt).

Definition allow_gossip (from : string) (len : nat) (id : string) (created now : Z) (g : IngestGuard)
    : IngestGuard * Res IngestReject unit :=
  match check_gossip_payload from len now g with
  | (g, Ok _) => check_gossip_message from id created now g
  | (g, Err e) => (g, Err e)
  end.

(** ** Freshness *)

(** Freshness is exactly the interval from 30 minutes ago to 5 minutes
    ahead, for every clock value that leaves room for the skew. *)
Theorem freshness_interval (created now : Z) :
  0 <= created -> 0 <= now -> now + REPLAY_MAX_FUTURE_SKEW_MS <= umax 64 ->
  check_envelope_freshness created now = true
  <-> now - REPLAY_MAX_AGE_MS <= created <= now + REPLAY_MAX_FUTURE_SKEW_MS.
Proof.
  intros Hc Hn Hm. unfold check_envelope_freshness, sat_sub. rewrite sat_add_exact by done.
  unfold REPLAY_MAX_AGE_MS, REPLAY_MAX_FUTURE_SKEW_MS in *.
  case_decide; [split; [done|lia]|]. rewrite bool_decide_eq_true. lia.
Qed.

(** ** The rate limit *)

Section rate.
Context (limit window : Z) (Hlim : 0 <= limit < umax 32) (key : string).

Definition rate_inv (r : FixedWindowRateLimiter) : Prop :=
  rl_limit r = limit /\ rl_window_ms r = window
  /\ forall k c s, buckets r !! k = Some (c, s) -> 0 <= c <= limit.

(** calls that may still be accepted for [key] in a span that starts at [t0] *)
Definition credit_left (t0 : Z) (r : FixedWindowRateLimiter) : Z :=
  match buckets r !! key with
  | None => 2 * limit
  | Some (c, s) => (if decide (t0 <= s) then 0 else limit) + (limit - c)
  end.

Lemma rate_allow_inv k now r : rate_inv r -> rate_inv (rate_allow k now r).1.
Proof.
  intros (HL & HW & HB). unfold rate_allow.
  set (e := if decide (rl_window_ms r <= _) then _ else _).
  assert (0 <= e.1 <= limit) as He.
  { unfold e. case_decide; simpl; [lia|].
    destruct (buckets r !! k) as [[c s]|] eqn:E; simpl; [by eapply HB|lia]. }
  case_decide as Hd; simpl; (split_and!; [done..|]).
  - intros k' c s; cbn [buckets]; intros [[<- E]|[_ E]]%lookup_insert_Some; [|by eapply HB].
    destruct e as [c' s']; simpl in *. by injection E as <- <-.
  - intros k' c s; cbn [buckets]; intros [[<- E]|[_ E]]%lookup_insert_Some; [|by eapply HB].
    injection E as <- <-. rewrite HL in Hd. rewrite wadd_small; unfold in_u, umax in *; lia.
Qed.

Lemma rate_allow_other k now r : k ≠ key -> buckets (rate_allow k now r).1 !! key = buckets r !! key.
Proof. intros H. unfold rate_allow. case_decide; simpl; by rewrite lookup_insert_ne. Qed.

Lemma rate_allow_credit t0 now r :
  rate_inv r -> t0 <= now -> now - t0 < window -> 0 <= t0 ->
  let '(r', ok) := rate_allow key now r in
  (if ok then 1 else 0) + credit_left t0 r' <= credit_left t0 r.
Proof.
  intros (HL & HW & HB) Ht Hs H0. unfold rate_allow.
  set (e := if decide (rl_window_ms r <= _) then _ else _).
  assert (0 <= e.1 <= limit
          /\ (if decide (t0 <= e.2) then 0 else limit) + (limit - e.1) <= credit_left t0 r) as [He Hc].
  { unfold e, credit_left. rewrite HW. unfold sat_sub.
    destruct (buckets r !! key) as [[c s]|] eqn:E; cbn [from_option]; unfold id; cbn [fst snd].
    - pose proof (HB _ _ _ E). destruct (decide (window <= _)); cbn [fst snd]; [|lia].
      rewrite (decide_True (P := t0 <= now)) by lia. case_decide; lia.
    - destruct (decide (window <= _)); cbn [fst snd]; rewrite decide_True by lia; lia. }
  destruct e as [c s]; cbn [fst snd] in *. rewrite HL.
  destruct (decide (limit <= c)); cbv beta iota; unfold credit_left at 1; cbn [buckets]; rewrite lookup_insert_eq; [lia|].
  rewrite wadd_small by (unfold in_u, umax in *; lia). lia.
Qed.

Lemma credit_left_bounds t0 r : rate_inv r -> 0 <= credit_left t0 r <= 2 * limit.
Proof.
  intros (_ & _ & HB). unfold credit_left. destruct (buckets r !! key) as [[c s]|] eqn:E; [|lia].
  pose proof (HB _ _ _ E). case_decide; lia.
Qed.
End rate.

(** A run of [allow_direct]: the answers to a sequence of calls. *)
Fixpoint direct_run (calls : list (string * DirectMessage * Z)) (g : IngestGuard)
    : IngestGuard * list (string * bool) :=
  match calls with
  | [] => (g, [])
  | (author, m, now) :: calls =>
      let '(g, r) := allow_direct author m now g in
      let '(g, rs) := direct_run calls g in
      (g, (author, is_ok r) :: rs)
  end.

Definition accepted_of (author : string) (rs : list (string * bool)) : Z :=
  sumZ (fun p => if decide (p = (author, true)) then 1 else 0) rs.

Definition guard_inv (g : IngestGuard) : Prop :=
  rate_inv DIRECT_RATE_PER_MINUTE RATE_WINDOW_MS (rate_direct g)
  /\ rate_inv GOSSIP_RATE_PER_MINUTE RATE_WINDOW_MS (rate_gossip g).

Lemma guard_new_inv : guard_inv guard_new.
Proof. split; (split_and!; [done..|]); intros k c s H; done. Qed.

Lemma direct_limit_ok : 0 <= DIRECT_RATE_PER_MINUTE < umax 32.
Proof. done. Qed.

Lemma allow_direct_inv author m now g : guard_inv g -> guard_inv (allow_direct author m now g).1.
Proof.
  intros [H1 H2]. unfold allow_direct. destruct (negb _); [done|].
  destruct (is_duplicate _ _ _) as [w []]; [done|].
  pose proof (rate_allow_inv _ _ direct_limit_ok author now _ H1) as H3.
  destruct (rate_allow _ _ _) as [r ok]. done.
Qed.

Lemma allow_direct_credit author m now a t0 g :
  guard_inv g -> 0 <= t0 <= now -> now - t0 < RATE_WINDOW_MS ->
  let '(g', r) := allow_direct a m now g in
  (if decide ((a, is_ok r) = (author, true)) then 1 else 0)
  + credit_left DIRECT_RATE_PER_MINUTE author t0 (rate_direct g')
  <= credit_left DIRECT_RATE_PER_MINUTE author t0 (rate_direct g).
Proof.
  intros [H1 _] Ht Hw. unfold allow_direct.
  destruct (negb _); [by rewrite decide_False by (by intros [=])|].
  destruct (is_duplicate _ _ _) as [w []]; [by rewrite decide_False by (by intros [=])|].
  destruct (decide (a = author)) as [->|Hne].
  - pose proof (rate_allow_credit _ _ direct_limit_ok author t0 now _ H1) as H.
    destruct (rate_allow _ _ _) as [r ok]. specialize (H ltac:(lia) ltac:(lia) ltac:(lia)).
    destruct ok; simpl in *; [by rewrite decide_True|by rewrite decide_False].
  - pose proof (rate_allow_other author a now (rate_direct g) Hne) as H.
    destruct (rate_allow _ _ _) as [r ok]. simpl in *. rewrite decide_False by (by intros [=]).
    unfold credit_left. by rewrite H.
Qed.

(** the calls of a run happen between [t0] and [t0 + span) *)
Definition within (t0 : Z) (calls : list (string * DirectMessage * Z)) : Prop :=
  Forall (fun c => t0 <= c.2 < t0 + RATE_WINDOW_MS) calls.

Lemma direct_run_credit author t0 calls g :
  guard_inv g -> 0 <= t0 -> within t0 calls ->
  let '(g', rs) := direct_run calls g in
  guard_inv g' /\
  accepted_of author rs + credit_left DIRECT_RATE_PER_MINUTE author t0 (rate_direct g')
  <= credit_left DIRECT_RATE_PER_MINUTE author t0 (rate_direct g).
Proof.
  intros Hg H0 Hc. revert g Hg. induction Hc as [|[[a m] now] calls Ht Hc IH]; intros g Hg; simpl.
  { split; [done|]. unfold accepted_of. simpl. lia. }
  simpl in Ht. pose proof (allow_direct_inv a m now g Hg) as Hg1.
  pose proof (allow_direct_credit author m now a t0 g Hg ltac:(lia) ltac:(lia)) as H1.
  destruct (allow_direct a m now g) as [g1 r]. specialize (IH g1 Hg1).
  destruct (direct_run calls g1) as [g2 rs]. destruct IH as [Hg2 IH]. split; [done|].
  change (accepted_of author ((a, is_ok r) :: rs))
    with ((if decide ((a, is_ok r) = (author, true)) then 1 else 0) + accepted_of author rs). lia.
Qed.

(** The rate limit holds: whatever was received before, and in whatever
    order the calls come, at most 240 direct messages of one author are
    accepted in any 60 seconds (two fixed windows of 120). *)
Theorem direct_rate_bounded (author : string) (t0 : Z) (calls : list (string * DirectMessage * Z)) (g : IngestGuard) :
  guard_inv g -> 0 <= t0 -> within t0 calls ->
  accepted_of author (direct_run calls g).2 <= 2 * DIRECT_RATE_PER_MINUTE.
Proof.
  intros Hg H0 Hc. pose proof (direct_run_credit author t0 calls g Hg H0 Hc) as H.
  destruct (direct_run calls g) as [g' rs]. destruct H as [[Hg' _] H].
  pose proof (credit_left_bounds _ _ direct_limit_ok author t0 _ Hg'). pose proof (credit_left_bounds _ _ direct_limit_ok author t0 _ (proj1 Hg)).
  simpl. lia.
Qed.

(** ** The replay window *)

Section replay.
Context (max : nat) (Hmax : (0 < max)%nat).

(** The last [max] entries of a history. *)
Definition recent_ids (h : list string) : list string := drop (length h - max) h.

(** The concrete window represents the accepted ids of every author: its queue
    holds the last [max] of them, its set the same ids. *)
Definition replay_rep (w : AuthorReplayWindow) (hist : string -> list string) : Prop :=
  max_per_author w = max /\
  forall a, NoDup (recent_ids (hist a)) /\
    default (∅, []) (by_author w !! a) = (list_to_set (recent_ids (hist a)), recent_ids (hist a)).

Definition note_id (author id : string) (hist : string -> list string) (a : string) : list string :=
  if decide (a = author) then hist a ++ [id] else hist a.

Lemma evict_old_spec seen q :
  NoDup q -> seen = list_to_set q ->
  evict_old max seen q = (list_to_set (drop (length q - max) q), drop (length q - max) q).
Proof.
  revert seen. induction q as [|x q IH]; intros seen Hnd Hs; [by rewrite Hs|]. cbn [evict_old].
  apply NoDup_cons in Hnd as [Hx Hnd]. case_decide as Hl.
  - rewrite (IH (seen ∖ {[x]}) Hnd).
    + cbn [length] in *. by replace (S (length q) - max)%nat with (S (length q - max)) by lia.
    + rewrite Hs. apply set_eq. intros y. rewrite elem_of_difference, !elem_of_list_to_set, elem_of_cons, elem_of_singleton.
      split; [by intros [[->|?] ?]|]. intros Hy. split; [by right|]. by intros ->.
  - rewrite Hs. by replace (length (x :: q) - max)%nat with 0%nat by lia.
Qed.

Lemma recent_ids_snoc h id :
  recent_ids (h ++ [id]) = drop (length (recent_ids h ++ [id]) - max) (recent_ids h ++ [id]).
Proof.
  unfold recent_ids. rewrite !length_app, length_drop. cbn [length].
  destruct (decide (length h < max)%nat).
  - replace (length h - max)%nat with 0%nat by lia. rewrite drop_0. f_equal. lia.
  - rewrite !drop_app_le by (rewrite ?length_drop; lia). rewrite drop_drop. do 2 f_equal. lia.
Qed.

Lemma is_duplicate_rep w hist author id :
  replay_rep w hist ->
  let '(w', dup) := is_duplicate author id w in
  dup = bool_decide (id ∈ recent_ids (hist author))
  /\ replay_rep w' (if dup then hist else note_id author id hist).
Proof.
  intros [Hm Hrep]. unfold is_duplicate. destruct (Hrep author) as [Hnd Ha]. rewrite Ha.
  case_decide as Hin; rewrite elem_of_list_to_set in Hin.
  - rewrite bool_decide_eq_true_2 by done. split; [done|]. split; [done|]. intros a. cbn [by_author].
    destruct (decide (a = author)) as [->|Hne]; [by rewrite lookup_insert_eq|by rewrite lookup_insert_ne].
  - rewrite bool_decide_eq_false_2 by done. split; [done|]. split; [done|]. intros a. cbn [by_author].
    unfold note_id. destruct (decide (a = author)) as [->|Hne]; [|by rewrite lookup_insert_ne].
    rewrite lookup_insert_eq. cbn [from_option]. unfold Datatypes.id. rewrite Hm, recent_ids_snoc.
    assert (NoDup (recent_ids (hist author) ++ [id])) as Hnd'.
    { apply NoDup_app. split_and!; [done| |apply NoDup_singleton].
      by intros x Hx ->%list_elem_of_singleton. }
    rewrite evict_old_spec; [|done|].
    + split; [|done]. by apply (sublist_NoDup _ _ Hnd' (sublist_drop _ _)).
    + rewrite list_to_set_app_L. simpl. by rewrite (union_empty_r_L), (comm_L (∪)).
Qed.
End replay.

(** C13. The replay window refines its specification: a window that represents
    the ids accepted so far answers "duplicate" exactly for the last 512 ids of
    that author, and represents the extended history afterwards; other authors
    are not affected, and the fresh guard represents the empty history. *)
Theorem replay_window_refines (w : AuthorReplayWindow) (hist : string -> list string) (author id : string) :
  replay_rep AUTHOR_ID_WINDOW w hist ->
  (let '(w', dup) := is_duplicate author id w in
   dup = bool_decide (id ∈ recent_ids AUTHOR_ID_WINDOW (hist author))
   /\ replay_rep AUTHOR_ID_WINDOW w' (if dup then hist else note_id author id hist))
  /\ replay_rep AUTHOR_ID_WINDOW (replay guard_new) (fun _ => []).
Proof.
  intros H. split; [apply is_duplicate_rep; [unfold AUTHOR_ID_WINDOW; lia|done]|].
  split; [done|]. intros a. split; [constructor|done].
Qed.

Lemma is_duplicate_again w hist author id :
  replay_rep AUTHOR_ID_WINDOW w hist ->
  (is_duplicate author id (is_duplicate author id w).1).2 = true.
Proof.
  intros H. assert (0 < AUTHOR_ID_WINDOW)%nat as Hpos by (unfold AUTHOR_ID_WINDOW; lia).
  pose proof (is_duplicate_rep _ Hpos w hist author id H) as H1.
  destruct (is_duplicate author id w) as [w1 dup]. destruct H1 as [Hd H1].
  pose proof (is_duplicate_rep _ Hpos w1 _ author id H1) as H2. simpl.
  destruct (is_duplicate author id w1) as [w2 dup2]. destruct H2 as [-> _].
  apply bool_decide_eq_true_2. destruct dup; [by apply symmetry, bool_decide_eq_true in Hd|].
  unfold note_id. rewrite decide_True by done. rewrite recent_ids_snoc by done.
  rewrite drop_app_le; [|rewrite length_app; simpl; lia]. set_solver.
Qed.

(** A message refused for its rate is lost: on any guard whose replay
    window represents some history, once [allow_direct] answers [RateLimit] a
    resend of the same message by the same author is never accepted right
    after, however late it comes, because the first call already recorded it. *)
Theorem rate_limited_message_is_burnt (g g1 : IngestGuard) (hist : string -> list string)
    (author : string) (m : DirectMessage) (now later : Z) :
  replay_rep AUTHOR_ID_WINDOW (replay g) hist ->
  allow_direct author m now g = (g1, Err RateLimit) ->
  (allow_direct author m later g1).2 = Err Stale \/ (allow_direct author m later g1).2 = Err Replay.
Proof.
  intros Hrep. pose proof (is_duplicate_again _ _ author (e_id (dm_envelope m)) Hrep) as Hdup.
  unfold allow_direct at 1. destruct (negb _); [by intros [=]|].
  destruct (is_duplicate author (e_id (dm_envelope m)) (replay g)) as [w []]; [by intros [=]|].
  destruct (rate_allow author now (rate_direct g)) as [r []]; [by intros [=]|].
  intros [= <-]. unfold allow_direct. destruct (negb _); [by left|]. right. cbn [replay] in *.
  simpl in Hdup. by destruct (is_duplicate author (e_id (dm_envelope m)) w) as [w' []].
Qed.
