(* ===== verification/Security.v ===== *)
(** * Network-layer security helpers

    [mycelium-node/src/security.rs]: the SD-030 signature gate for [Data]
    frames and the SD-031 choice of relay candidates. *)

From S2P Require Import Prelude External Text Wire.

Open Scope Z_scope.

Inductive Sd030DropReason := NoSignature | InvalidSignature | UnparseableAuthor.

Definition is_gossip_relay_body (body : string) : bool :=
  bool_decide (body = "[mycelium:group]"%string) || bool_decide (body = "[appstore]"%string).

Section validate.
Context `{C : Crypto}.

Definition validate_data_message_signature (m : DirectMessage) : Res Sd030DropReason unit :=
  if is_gossip_relay_body (dm_body m) then Ok tt else
  match signature (dm_envelope m) with
  | None => Err NoSignature
  | Some _ =>
      match peer_parse (signature_author_peer (dm_envelope m)) with
      | None => Err UnparseableAuthor
      | Some author_id => if env_verify author_id (dm_envelope m) then Ok tt else Err InvalidSignature
      end
  end.

(** The SD-030 gate is sound: a message that passes either carries one of
    the two gossip tags, or a signature that verifies under the key inlined in
    the peer id of its stated author; and an honestly signed message passes. *)
Theorem sd030_gate {CL : CryptoLaws C} (m : DirectMessage) (kp : Keypair) (e : Envelope) (body : string) :
  (validate_data_message_signature m = Ok tt ->
   is_gossip_relay_body (dm_body m) = true
   \/ exists author pk sig,
        peer_parse (signature_author_peer (dm_envelope m)) = Some author
        /\ inline_key author = Some pk /\ signature (dm_envelope m) = Some sig
        /\ pk_verify pk (if decide (sig_version (dm_envelope m) = 0)
                         then bytes_for_signing_v0 (dm_envelope m)
                         else bytes_for_signing (dm_envelope m)) sig = true)
  /\ (signature_author_peer e = peer_string (pk_peer_id (kp_public kp)) ->
      validate_data_message_signature (mkDM (env_sign kp e).1 body) = Ok tt).
Proof.
  split.
  - unfold validate_data_message_signature. destruct (is_gossip_relay_body _); [by left|].
    destruct (signature (dm_envelope m)) as [sig|] eqn:Es; [|done].
    destruct (peer_parse _) as [author|] eqn:Ea; [|done].
    destruct (env_verify author (dm_envelope m)) eqn:Ev; [|done]. intros _. right.
    unfold env_verify in Ev. rewrite Es in Ev. destruct (inline_key author) as [pk|] eqn:Ek; [|done].
    exists author, pk, sig. eauto.
  - intros Ha. unfold validate_data_message_signature. cbn [dm_body dm_envelope].
    destruct (is_gossip_relay_body _); [done|].
    destruct (kp_sign_total kp (bytes_for_signing e)) as [sig Hs].
    assert ((env_sign kp e).1 = set_signature (Some sig) 1 e) as ->.
    { unfold env_sign. change (bytes_for_signing (set_signature (signature e) 1 e)) with (bytes_for_signing e).
      by rewrite Hs. }
    cbn [signature set_signature].
    change (signature_author_peer (set_signature (Some sig) 1 e)) with (signature_author_peer e).
    rewrite Ha, peer_parse_string. unfold env_verify. cbn [signature set_signature].
    rewrite inline_key_pk. change (sig_version (set_signature (Some sig) 1 e)) with 1.
    rewrite decide_False by done.
    change (bytes_for_signing (set_signature (Some sig) 1 e)) with (bytes_for_signing e).
    by rewrite (kp_sign_verify _ _ _ Hs).
Qed.

(** The body is outside the signature: the gate gives the same answer for
    any two untagged bodies on the same envelope, and lets every message
    through whose body is changed to a gossip tag. *)
Theorem sd030_ignores_body (e : Envelope) (b b' : string) :
  (is_gossip_relay_body b = false -> is_gossip_relay_body b' = false ->
   validate_data_message_signature (mkDM e b) = validate_data_message_signature (mkDM e b'))
  /\ validate_data_message_signature (mkDM e "[appstore]") = Ok tt.
Proof.
  split; [|done]. intros H H'. unfold validate_data_message_signature. cbn [dm_body dm_envelope].
  by rewrite H, H'.
Qed.
End validate.

(** ** Relay candidates *)

(** [sort_by_key(strikes)]: a stable sort on the strike count *)
Definition fewer_strikes (a b : string * Z) : Prop := a.2 <= b.2.
Global Instance fewer_strikes_dec : RelDecision fewer_strikes.
Proof. intros a b. unfold fewer_strikes. apply _. Defined.
Global Instance fewer_strikes_total : Total fewer_strikes.
Proof. intros a b. unfold fewer_strikes. lia. Qed.
Global Instance fewer_strikes_trans : Transitive fewer_strikes.
Proof. intros a b c. unfold fewer_strikes. lia. Qed.

Definition scored_peers (peers : list string) (to : string) (strikes : gmap string Z) : list (string * Z) :=
  (fun p => (p, default 0 (strikes !! p))) <$> filter (fun p => p ≠ to) peers.

Definition select_relay_candidates (peers : list string) (to : string) (strikes : gmap string Z)
    (max_fanout : nat) : list string :=
  fst <$> take max_fanout (sort_by fewer_strikes (scored_peers peers to strikes)).

Lemma scored_peers_snd peers to strikes q :
  q ∈ scored_peers peers to strikes -> q.2 = default 0 (strikes !! q.1) /\ q.1 ∈ peers /\ q.1 ≠ to.
Proof.
  intros (p & -> & Hp)%list_elem_of_fmap. apply list_elem_of_filter in Hp as [? ?]. done.
Qed.

(** SD-031: the candidates are at most [max_fanout] known peers other than
    the destination; all eligible peers are chosen when there is room; and no
    eligible peer left out has fewer strikes than one that was chosen. *)
Theorem relay_candidates_best (peers : list string) (to : string) (strikes : gmap string Z) (n : nat) :
  let sel := select_relay_candidates peers to strikes n in
  length sel = Nat.min n (length (filter (fun p => p ≠ to) peers))
  /\ (forall p, p ∈ sel -> p ∈ peers /\ p ≠ to)
  /\ (forall p q, p ∈ sel -> q ∈ peers -> q ≠ to -> q ∉ sel ->
       default 0 (strikes !! p) <= default 0 (strikes !! q)).
Proof.
  unfold select_relay_candidates. set (l := scored_peers peers to strikes).
  pose proof (sort_by_perm fewer_strikes l) as HP. split_and!.
  - rewrite length_fmap, length_take, HP. unfold l, scored_peers. by rewrite length_fmap.
  - intros p (q & -> & Hq)%list_elem_of_fmap.
    assert (q ∈ l) as [? ?]%scored_peers_snd; [|done]. rewrite <- HP.
    rewrite <- (take_drop n (sort_by _ _)). apply elem_of_app. by left.
  - intros p q (x & -> & Hx)%list_elem_of_fmap Hq Hto Hout.
    assert (x ∈ l) as [Ex _]%scored_peers_snd.
    { rewrite <- HP, <- (take_drop n (sort_by _ _)). apply elem_of_app. by left. }
    rewrite <- Ex. set (y := (q, default 0 (strikes !! q))).
    assert (y ∈ l) as Hy.
    { apply list_elem_of_fmap. exists q. split; [done|]. by apply list_elem_of_filter. }
    rewrite <- HP, <- (take_drop n (sort_by _ _)) in Hy. apply elem_of_app in Hy as [Hy|Hy].
    + destruct Hout. apply list_elem_of_fmap. by exists y.
    + apply (sorted_take_drop _ _ n x y (sort_by_sorted fewer_strikes l) Hx Hy).
Qed.
