(* ===== verification/Storage.v ===== *)
(** * The message store

    The [MessageStore] trait of [mycelium-core/src/transport.rs] as an
    interface with its laws, and [SledMessageStore] of
    [mycelium-node/src/storage.rs], which is proved to satisfy them.  Every
    clock reading is an argument. *)

From S2P Require Import Prelude External Wire.

Open Scope Z_scope.

Class MessageStore := {
  Store : Type;
  ms_persist : Z -> DirectMessage -> Store -> Store * anyhow unit;
  ms_recent : nat -> Store -> anyhow (list DirectMessage);
  ms_contains : string -> Store -> anyhow bool;
  ms_load_by_id : string -> Store -> anyhow (option DirectMessage);
  ms_list_ids_window : Z -> Z -> Store -> anyhow (list string);
  ms_gc_expired : Z -> Store -> Store * anyhow nat;
  ms_stats : Store -> anyhow StoreStats;
}.

(** What the node relies on: a store is a map from ids to messages; [persist]
    adds, [contains] and [load_by_id] look up, [gc_expired] only removes. *)
Class MessageStoreLaws (M : MessageStore) := {
  store_ok : Store -> Prop;
  store_view : Store -> gmap string DirectMessage;
  ms_persist_ok : forall now m s, store_ok s ->
    exists s', ms_persist now m s = (s', Ok tt) /\ store_ok s'
               /\ store_view s' = <[e_id (dm_envelope m) := m]> (store_view s);
  ms_contains_ok : forall id s, store_ok s ->
    ms_contains id s = Ok (bool_decide (is_Some (store_view s !! id)));
  ms_load_ok : forall id s, store_ok s -> ms_load_by_id id s = Ok (store_view s !! id);
  ms_window_ok : forall now w s, store_ok s -> exists ids, ms_list_ids_window now w s = Ok ids;
  ms_gc_ok : forall now s, store_ok s ->
    exists s' n, ms_gc_expired now s = (s', Ok n) /\ store_ok s' /\ store_view s' ⊆ store_view s;
}.

(** ** [SledMessageStore] *)

Section sled_store.
Context `{D : Sled} `{B : Bincode DirectMessage}.

Record SledMessageStore := mkStore {
  sdb : Tree;
  order : list (Z * string);
}.

(** [open]: the tree is what the disk holds, [order] starts empty. *)
Definition store_open (disk : Tree) : SledMessageStore := mkStore disk [].

Definition GC_AGE_MS : Z := 7 * 24 * 60 * 60 * 1000.

Definition gc_old (now : Z) (e : Z * string) : bool := bool_decide (GC_AGE_MS < now -sat e.1).

(** [for id in to_delete { self.db.remove(id)?; deleted += 1; }] *)
Fixpoint remove_all (ids : list string) (t : Tree) (deleted : nat) : Tree * anyhow nat :=
  match ids with
  | [] => (t, Ok deleted)
  | id :: ids => match tree_remove t id with
                 | Ok t' => remove_all ids t' (S deleted)
                 | Err e => (t, Err e)
                 end
  end.

Definition gc_expired (now : Z) (s : SledMessageStore) : SledMessageStore * anyhow nat :=
  let to_delete := snd <$> filter (fun e => gc_old now e = true) (order s) in
  let kept := filter (fun e => gc_old now e = false) (order s) in
  let '(t, r) := remove_all to_delete (sdb s) 0 in
  (mkStore t kept, r).

Definition stats (s : SledMessageStore) : StoreStats :=
  mkStats (length (order s)) (match order s with (ts, _) :: _ => ts | [] => 0 end).

Definition persist (now : Z) (m : DirectMessage) (s : SledMessageStore) : SledMessageStore * anyhow unit :=
  let key := e_id (dm_envelope m) in
  match ser m with
  | Err e => (s, Err e)
  | Ok encoded =>
      match tree_insert (sdb s) key encoded with
      | Err e => (s, Err e)
      | Ok t => (mkStore t (order s ++ [(now, key)]), Ok tt)
      end
  end.

Fixpoint load_rows (keys : list string) (t : Tree) : anyhow (list DirectMessage) :=
  match keys with
  | [] => Ok []
  | k :: keys =>
      o ← tree_get t k;
      match o with
      | Some value => m ← de value; ms ← load_rows keys t; Ok (m :: ms)
      | None => load_rows keys t
      end
  end.

Definition recent (limit : nat) (s : SledMessageStore) : anyhow (list DirectMessage) :=
  load_rows (snd <$> take limit (reverse (order s))) (sdb s).

Definition store_contains (id : string) (s : SledMessageStore) : anyhow bool := tree_contains_key (sdb s) id.

Definition load_by_id (id : string) (s : SledMessageStore) : anyhow (option DirectMessage) :=
  o ← tree_get (sdb s) id;
  match o with
  | Some bytes => m ← de bytes; Ok (Some m)
  | None => Ok None
  end.

Definition list_ids_window (now window_ms : Z) (s : SledMessageStore) : anyhow (list string) :=
  let cutoff := now -sat window_ms in
  Ok (snd <$> filter (fun e => cutoff <= e.1) (order s)).

Global Instance sled_message_store : MessageStore := {|
  Store := SledMessageStore;
  ms_persist := persist;
  ms_recent := recent;
  ms_contains := store_contains;
  ms_load_by_id := load_by_id;
  ms_list_ids_window := list_ids_window;
  ms_gc_expired := gc_expired;
  ms_stats s := Ok (stats s);
|}.

(** ** Laws *)

Context `{DL : !SledLaws D} `{BL : !BincodeLaws B}.

Definition sview (s : SledMessageStore) : gmap string DirectMessage := typed (sdb s).

Definition sok (s : SledMessageStore) : Prop := tree_ok (A := DirectMessage) (sdb s).

Lemma persist_spec now m s :
  tree_ok (A := DirectMessage) (sdb s) ->
  exists s', persist now m s = (s', Ok tt) /\ tree_ok (A := DirectMessage) (sdb s')
             /\ sview s' = <[e_id (dm_envelope m) := m]> (sview s)
             /\ order s' = order s ++ [(now, e_id (dm_envelope m))].
Proof.
  intros Hok. unfold persist. destruct (ser_total m) as [b Hb]. rewrite Hb.
  destruct (typed_insert (sdb s) (e_id (dm_envelope m)) m b Hb) as (t & Hi & Hv & Hk). rewrite Hi.
  eexists. split_and!; [done|by apply Hk|done|done].
Qed.

Lemma load_by_id_spec id s :
  tree_ok (A := DirectMessage) (sdb s) -> load_by_id id s = Ok (sview s !! id).
Proof.
  intros Hok. unfold load_by_id, sview. pose proof (typed_get (sdb s) id Hok) as H.
  destruct (typed (sdb s) !! id) as [m|].
  - destruct H as (b & Hg & Hd). rewrite Hg. cbn [mbind Res_bind]. rewrite Hd. done.
  - by rewrite H.
Qed.

Lemma remove_all_spec ids t n :
  exists t', remove_all ids t n = (t', Ok (n + length ids)%nat)
             /\ (tree_ok (A := DirectMessage) t -> tree_ok (A := DirectMessage) t')
             /\ forall k, typed (A := DirectMessage) t' !! k = (if decide (k ∈ ids) then None else typed t !! k).
Proof.
  revert t n. induction ids as [|id ids IH]; intros t n; cbn [remove_all].
  { exists t. by rewrite Nat.add_0_r. }
  destruct (typed_remove (A := DirectMessage) t id) as (t1 & Hr & Hv & Hk). rewrite Hr.
  destruct (IH t1 (S n)) as (t2 & E & Hk2 & Hv2). exists t2. split_and!.
  - rewrite E. f_equal. f_equal. simpl. lia.
  - intros H. by apply Hk2, Hk.
  - intros k. rewrite Hv2, Hv. destruct (decide (k ∈ ids)) as [Hin|Hin].
    + by rewrite decide_True by (by right).
    + destruct (decide (k = id)) as [->|Hne].
      * by rewrite lookup_delete_eq, decide_True by left.
      * rewrite lookup_delete_ne by done. rewrite decide_False; [done|].
        by intros [?|?]%elem_of_cons.
Qed.

Lemma gc_spec now s :
  exists s', gc_expired now s = (s', Ok (length (filter (fun e => gc_old now e = true) (order s))))
    /\ (tree_ok (A := DirectMessage) (sdb s) -> tree_ok (A := DirectMessage) (sdb s'))
    /\ order s' = filter (fun e => gc_old now e = false) (order s)
    /\ forall k, sview s' !! k =
         if decide (k ∈ snd <$> filter (fun e => gc_old now e = true) (order s)) then None else sview s !! k.
Proof.
  unfold gc_expired.
  destruct (remove_all_spec (snd <$> filter (fun e => gc_old now e = true) (order s)) (sdb s) 0)
    as (t & E & Hk & Hv). rewrite E.
  exists (mkStore t (filter (fun e => gc_old now e = false) (order s))).
  split_and!; [by rewrite length_fmap|exact Hk|done|exact Hv].
Qed.

Global Instance sled_message_store_laws : MessageStoreLaws sled_message_store.
Proof.
  refine {| store_ok := sok : @Store sled_message_store -> Prop;
            store_view := sview : @Store sled_message_store -> _ |}.
  - intros now m s Hok. destruct (persist_spec now m s Hok) as (s' & ? & ? & ? & _). by exists s'.
  - intros id s Hok. simpl. unfold store_contains. by rewrite (typed_contains (A := DirectMessage)).
  - intros id s Hok. by apply load_by_id_spec.
  - intros now w s _. simpl. by eexists.
  - intros now s Hok. destruct (gc_spec now s) as (s' & E & Hk & _ & Hv).
    exists s', (length (filter (fun e => gc_old now e = true) (order s))). split_and!; [done|by apply Hk|].
    apply map_subseteq_spec. intros k m. rewrite Hv. case_decide; [done|]. done.
Defined.

(** The index matches the tree: every id is listed once, and exactly the
    stored ids are listed. *)
Definition store_inv (s : SledMessageStore) : Prop :=
  tree_ok (A := DirectMessage) (sdb s) /\ NoDup (snd <$> order s)
  /\ forall id, id ∈ snd <$> order s <-> is_Some (sview s !! id).

Lemma order_unique (l : list (Z * string)) ts ts' id :
  NoDup (snd <$> l) -> (ts, id) ∈ l -> (ts', id) ∈ l -> ts = ts'.
Proof.
  intros Hnd [i Hi]%list_elem_of_lookup [j Hj]%list_elem_of_lookup.
  assert (i = j) as ->.
  { eapply (NoDup_lookup _ i j id Hnd); rewrite list_lookup_fmap; [by rewrite Hi|by rewrite Hj]. }
  congruence.
Qed.

Lemma filter_split_length {A} (f : A -> bool) l :
  (length (filter (fun e => f e = true) l) + length (filter (fun e => f e = false) l) = length l)%nat.
Proof.
  induction l as [|x l IH]; [done|]. rewrite !filter_cons. destruct (f x); simpl; lia.
Qed.

Lemma gc_index now s k :
  store_inv s ->
  k ∈ snd <$> filter (fun e => gc_old now e = false) (order s)
  <-> is_Some (sview s !! k) /\ k ∉ snd <$> filter (fun e => gc_old now e = true) (order s).
Proof.
  intros (_ & Hnd & Hin). rewrite <- Hin, !list_elem_of_fmap. setoid_rewrite list_elem_of_filter. split.
  - intros ([ts id] & -> & Hold & Hm). split; [by exists (ts, id)|].
    intros ([ts' id'] & E & Hold' & Hm'). simpl in E. subst id'.
    pose proof (order_unique _ _ _ _ Hnd Hm Hm') as ->. congruence.
  - intros [([ts id] & -> & Hm) Hno]. exists (ts, id). split_and!; try done.
    destruct (gc_old now (ts, id)) eqn:E; [|done]. destruct Hno. by exists (ts, id).
Qed.

Lemma store_open_new_inv : store_inv (store_open tree_new).
Proof.
  split_and!; [apply tree_ok_new|constructor|]. intros id. unfold sview, store_open; simpl.
  rewrite typed_new, lookup_empty. split; [by intros ?%elem_of_nil|by intros [? ?]].
Qed.

Lemma persist_inv now m s :
  store_inv s -> sview s !! e_id (dm_envelope m) = None -> store_inv (persist now m s).1.
Proof.
  intros (Hok & Hnd & Hin) Hnew. destruct (persist_spec now m s Hok) as (s' & E & Hok' & Hv & Ho).
  rewrite E. simpl. split_and!; [done| |].
  - rewrite Ho, fmap_app. simpl. apply NoDup_app. split_and!; [done| |apply NoDup_singleton].
    intros x Hx ->%list_elem_of_singleton. apply Hin in Hx. rewrite Hnew in Hx. by destruct Hx.
  - intros id. rewrite Ho, Hv, fmap_app, elem_of_app, Hin. simpl. rewrite list_elem_of_singleton.
    destruct (decide (id = e_id (dm_envelope m))) as [->|Hne].
    + rewrite lookup_insert_eq. split; [by eexists|by right].
    + rewrite lookup_insert_ne by done. split; [by intros [?|?]|by left].
Qed.

(** Garbage collection is exact on a store whose index matches its tree:
    it never fails, reports the number of messages it deletes, keeps the index
    matched, and afterwards holds precisely the messages that were persisted at
    most seven days ago, unchanged. *)
Theorem gc_exact (now : Z) (s : SledMessageStore) :
  store_inv s ->
  exists s' n, gc_expired now s = (s', Ok n) /\ store_inv s'
    /\ (n + length (order s') = length (order s))%nat
    /\ forall id m, sview s' !! id = Some m <->
         sview s !! id = Some m /\ exists ts, (ts, id) ∈ order s /\ now -sat ts <= GC_AGE_MS.
Proof.
  intros Hinv. pose proof Hinv as (Hok & Hnd & Hin).
  destruct (gc_spec now s) as (s' & E & Hk & Ho & Hv).
  exists s', (length (filter (fun e => gc_old now e = true) (order s))). split_and!; [done| | |].
  - split_and!; [by apply Hk| |].
    + rewrite Ho. eapply sublist_NoDup; [exact Hnd|]. apply fmap_sublist, sublist_filter.
    + intros id. rewrite Ho, gc_index, Hv by done. case_decide; [|tauto].
      split; [tauto|]. by intros [? ?].
  - rewrite Ho. apply filter_split_length.
  - intros id m. rewrite Hv. case_decide as Hd.
    + split; [done|]. intros [_ (ts & Hm & Hage)]. apply list_elem_of_fmap in Hd as ([ts' id'] & -> & Hf).
      apply list_elem_of_filter in Hf as [Hold Hm']. simpl in Hm.
      pose proof (order_unique _ _ _ _ Hnd Hm Hm') as ->.
      unfold gc_old in Hold. apply bool_decide_eq_true in Hold. simpl in Hold. lia.
    + split; [|tauto]. intros Hs. split; [done|].
      assert (id ∈ snd <$> order s) as Hi by (apply Hin; by eexists).
      apply list_elem_of_fmap in Hi as ([ts id'] & -> & Hm). exists ts. split; [done|].
      destruct (gc_old now (ts, id')) eqn:Eo.
      * destruct Hd. apply list_elem_of_fmap. exists (ts, id'). split; [done|]. by apply list_elem_of_filter.
      * unfold gc_old in Eo. apply bool_decide_eq_false in Eo. simpl in Eo. lia.
Qed.

(** After a restart the index is empty: whatever the disk holds, garbage
    collection deletes nothing, statistics and the synchronisation window
    report an empty store, while every message on disk is still contained. *)
Theorem reopen_forgets_index (disk : Tree) (now window : Z) (id : string) (m : DirectMessage) :
  tree_ok (A := DirectMessage) disk -> typed disk !! id = Some m ->
  gc_expired now (store_open disk) = (store_open disk, Ok 0%nat)
  /\ st_count (stats (store_open disk)) = 0%nat
  /\ list_ids_window now window (store_open disk) = Ok []
  /\ recent 100 (store_open disk) = Ok []
  /\ load_by_id id (store_open disk) = Ok (Some m).
Proof.
  intros Hok Hm. split_and!; try done. rewrite load_by_id_spec by done. unfold sview. simpl.
  by rewrite Hm.
Qed.

(** Reading back: right after [persist] on a healthy store, [contains] and
    [load_by_id] give that message, every other id keeps its message, and the
    message heads [recent] and is in every synchronisation window. *)
Theorem persist_then_load (now window : Z) (m : DirectMessage) (s : SledMessageStore) :
  tree_ok (A := DirectMessage) (sdb s) -> 0 <= now -> 0 <= window ->
  exists s', persist now m s = (s', Ok tt)
    /\ store_contains (e_id (dm_envelope m)) s' = Ok true
    /\ (forall id, load_by_id id s' =
          if decide (id = e_id (dm_envelope m)) then Ok (Some m) else load_by_id id s)
    /\ recent 1 s' = Ok [m]
    /\ exists ids, list_ids_window now window s' = Ok ids /\ e_id (dm_envelope m) ∈ ids.
Proof.
  intros Hok Hn Hw. destruct (persist_spec now m s Hok) as (s' & E & Hok' & Hv & Ho).
  exists s'. split_and!; [done| | | |].
  - unfold store_contains. rewrite (typed_contains (A := DirectMessage)) by done.
    change (typed (sdb s')) with (sview s'). rewrite Hv, lookup_insert_eq. by rewrite bool_decide_eq_true_2 by (by eexists).
  - intros id. rewrite !load_by_id_spec by done. rewrite Hv. case_decide as Hd.
    + by rewrite Hd, lookup_insert_eq.
    + by rewrite lookup_insert_ne.
  - unfold recent. rewrite Ho, reverse_snoc. cbn [take fmap list_fmap load_rows snd].
    pose proof (typed_get (A := DirectMessage) (sdb s') (e_id (dm_envelope m)) Hok') as Hg.
    change (typed (sdb s')) with (sview s') in Hg. rewrite Hv, lookup_insert_eq in Hg.
    destruct Hg as (b & Hg & Hd). rewrite take_0. cbn [fmap list_fmap load_rows]. rewrite Hg.
    cbn [mbind Res_bind]. rewrite Hd. done.
  - eexists. split; [done|]. apply list_elem_of_fmap. exists (now, e_id (dm_envelope m)).
    split; [done|]. apply list_elem_of_filter. rewrite Ho. split; [unfold sat_sub; simpl; lia|].
    apply elem_of_app. right. by apply list_elem_of_singleton.
Qed.
End sled_store.
