(* ===== verification/Forwarding.v ===== *)
(** * Forwarding policy and the ingest pipeline

    [mycelium-node/src/forwarding.rs] and the [BasicSeenCache] of [node.rs].
    The pipeline is proved against the [SeenCache] and [MessageStore]
    interfaces.  Clock readings are arguments, one per reading. *)

From S2P Require Import Prelude External Text Wire Storage IngestGuard.

Open Scope Z_scope.

(** ** [SeenCache] *)

Class SeenCache := {
  Seen : Type;
  seen_contains : string -> Seen -> bool;
  seen_insert : string -> Seen -> Seen;
}.

Class SeenCacheLaws (S : SeenCache) := {
  seen_ok : Seen -> Prop;
  seen_insert_ok : forall id c, seen_ok c -> seen_ok (seen_insert id c);
  seen_contains_insert : forall id c, seen_ok c -> seen_contains id (seen_insert id c) = true;
}.

Record BasicSeenCache := mkSeen { sc_cap : nat; sc_order : list string; sc_set : gset string }.

Definition seen_new (cap : nat) : BasicSeenCache := mkSeen cap [] ∅.
Definition seen_len (c : BasicSeenCache) : nat := size (sc_set c).
Definition basic_contains (id : string) (c : BasicSeenCache) : bool := bool_decide (id ∈ sc_set c).

Definition basic_insert (id : string) (c : BasicSeenCache) : BasicSeenCache :=
  let o := if decide (id ∈ sc_set c) then sc_order c else sc_order c ++ [id] in
  let '(set, o) := evict_old (sc_cap c) ({[id]} ∪ sc_set c) o in
  mkSeen (sc_cap c) o set.

Definition basic_ok (c : BasicSeenCache) : Prop :=
  (0 < sc_cap c)%nat /\ NoDup (sc_order c) /\ sc_set c = list_to_set (sc_order c)
  /\ (length (sc_order c) <= sc_cap c)%nat.

Global Instance basic_seen_cache : SeenCache := {|
  Seen := BasicSeenCache; seen_contains := basic_contains; seen_insert := basic_insert |}.

(** An insertion keeps the last [cap] distinct ids. *)
Lemma basic_insert_spec id c :
  basic_ok c ->
  basic_insert id c =
    let o := if decide (id ∈ sc_order c) then sc_order c else sc_order c ++ [id] in
    mkSeen (sc_cap c) (drop (length o - sc_cap c) o) (list_to_set (drop (length o - sc_cap c) o)).
Proof.
  intros (Hc & Hnd & Hs & Hl). unfold basic_insert. rewrite Hs.
  assert (id ∈@{gset string} list_to_set (sc_order c) <-> id ∈ sc_order c) as Hiff by apply elem_of_list_to_set.
  destruct (decide (id ∈ sc_order c)) as [Hin|Hin].
  - rewrite decide_True by by apply Hiff.
    replace ({[id]} ∪ list_to_set (sc_order c)) with (list_to_set (sc_order c) : gset string) by (apply set_eq; intros x; rewrite elem_of_union, elem_of_singleton, elem_of_list_to_set; split; [by right|by intros [->|?]]).
    by rewrite evict_old_spec.
  - rewrite decide_False by by rewrite Hiff.
    rewrite evict_old_spec; [done|done| |].
    + apply NoDup_app. split_and!; [done| |apply NoDup_singleton].
      by intros x Hx ->%list_elem_of_singleton.
    + rewrite list_to_set_app_L. simpl. by rewrite union_empty_r_L, (comm_L (∪)).
Qed.

Global Instance basic_seen_cache_laws : SeenCacheLaws basic_seen_cache.
Proof.
  refine {| seen_ok := basic_ok : @Seen basic_seen_cache -> Prop |}.
  - intros id c Hok. simpl. rewrite basic_insert_spec by done. destruct Hok as (Hc & Hnd & Hs & Hl).
    cbv zeta. set (o := if decide _ then _ else _).
    assert (NoDup o) as Ho.
    { unfold o. case_decide as Hin; [done|]. apply NoDup_app. split_and!; [done| |apply NoDup_singleton].
      by intros x Hx ->%list_elem_of_singleton. }
    split_and!; simpl; [done|by apply (sublist_NoDup _ _ Ho (sublist_drop _ _))|done|].
    rewrite length_drop. lia.
  - intros id c Hok. simpl. rewrite basic_insert_spec by done. destruct Hok as (Hc & Hnd & Hs & Hl).
    apply bool_decide_eq_true. cbn [sc_set]. rewrite elem_of_list_to_set. case_decide as Hin.
    + by replace (length (sc_order c) - sc_cap c)%nat with 0%nat by lia.
    + rewrite drop_app_le; [|rewrite length_app; simpl; lia]. apply elem_of_app. right.
      by apply list_elem_of_singleton.
Defined.

(** ** Policies *)

Inductive ForwardDecision :=
| DeliverLocal
| ForwardTo (peers : list string)
| Hold
| Drop (reason : string).

Definition can_forward (s : NodeState) (p : Priority) : bool :=
  match s with
  | Active => true
  | Intermittent => negb (bool_decide (p = Low))
  | Passive => bool_decide (p = High)
  end.

Definition base_fanout (s : NodeState) (p : Priority) : nat :=
  match s with
  | Active => match p with High => 4 | Normal => 3 | Low => 2 end
  | Intermittent => match p with High => 2 | Normal => 1 | Low => 0 end
  | Passive => match p with High => 1 | _ => 0 end
  end%nat.

(** [{:?}] *)
Definition debug_state (s : NodeState) : string :=
  match s with Active => "Active" | Intermittent => "Intermittent" | Passive => "Passive" end.

Section policy.
Context `{C : Crypto}.

Definition should_forward_to (peer : string) (m : DirectMessage) (s : NodeState) : bool :=
  let seed := (e_id (dm_envelope m) +:+ ":" +:+ peer +:+ ":" +:+ debug_state s)%string in
  let h := blake3 (as_bytes seed) in
  let r := from_le (take 2 h) mod 1000 in
  let threshold := match s with Active => 850 | Intermittent => 550 | Passive => 250 end in
  bool_decide (r < threshold).

(** the selection loop, with its [break] *)
Fixpoint select_loop (m : DirectMessage) (s : NodeState) (fanout : nat) (peers selected : list string) : list string :=
  match peers with
  | [] => selected
  | peer :: peers =>
      if should_forward_to peer m s then
        let selected := selected ++ [peer] in
        if decide (fanout <= length selected)%nat then selected else select_loop m s fanout peers selected
      else select_loop m s fanout peers selected
  end.

Definition is_for (peer : string) (m : DirectMessage) : bool :=
  bool_decide (to_peer (dm_envelope m) = Some peer).

Definition forward_decide (now : Z) (m : DirectMessage) (local : string) (known : list string) (s : NodeState)
    : ForwardDecision :=
  if is_for local m then DeliverLocal else
  if is_expired m now then Drop "expired" else
  let fanout := base_fanout s (priority (dm_envelope m)) in
  if decide (fanout = 0%nat \/ known = []) then Hold else
  let selected := select_loop m s fanout known [] in
  if decide (selected = []) then Hold else ForwardTo selected.

Lemma select_loop_spec m s fanout peers selected :
  (length selected < fanout)%nat ->
  select_loop m s fanout peers selected
  = selected ++ take (fanout - length selected) (filter (fun p => should_forward_to p m s = true) peers).
Proof.
  revert selected. induction peers as [|p peers IH]; intros sel Hl; cbn [select_loop].
  { by rewrite filter_nil, take_nil, app_nil_r. }
  rewrite filter_cons. destruct (should_forward_to p m s).
  - rewrite (decide_True (P := true = true)) by done. destruct (fanout - length sel)%nat as [|k] eqn:Ek; [lia|].
    cbn [take]. rewrite length_app. cbn [length]. case_decide.
    + assert (k = 0)%nat as -> by lia. by rewrite take_0.
    + rewrite IH by (rewrite length_app; simpl; lia). rewrite length_app, <- app_assoc. cbn [length app].
      do 3 f_equal. lia.
  - rewrite decide_False by done. by apply IH.
Qed.

Lemma forward_decide_sub now m local known s sel p :
  forward_decide now m local known s = ForwardTo sel -> p ∈ sel -> p ∈ known.
Proof.
  unfold forward_decide. destruct (is_for local m); [done|]. destruct (is_expired m now); [done|].
  case_decide as H0; [done|]. case_decide as Hs; [done|]. intros [= <-].
  rewrite select_loop_spec by (simpl; lia). cbn [length app]. intros Hp.
  assert (p ∈ filter (fun p => should_forward_to p m s = true) known) as Hf.
  { rewrite <- (take_drop (base_fanout s (priority (dm_envelope m)) - 0) (filter _ known)).
    apply elem_of_app. by left. }
  by apply list_elem_of_filter in Hf as [_ ?].
Qed.

(** The forwarding decision: messages for this node are delivered, expired
    ones dropped; otherwise the chosen peers are, in order, the first known
    peers the hash selects, at least one and at most the fan-out of the energy
    state; and the fan-out is zero exactly when the energy policy forbids
    forwarding. *)
Theorem forward_decide_spec (now : Z) (m : DirectMessage) (local : string) (known : list string) (s : NodeState) :
  (is_for local m = true -> forward_decide now m local known s = DeliverLocal)
  /\ (is_for local m = false -> is_expired m now = true -> forward_decide now m local known s = Drop "expired")
  /\ (forall sel, forward_decide now m local known s = ForwardTo sel ->
        sel = take (base_fanout s (priority (dm_envelope m)))
                (filter (fun p => should_forward_to p m s = true) known)
        /\ sel ≠ [] /\ (length sel <= base_fanout s (priority (dm_envelope m)))%nat
        /\ is_for local m = false /\ is_expired m now = false)
  /\ (base_fanout s (priority (dm_envelope m)) = 0%nat <-> can_forward s (priority (dm_envelope m)) = false).
Proof.
  unfold forward_decide. split_and!.
  - by intros ->.
  - by intros -> ->.
  - intros sel. destruct (is_for local m); [done|]. destruct (is_expired m now); [done|].
    case_decide as H0; [done|]. case_decide as Hs; [done|]. intros [= <-].
    rewrite select_loop_spec in Hs |- * by (simpl; lia). cbn [length app] in *. rewrite Nat.sub_0_r in *.
    split_and!; try done. rewrite length_take. lia.
  - by destruct s, (priority (dm_envelope m)).
Qed.
End policy.

(** ** [IngestPipeline] *)

Section ingest.
Context `{C : Crypto} `{S : SeenCache} `{M : MessageStore}.

(** [t_exp], [t_sig] and [t_store] are the readings of the clock in
    [is_expired], in the transition window, and in the store. *)
Definition ingest (t_exp t_sig t_store : Z) (m : DirectMessage) (verify : bool) (st : Seen * Store)
    : (Seen * Store) * anyhow bool :=
  let '(seen, store) := st in
  if is_expired m t_exp then (st, Ok false) else
  let verified :=
    if verify then
      match peer_parse (signature_author_peer (dm_envelope m)) with
      | None => false
      | Some peer_id => verify_or_transition peer_id t_sig (dm_envelope m)
      end
    else true in
  if negb verified then (st, Ok false) else
  let id := e_id (dm_envelope m) in
  if seen_contains id seen then (st, Ok false) else
  match ms_contains id store with
  | Err e => (st, Err e)
  | Ok true => (st, Ok false)
  | Ok false =>
      let seen := seen_insert id seen in
      match ms_persist t_store m store with
      | (store, Ok _) => ((seen, store), Ok true)
      | (store, Err e) => ((seen, store), Err e)
      end
  end.

Context `{SL : !SeenCacheLaws S} `{ML : !MessageStoreLaws M}.

(** a message is new to a node that has [seen] and [store] *)
Definition novel (m : DirectMessage) (st : Seen * Store) : bool :=
  negb (seen_contains (e_id (dm_envelope m)) st.1)
  && bool_decide (store_view st.2 !! e_id (dm_envelope m) = None).

Lemma ingest_unverified t1 t2 t3 m st :
  store_ok st.2 -> seen_ok st.1 ->
  if negb (is_expired m t1) && novel m st then
    exists st', ingest t1 t2 t3 m false st = (st', Ok true) /\ store_ok st'.2 /\ seen_ok st'.1
                /\ st'.1 = seen_insert (e_id (dm_envelope m)) st.1
                /\ store_view st'.2 = <[e_id (dm_envelope m) := m]> (store_view st.2)
  else ingest t1 t2 t3 m false st = (st, Ok false).
Proof.
  destruct st as [seen store]. intros Hs Hc. unfold ingest, novel. cbn [fst snd] in *.
  destruct (is_expired m t1); cbn [negb andb]; [done|].
  destruct (seen_contains _ seen) eqn:Ec; cbn [negb andb]; [done|].
  rewrite ms_contains_ok by done.
  destruct (store_view store !! e_id (dm_envelope m)) as [x|] eqn:Ev; cbn [andb].
  { by rewrite bool_decide_eq_false_2, bool_decide_eq_true_2 by (done || by eexists). }
  rewrite bool_decide_eq_true_2, bool_decide_eq_false_2 by (done || by intros [? ?]).
  destruct (ms_persist_ok t3 m store Hs) as (store' & -> & Hs' & Hv).
  exists (seen_insert (e_id (dm_envelope m)) seen, store'). split_and!; try done.
  by apply seen_insert_ok.
Qed.

(** C12. Ingest, against any seen cache and store that obey their laws: on a
    healthy store it never fails; it accepts exactly the messages that are not
    expired, whose signature is valid or excused by the transition window when
    verification is asked for, and that are neither seen nor stored; accepting
    adds the message to both and changes no other message; refusing changes
    nothing; and a second ingest of an accepted message is always refused. *)
Theorem ingest_exactly_once (t1 t2 t3 u1 u2 u3 : Z) (m : DirectMessage) (verify verify' : bool) (st : Seen * Store) :
  store_ok st.2 -> seen_ok st.1 ->
  let ok := negb (is_expired m t1)
            && (negb verify || match peer_parse (signature_author_peer (dm_envelope m)) with
                               | None => false
                               | Some p => verify_or_transition p t2 (dm_envelope m)
                               end)
            && novel m st in
  exists st', ingest t1 t2 t3 m verify st = (st', Ok ok)
    /\ store_ok st'.2 /\ seen_ok st'.1
    /\ store_view st'.2 = (if ok then <[e_id (dm_envelope m) := m]> (store_view st.2) else store_view st.2)
    /\ (ok = false -> st' = st)
    /\ (ok = true -> ingest u1 u2 u3 m verify' st' = (st', Ok false)).
Proof.
  intros Hs Hc ok. pose proof (ingest_unverified t1 t2 t3 m st Hs Hc) as H.
  set (sig := negb verify || _) in ok.
  assert (ingest t1 t2 t3 m verify st = if sig then ingest t1 t2 t3 m false st else (st, Ok false)) as E.
  { unfold ingest, sig. destruct st as [seen store]. destruct (is_expired m t1).
    { by destruct (negb verify || _). }
    destruct verify; cbn [negb orb]; [|done].
    destruct (peer_parse _) as [p|]; [|done]. by destruct (verify_or_transition p t2 _). }
  rewrite E. unfold ok. destruct sig; cycle 1.
  { rewrite andb_false_r. cbn [andb]. exists st. by split_and!. }
  rewrite andb_true_r. destruct (negb (is_expired m t1) && novel m st).
  - destruct H as (st' & -> & Hs' & Hc' & Hin & Hv). exists st'. split_and!; try done.
    intros _. destruct st' as [seen' store']. cbn [fst snd] in *. unfold ingest.
    destruct (is_expired m u1); [done|].
    match goal with |- context [negb ?v] => destruct v end; cbn [negb]; [|done].
    by rewrite Hin, seen_contains_insert.
  - rewrite H. exists st. by split_and!.
Qed.
End ingest.
