(* ===== verification/Libp2p.v ===== *)
(** * The libp2p transport

    [mycelium-node/src/transport.rs]: the cap on direct peers with its
    least-recently-used eviction, and the event handler that turns swarm events
    into transport events.  The swarm itself is third-party: calls into it are
    appended to a log, and what it answers is a parameter.  [Instant::now()] is
    an argument of the operations that read it. *)

From S2P Require Import Prelude External Text Wire Bootstrap.

Open Scope Z_scope.

Section peer_cap.
Context {K : Type} `{Countable K}.

Inductive PeerAdmitAction := AdmitPeer | Evict (p : K) | Reject.

Record DirectPeerCap := mkCap {
  cap_max_peers : nat;
  cap_peers : gset K;
  peer_last_seen : gmap K Z;
  rejections : Z;
}.

Definition cap_new (max : nat) : DirectPeerCap := mkCap max ∅ ∅ 0.
Definition cap_len (c : DirectPeerCap) : nat := size (cap_peers c).
Definition cap_contains (p : K) (c : DirectPeerCap) : bool := bool_decide (p ∈ cap_peers c).

Definition cap_touch (now : Z) (p : K) (c : DirectPeerCap) : DirectPeerCap :=
  if decide (p ∈ cap_peers c)
  then mkCap (cap_max_peers c) (cap_peers c) (<[p := now]> (peer_last_seen c)) (rejections c) else c.

Definition cap_remove (p : K) (c : DirectPeerCap) : DirectPeerCap :=
  mkCap (cap_max_peers c) (cap_peers c ∖ {[p]}) (delete p (peer_last_seen c)) (rejections c).

Definition cap_insert (now : Z) (p : K) (c : DirectPeerCap) : DirectPeerCap :=
  mkCap (cap_max_peers c) ({[p]} ∪ cap_peers c) (<[p := now]> (peer_last_seen c)) (rejections c).

(** [min_by_key] returns the first minimum. *)
Fixpoint min_by_key (l : list (K * Z)) : option (K * Z) :=
  match l with
  | [] => None
  | x :: l => match min_by_key l with
              | Some y => if decide (y.2 < x.2) then Some y else Some x
              | None => Some x
              end
  end.

Definition find_least_recently_used_peer (c : DirectPeerCap) : option K :=
  fst <$> min_by_key (map_to_list (peer_last_seen c)).

Definition cap_admit (now : Z) (p : K) (c : DirectPeerCap) : DirectPeerCap * PeerAdmitAction :=
  if decide (p ∈ cap_peers c) then (cap_touch now p c, AdmitPeer) else
  if decide (cap_max_peers c <= cap_len c)%nat then
    match find_least_recently_used_peer c with
    | Some oldest => (cap_remove oldest c, Evict oldest)
    | None => (mkCap (cap_max_peers c) (cap_peers c) (peer_last_seen c) (rejections c +sat 1), Reject)
    end
  else (c, AdmitPeer).

(** every tracked peer has a last-seen time and conversely, and the cap holds *)
Definition cap_inv (c : DirectPeerCap) : Prop :=
  dom (peer_last_seen c) = cap_peers c /\ (cap_len c <= cap_max_peers c)%nat.

Lemma min_by_key_spec l :
  match min_by_key l with
  | Some y => y ∈ l /\ forall x, x ∈ l -> y.2 <= x.2
  | None => l = []
  end.
Proof.
  induction l as [|x l IH]; [done|]. cbn [min_by_key]. destruct (min_by_key l) as [y|].
  - destruct IH as [Hy Hmin]. case_decide as Hd.
    + split; [by right|]. intros z [->|Hz]%elem_of_cons; [lia|by apply Hmin].
    + split; [left|]. intros z [->|Hz]%elem_of_cons; [lia|]. specialize (Hmin z Hz). lia.
  - subst. split; [left|]. intros z [->|Hz]%elem_of_cons; [lia|by apply elem_of_nil in Hz].
Qed.

Lemma find_lru_spec c :
  match find_least_recently_used_peer c with
  | Some p => exists t, peer_last_seen c !! p = Some t
                        /\ forall q t', peer_last_seen c !! q = Some t' -> t <= t'
  | None => peer_last_seen c = ∅
  end.
Proof.
  unfold find_least_recently_used_peer. pose proof (min_by_key_spec (map_to_list (peer_last_seen c))) as Hm.
  destruct (min_by_key _) as [[p t]|]; simpl.
  - destruct Hm as [Hin Hmin]. exists t. split; [by apply elem_of_map_to_list|].
    intros q t' Hq. apply (Hmin (q, t')). by apply elem_of_map_to_list.
  - by apply map_to_list_empty_iff.
Qed.

Lemma cap_new_inv max : cap_inv (cap_new max).
Proof. split; [apply dom_empty_L|]. unfold cap_len, cap_new. cbn [cap_peers cap_max_peers]. rewrite size_empty. lia. Qed.

Lemma cap_touch_inv now p c : cap_inv c -> cap_inv (cap_touch now p c).
Proof.
  intros [Hd Hl]. unfold cap_touch. case_decide as Hp; [|done]. split; [|done]. simpl.
  rewrite dom_insert_L, Hd. set_solver.
Qed.

Lemma cap_remove_inv p c : cap_inv c -> cap_inv (cap_remove p c).
Proof.
  intros [Hd Hl]. split; [by simpl; rewrite dom_delete_L, Hd|]. unfold cap_len in *. simpl.
  assert (size (cap_peers c ∖ {[p]}) <= size (cap_peers c))%nat by (apply subseteq_size; set_solver). lia.
Qed.

Lemma cap_insert_inv now p c :
  cap_inv c -> (cap_len c < cap_max_peers c)%nat -> cap_inv (cap_insert now p c).
Proof.
  intros [Hd Hl] Hlt. split; [by simpl; rewrite dom_insert_L, Hd|]. unfold cap_len in *. simpl.
  pose proof (size_union_alt ({[p]} : gset K) (cap_peers c)) as E.
  assert (size (cap_peers c ∖ {[p]}) <= size (cap_peers c))%nat by (apply subseteq_size; set_solver).
  rewrite size_singleton in E. lia.
Qed.

Lemma cap_remove_len p c : p ∈ cap_peers c -> (S (cap_len (cap_remove p c)) = cap_len c)%nat.
Proof.
  intros Hp. unfold cap_len, cap_remove. cbn [cap_peers].
  assert (cap_peers c = {[p]} ∪ (cap_peers c ∖ {[p]})) as E by (apply union_difference_singleton_L; done).
  pose proof (size_union ({[p]} : gset K) (cap_peers c ∖ {[p]})) as Hs.
  rewrite size_singleton, <- E in Hs. rewrite Hs; [done|].
  intros x ->%elem_of_singleton [_ Hx]%elem_of_difference. by apply Hx, elem_of_singleton.
Qed.
End peer_cap.

Arguments PeerAdmitAction : clear implicits.
Arguments DirectPeerCap K {_ _}.

(** ** The transport *)

Inductive KadMode := KadClient | KadServer.

(** Calls into the swarm, in the order they are made. *)
Inductive SwarmCmd (K A : Type) :=
| CDial (a : A)
| CListen (a : A)
| CDisconnect (p : K)
| CAddExplicit (p : K)
| CRemoveExplicit (p : K)
| CKadAdd (p : K) (a : A)
| CKadMode (m : KadMode)
| CKadBootstrap
| CKadClosest (p : K)
| CSendRequest (p : K) (m : WireMessage)
| CSendResponse (message_id : string)
| CPublish (topic : string) (payload : list byte)
| CSubscribe (topic : string)
| CUnsubscribe (topic : string).
Arguments CDial {K A} a.
Arguments CListen {K A} a.
Arguments CDisconnect {K A} p.
Arguments CAddExplicit {K A} p.
Arguments CRemoveExplicit {K A} p.
Arguments CKadAdd {K A} p a.
Arguments CKadMode {K A} m.
Arguments CKadBootstrap {K A}.
Arguments CKadClosest {K A} p.
Arguments CSendRequest {K A} p m.
Arguments CSendResponse {K A} message_id.
Arguments CPublish {K A} topic payload.
Arguments CSubscribe {K A} topic.
Arguments CUnsubscribe {K A} topic.

Class SwarmEnv (K : Type) := {
  Multiaddr : Type;
  multiaddr_eq_dec :: EqDecision Multiaddr;
  addr_parse : string -> option Multiaddr;
  addr_string : Multiaddr -> string;
  (** the [/p2p/<id>] components, in order *)
  addr_p2p : Multiaddr -> list K;
  addr_push_p2p : Multiaddr -> K -> Multiaddr;
  pid_parse : string -> option K;
  pid_string : K -> string;
  (** what the swarm answers, given the calls made so far *)
  dial_result : list (SwarmCmd K Multiaddr) -> Multiaddr -> anyhow unit;
  is_connected : list (SwarmCmd K Multiaddr) -> K -> bool;
  publish_result : list (SwarmCmd K Multiaddr) -> string -> list byte -> anyhow unit;
  (** [Ok false]: already subscribed *)
  subscribe_result : list (SwarmCmd K Multiaddr) -> string -> anyhow bool;
}.

(** The Kademlia events [handle_kad_event] matches on. *)
Inductive KadEvent (K A : Type) :=
| KadBootstrapDone
| RoutingUpdated (p : K) (addrs : list A)
| ClosestPeers (l : list (K * list A))
| KadOther.
Arguments KadBootstrapDone {K A}.
Arguments RoutingUpdated {K A} p addrs.
Arguments ClosestPeers {K A} l.
Arguments KadOther {K A}.

(** The swarm events the handler matches on; every other event is ignored. *)
Inductive SwarmEvent (K A : Type) :=
| NewListenAddr (a : A)
| MdnsDiscovered (l : list (K * A))
| MdnsExpired (l : list (K * A))
| OutgoingConnectionError
| ConnectionEstablished (p : K)
| ConnectionClosed (p : K)
| IdentifyReceived (p : K)
| DirectRequest (p : K) (m : WireMessage)
| DirectResponse (p : K) (ack : MessageAck)
| OutboundFailure (p : K) (error : string)
| GossipMessage (source : K) (topic : string) (payload : list byte)
| KadBehaviour (e : KadEvent K A)
| SwarmOther.
Arguments NewListenAddr {K A} a.
Arguments MdnsDiscovered {K A} l.
Arguments MdnsExpired {K A} l.
Arguments OutgoingConnectionError {K A}.
Arguments ConnectionEstablished {K A} p.
Arguments ConnectionClosed {K A} p.
Arguments IdentifyReceived {K A} p.
Arguments DirectRequest {K A} p m.
Arguments DirectResponse {K A} p ack.
Arguments OutboundFailure {K A} p error.
Arguments GossipMessage {K A} source topic payload.
Arguments KadBehaviour {K A} e.
Arguments SwarmOther {K A}.

Inductive KadConnectivityAction := Activate | Pause.

Definition kad_action_for_mode (m : ConnectivityMode) : KadConnectivityAction :=
  match m with Internet => Activate | MeshOnly => Pause end.

Section message_id.
Context `{C : Crypto}.

Definition b3hex (l : list byte) : string := hex_encode (blake3 l).

Definition message_id_for_wire (m : WireMessage) : string :=
  match m with
  | Data msg => e_id (dm_envelope msg)
  | SyncBloom bloom count => "sync_bloom:" +:+ show count +:+ ":" +:+ b3hex bloom
  | SyncIds ids => "sync_ids:" +:+ b3hex (as_bytes (join "," ids))
  | SyncRequest ids => "sync_req:" +:+ b3hex (as_bytes (join "," ids))
  | SyncData messages =>
      "sync_data:" +:+ b3hex (as_bytes (join "," ((fun m => e_id (dm_envelope m)) <$> messages)))
  | ScopeAnnounce scopes => "scope_announce:" +:+ b3hex (as_bytes (join "," scopes))
  | EncryptedDirect f => "enc_direct:" +:+ b3hex (encrypted_payload f)
  | EncryptedGroup group_id enc => "enc_group:" +:+ group_id +:+ ":" +:+ b3hex enc
  | PeerInfo enc_pubkey_hex _ _ => "peer_info:" +:+ b3hex (as_bytes enc_pubkey_hex)
  end%string.
End message_id.

Section transport.
Context {K : Type} `{Countable K} `{W : !SwarmEnv K} `{C : Crypto}.
Variable local_id : K.

Record Libp2pTransport := mkTransport {
  peer_cap : DirectPeerCap K;
  bootstrap_peers : list Multiaddr;
  swarm_log : list (SwarmCmd K Multiaddr);
}.

Definition emit (c : SwarmCmd K Multiaddr) (t : Libp2pTransport) : Libp2pTransport :=
  mkTransport (peer_cap t) (bootstrap_peers t) (swarm_log t ++ [c]).

Definition set_cap (c : DirectPeerCap K) (t : Libp2pTransport) : Libp2pTransport :=
  mkTransport c (bootstrap_peers t) (swarm_log t).

Definition add_target (a : Multiaddr) (t : Libp2pTransport) : Libp2pTransport :=
  if decide (a ∈ bootstrap_peers t) then t
  else mkTransport (peer_cap t) (bootstrap_peers t ++ [a]) (swarm_log t).

(** [swarm.dial(addr)]: the call is made, its answer returned *)
Definition dial (a : Multiaddr) (t : Libp2pTransport) : Libp2pTransport * anyhow unit :=
  (emit (CDial a) t, dial_result (swarm_log t) a).

Definition dial_all_bootstraps (t : Libp2pTransport) : Libp2pTransport :=
  foldl (fun t a => (dial a t).1) t (bootstrap_peers t).

Definition set_kad_mode (m : KadMode) (t : Libp2pTransport) : Libp2pTransport := emit (CKadMode m) t.
(** a failure is logged *)
Definition kad_bootstrap (t : Libp2pTransport) : Libp2pTransport := emit CKadBootstrap t.
Definition start_kad_find_peer (p : K) (t : Libp2pTransport) : Libp2pTransport := emit (CKadClosest p) t.

Definition setup_kad (t : Libp2pTransport) : Libp2pTransport :=
  let t := set_kad_mode KadClient t in
  let t := foldl (fun t a => match head (addr_p2p a) with
                             | Some p => emit (CKadAdd p a) t
                             | None => t
                             end) t (bootstrap_peers t) in
  if decide (bootstrap_peers t = []) then t else kad_bootstrap t.

(** the first TCP bootstrap address only ([break]) *)
Fixpoint enable_relay_inbound_listen (addrs : list Multiaddr) (t : Libp2pTransport) : Libp2pTransport :=
  match addrs with
  | [] => t
  | a :: addrs =>
      if negb (str_contains "/tcp/" (addr_string a)) then enable_relay_inbound_listen addrs t else
      match addr_parse (addr_string a +:+ "/p2p-circuit")%string with
      | Some l => emit (CListen l) t
      | None => t
      end
  end.

Definition apply_kad_connectivity (act : KadConnectivityAction) (t : Libp2pTransport) : Libp2pTransport :=
  let t := set_kad_mode KadClient t in
  match act with
  | Activate => kad_bootstrap (dial_all_bootstraps t)
  | Pause => t
  end.

Definition handle_connectivity_change (mode : ConnectivityMode) (t : Libp2pTransport) : Libp2pTransport :=
  apply_kad_connectivity (kad_action_for_mode mode) t.

Fixpoint kad_dial_loop (p : K) (addrs : list Multiaddr) (t : Libp2pTransport) : Libp2pTransport :=
  match addrs with
  | [] => t
  | a :: addrs =>
      let t := emit (CKadAdd p a) t in
      if negb (is_connected (swarm_log t) p) then (dial a t).1 else kad_dial_loop p addrs t
  end.

Definition kad_maybe_dial (p : K) (addrs : list Multiaddr) (t : Libp2pTransport) : Libp2pTransport :=
  if bool_decide (p = local_id) || is_relay_peer (pid_string p) then t else kad_dial_loop p addrs t.

Definition handle_connection_established (now : Z) (p : K) (t : Libp2pTransport) : Libp2pTransport * bool :=
  if bool_decide (p = local_id) || is_relay_peer (pid_string p) then (t, false) else
  if cap_contains p (peer_cap t) then (set_cap (cap_touch now p (peer_cap t)) t, false) else
  let '(c, act) := cap_admit now p (peer_cap t) in
  let t := set_cap c t in
  match act with
  | Evict e => let t := emit (CDisconnect e) t in (set_cap (cap_insert now p (peer_cap t)) t, true)
  | Reject => (emit (CDisconnect p) t, false)
  | AdmitPeer => (set_cap (cap_insert now p (peer_cap t)) t, true)
  end.

Definition queue_dial_target (multiaddr : string) (t : Libp2pTransport) : Libp2pTransport * anyhow unit :=
  match addr_parse multiaddr with
  | None => (t, Err "invalid multiaddr"%string)
  | Some a => dial a (add_target a t)
  end.

Definition known_peers (t : Libp2pTransport) : list string :=
  filter (fun p => is_relay_peer p = false) (pid_string <$> elements (cap_peers (peer_cap t))).

Definition lt_send_direct (now : Z) (to : string) (m : WireMessage) (t : Libp2pTransport)
    : Libp2pTransport * anyhow unit :=
  match pid_parse to with
  | None => (t, Err "invalid peer id"%string)
  | Some p => (emit (CSendRequest p m) (set_cap (cap_touch now p (peer_cap t)) t), Ok tt)
  end.

Definition dial_peer (multiaddr : string) (t : Libp2pTransport) : Libp2pTransport * anyhow unit :=
  match addr_parse multiaddr with
  | None => (t, Err "invalid multiaddr"%string)
  | Some a => dial a t
  end.
Definition remember_and_dial (multiaddr : string) (t : Libp2pTransport) : Libp2pTransport * anyhow unit :=
  queue_dial_target multiaddr t.
Definition redial_stored_targets (t : Libp2pTransport) : Libp2pTransport := dial_all_bootstraps t.

Definition connected_peer_count (t : Libp2pTransport) : nat := cap_len (peer_cap t).
Definition max_direct_peers (t : Libp2pTransport) : nat := cap_max_peers (peer_cap t).
Definition transport_cap_rejections (t : Libp2pTransport) : Z := rejections (peer_cap t).

Definition publish_scoped (scope : string) (p : list byte) (t : Libp2pTransport) : Libp2pTransport * anyhow unit :=
  (emit (CPublish scope p) t, publish_result (swarm_log t) scope p).

Definition subscribe_scope (scope : string) (t : Libp2pTransport) : Libp2pTransport * anyhow unit :=
  (emit (CSubscribe scope) t,
   fresh ← subscribe_result (swarm_log t) scope;
   if (fresh : bool) then Ok tt else Err ("failed to subscribe to gossip topic: " +:+ scope)%string).

Definition unsubscribe_scope (scope : string) (t : Libp2pTransport) : Libp2pTransport * anyhow unit :=
  (emit (CUnsubscribe scope) t, Ok tt).

Definition kad_find_peer (target : string) (t : Libp2pTransport) : Libp2pTransport :=
  match pid_parse target with Some p => start_kad_find_peer p t | None => t end.

Definition mdns_discovered (t : Libp2pTransport) (pa : K * Multiaddr) : Libp2pTransport :=
  let '(p, a) := pa in
  if decide (p = local_id) then t else
  let t := emit (CAddExplicit p) t in
  let a := if decide (p ∈ addr_p2p a) then a else addr_push_p2p a p in
  (dial a (add_target a t)).1.

Definition mdns_expired (t : Libp2pTransport) (pa : K * Multiaddr) : Libp2pTransport :=
  let '(p, _) := pa in
  if bool_decide (p = local_id) || is_relay_peer (pid_string p) then t else
  if is_connected (swarm_log t) p then t else emit (CRemoveExplicit p) t.

Definition peer_up (now : Z) (p : K) (t : Libp2pTransport) : Libp2pTransport * option TransportEvent :=
  let '(t, fresh) := handle_connection_established now p t in
  if (fresh : bool) then (emit (CAddExplicit p) t, Some (PeerUp (pid_string p))) else (t, None).

Definition handle_kad_event (e : KadEvent K Multiaddr) (t : Libp2pTransport) : Libp2pTransport :=
  match e with
  | KadBootstrapDone => t
  | RoutingUpdated p addrs => kad_maybe_dial p addrs t
  | ClosestPeers l => foldl (fun t pa => kad_maybe_dial pa.1 pa.2 t) t l
  | KadOther => t
  end.

Definition handle_swarm_event (now : Z) (ev : SwarmEvent K Multiaddr) (t : Libp2pTransport)
    : Libp2pTransport * option TransportEvent :=
  match ev with
  | NewListenAddr a => (t, Some (Listening (addr_string a)))
  | MdnsDiscovered l => (foldl mdns_discovered t l, None)
  | MdnsExpired l => (foldl mdns_expired t l, None)
  | OutgoingConnectionError => (t, None)
  | ConnectionEstablished p => peer_up now p t
  | ConnectionClosed p =>
      if negb (is_relay_peer (pid_string p)) && cap_contains p (peer_cap t) then
        (emit (CRemoveExplicit p) (set_cap (cap_remove p (peer_cap t)) t), Some (PeerDown (pid_string p)))
      else (t, None)
  | IdentifyReceived p => peer_up now p t
  | DirectRequest p m =>
      let t := set_cap (cap_touch now p (peer_cap t)) t in
      (emit (CSendResponse (message_id_for_wire m)) t, Some (DirectReceived (pid_string p) m))
  | DirectResponse p ack => (t, Some (DirectAck (pid_string p) ack))
  | OutboundFailure p e => (t, Some (SendFailure (pid_string p) e))
  | GossipMessage src topic payload => (t, Some (ScopedReceived (pid_string src) topic payload))
  | KadBehaviour e => (handle_kad_event e t, None)
  | SwarmOther => (t, None)
  end.

(** ** The event loop

    What [next_event] selects from: the connectivity watch, until its sender is
    gone, and the swarm.  The state is the transport and whether it still watches. *)

Inductive TransportInput :=
| IConnectivity (mode : ConnectivityMode)
| IConnectivityClosed
| ISwarm (now : Z) (ev : SwarmEvent K Multiaddr).

Definition transport_input (i : TransportInput) (s : Libp2pTransport * bool) : (Libp2pTransport * bool) * option TransportEvent :=
  let '(t, rx) := s in
  match i with
  | ISwarm now ev => let '(t', o) := handle_swarm_event now ev t in ((t', rx), o)
  | IConnectivity mode =>
      if (rx : bool) then ((handle_connectivity_change mode t, rx), Some (ConnectivityChanged mode)) else (s, None)
  | IConnectivityClosed => ((t, false), None)
  end.

(** the inputs that are left, and the event, or none while it waits *)
Fixpoint next_event (inputs : list TransportInput) (s : Libp2pTransport * bool) :
    (Libp2pTransport * bool) * list TransportInput * option TransportEvent :=
  match inputs with
  | [] => (s, [], None)
  | i :: inputs =>
      match transport_input i s with
      | (s', Some ev) => (s', inputs, Some ev)
      | (s', None) => next_event inputs s'
      end
  end.

(** [Libp2pTransport::new] after the swarm is built and listening *)
Definition transport_new (addrs : list string) (max_peers : nat) : Libp2pTransport :=
  let boots := omap addr_parse addrs in
  let max := if decide (max_peers = 0%nat) then 50%nat else max_peers in
  let t := mkTransport (cap_new max) boots [] in
  let t := dial_all_bootstraps t in
  let t := enable_relay_inbound_listen (bootstrap_peers t) t in
  setup_kad t.

(** ** Theorems *)

Lemma foldl_cap {A} (f : Libp2pTransport -> A -> Libp2pTransport) l t :
  (forall t a, peer_cap (f t a) = peer_cap t) -> peer_cap (foldl f t l) = peer_cap t.
Proof. intros Hf. revert t. induction l as [|a l IH]; intros t; [done|]. cbn [foldl]. by rewrite IH, Hf. Qed.

Lemma add_target_cap a t : peer_cap (add_target a t) = peer_cap t.
Proof. unfold add_target. by case_decide. Qed.

Lemma mdns_discovered_cap t pa : peer_cap (mdns_discovered t pa) = peer_cap t.
Proof.
  destruct pa as [p a]. unfold mdns_discovered. case_decide; [done|].
  cbn [dial fst emit peer_cap]. by rewrite add_target_cap.
Qed.

Lemma mdns_expired_cap t pa : peer_cap (mdns_expired t pa) = peer_cap t.
Proof. destruct pa as [p a]. unfold mdns_expired. by repeat case_match. Qed.

Lemma kad_maybe_dial_cap p addrs t : peer_cap (kad_maybe_dial p addrs t) = peer_cap t.
Proof.
  unfold kad_maybe_dial. case_match; [done|]. clear. revert t.
  induction addrs as [|a addrs IH]; intros t; [done|]. cbn [kad_dial_loop]. case_match; [done|]. by rewrite IH.
Qed.

Lemma kad_event_cap e t : peer_cap (handle_kad_event e t) = peer_cap t.
Proof. destruct e; try done; [apply kad_maybe_dial_cap|]. apply foldl_cap. intros. apply kad_maybe_dial_cap. Qed.

Lemma dial_all_cap t : peer_cap (dial_all_bootstraps t) = peer_cap t.
Proof. by apply foldl_cap. Qed.

Lemma relay_listen_cap addrs t : peer_cap (enable_relay_inbound_listen addrs t) = peer_cap t.
Proof. induction addrs as [|a addrs IH]; [done|]. simpl. repeat case_match; done. Qed.

Lemma setup_kad_cap t : peer_cap (setup_kad t) = peer_cap t.
Proof.
  unfold setup_kad, kad_bootstrap. case_decide; [|cbn [emit peer_cap]]; rewrite foldl_cap; try done;
    intros t' a; by case_match.
Qed.

(** What a new connection does when there is room, and when there is not. *)
Lemma established_spec now p t :
  cap_inv (peer_cap t) -> (0 < cap_max_peers (peer_cap t))%nat ->
  p ≠ local_id -> is_relay_peer (pid_string p) = false -> p ∉ cap_peers (peer_cap t) ->
  let r := handle_connection_established now p t in
  r.2 = true /\ cap_max_peers (peer_cap r.1) = cap_max_peers (peer_cap t) /\ cap_inv (peer_cap r.1) /\
  ( (cap_len (peer_cap t) < cap_max_peers (peer_cap t))%nat
    /\ cap_peers (peer_cap r.1) = {[p]} ∪ cap_peers (peer_cap t) /\ swarm_log r.1 = swarm_log t
  \/ exists e ts, peer_last_seen (peer_cap t) !! e = Some ts
      /\ (forall q ts', peer_last_seen (peer_cap t) !! q = Some ts' -> ts <= ts')
      /\ cap_peers (peer_cap r.1) = {[p]} ∪ (cap_peers (peer_cap t) ∖ {[e]}) /\ e ≠ p
      /\ swarm_log r.1 = swarm_log t ++ [CDisconnect e]).
Proof.
  intros Hinv Hmax Hp Hr Hnew. unfold handle_connection_established.
  rewrite bool_decide_eq_false_2, Hr by done. cbn [orb].
  unfold cap_contains. rewrite bool_decide_eq_false_2 by done.
  unfold cap_admit. rewrite decide_False by done. case_decide as Hfull.
  - pose proof (find_lru_spec (peer_cap t)) as Hlru. destruct Hinv as [Hd Hl].
    destruct (find_least_recently_used_peer (peer_cap t)) as [e|].
    + destruct Hlru as (ts & He & Hmin).
      assert (e ∈ cap_peers (peer_cap t)) as Hein by (rewrite <- Hd; by apply elem_of_dom_2 in He).
      pose proof (cap_remove_len e (peer_cap t) Hein) as Hlen.
      cbn [fst snd set_cap emit peer_cap swarm_log]. split_and!; [done|done| |].
      * apply cap_insert_inv; [by apply cap_remove_inv|]. cbn [cap_remove cap_max_peers]. lia.
      * right. exists e, ts. split_and!; try done. intros ->. by apply Hnew.
    + exfalso. rewrite Hlru, dom_empty_L in Hd. unfold cap_len in Hfull. rewrite <- Hd, size_empty in Hfull. lia.
  - cbn [fst snd set_cap emit peer_cap swarm_log]. split_and!; [done|done| |].
    + apply cap_insert_inv; [done|]. lia.
    + left. split_and!; [lia|done|done].
Qed.

Lemma established_inv now p t :
  cap_inv (peer_cap t) -> (0 < cap_max_peers (peer_cap t))%nat ->
  let r := handle_connection_established now p t in
  cap_inv (peer_cap r.1) /\ cap_max_peers (peer_cap r.1) = cap_max_peers (peer_cap t).
Proof.
  intros Hinv Hmax. destruct (decide (p = local_id)) as [Hl|Hl].
  { unfold handle_connection_established. by rewrite bool_decide_eq_true_2. }
  destruct (is_relay_peer (pid_string p)) eqn:Hr.
  { unfold handle_connection_established. by rewrite Hr, orb_true_r. }
  destruct (decide (p ∈ cap_peers (peer_cap t))) as [Hin|Hin].
  - unfold handle_connection_established, cap_contains. rewrite bool_decide_eq_false_2, Hr by done.
    cbn [orb]. rewrite bool_decide_eq_true_2 by done. cbn [fst set_cap peer_cap].
    split; [by apply cap_touch_inv|]. unfold cap_touch. by case_decide.
  - by destruct (established_spec now p t Hinv Hmax Hl Hr Hin) as (_ & ? & ? & _).
Qed.

Lemma handle_swarm_event_inv now ev t :
  cap_inv (peer_cap t) -> (0 < cap_max_peers (peer_cap t))%nat ->
  cap_inv (peer_cap (handle_swarm_event now ev t).1)
  /\ cap_max_peers (peer_cap (handle_swarm_event now ev t).1) = cap_max_peers (peer_cap t).
Proof.
  intros Hinv Hmax.
  assert (forall p, cap_inv (peer_cap (peer_up now p t).1)
                    /\ cap_max_peers (peer_cap (peer_up now p t).1) = cap_max_peers (peer_cap t)) as Hup.
  { intros p. pose proof (established_inv now p t Hinv Hmax) as He. unfold peer_up.
    destruct (handle_connection_established now p t) as [t' []]; exact He. }
  destruct ev; cbn [handle_swarm_event fst]; try done; try apply Hup.
  - rewrite foldl_cap; [done|]. apply mdns_discovered_cap.
  - rewrite foldl_cap; [done|]. apply mdns_expired_cap.
  - case_match; [|done]. cbn [fst emit set_cap peer_cap]. split; [by apply cap_remove_inv|done].
  - cbn [fst emit set_cap peer_cap]. split; [by apply cap_touch_inv|]. unfold cap_touch. by case_decide.
  - by rewrite kad_event_cap.
Qed.

(** every input handled, and the events they give *)
Fixpoint transport_run (inputs : list TransportInput) (s : Libp2pTransport * bool) : (Libp2pTransport * bool) * list TransportEvent :=
  match inputs with
  | [] => (s, [])
  | i :: inputs =>
      let '(s1, o) := transport_input i s in
      let '(s2, es) := transport_run inputs s1 in (s2, option_list o ++ es)
  end.

(** [next_event] loses nothing and keeps the order: calling it again and again gives
    exactly the events of the inputs, one call each. *)
Theorem next_event_streams (inputs : list TransportInput) (s : Libp2pTransport * bool) :
  match next_event inputs s with
  | (s', rest, Some ev) =>
      (length rest < length inputs)%nat
      /\ transport_run inputs s = ((transport_run rest s').1, ev :: (transport_run rest s').2)
  | (s', rest, None) => rest = [] /\ transport_run inputs s = (s', [])
  end.
Proof.
  revert s. induction inputs as [|i inputs IH]; intros s; [done|]. cbn [next_event transport_run].
  destruct (transport_input i s) as [s1 [ev|]] eqn:E.
  - cbn [length]. split; [lia|]. by destruct (transport_run inputs s1).
  - specialize (IH s1). destruct (next_event inputs s1) as [[s' rest] [ev|]].
    + destruct IH as [Hl ->]. cbn [length]. split; [lia|done].
    + by destruct IH as [-> ->].
Qed.

Lemma kad_connectivity_cap act t : peer_cap (apply_kad_connectivity act t) = peer_cap t.
Proof.
  destruct act; [|done]. change (peer_cap (dial_all_bootstraps (set_kad_mode KadClient t)) = peer_cap t). by rewrite dial_all_cap.
Qed.

Lemma transport_run_inv inputs s :
  cap_inv (peer_cap s.1) -> (0 < cap_max_peers (peer_cap s.1))%nat ->
  let t := (transport_run inputs s).1.1 in
  cap_inv (peer_cap t) /\ cap_max_peers (peer_cap t) = cap_max_peers (peer_cap s.1).
Proof.
  revert s. induction inputs as [|i inputs IH]; intros s Hi Hm; [done|]. cbn [transport_run].
  assert (cap_inv (peer_cap (transport_input i s).1.1)
    /\ cap_max_peers (peer_cap (transport_input i s).1.1) = cap_max_peers (peer_cap s.1)) as [Hi' Hm'].
  { destruct s as [t rx]. cbn [fst] in *. destruct i as [mode| |now ev]; cbn [transport_input].
    - destruct rx; [|done]. unfold handle_connectivity_change. cbn [fst]. by rewrite kad_connectivity_cap.
    - done.
    - pose proof (handle_swarm_event_inv now ev t Hi Hm) as He. by destruct (handle_swarm_event now ev t). }
  destruct (transport_input i s) as [s1 o]. cbn [fst] in *. destruct (IH s1 Hi' ltac:(lia)) as [H1 H2].
  destruct (transport_run inputs s1) as [s2 es]. cbn [fst] in *. split; [exact H1|]. etrans; [exact H2|exact Hm'].
Qed.

(** The cap on direct peers holds in every reachable state: started with
    any configuration, after any sequence of connectivity changes, swarm events
    and clock readings the transport tracks at most the configured number of
    peers (50 when the configuration says 0), and exactly the tracked peers have
    a last-seen time. *)
Theorem peer_cap_invariant (addrs : list string) (max_peers : nat) (rx : bool) (inputs : list TransportInput) :
  let t := (transport_run inputs (transport_new addrs max_peers, rx)).1.1 in
  cap_inv (peer_cap t)
  /\ (length (known_peers t) <= (if decide (max_peers = 0%nat) then 50 else max_peers))%nat.
Proof.
  set (mx := if decide (max_peers = 0%nat) then 50%nat else max_peers).
  assert (peer_cap (transport_new addrs max_peers) = cap_new mx) as Hc.
  { unfold transport_new. by rewrite setup_kad_cap, relay_listen_cap, dial_all_cap. }
  intros t. destruct (transport_run_inv inputs (transport_new addrs max_peers, rx)) as [Hi Hm]; cbn [fst].
  - rewrite Hc. apply cap_new_inv.
  - rewrite Hc. cbn. unfold mx. case_decide; lia.
  - split; [exact Hi|]. destruct Hi as [_ Hl]. unfold known_peers. cbn [fst] in Hm. rewrite Hc in Hm. cbn [cap_new cap_max_peers] in Hm.
    etrans; [apply length_filter|]. rewrite length_fmap. fold t in Hl, Hm. unfold cap_len, size, set_size in Hl. simpl in Hl. lia.
Qed.

(** Eviction is least recently used: on a full transport a new peer is
    admitted (never rejected) by disconnecting one tracked peer whose last-seen
    time is the smallest, and the number of tracked peers does not change. *)
Theorem full_cap_evicts_lru (now : Z) (p : K) (t : Libp2pTransport) :
  cap_inv (peer_cap t) -> (0 < cap_max_peers (peer_cap t))%nat ->
  cap_len (peer_cap t) = cap_max_peers (peer_cap t) ->
  p ≠ local_id -> is_relay_peer (pid_string p) = false -> p ∉ cap_peers (peer_cap t) ->
  exists t' e ts, handle_swarm_event now (ConnectionEstablished p) t = (t', Some (PeerUp (pid_string p)))
    /\ swarm_log t' = swarm_log t ++ [CDisconnect e; CAddExplicit p]
    /\ peer_last_seen (peer_cap t) !! e = Some ts
    /\ (forall q ts', peer_last_seen (peer_cap t) !! q = Some ts' -> ts <= ts')
    /\ cap_peers (peer_cap t') = {[p]} ∪ (cap_peers (peer_cap t) ∖ {[e]}) /\ e ≠ p.
Proof.
  intros Hinv Hmax Hfull Hl Hr Hin.
  pose proof (established_spec now p t Hinv Hmax Hl Hr Hin) as He. cbn [handle_swarm_event]. unfold peer_up.
  destruct (handle_connection_established now p t) as [t1 b]. cbn [fst snd] in He.
  destruct He as (-> & _ & _ & [(Hlt & _)|(e & ts & H1 & H2 & H3 & H4 & H5)]); [lia|].
  exists (emit (CAddExplicit p) t1), e, ts. split_and!; try done.
  cbn [emit swarm_log]. by rewrite H5, <- app_assoc.
Qed.

(** The evicted peer is never reported down: after the eviction, the
    closing of its connection produces no transport event and no change, so
    the node above keeps it in its peer list. *)
Theorem evicted_peer_never_reported_down (now later : Z) (p e : K) (t t' : Libp2pTransport)
    (ev : option TransportEvent) :
  handle_swarm_event now (ConnectionEstablished p) t = (t', ev) ->
  CDisconnect e ∈ drop (length (swarm_log t)) (swarm_log t') -> e ≠ p ->
  handle_swarm_event later (ConnectionClosed e) t' = (t', None).
Proof.
  cbn [handle_swarm_event]. unfold peer_up, handle_connection_established.
  assert (forall X, CDisconnect e ∈ drop (length (swarm_log t)) (swarm_log t) -> X) as Hno.
  { intros X HX. rewrite drop_all in HX. by apply elem_of_nil in HX. }
  destruct (bool_decide _ || _); [intros [= <- <-] HX; by apply Hno|].
  destruct (cap_contains p (peer_cap t)); [intros [= <- <-] HX; by apply Hno|].
  unfold cap_admit. case_decide; [|case_decide].
  - intros [= <- <-]. cbn [set_cap swarm_log emit]. rewrite drop_app_length.
    intros HX%list_elem_of_singleton. done.
  - destruct (find_least_recently_used_peer (peer_cap t)) as [o|].
    + intros [= <- <-]. cbn [set_cap swarm_log emit]. rewrite <- app_assoc, drop_app_length.
      intros [HX|HX%list_elem_of_singleton]%elem_of_cons Hne; [|done]. injection HX as ->.
      unfold cap_contains. rewrite bool_decide_eq_false_2; [by rewrite andb_false_r|].
      cbn [peer_cap cap_insert cap_remove cap_peers]. set_solver.
    + intros [= <- <-]. cbn [set_cap swarm_log emit]. rewrite drop_app_length.
      intros HX%list_elem_of_singleton Hne. by injection HX as ->.
  - intros [= <- <-]. cbn [set_cap swarm_log emit]. rewrite drop_app_length.
    intros HX%list_elem_of_singleton. done.
Qed.
End transport.
