(* ===== verification/NodeData.v ===== *)
(** * The node: state

    The data of [mycelium-node/src/node.rs]: configuration, metrics,
    reputations, the relay identity, the pending queue, and the state of
    [NodeRunner].  The transport is the [MeshTransport] interface; the store is
    the [MessageStore] interface. *)

From S2P Require Import Prelude External Text Bootstrap Wire E2E Bloom IngestGuard Security Storage Forwarding.

Open Scope Z_scope.

(** ** [MeshTransport] *)

Class MeshTransport := {
  Net : Type;
  net_known_peers : Net -> list string;
  net_remember_and_dial : string -> Net -> Net * anyhow unit;
  net_redial : Net -> Net;
  net_send_direct : string -> WireMessage -> Net -> Net * anyhow unit;
  net_publish_scoped : string -> list byte -> Net -> Net * anyhow unit;
  net_subscribe_scope : string -> Net -> Net * anyhow unit;
  net_unsubscribe_scope : string -> Net -> Net * anyhow unit;
  net_kad_find_peer : string -> Net -> Net;
  net_connected_count : Net -> nat;
  net_max_direct_peers : Net -> Z;
  net_cap_rejections : Net -> Z;
}.

(** What the node takes from its host: the [n]-th reading of the wall clock
    (milliseconds) and of the monotonic clock (seconds), and the [n]-th key pair
    drawn. *)
Class NodeHost `{C : Crypto} := {
  node_clock : nat -> Z;
  node_instant : nat -> Z;
  gen_keypair : nat -> Keypair;
}.

Definition SYSTEM_SCOPES : list string :=
  ["mycelium/chat"; "mycelium/coin/v1"; "mycelium/appstore/v1"]%string.
Definition RELAY_KEY_ROTATION_SECS : Z := 86400.

Inductive NodeCommand :=
| SendDirect (to body : string)
| SendDirectPayload (to body : string) (p : list byte)
| Broadcast (scope body : string)
| BroadcastPayload (scope body : string) (p : list byte)
| SendWire (to : string) (m : WireMessage)
| AddBootstrapPeer (multiaddr : string)
| SubscribeScope (scope : string)
| UnsubscribeScope (scope : string)
| SubscribeBulletinScope (scope : string)
| UnsubscribeBulletinScope (scope : string)
| GcNow
| GetStoreStats
| ListPeers
| SetEnergyState (s : NodeState)
| SetRendezvousEnabled (b : bool).

Record NodeMetrics := mkMetrics {
  messages_forwarded : Z;
  messages_dropped_ttl : Z;
  messages_dropped_hops : Z;
  messages_dropped_queue : Z;
  messages_dropped_invalid_sig : Z;
  messages_dropped_no_sig : Z;
  messages_dropped_rate_limit : Z;
  messages_dropped_replay : Z;
  messages_dropped_oversize : Z;
  messages_delivered_local : Z;
  pending_queue_size : nat;
  seen_cache_size : nat;
  connected_peers : nat;
  max_peers : Z;
  peer_cap_rejections : Z;
}.

Definition metrics_default : NodeMetrics := mkMetrics 0 0 0 0 0 0 0 0 0 0 0 0 0 0 0.

Definition set_messages_forwarded (v : Z) (s : NodeMetrics) : NodeMetrics :=
  mkMetrics v (messages_dropped_ttl s) (messages_dropped_hops s) (messages_dropped_queue s)
    (messages_dropped_invalid_sig s) (messages_dropped_no_sig s) (messages_dropped_rate_limit s)
    (messages_dropped_replay s) (messages_dropped_oversize s) (messages_delivered_local s)
    (pending_queue_size s) (seen_cache_size s) (connected_peers s) (max_peers s) (peer_cap_rejections s).
Definition set_messages_dropped_ttl (v : Z) (s : NodeMetrics) : NodeMetrics :=
  mkMetrics (messages_forwarded s) v (messages_dropped_hops s) (messages_dropped_queue s)
    (messages_dropped_invalid_sig s) (messages_dropped_no_sig s) (messages_dropped_rate_limit s)
    (messages_dropped_replay s) (messages_dropped_oversize s) (messages_delivered_local s)
    (pending_queue_size s) (seen_cache_size s) (connected_peers s) (max_peers s) (peer_cap_rejections s).
Definition set_messages_dropped_hops (v : Z) (s : NodeMetrics) : NodeMetrics :=
  mkMetrics (messages_forwarded s) (messages_dropped_ttl s) v (messages_dropped_queue s)
    (messages_dropped_invalid_sig s) (messages_dropped_no_sig s) (messages_dropped_rate_limit s)
    (messages_dropped_replay s) (messages_dropped_oversize s) (messages_delivered_local s)
    (pending_queue_size s) (seen_cache_size s) (connected_peers s) (max_peers s) (peer_cap_rejections s).
Definition set_messages_dropped_queue (v : Z) (s : NodeMetrics) : NodeMetrics :=
  mkMetrics (messages_forwarded s) (messages_dropped_ttl s) (messages_dropped_hops s) v
    (messages_dropped_invalid_sig s) (messages_dropped_no_sig s) (messages_dropped_rate_limit s)
    (messages_dropped_replay s) (messages_dropped_oversize s) (messages_delivered_local s)
    (pending_queue_size s) (seen_cache_size s) (connected_peers s) (max_peers s) (peer_cap_rejections s).
Definition set_messages_dropped_invalid_sig (v : Z) (s : NodeMetrics) : NodeMetrics :=
  mkMetrics (messages_forwarded s) (messages_dropped_ttl s) (messages_dropped_hops s)
    (messages_dropped_queue s) v (messages_dropped_no_sig s) (messages_dropped_rate_limit s)
    (messages_dropped_replay s) (messages_dropped_oversize s) (messages_delivered_local s)
    (pending_queue_size s) (seen_cache_size s) (connected_peers s) (max_peers s) (peer_cap_rejections s).
Definition set_messages_dropped_no_sig (v : Z) (s : NodeMetrics) : NodeMetrics :=
  mkMetrics (messages_forwarded s) (messages_dropped_ttl s) (messages_dropped_hops s)
    (messages_dropped_queue s) (messages_dropped_invalid_sig s) v (messages_dropped_rate_limit s)
    (messages_dropped_replay s) (messages_dropped_oversize s) (messages_delivered_local s)
    (pending_queue_size s) (seen_cache_size s) (connected_peers s) (max_peers s) (peer_cap_rejections s).
Definition set_messages_dropped_rate_limit (v : Z) (s : NodeMetrics) : NodeMetrics :=
  mkMetrics (messages_forwarded s) (messages_dropped_ttl s) (messages_dropped_hops s)
    (messages_dropped_queue s) (messages_dropped_invalid_sig s) (messages_dropped_no_sig s) v
    (messages_dropped_replay s) (messages_dropped_oversize s) (messages_delivered_local s)
    (pending_queue_size s) (seen_cache_size s) (connected_peers s) (max_peers s) (peer_cap_rejections s).
Definition set_messages_dropped_replay (v : Z) (s : NodeMetrics) : NodeMetrics :=
  mkMetrics (messages_forwarded s) (messages_dropped_ttl s) (messages_dropped_hops s)
    (messages_dropped_queue s) (messages_dropped_invalid_sig s) (messages_dropped_no_sig s)
    (messages_dropped_rate_limit s) v (messages_dropped_oversize s) (messages_delivered_local s)
    (pending_queue_size s) (seen_cache_size s) (connected_peers s) (max_peers s) (peer_cap_rejections s).
Definition set_messages_dropped_oversize (v : Z) (s : NodeMetrics) : NodeMetrics :=
  mkMetrics (messages_forwarded s) (messages_dropped_ttl s) (messages_dropped_hops s)
    (messages_dropped_queue s) (messages_dropped_invalid_sig s) (messages_dropped_no_sig s)
    (messages_dropped_rate_limit s) (messages_dropped_replay s) v (messages_delivered_local s)
    (pending_queue_size s) (seen_cache_size s) (connected_peers s) (max_peers s) (peer_cap_rejections s).
Definition set_messages_delivered_local (v : Z) (s : NodeMetrics) : NodeMetrics :=
  mkMetrics (messages_forwarded s) (messages_dropped_ttl s) (messages_dropped_hops s)
    (messages_dropped_queue s) (messages_dropped_invalid_sig s) (messages_dropped_no_sig s)
    (messages_dropped_rate_limit s) (messages_dropped_replay s) (messages_dropped_oversize s) v
    (pending_queue_size s) (seen_cache_size s) (connected_peers s) (max_peers s) (peer_cap_rejections s).
Definition set_pending_queue_size (v : nat) (s : NodeMetrics) : NodeMetrics :=
  mkMetrics (messages_forwarded s) (messages_dropped_ttl s) (messages_dropped_hops s)
    (messages_dropped_queue s) (messages_dropped_invalid_sig s) (messages_dropped_no_sig s)
    (messages_dropped_rate_limit s) (messages_dropped_replay s) (messages_dropped_oversize s)
    (messages_delivered_local s) v (seen_cache_size s) (connected_peers s) (max_peers s)
    (peer_cap_rejections s).
Definition set_seen_cache_size (v : nat) (s : NodeMetrics) : NodeMetrics :=
  mkMetrics (messages_forwarded s) (messages_dropped_ttl s) (messages_dropped_hops s)
    (messages_dropped_queue s) (messages_dropped_invalid_sig s) (messages_dropped_no_sig s)
    (messages_dropped_rate_limit s) (messages_dropped_replay s) (messages_dropped_oversize s)
    (messages_delivered_local s) (pending_queue_size s) v (connected_peers s) (max_peers s)
    (peer_cap_rejections s).
Definition set_connected_peers (v : nat) (s : NodeMetrics) : NodeMetrics :=
  mkMetrics (messages_forwarded s) (messages_dropped_ttl s) (messages_dropped_hops s)
    (messages_dropped_queue s) (messages_dropped_invalid_sig s) (messages_dropped_no_sig s)
    (messages_dropped_rate_limit s) (messages_dropped_replay s) (messages_dropped_oversize s)
    (messages_delivered_local s) (pending_queue_size s) (seen_cache_size s) v (max_peers s)
    (peer_cap_rejections s).
Definition set_max_peers (v : Z) (s : NodeMetrics) : NodeMetrics :=
  mkMetrics (messages_forwarded s) (messages_dropped_ttl s) (messages_dropped_hops s)
    (messages_dropped_queue s) (messages_dropped_invalid_sig s) (messages_dropped_no_sig s)
    (messages_dropped_rate_limit s) (messages_dropped_replay s) (messages_dropped_oversize s)
    (messages_delivered_local s) (pending_queue_size s) (seen_cache_size s) (connected_peers s) v
    (peer_cap_rejections s).
Definition set_peer_cap_rejections (v : Z) (s : NodeMetrics) : NodeMetrics :=
  mkMetrics (messages_forwarded s) (messages_dropped_ttl s) (messages_dropped_hops s)
    (messages_dropped_queue s) (messages_dropped_invalid_sig s) (messages_dropped_no_sig s)
    (messages_dropped_rate_limit s) (messages_dropped_replay s) (messages_dropped_oversize s)
    (messages_delivered_local s) (pending_queue_size s) (seen_cache_size s) (connected_peers s) (max_peers
    s) v.

(** [PeerReputationSnapshot] *)
Record Reputation := mkRep { strikes : Z; last_strike_ms : Z; throttled_until_ms : Z }.
Definition rep_default : Reputation := mkRep 0 0 0.

Record PendingMessage := mkPending { pm_to : string; pm_message : DirectMessage }.

Definition priority_rank (p : Priority) : Z :=
  match p with Low => 0 | Normal => 1 | High => 2 end.

Section node_state.
Context `{C : Crypto} `{T : MeshTransport} `{M : MessageStore}.

Record RelayIdentity := mkRelay { rel_keypair : Keypair; rel_created_at : Z }.

Definition relay_peer_id (r : RelayIdentity) : string := peer_string (pk_peer_id (kp_public (rel_keypair r))).

(** The fields set once. *)
Record NodeConf := mkConf {
  keypair : option Keypair;
  local_peer_id : string;
  pending_cap : nat;
  enc_keypair : EncryptionKeypair;
  display_name : option string;
  max_relay_fanout : nat;
}.

Record NodeRunner := mkNode {
  net : Net;
  store : Store;
  seen_cache : BasicSeenCache;
  node_state : NodeState;
  pending : list PendingMessage;
  metrics : NodeMetrics;
  incoming : list DirectMessage;
  peers : list string;
  subscribed_scopes : gset string;
  peer_scopes : gmap string (gset string);
  peer_reputations : gmap string Reputation;
  peer_x25519 : gmap string (list byte);
  listen_addrs : list string;
  rendezvous_enabled : bool;
  data_dir : DataDir;
  relay_identity : RelayIdentity;
  bulletin_subscriptions : list string;
  ingest_guard : IngestGuard;
  ticks : nat;
}.

Definition set_net (v : Net) (s : NodeRunner) : NodeRunner :=
  mkNode v (store s) (seen_cache s) (node_state s) (pending s) (metrics s) (incoming s) (peers s)
    (subscribed_scopes s) (peer_scopes s) (peer_reputations s) (peer_x25519 s) (listen_addrs s)
    (rendezvous_enabled s) (data_dir s) (relay_identity s) (bulletin_subscriptions s) (ingest_guard s)
    (ticks s).
Definition set_store (v : Store) (s : NodeRunner) : NodeRunner :=
  mkNode (net s) v (seen_cache s) (node_state s) (pending s) (metrics s) (incoming s) (peers s)
    (subscribed_scopes s) (peer_scopes s) (peer_reputations s) (peer_x25519 s) (listen_addrs s)
    (rendezvous_enabled s) (data_dir s) (relay_identity s) (bulletin_subscriptions s) (ingest_guard s)
    (ticks s).
Definition set_seen_cache (v : BasicSeenCache) (s : NodeRunner) : NodeRunner :=
  mkNode (net s) (store s) v (node_state s) (pending s) (metrics s) (incoming s) (peers s)
    (subscribed_scopes s) (peer_scopes s) (peer_reputations s) (peer_x25519 s) (listen_addrs s)
    (rendezvous_enabled s) (data_dir s) (relay_identity s) (bulletin_subscriptions s) (ingest_guard s)
    (ticks s).
Definition set_node_state (v : NodeState) (s : NodeRunner) : NodeRunner :=
  mkNode (net s) (store s) (seen_cache s) v (pending s) (metrics s) (incoming s) (peers s)
    (subscribed_scopes s) (peer_scopes s) (peer_reputations s) (peer_x25519 s) (listen_addrs s)
    (rendezvous_enabled s) (data_dir s) (relay_identity s) (bulletin_subscriptions s) (ingest_guard s)
    (ticks s).
Definition set_pending (v : list PendingMessage) (s : NodeRunner) : NodeRunner :=
  mkNode (net s) (store s) (seen_cache s) (node_state s) v (metrics s) (incoming s) (peers s)
    (subscribed_scopes s) (peer_scopes s) (peer_reputations s) (peer_x25519 s) (listen_addrs s)
    (rendezvous_enabled s) (data_dir s) (relay_identity s) (bulletin_subscriptions s) (ingest_guard s)
    (ticks s).
Definition set_metrics (v : NodeMetrics) (s : NodeRunner) : NodeRunner :=
  mkNode (net s) (store s) (seen_cache s) (node_state s) (pending s) v (incoming s) (peers s)
    (subscribed_scopes s) (peer_scopes s) (peer_reputations s) (peer_x25519 s) (listen_addrs s)
    (rendezvous_enabled s) (data_dir s) (relay_identity s) (bulletin_subscriptions s) (ingest_guard s)
    (ticks s).
Definition set_incoming (v : list DirectMessage) (s : NodeRunner) : NodeRunner :=
  mkNode (net s) (store s) (seen_cache s) (node_state s) (pending s) (metrics s) v (peers s)
    (subscribed_scopes s) (peer_scopes s) (peer_reputations s) (peer_x25519 s) (listen_addrs s)
    (rendezvous_enabled s) (data_dir s) (relay_identity s) (bulletin_subscriptions s) (ingest_guard s)
    (ticks s).
Definition set_peers (v : list string) (s : NodeRunner) : NodeRunner :=
  mkNode (net s) (store s) (seen_cache s) (node_state s) (pending s) (metrics s) (incoming s) v
    (subscribed_scopes s) (peer_scopes s) (peer_reputations s) (peer_x25519 s) (listen_addrs s)
    (rendezvous_enabled s) (data_dir s) (relay_identity s) (bulletin_subscriptions s) (ingest_guard s)
    (ticks s).
Definition set_subscribed_scopes (v : gset string) (s : NodeRunner) : NodeRunner :=
  mkNode (net s) (store s) (seen_cache s) (node_state s) (pending s) (metrics s) (incoming s) (peers s) v
    (peer_scopes s) (peer_reputations s) (peer_x25519 s) (listen_addrs s) (rendezvous_enabled s) (data_dir
    s) (relay_identity s) (bulletin_subscriptions s) (ingest_guard s) (ticks s).
Definition set_peer_scopes (v : gmap string (gset string)) (s : NodeRunner) : NodeRunner :=
  mkNode (net s) (store s) (seen_cache s) (node_state s) (pending s) (metrics s) (incoming s) (peers s)
    (subscribed_scopes s) v (peer_reputations s) (peer_x25519 s) (listen_addrs s) (rendezvous_enabled s)
    (data_dir s) (relay_identity s) (bulletin_subscriptions s) (ingest_guard s) (ticks s).
Definition set_peer_reputations (v : gmap string Reputation) (s : NodeRunner) : NodeRunner :=
  mkNode (net s) (store s) (seen_cache s) (node_state s) (pending s) (metrics s) (incoming s) (peers s)
    (subscribed_scopes s) (peer_scopes s) v (peer_x25519 s) (listen_addrs s) (rendezvous_enabled s)
    (data_dir s) (relay_identity s) (bulletin_subscriptions s) (ingest_guard s) (ticks s).
Definition set_peer_x25519 (v : gmap string (list byte)) (s : NodeRunner) : NodeRunner :=
  mkNode (net s) (store s) (seen_cache s) (node_state s) (pending s) (metrics s) (incoming s) (peers s)
    (subscribed_scopes s) (peer_scopes s) (peer_reputations s) v (listen_addrs s) (rendezvous_enabled s)
    (data_dir s) (relay_identity s) (bulletin_subscriptions s) (ingest_guard s) (ticks s).
Definition set_listen_addrs (v : list string) (s : NodeRunner) : NodeRunner :=
  mkNode (net s) (store s) (seen_cache s) (node_state s) (pending s) (metrics s) (incoming s) (peers s)
    (subscribed_scopes s) (peer_scopes s) (peer_reputations s) (peer_x25519 s) v (rendezvous_enabled s)
    (data_dir s) (relay_identity s) (bulletin_subscriptions s) (ingest_guard s) (ticks s).
Definition set_rendezvous_enabled (v : bool) (s : NodeRunner) : NodeRunner :=
  mkNode (net s) (store s) (seen_cache s) (node_state s) (pending s) (metrics s) (incoming s) (peers s)
    (subscribed_scopes s) (peer_scopes s) (peer_reputations s) (peer_x25519 s) (listen_addrs s) v (data_dir
    s) (relay_identity s) (bulletin_subscriptions s) (ingest_guard s) (ticks s).
Definition set_data_dir (v : DataDir) (s : NodeRunner) : NodeRunner :=
  mkNode (net s) (store s) (seen_cache s) (node_state s) (pending s) (metrics s) (incoming s) (peers s)
    (subscribed_scopes s) (peer_scopes s) (peer_reputations s) (peer_x25519 s) (listen_addrs s)
    (rendezvous_enabled s) v (relay_identity s) (bulletin_subscriptions s) (ingest_guard s) (ticks s).
Definition set_relay_identity (v : RelayIdentity) (s : NodeRunner) : NodeRunner :=
  mkNode (net s) (store s) (seen_cache s) (node_state s) (pending s) (metrics s) (incoming s) (peers s)
    (subscribed_scopes s) (peer_scopes s) (peer_reputations s) (peer_x25519 s) (listen_addrs s)
    (rendezvous_enabled s) (data_dir s) v (bulletin_subscriptions s) (ingest_guard s) (ticks s).
Definition set_bulletin_subscriptions (v : list string) (s : NodeRunner) : NodeRunner :=
  mkNode (net s) (store s) (seen_cache s) (node_state s) (pending s) (metrics s) (incoming s) (peers s)
    (subscribed_scopes s) (peer_scopes s) (peer_reputations s) (peer_x25519 s) (listen_addrs s)
    (rendezvous_enabled s) (data_dir s) (relay_identity s) v (ingest_guard s) (ticks s).
Definition set_ingest_guard (v : IngestGuard) (s : NodeRunner) : NodeRunner :=
  mkNode (net s) (store s) (seen_cache s) (node_state s) (pending s) (metrics s) (incoming s) (peers s)
    (subscribed_scopes s) (peer_scopes s) (peer_reputations s) (peer_x25519 s) (listen_addrs s)
    (rendezvous_enabled s) (data_dir s) (relay_identity s) (bulletin_subscriptions s) v (ticks s).
Definition set_ticks (v : nat) (s : NodeRunner) : NodeRunner :=
  mkNode (net s) (store s) (seen_cache s) (node_state s) (pending s) (metrics s) (incoming s) (peers s)
    (subscribed_scopes s) (peer_scopes s) (peer_reputations s) (peer_x25519 s) (listen_addrs s)
    (rendezvous_enabled s) (data_dir s) (relay_identity s) (bulletin_subscriptions s) (ingest_guard s) v.
End node_state.
