(* ===== verification/Node.v ===== *)
(** * The node: operations

    The handlers of [mycelium-node/src/node.rs] on the state of [NodeData.v], in
    the state-and-error monad [ST]; an error of a handler ends the run loop of
    the code.  Every reading of the clock draws the next value of the host's
    clock; metrics that the code updates in a spawned task are updated at once.
    Iteration over a hash map or set is in the order of the finite map. *)

From S2P Require Import Prelude External Text Bootstrap Wire E2E Bloom IngestGuard Security Storage Forwarding NodeData.

Open Scope Z_scope.

Section node.
Context `{C : Crypto} `{T : MeshTransport} `{M : MessageStore} `{H : !NodeHost} `{HI : IdHash}.
Context `{P : E2EPrims} `{F : FileSys} `{BW : Bincode WireMessage}.
Variable cfg : NodeConf.

Abbreviation node_op A := (ST NodeRunner A).

Definition now_ms : node_op Z := fun s => (set_ticks (S (ticks s)) s, Ok (node_clock (ticks s))).

Definition on_net {A} (f : Net -> Net * anyhow A) : node_op A := fun s =>
  let '(n, r) := f (net s) in (set_net n s, r).

(** a primitive state transition *)
Definition prim {A} (f : NodeRunner -> NodeRunner * anyhow A) : node_op A := f.

(** [if let Err(e) = .. { warn!(..) }] *)
Definition warn_err {A} (m : node_op A) : node_op unit := fun s => ((m s).1, Ok tt).

Definition known : node_op (list string) := fun s => (s, Ok (net_known_peers (net s))).

Definition send_direct (to : string) (m : WireMessage) : node_op unit := on_net (net_send_direct to m).

Definition deliver (m : DirectMessage) : node_op unit := st_modify (fun s => set_incoming (incoming s ++ [m]) s).

Definition on_metrics (f : NodeMetrics -> NodeMetrics) : node_op unit :=
  st_modify (fun s => set_metrics (f (metrics s)) s).

(** [metrics.x += 1] *)
Definition bump (get : NodeMetrics -> Z) (set : Z -> NodeMetrics -> NodeMetrics) : node_op unit :=
  on_metrics (fun m => set (get m +64 1) m).

(** [self.ingest.ingest(&mut self.seen_cache, &msg, verify)] *)
Definition node_ingest (m : DirectMessage) (verify : bool) : node_op bool :=
  t1 ← now_ms; t2 ← now_ms; t3 ← now_ms;
  prim (fun s => let '((seen, store), r) := ingest t1 t2 t3 m verify (seen_cache s, store s) in
                 (set_seen_cache seen (set_store store s), r)).

Definition on_guard {A} (f : IngestGuard -> IngestGuard * A) : node_op A := fun s =>
  let '(g, r) := f (ingest_guard s) in (set_ingest_guard g s, Ok r).

(** ** Reputation *)

Definition is_throttled (peer : string) : node_op bool :=
  now ← now_ms;
  s ← st_get;
  match peer_reputations s !! peer with
  | None => mret false
  | Some rep =>
      let rep := if decide (10 * 60 * 1000 < now -sat last_strike_ms rep)
                 then mkRep 0 (last_strike_ms rep) (throttled_until_ms rep) else rep in
      _ ← st_modify (set_peer_reputations (<[peer := rep]> (peer_reputations s)));
      mret (bool_decide (now < throttled_until_ms rep))
  end.

Definition register_strike (peer : string) : node_op unit :=
  now ← now_ms;
  st_modify (fun s =>
    let rep := default rep_default (peer_reputations s !! peer) in
    let n := if decide (60 * 1000 < now -sat last_strike_ms rep) then 0 else strikes rep in
    let n := sat_add 8 n 1 in
    let until := if decide (3 <= n) then now +64 5 * 60 * 1000 else throttled_until_ms rep in
    set_peer_reputations (<[peer := mkRep n now until]> (peer_reputations s)) s).

Definition reward_peer (peer : string) : node_op unit :=
  st_modify (fun s =>
    match peer_reputations s !! peer with
    | Some rep => set_peer_reputations
                    (<[peer := mkRep (strikes rep / 2) (last_strike_ms rep) (throttled_until_ms rep)]>
                       (peer_reputations s)) s
    | None => s
    end).

Definition record_ingest_reject (r : IngestReject) : node_op unit :=
  match r with
  | RateLimit => bump messages_dropped_rate_limit set_messages_dropped_rate_limit
  | Replay | Stale => bump messages_dropped_replay set_messages_dropped_replay
  | Oversize => bump messages_dropped_oversize set_messages_dropped_oversize
  end.

(** ** The pending queue *)

Definition evict_expired : node_op unit :=
  now ← now_ms;
  st_modify (fun s => set_pending (filter (fun i => is_expired (pm_message i) now = false) (pending s)) s).

(** the scan for the first item of lowest rank, with its [break] *)
Fixpoint evict_scan (idx : nat) (l : list PendingMessage) (best : option nat) (best_rank : Z) : option nat :=
  match l with
  | [] => best
  | i :: l =>
      let rank := priority_rank (priority (dm_envelope (pm_message i))) in
      if decide (rank < best_rank) then
        if decide (rank = 0) then Some idx else evict_scan (S idx) l (Some idx) rank
      else evict_scan (S idx) l best best_rank
  end.

Definition remove_at {A} (i : nat) (l : list A) : list A := take i l ++ drop (S i) l.

Definition evict_one : node_op unit :=
  _ ← evict_expired;
  st_modify (fun s =>
    if decide (length (pending s) < pending_cap cfg)%nat then s else
    match evict_scan 0 (pending s) None 3 with
    | Some idx => set_pending (remove_at idx (pending s)) s
    | None => set_pending (tail (pending s)) s
    end).

Definition enqueue (to : string) (m : DirectMessage) : node_op unit :=
  now ← now_ms;
  if is_expired m now then mret tt else
  s ← st_get;
  _ ← (if decide (pending_cap cfg <= length (pending s))%nat then evict_one else mret tt);
  s ← st_get;
  if decide (pending_cap cfg <= length (pending s))%nat then
    _ ← bump messages_dropped_queue set_messages_dropped_queue;
    st_err "pending queue is full"
  else
    _ ← st_modify (fun s => set_pending (pending s ++ [mkPending to m]) s);
    st_modify (fun s => set_metrics (set_pending_queue_size (length (pending s))
                          (set_seen_cache_size (seen_len (seen_cache s)) (metrics s))) s).

Fixpoint enqueue_all (l : list (string * DirectMessage)) : node_op unit :=
  match l with
  | [] => mret tt
  | (to, m) :: l => _ ← enqueue to m; enqueue_all l
  end.

(** ** Relay identity *)

Definition maybe_rotate : node_op unit := fun s =>
  let now := node_instant (ticks s) in
  let r := relay_identity s in
  if decide (RELAY_KEY_ROTATION_SECS < now - rel_created_at r)
  then (set_ticks (S (ticks s)) (set_relay_identity (mkRelay (gen_keypair (ticks s)) now) s), Ok tt)
  else (set_ticks (S (ticks s)) s, Ok tt).

Definition apply_relay_forward_mask (r : RelayIdentity) (m : DirectMessage) : DirectMessage :=
  let e := dm_envelope m in
  let author := match author_peer e with Some a => Some a | None => Some (from_peer e) end in
  mkDM (mkEnvelope (e_id e) (relay_peer_id r) (to_peer e) (payload e) (created_at_ms e) (ttl_secs e)
          (priority e) (signature e) (sig_version e) (hop_count e) (max_hops e) author) (dm_body m).

(** [forwarded.envelope.hop_count = hop_count.saturating_add(1)] *)
Definition add_hop (m : DirectMessage) : DirectMessage :=
  let e := dm_envelope m in
  mkDM (mkEnvelope (e_id e) (from_peer e) (to_peer e) (payload e) (created_at_ms e) (ttl_secs e)
          (priority e) (signature e) (sig_version e) (sat_add 8 (hop_count e) 1) (max_hops e) (author_peer e))
    (dm_body m).

Definition forwarded (r : RelayIdentity) (m : DirectMessage) : DirectMessage :=
  apply_relay_forward_mask r (add_hop m).

(** ** Sending *)

Definition sign_local (e : Envelope) : Envelope :=
  match keypair cfg with Some kp => (env_sign kp e).1 | None => e end.

Definition send_direct_internal (to body : string) (p : list byte) : node_op unit :=
  now ← now_ms;
  let msg := mkDM (sign_local (envelope_new (local_peer_id cfg) (Some to) p now)) body in
  _ ← node_ingest msg false;
  ps ← known;
  if decide (to ∈ ps) then enqueue to msg
  else if decide (ps = []) then mret tt
  else
    s ← st_get;
    let candidates := select_relay_candidates ps to (strikes <$> peer_reputations s) (max_relay_fanout cfg) in
    enqueue_all ((fun p => (p, msg)) <$> candidates).

Definition targets_for_scope (scope : string) (s : NodeRunner) : list string :=
  omap (fun ps => if existsb (fun pattern => scope_matches scope pattern) (elements ps.2)
                  then Some ps.1 else None) (map_to_list (peer_scopes s)).

Fixpoint broadcast_to (targets : list string) (body : string) (p : list byte) : node_op unit :=
  match targets with
  | [] => mret tt
  | to :: targets =>
      now ← now_ms;
      let msg := mkDM (sign_local (envelope_new (local_peer_id cfg) None p now)) body in
      _ ← node_ingest msg false;
      _ ← enqueue to msg;
      broadcast_to targets body p
  end.

Definition broadcast_scoped (scope body : string) (p : list byte) : node_op unit :=
  s ← st_get;
  let targets := targets_for_scope scope s in
  if decide (targets = []) then on_net (net_publish_scoped scope p)
  else broadcast_to targets body p.

(** [own_bloom.insert(id)] for every id; [None] is a panic *)
Fixpoint bloom_of (ids : list string) (b : BloomFilter) : option BloomFilter :=
  match ids with
  | [] => Some b
  | id :: ids => b ← bloom_insert id b; bloom_of ids b
  end.

Definition SYNC_WINDOW_MS : Z := 600 * 1000.

Definition own_ids : node_op (list string) :=
  now ← now_ms;
  s ← st_get;
  st_lift (ms_list_ids_window now SYNC_WINDOW_MS (store s)).

Definition send_bloom (peer : string) (ids : list string) : node_op unit :=
  match bloom_of ids bloom_new with
  | None => st_err "panic"
  | Some b => send_direct peer (SyncBloom (bloom_to_bytes b) (Z.of_nat (length ids)))
  end.

Definition send_sync_bloom (peer : string) : node_op unit :=
  ids ← own_ids;
  if decide (ids = []) then mret tt else send_bloom peer ids.

Definition send_scope_announce (peer : string) : node_op unit :=
  s ← st_get;
  send_direct peer (ScopeAnnounce (elements (subscribed_scopes s))).

Definition send_peer_info (peer : string) : node_op unit :=
  s ← st_get;
  send_direct peer (PeerInfo (public_hex (enc_keypair cfg)) (display_name cfg) (elements (subscribed_scopes s))).

Fixpoint sync_peers (l : list string) : node_op unit :=
  match l with [] => mret tt | p :: l => _ ← send_sync_bloom p; sync_peers l end.

Definition sync_known_peers : node_op unit := ps ← known; sync_peers ps.

Fixpoint send_each (l : list string) (m : WireMessage) : node_op unit :=
  match l with [] => mret tt | p :: l => _ ← warn_err (send_direct p m); send_each l m end.

Definition forward_wire_to_others (from : string) (m : WireMessage) : node_op unit :=
  ps ← known;
  send_each (filter (fun p => p ≠ from) ps) m.

(** ** Commands *)

Definition star : Ascii.ascii := Ascii.ascii_of_nat 42.

Definition gc_store : node_op nat :=
  now ← now_ms;
  prim (fun s => let '(st, r) := ms_gc_expired now (store s) in (set_store st s, r)).

Definition handle_command (cmd : NodeCommand) : node_op unit :=
  match cmd with
  | SendDirect to body => send_direct_internal to body (as_bytes body)
  | SendDirectPayload to body p => send_direct_internal to body p
  | Broadcast scope body => broadcast_scoped scope body (as_bytes body)
  | BroadcastPayload scope body p => broadcast_scoped scope body p
  | SendWire to m =>
      m ← st_lift (match m, keypair cfg with
                   | EncryptedDirect _, Some kp => sign_encrypted_direct kp m
                   | _, _ => Ok m
                   end);
      send_direct to m
  | ListPeers => ps ← known; st_modify (set_peers ps)
  | AddBootstrapPeer multiaddr =>
      _ ← st_modify (fun s => set_data_dir (persist_dial_peer multiaddr (data_dir s)).1 s);
      on_net (net_remember_and_dial multiaddr)
  | SubscribeScope scope =>
      _ ← st_modify (fun s => set_subscribed_scopes ({[scope]} ∪ subscribed_scopes s) s);
      if has_char star scope then mret tt else warn_err (on_net (net_subscribe_scope scope))
  | UnsubscribeScope scope =>
      _ ← st_modify (fun s => set_subscribed_scopes (subscribed_scopes s ∖ {[scope]}) s);
      if has_char star scope then mret tt else warn_err (on_net (net_unsubscribe_scope scope))
  | SubscribeBulletinScope scope =>
      let scope := trim scope in
      if decide (scope = ""%string) then mret tt else
      _ ← st_modify (fun s => if decide (scope ∈ bulletin_subscriptions s) then s
                              else set_bulletin_subscriptions (bulletin_subscriptions s ++ [scope]) s);
      _ ← st_modify (fun s => set_subscribed_scopes ({[scope]} ∪ subscribed_scopes s) s);
      if has_char star scope then mret tt else warn_err (on_net (net_subscribe_scope scope))
  | UnsubscribeBulletinScope scope =>
      _ ← st_modify (fun s => set_bulletin_subscriptions
                                (filter (fun x => x ≠ scope) (bulletin_subscriptions s)) s);
      _ ← st_modify (fun s => set_subscribed_scopes (subscribed_scopes s ∖ {[scope]}) s);
      if has_char star scope then mret tt else warn_err (on_net (net_unsubscribe_scope scope))
  | GcNow => _ ← gc_store; mret tt
  | GetStoreStats => s ← st_get; _ ← st_lift (ms_stats (store s)); mret tt
  | SetEnergyState st => st_modify (set_node_state st)
  | SetRendezvousEnabled b => st_modify (set_rendezvous_enabled b)
  end.

(** ** Gossip *)

(** Wrap a gossip payload in an unsigned envelope, check it, store it and hand
    it to the application. *)
Definition gossip_store (now : Z) (from : string) (p : list byte) (body : string) : node_op unit :=
  created ← now_ms;
  let e := envelope_new_unsigned from None p created in
  r ← on_guard (check_gossip_message from (e_id e) (created_at_ms e) now);
  match r with
  | Err reason => record_ingest_reject reason
  | Ok _ =>
      let stored := mkDM e body in
      fresh ← node_ingest stored false;
      if (fresh : bool) then deliver stored else mret tt
  end.

Definition is_group_frame (p : list byte) : bool :=
  match de p with Ok (EncryptedGroup _ _) => true | _ => false end.

Definition handle_scoped (from scope : string) (p : list byte) : node_op unit :=
  s ← st_get;
  if negb (existsb (fun pattern => scope_matches scope pattern) (elements (subscribed_scopes s)))
  then mret tt else
  now ← now_ms;
  r ← on_guard (check_gossip_payload from (length p) now);
  match r with
  | Err reason => record_ingest_reject reason
  | Ok _ =>
      if starts_with "mycelium/group/" scope && is_group_frame p then gossip_store now from p "[mycelium:group]"
      else if decide (scope = "mycelium/appstore/v1"%string) then gossip_store now from p "[appstore]"
      else if decide (scope = "mycelium/proximity/v1"%string) then gossip_store now from p "[proximity]"
      else if bool_decide (take 5 p = as_bytes "enc1:") || negb (utf8_valid p)
      then gossip_store now from p ("[bulletin:" +:+ scope +:+ "]")%string
      else match from_utf8 p with
           | Some body => gossip_store now from p body
           | None => mret tt
           end
  end.

(** ** Direct frames *)

Definition drop_no_sig : node_op unit := bump messages_dropped_no_sig set_messages_dropped_no_sig.
Definition drop_invalid_sig : node_op unit := bump messages_dropped_invalid_sig set_messages_dropped_invalid_sig.
Definition drop_hops : node_op unit := bump messages_dropped_hops set_messages_dropped_hops.

(** What follows an accepted [Data] message: local delivery or forwarding. *)
Definition route_data (from : string) (m : DirectMessage) : node_op unit :=
  if is_for (local_peer_id cfg) m then bump messages_delivered_local set_messages_delivered_local else
  now ← now_ms;
  if is_expired m now then bump messages_dropped_ttl set_messages_dropped_ttl else
  s ← st_get;
  if negb (can_forward (node_state s) (priority (dm_envelope m))) then mret tt else
  ps ← known;
  let ps := filter (fun p => p ≠ from) ps in
  let decide_and_queue : node_op unit :=
    now ← now_ms;
    match forward_decide now m (local_peer_id cfg) ps (node_state s) with
    | ForwardTo targets => enqueue_all ((fun t => (t, forwarded (relay_identity s) m)) <$> targets)
    | _ => mret tt
    end in
  match to_peer (dm_envelope m) with
  | Some target =>
      if decide (target ∈ ps) then enqueue target (forwarded (relay_identity s) m)
      else _ ← on_net (fun n => (net_kad_find_peer target n, Ok tt)); decide_and_queue
  | None => decide_and_queue
  end.

Definition handle_data (from : string) (m : DirectMessage) : node_op unit :=
  match validate_data_message_signature m with
  | Err NoSignature => drop_no_sig
  | Err InvalidSignature => _ ← drop_invalid_sig; register_strike from
  | Err UnparseableAuthor => drop_no_sig
  | Ok _ =>
      if decide (max_hops (dm_envelope m) <= hop_count (dm_envelope m)) then drop_hops else
      now ← now_ms;
      r ← on_guard (allow_direct (signature_author_peer (dm_envelope m)) m now);
      match r with
      | Err reason =>
          _ ← record_ingest_reject reason;
          match reason with RateLimit | Replay => register_strike from | _ => mret tt end
      | Ok _ =>
          fresh ← node_ingest m false;
          if negb fresh then register_strike from else
          _ ← reward_peer from;
          _ ← deliver m;
          route_data from m
      end
  end.

Fixpoint not_in_bloom (b : BloomFilter) (ids : list string) : option (list string) :=
  match ids with
  | [] => Some []
  | id :: ids => c ← bloom_contains id b; rest ← not_in_bloom b ids;
                 Some (if (c : bool) then rest else id :: rest)
  end.

(** [own_ids.len() as f64 > count as f64 * 0.8] as an exact comparison *)
Definition handle_sync_bloom (from : string) (bloom : list byte) (count : Z) : node_op unit :=
  match bloom_from_bytes bloom with
  | None => mret tt
  | Some remote =>
      own ← own_ids;
      match not_in_bloom remote own with
      | None => st_err "panic"
      | Some missing =>
          let n := Z.of_nat (length own) in
          if decide (4 * count < 5 * n /\ missing ≠ []) then send_direct from (SyncIds (take 256 missing))
          else if decide (5 * n < 4 * count) then send_bloom from own
          else mret tt
      end
  end.

Fixpoint missing_ids (ids : list string) : node_op (list string) :=
  match ids with
  | [] => mret []
  | id :: ids =>
      s ← st_get;
      c ← st_lift (ms_contains id (store s));
      rest ← missing_ids ids;
      mret (if (c : bool) then rest else id :: rest)
  end.

Definition handle_sync_ids (from : string) (ids : list string) : node_op unit :=
  missing ← missing_ids (take 256 ids);
  if decide (missing = []) then mret tt else send_direct from (SyncRequest missing).

Fixpoint load_ids (ids : list string) : node_op (list DirectMessage) :=
  match ids with
  | [] => mret []
  | id :: ids =>
      s ← st_get;
      o ← st_lift (ms_load_by_id id (store s));
      rest ← load_ids ids;
      mret (match o with Some m => m :: rest | None => rest end)
  end.

Definition handle_sync_request (from : string) (ids : list string) : node_op unit :=
  messages ← load_ids (take 128 ids);
  match messages with [] => mret tt | _ => send_direct from (SyncData messages) end.

Fixpoint handle_sync_data (messages : list DirectMessage) : node_op unit :=
  match messages with
  | [] => mret tt
  | m :: messages => _ ← node_ingest m false; handle_sync_data messages
  end.

Definition nul : Ascii.ascii := Ascii.ascii_of_nat 0.

Definition valid_scopes (scopes : list string) : gset string :=
  list_to_set (take 32 (filter (fun s => s ≠ ""%string /\ (String.length s <= 128)%nat
                                         /\ has_char nul s = false) scopes)).

Definition handle_peer_info (from hex : string) (scopes : list string) : node_op unit :=
  _ ← match parse_x25519_public_hex hex with
      | Ok pk => st_modify (fun s => set_peer_x25519 (<[from := pk]> (peer_x25519 s)) s)
      | Err _ => mret tt
      end;
  let v := valid_scopes scopes in
  if decide (v = ∅) then mret tt
  else st_modify (fun s => set_peer_scopes (<[from := v]> (peer_scopes s)) s).

Definition handle_scope_announce (from : string) (scopes : list string) : node_op unit :=
  ps ← known;
  if negb (bool_decide (from ∈ ps)) then mret tt else
  let v := valid_scopes scopes in
  if decide (v = ∅) then mret tt
  else st_modify (fun s => set_peer_scopes (<[from := v]> (peer_scopes s)) s).

Definition handle_encrypted_direct (from : string) (f : EncryptedDirectFrame) : node_op unit :=
  if decide (ed_to_peer f = local_peer_id cfg) then
    plain ← st_lift (decrypt_with (encrypted_payload f) (enc_keypair cfg));
    let '(logical_from, app) := unwrap_inner plain from in
    _ ← match parse_x25519_public_hex (sender_enc_pubkey f) with
        | Ok pk => st_modify (fun s => set_peer_x25519 (<[logical_from := pk]> (peer_x25519 s)) s)
        | Err _ => mret tt
        end;
    now ← now_ms;
    _ ← deliver (mkDM (envelope_new logical_from (Some (local_peer_id cfg)) app now) "[encrypted]");
    bump messages_delivered_local set_messages_delivered_local
  else if decide (ed_hop_count f < ed_max_hops f) then
    s ← st_get;
    let fwd := EncryptedDirect (mkED (ed_to_peer f) (sender_enc_pubkey f) (encrypted_payload f)
                 (mesh_signature f) (sat_add 8 (ed_hop_count f) 1) (ed_max_hops f)) in
    let fwd := match sign_encrypted_direct (rel_keypair (relay_identity s)) fwd with
               | Ok m => m | Err _ => fwd end in
    forward_wire_to_others from fwd
  else drop_hops.

(** The mesh-signature gate in front of [EncryptedDirect] frames: [None] lets
    the frame through. *)
Definition encrypted_gate (from : string) (m : WireMessage) : option (node_op unit) :=
  match m with
  | EncryptedDirect f =>
      match mesh_signature f with
      | None => Some drop_no_sig
      | Some _ =>
          match peer_parse from with
          | None => Some (mret tt)
          | Some sender => if verify_encrypted_direct m sender then None else Some drop_invalid_sig
          end
      end
  | _ => None
  end.

Definition handle_incoming_direct (from : string) (m : WireMessage) : node_op unit :=
  throttled ← is_throttled from;
  if (throttled : bool) then mret tt else
  match encrypted_gate from m with
  | Some stop => stop
  | None =>
      match m with
      | Data m => handle_data from m
      | SyncBloom bloom count => handle_sync_bloom from bloom count
      | SyncIds ids => handle_sync_ids from ids
      | SyncRequest ids => handle_sync_request from ids
      | SyncData messages => handle_sync_data messages
      | PeerInfo hex _ scopes => handle_peer_info from hex scopes
      | EncryptedDirect f => handle_encrypted_direct from f
      | EncryptedGroup _ _ => forward_wire_to_others from m
      | ScopeAnnounce scopes => handle_scope_announce from scopes
      end
  end.

(** ** Transport events *)

Definition push_new (x : string) (l : list string) : list string := if decide (x ∈ l) then l else l ++ [x].

Definition handle_transport_event (ev : TransportEvent) : node_op unit :=
  match ev with
  | Listening address => st_modify (fun s => set_listen_addrs (push_new address (listen_addrs s)) s)
  | PeerUp peer =>
      if is_relay_peer peer then mret tt else
      _ ← st_modify (fun s => set_peers (push_new peer (peers s)) s);
      _ ← send_scope_announce peer;
      _ ← send_peer_info peer;
      send_sync_bloom peer
  | PeerDown peer =>
      st_modify (fun s =>
        set_peers (filter (fun p => p ≠ peer) (peers s))
          (set_peer_scopes (delete peer (peer_scopes s))
             (set_peer_x25519 (delete peer (peer_x25519 s)) s)))
  | DirectReceived from m => handle_incoming_direct from m
  | DirectAck _ _ => mret tt
  | SendFailure _ _ => mret tt
  | ConnectivityChanged _ => mret tt
  | ScopedReceived from scope p => handle_scoped from scope p
  end.

(** ** Ticks *)

Definition forward_budget (s : NodeState) : nat :=
  match s with Active => 10 | Intermittent => 4 | Passive => 1 end.

Fixpoint forward_loop (budget : nat) : node_op unit :=
  match budget with
  | O => mret tt
  | S budget =>
      s ← st_get;
      match pending s with
      | [] => mret tt
      | item :: rest =>
          _ ← st_modify (set_pending rest);
          now ← now_ms;
          _ ← (if is_expired (pm_message item) now then mret tt else
               if negb (can_forward (node_state s) (priority (dm_envelope (pm_message item)))) then mret tt else
               prim (fun s => match send_direct (pm_to item) (Data (pm_message item)) s with
                              | (s, Ok _) => bump messages_forwarded set_messages_forwarded s
                              | (s, Err _) => (s, Ok tt)
                              end));
          forward_loop budget
      end
  end.

Definition update_transport_metrics (n : Net) (m : NodeMetrics) : NodeMetrics :=
  set_peer_cap_rejections (net_cap_rejections n)
    (set_max_peers (net_max_direct_peers n) (set_connected_peers (net_connected_count n) m)).

Definition forward_once : node_op unit :=
  _ ← maybe_rotate;
  _ ← evict_expired;
  s ← st_get;
  _ ← forward_loop (forward_budget (node_state s));
  st_modify (fun s => set_metrics (update_transport_metrics (net s)
    (set_seen_cache_size (seen_len (seen_cache s))
      (set_pending_queue_size (length (pending s)) (metrics s)))) s).

Fixpoint dial_remotes (known_set : gset string) (l : list string) : node_op unit :=
  match l with
  | [] => mret tt
  | r :: l =>
      _ ← (if decide (r = local_peer_id cfg \/ r = RELAY_PEER_ID \/ r ∈ known_set) then mret tt else
           match relay_circuit_multiaddr r with
           | None => mret tt
           | Some addr => warn_err (on_net (net_remember_and_dial addr))
           end);
      dial_remotes known_set l
  end.

Definition dial_rendezvous_list (remote_ids : list string) : node_op unit :=
  s ← st_get;
  dial_remotes (list_to_set (peers s) ∪ list_to_set (net_known_peers (net s))) remote_ids.

(** ** The run loop *)

Inductive NodeInput :=
| InEvent (ev : TransportEvent)
| InCommand (cmd : NodeCommand)
| InRendezvous (ids : list string)
| InForwardTick
| InSyncTick
| InGcTick
| InDialTick.

(** one turn of [tokio::select!]; an error ends the loop *)
Definition node_step (i : NodeInput) : node_op unit :=
  match i with
  | InEvent ev => handle_transport_event ev
  | InCommand cmd => handle_command cmd
  | InRendezvous ids => dial_rendezvous_list ids
  | InForwardTick => forward_once
  | InSyncTick => sync_known_peers
  | InGcTick => _ ← gc_store; mret tt
  | InDialTick => on_net (fun n => (net_redial n, Ok tt))
  end.

Fixpoint subscribe_all (scopes : list string) : node_op unit :=
  match scopes with
  | [] => mret tt
  | x :: scopes => _ ← warn_err (on_net (net_subscribe_scope x)); subscribe_all scopes
  end.

Fixpoint subscribe_bulletins (scopes : list string) : node_op unit :=
  match scopes with
  | [] => mret tt
  | x :: scopes =>
      _ ← warn_err (on_net (net_subscribe_scope x));
      _ ← st_modify (fun s => set_subscribed_scopes ({[x]} ∪ subscribed_scopes s) s);
      subscribe_bulletins scopes
  end.

(** the start of [run] *)
Definition node_start : node_op unit :=
  _ ← subscribe_all SYSTEM_SCOPES;
  s ← st_get;
  _ ← subscribe_bulletins (bulletin_subscriptions s);
  on_net (fun n => (net_redial n, Ok tt)).

Fixpoint node_loop (inputs : list NodeInput) : node_op unit :=
  match inputs with
  | [] => mret tt
  | i :: inputs => _ ← node_step i; node_loop inputs
  end.

(** [NodeRunner::new_with_transport] *)
Definition node_new (n : Net) (st : Store) (d : DataDir) (bulletins : list string) (rendezvous : bool) : NodeRunner :=
  mkNode n st (seen_new (Z.to_nat 16384)) Active [] metrics_default [] []
    (list_to_set (SYSTEM_SCOPES ++ ["mycelium/group/*"%string])) ∅ ∅ ∅ [] rendezvous d
    (mkRelay (gen_keypair 0) (node_instant 0)) bulletins guard_new 1.
End node.
