(* ===== verification/NodeTheorems.v ===== *)
(** * Invariants of the node

    A relation between the states before and after a handler, closed under the
    monad's combinators; every handler of [Node.v] is shown to satisfy it,
    whether it returns or fails. *)

From S2P Require Import Prelude External Text Bootstrap Wire E2E Bloom IngestGuard Security Storage Forwarding NodeData Node.

Open Scope Z_scope.

Section node_inv.
Context `{C : Crypto} `{T : MeshTransport} `{M : MessageStore} `{ML : !MessageStoreLaws M}.
Context `{H : !NodeHost} `{HI : IdHash} `{P : E2EPrims} `{F : FileSys} `{BW : Bincode WireMessage}.
Variable cfg : NodeConf.

(** The pending queue is within its cap, the seen cache and the store are well
    formed, the rate limiters count correctly. *)
Definition node_inv (s : NodeRunner) : Prop :=
  (length (pending s) <= pending_cap cfg)%nat
  /\ basic_ok (seen_cache s) /\ store_ok (store s) /\ guard_inv (ingest_guard s).

(** [keep] says that the handler does not collect garbage: then no stored
    message is forgotten. *)
Definition rel (keep : bool) (s s' : NodeRunner) : Prop :=
  node_inv s -> node_inv s'
    /\ (keep = true -> dom (store_view (store s)) ⊆ dom (store_view (store s'))).

Global Instance rel_preorder keep : PreOrder (rel keep).
Proof.
  split.
  - intros s Hs. by split.
  - intros s1 s2 s3 H12 H23 Hs. destruct (H12 Hs) as [H2 K2]. destruct (H23 H2) as [H3 K3].
    split; [done|]. intros Hk. etrans; [by apply K2|by apply K3].
Qed.

Lemma rel_frame keep s s' :
  pending s' = pending s -> seen_cache s' = seen_cache s -> store s' = store s ->
  ingest_guard s' = ingest_guard s -> rel keep s s'.
Proof. intros H1 H2 H3 H4 Hs. unfold node_inv in *. rewrite H1, H2, H3, H4. by split. Qed.

Definition step_ok {A} (keep : bool) (m : ST NodeRunner A) : Prop := forall s, rel keep s (m s).1.

Lemma step_bind {A B} keep (m : ST NodeRunner A) (f : A -> ST NodeRunner B) :
  step_ok keep m -> (forall a, step_ok keep (f a)) -> step_ok keep (m ≫= f).
Proof.
  intros Hm Hf s. unfold mbind, ST_bind. specialize (Hm s).
  destruct (m s) as [s1 [a|e]]; [|done]. etrans; [exact Hm|apply Hf].
Qed.

Lemma step_ret {A} keep (a : A) : step_ok keep (mret a : ST NodeRunner A).
Proof. intros s. by apply rel_frame. Qed.

Lemma step_get keep : step_ok keep st_get.
Proof. intros s. by apply rel_frame. Qed.

Lemma step_lift {A} keep (r : anyhow A) : step_ok keep (st_lift r).
Proof. intros s. by apply rel_frame. Qed.

Lemma step_err {A} keep e : step_ok keep (st_err e : ST NodeRunner A).
Proof. intros s. by apply rel_frame. Qed.

Lemma step_modify keep f : (forall s, rel keep s (f s)) -> step_ok keep (st_modify f).
Proof. intros Hf s. apply Hf. Qed.

Lemma step_warn {A} keep (m : ST NodeRunner A) : step_ok keep m -> step_ok keep (warn_err m).
Proof. intros Hm s. apply Hm. Qed.

Lemma step_on_net {A} keep (f : Net -> Net * anyhow A) : step_ok keep (on_net f).
Proof. intros s. unfold on_net. destruct (f (net s)) as [n r]. by apply rel_frame. Qed.

Lemma step_now keep : step_ok keep now_ms.
Proof. intros s. by apply rel_frame. Qed.

Lemma step_known keep : step_ok keep known.
Proof. intros s. by apply rel_frame. Qed.

Lemma step_deliver keep m : step_ok keep (deliver m).
Proof. apply step_modify. intros s. by apply rel_frame. Qed.

Lemma step_bump keep g st : step_ok keep (bump g st).
Proof. apply step_modify. intros s. by apply rel_frame. Qed.

Lemma check_payload_inv from len now g : guard_inv g -> guard_inv (check_gossip_payload from len now g).1.
Proof.
  intros [H1 H2]. unfold check_gossip_payload. case_decide; [done|].
  assert (0 <= GOSSIP_RATE_PER_MINUTE < umax 32) as Hl by done.
  pose proof (rate_allow_inv _ RATE_WINDOW_MS Hl from now _ H2) as H3.
  destruct (rate_allow _ _ _) as [r ok]. done.
Qed.

Lemma check_message_inv from id created now g :
  guard_inv g -> guard_inv (check_gossip_message from id created now g).1.
Proof.
  intros Hg. unfold check_gossip_message. destruct (negb _); [done|].
  by destruct (is_duplicate _ _ _) as [w dup].
Qed.

Lemma step_on_guard {A} keep (f : IngestGuard -> IngestGuard * A) :
  (forall g, guard_inv g -> guard_inv (f g).1) -> step_ok keep (on_guard f).
Proof.
  intros Hf s Hs. unfold on_guard. destruct Hs as (H1 & H2 & H3 & H4). specialize (Hf _ H4).
  destruct (f (ingest_guard s)) as [g r]. split; [by split_and!|done].
Qed.

Lemma step_node_ingest keep m : step_ok keep (node_ingest m false).
Proof.
  unfold node_ingest. repeat (apply step_bind; [apply step_now|intros ?]).
  intros s Hs. pose proof Hs as (H1 & H2 & H3 & H4). unfold prim.
  pose proof (ingest_unverified (S := basic_seen_cache) a a0 a1 m (seen_cache s, store s) H3 H2) as Hi.
  destruct (_ && _).
  - destruct Hi as ([seen st] & E & Ho & Hc & _ & Hv). rewrite E. cbn [fst snd] in *.
    split; [by split_and!|]. intros _. cbn [fst set_seen_cache set_store store]. rewrite Hv, dom_insert_L.
    apply union_subseteq_r.
  - rewrite Hi. split; [by split_and!|]. done.
Qed.

Lemma filter_pending_le now (l : list PendingMessage) :
  (length (filter (fun i => is_expired (pm_message i) now = false) l) <= length l)%nat.
Proof. apply length_filter. Qed.

Lemma step_evict_expired keep : step_ok keep evict_expired.
Proof.
  apply step_bind; [apply step_now|]. intros now. apply step_modify. intros s (H1 & H2 & H3 & H4).
  split; [|done]. split_and!; [|done..]. cbn [set_pending pending].
  pose proof (filter_pending_le now (pending s)). lia.
Qed.

Lemma evict_scan_range idx l best r i :
  evict_scan idx l best r = Some i -> best = Some i \/ (idx <= i < idx + length l)%nat.
Proof.
  revert idx best r. induction l as [|x l IH]; intros idx best r; cbn [evict_scan length]; [by left|].
  case_decide; [case_decide|].
  - intros [= ->]. right. lia.
  - intros [[= ->]|?]%IH; right; lia.
  - intros [?|?]%IH; [by left|right; lia].
Qed.

Lemma remove_at_length {A} i (l : list A) : (i < length l)%nat -> (S (length (remove_at i l)) = length l)%nat.
Proof. intros Hi. unfold remove_at. rewrite length_app, length_take, length_drop. lia. Qed.

(** the queue after the expired items are gone *)
Definition unexpired (s : NodeRunner) : list PendingMessage :=
  filter (fun i => is_expired (pm_message i) (node_clock (ticks s)) = false) (pending s).

Lemma evict_expired_eq s :
  evict_expired s = (set_pending (unexpired s) (set_ticks (S (ticks s)) s), Ok tt).
Proof. done. Qed.

Lemma evict_one_eq s :
  evict_one cfg s =
  (let s1 := set_pending (unexpired s) (set_ticks (S (ticks s)) s) in
   if decide (length (unexpired s) < pending_cap cfg)%nat then s1 else
   match evict_scan 0 (unexpired s) None 3 with
   | Some idx => set_pending (remove_at idx (unexpired s)) s1
   | None => set_pending (tail (unexpired s)) s1
   end, Ok tt).
Proof. unfold evict_one. by rewrite (ST_bind_Ok _ _ _ _ _ (evict_expired_eq s)). Qed.

(** one item leaves a full queue *)
Lemma evict_one_spec s :
  (0 < pending_cap cfg)%nat -> (length (pending s) <= pending_cap cfg)%nat ->
  exists s', evict_one cfg s = (s', Ok tt) /\ (length (pending s') < pending_cap cfg)%nat
             /\ seen_cache s' = seen_cache s /\ store s' = store s /\ ingest_guard s' = ingest_guard s.
Proof.
  intros Hc Hl. rewrite evict_one_eq. cbv zeta.
  assert (length (unexpired s) <= pending_cap cfg)%nat as Hq
    by (pose proof (filter_pending_le (node_clock (ticks s)) (pending s)); unfold unexpired; lia).
  case_decide as Hd; [by eexists|].
  destruct (evict_scan 0 (unexpired s) None 3) as [i|] eqn:E.
  - apply evict_scan_range in E as [?|E]; [done|]. eexists. split_and!; [done| |done..].
    cbn [set_pending pending]. pose proof (remove_at_length i (unexpired s) ltac:(lia)). lia.
  - eexists. split_and!; [done| |done..]. cbn [set_pending pending].
    destruct (unexpired s); simpl in *; lia.
Qed.

(** [enqueue], with its reads resolved *)
Lemma enqueue_eq to m s :
  enqueue cfg to m s =
  (let s1 := set_ticks (S (ticks s)) s in
   if is_expired m (node_clock (ticks s)) then (s1, Ok tt) else
   let s2 := if decide (pending_cap cfg <= length (pending s))%nat then (evict_one cfg s1).1 else s1 in
   if decide (pending_cap cfg <= length (pending s2))%nat
   then ((bump messages_dropped_queue set_messages_dropped_queue s2).1, Err "pending queue is full"%string)
   else let s3 := set_pending (pending s2 ++ [mkPending to m]) s2 in
        (set_metrics (set_pending_queue_size (length (pending s3))
           (set_seen_cache_size (seen_len (seen_cache s3)) (metrics s3))) s3, Ok tt)).
Proof.
  unfold enqueue. rewrite (ST_bind_Ok now_ms _ s _ _ eq_refl). destruct (is_expired m _); [done|].
  rewrite (ST_bind_Ok st_get _ _ _ _ eq_refl).
  change (pending (set_ticks (S (ticks s)) s)) with (pending s).
  set (s1 := set_ticks (S (ticks s)) s).
  destruct (decide (pending_cap cfg <= length (pending s))%nat) as [Hd|Hd].
  - rewrite (ST_bind_Ok (evict_one cfg) _ s1 _ _ (evict_one_eq s1)).
    rewrite (ST_bind_Ok st_get _ _ _ _ eq_refl). rewrite evict_one_eq. cbn [fst].
    by destruct (decide (pending_cap cfg <= _)%nat).
  - rewrite (ST_bind_Ok (mret tt) _ s1 s1 tt eq_refl). rewrite (ST_bind_Ok st_get _ _ _ _ eq_refl).
    by destruct (decide (pending_cap cfg <= _)%nat).
Qed.

Lemma enqueue_total to m s :
  (0 < pending_cap cfg)%nat -> (length (pending s) <= pending_cap cfg)%nat ->
  exists s', enqueue cfg to m s = (s', Ok tt) /\ (length (pending s') <= pending_cap cfg)%nat
             /\ seen_cache s' = seen_cache s /\ store s' = store s /\ ingest_guard s' = ingest_guard s.
Proof.
  intros Hc Hl. rewrite enqueue_eq. cbv zeta. destruct (is_expired m _).
  { eexists. by split_and!. }
  set (s1 := set_ticks (S (ticks s)) s).
  set (s2 := if decide (pending_cap cfg <= length (pending s))%nat then _ else _).
  assert ((length (pending s2) < pending_cap cfg)%nat
          /\ seen_cache s2 = seen_cache s /\ store s2 = store s /\ ingest_guard s2 = ingest_guard s)
    as (L2 & K1 & K2 & K3).
  { unfold s2. case_decide; [|split_and!; try done; simpl in *; lia].
    destruct (evict_one_spec s1 Hc Hl) as (s' & -> & ?). done. }
  rewrite decide_False by lia. eexists. split_and!; [done| |done..].
  cbn [set_metrics set_pending pending]. rewrite length_app. simpl. lia.
Qed.

Hypothesis cap_pos : (0 < pending_cap cfg)%nat.

Lemma step_enqueue keep to m : step_ok keep (enqueue cfg to m).
Proof.
  intros s (H1 & H2 & H3 & H4).
  destruct (enqueue_total to m s cap_pos H1) as (s' & E & L & K1 & K2 & K3). rewrite E. cbn [fst].
  unfold node_inv. rewrite K1, K2, K3. by split.
Qed.

Lemma step_enqueue_all keep l : step_ok keep (enqueue_all cfg l).
Proof.
  induction l as [|[to m] l IHl]; [apply step_ret|]. apply step_bind; [apply step_enqueue|done].
Qed.

Lemma step_gc : step_ok false gc_store.
Proof.
  apply step_bind; [apply step_now|]. intros now s (H1 & H2 & H3 & H4). unfold prim.
  destruct (ms_gc_ok now (store s) H3) as (st & n & E & Hok & _). rewrite E.
  split; [by split_and!|done].
Qed.
End node_inv.

Create HintDb node.
#[export] Hint Resolve step_ret step_get step_lift step_err step_on_net step_now step_known step_deliver
  step_bump step_node_ingest step_evict_expired step_enqueue step_enqueue_all step_gc : node.
#[export] Hint Resolve allow_direct_inv check_payload_inv check_message_inv : node.

(** [step_tac] walks through a handler. *)
Ltac step_tac :=
  repeat (first
    [ progress (eauto 2 with node)
    | match goal with
      | |- step_ok _ _ (_ ≫= _) => apply step_bind; [|intros ?]
      | |- step_ok _ _ (warn_err _) => apply step_warn
      | |- step_ok _ _ (st_modify _) => apply step_modify; intros ?; apply rel_frame; reflexivity
      | |- step_ok _ _ (on_guard _) => apply step_on_guard; eauto with node
      | |- step_ok _ _ (if ?b then _ else _) => destruct b
      | |- step_ok _ _ (match ?x with _ => _ end) => destruct x
      end ]).

(** ** Theorems about the node *)


Section node_theorems.
Context `{C : Crypto} `{T : MeshTransport} `{M : MessageStore} `{ML : !MessageStoreLaws M}.
Context `{NH : !NodeHost} `{HI : IdHash} `{P : E2EPrims} `{F : FileSys} `{BW : Bincode WireMessage}.
Variable cfg : NodeConf.
Hypothesis cap_pos : (0 < pending_cap cfg)%nat.

(** ** Every handler keeps the invariant *)

Lemma step_is_throttled keep peer : step_ok cfg keep (is_throttled peer).
Proof. unfold is_throttled. step_tac. Qed.

Lemma step_register_strike keep peer : step_ok cfg keep (register_strike peer).
Proof. unfold register_strike. step_tac. Qed.

Lemma step_reward keep peer : step_ok cfg keep (reward_peer peer).
Proof. apply step_modify. intros s. apply rel_frame; by case_match. Qed.

Lemma step_reject keep r : step_ok cfg keep (record_ingest_reject r).
Proof. destruct r; apply step_bump. Qed.

Hint Resolve step_is_throttled step_register_strike step_reward step_reject : node.

Lemma step_send keep to m : step_ok cfg keep (send_direct to m).
Proof. apply step_on_net. Qed.
Hint Resolve step_send : node.

Lemma step_send_each keep l m : step_ok cfg keep (send_each l m).
Proof. induction l; cbn [send_each]; step_tac. Qed.
Hint Resolve step_send_each : node.

Lemma step_forward_wire keep from m : step_ok cfg keep (forward_wire_to_others from m).
Proof. unfold forward_wire_to_others. step_tac. Qed.

Lemma step_send_bloom keep peer ids : step_ok cfg keep (send_bloom peer ids).
Proof. unfold send_bloom. step_tac. Qed.

Lemma step_own_ids keep : step_ok cfg keep own_ids.
Proof. unfold own_ids. step_tac. Qed.
Hint Resolve step_forward_wire step_send_bloom step_own_ids : node.

Lemma step_sync_bloom keep peer : step_ok cfg keep (send_sync_bloom peer).
Proof. unfold send_sync_bloom. step_tac. Qed.
Hint Resolve step_sync_bloom : node.

Lemma step_sync_peers keep l : step_ok cfg keep (sync_peers l).
Proof. induction l; cbn [sync_peers]; step_tac. Qed.
Hint Resolve step_sync_peers : node.

Lemma step_broadcast_to keep l body p : step_ok cfg keep (broadcast_to cfg l body p).
Proof. induction l; cbn [broadcast_to]; step_tac. Qed.
Hint Resolve step_broadcast_to : node.

Lemma step_send_direct_internal keep to body p : step_ok cfg keep (send_direct_internal cfg to body p).
Proof. unfold send_direct_internal. step_tac. Qed.

Lemma step_broadcast keep scope body p : step_ok cfg keep (broadcast_scoped cfg scope body p).
Proof. unfold broadcast_scoped. step_tac. Qed.
Hint Resolve step_send_direct_internal step_broadcast : node.

Lemma step_gossip_store keep now from p body : step_ok cfg keep (gossip_store now from p body).
Proof. unfold gossip_store. step_tac. Qed.
Hint Resolve step_gossip_store : node.

Lemma step_scoped keep from scope p : step_ok cfg keep (handle_scoped from scope p).
Proof. unfold handle_scoped. step_tac. Qed.

Lemma step_route keep from m : step_ok cfg keep (route_data cfg from m).
Proof. unfold route_data. step_tac. Qed.
Hint Resolve step_route : node.

Lemma step_data keep from m : step_ok cfg keep (handle_data cfg from m).
Proof. unfold handle_data, drop_no_sig, drop_invalid_sig, drop_hops. step_tac. Qed.

Lemma step_missing keep ids : step_ok cfg keep (missing_ids ids).
Proof. induction ids; cbn [missing_ids]; step_tac. Qed.

Lemma step_load keep ids : step_ok cfg keep (load_ids ids).
Proof. induction ids; cbn [load_ids]; step_tac. Qed.

Lemma step_sync_data keep ms : step_ok cfg keep (handle_sync_data ms).
Proof. induction ms; cbn [handle_sync_data]; step_tac. Qed.
Hint Resolve step_scoped step_data step_missing step_load step_sync_data : node.

Lemma step_encrypted keep from f : step_ok cfg keep (handle_encrypted_direct cfg from f).
Proof. unfold handle_encrypted_direct, drop_hops. step_tac. Qed.
Hint Resolve step_encrypted : node.

Lemma step_gate keep from m stop : encrypted_gate from m = Some stop -> step_ok cfg keep stop.
Proof.
  unfold encrypted_gate. destruct m; try done. repeat case_match; intros [= <-]; unfold drop_no_sig, drop_invalid_sig; step_tac.
Qed.

Lemma step_incoming keep from m : step_ok cfg keep (handle_incoming_direct cfg from m).
Proof.
  unfold handle_incoming_direct. apply step_bind; [step_tac|]. intros []; [step_tac|].
  destruct (encrypted_gate from m) eqn:E; [by eapply step_gate|].
  destruct m; unfold handle_sync_bloom, handle_sync_ids, handle_sync_request, handle_peer_info,
    handle_scope_announce; step_tac.
Qed.
Hint Resolve step_incoming : node.

Lemma step_event keep ev : step_ok cfg keep (handle_transport_event cfg ev).
Proof. destruct ev; cbn [handle_transport_event]; unfold send_scope_announce, send_peer_info; step_tac. Qed.

Lemma step_dial keep ks l : step_ok cfg keep (dial_remotes cfg ks l).
Proof. induction l; cbn [dial_remotes]; step_tac. Qed.

Lemma step_forward_loop keep n : step_ok cfg keep (forward_loop n).
Proof.
  induction n as [|n IHn]; [apply step_ret|]. intros s. cbn [forward_loop].
  rewrite (ST_bind_Ok st_get _ _ _ _ eq_refl). destruct (pending s) as [|item rest] eqn:Ep; [by apply rel_frame|].
  rewrite (ST_bind_Ok (st_modify (set_pending rest)) _ _ _ _ eq_refl).
  transitivity (set_pending rest s).
  { intros (H1 & H2 & H3 & H4). split; [|done]. split_and!; [|done..]. rewrite Ep in H1. simpl in *. lia. }
  match goal with |- rel _ _ _ (?m _).1 => enough (step_ok cfg keep m) as Hm by apply Hm end.
  apply step_bind; [step_tac|]. intros now. apply step_bind; [|done].
  repeat case_match; [step_tac..|]. intros s'. unfold prim, send_direct, on_net.
  destruct (net_send_direct _ _ _) as [n' []]; by apply rel_frame.
Qed.

Lemma step_rotate keep : step_ok cfg keep maybe_rotate.
Proof. intros s. unfold maybe_rotate. case_decide; by apply rel_frame. Qed.
Hint Resolve step_event step_dial step_forward_loop step_rotate : node.

Lemma step_forward_once keep : step_ok cfg keep forward_once.
Proof. unfold forward_once. step_tac. Qed.

Lemma step_command keep cmd :
  (cmd = GcNow -> keep = false) -> step_ok cfg keep (handle_command cfg cmd).
Proof.
  intros Hk. destruct cmd; cbn [handle_command]; try (rewrite (Hk eq_refl)); step_tac.
  apply step_modify. intros s. case_decide; by apply rel_frame.
Qed.
Hint Resolve step_forward_once : node.

(** no garbage collection among the inputs *)
Definition gc_free (i : NodeInput) : bool :=
  match i with InGcTick | InCommand GcNow => false | _ => true end.

Lemma step_node i : step_ok cfg (gc_free i) (node_step cfg i).
Proof.
  destruct i; cbn [node_step gc_free]; unfold dial_rendezvous_list, sync_known_peers; step_tac.
  destruct cmd; apply step_command; done.
Qed.

Lemma rel_weaken s s' keep : rel cfg true s s' -> rel cfg keep s s'.
Proof. intros Hr Hs. destruct (Hr Hs) as [H1 H2]. split; [done|]. intros _. by apply H2. Qed.

Lemma step_loop inputs keep :
  (keep = true -> Forall (fun i => gc_free i = true) inputs) -> step_ok cfg keep (node_loop cfg inputs).
Proof.
  induction inputs as [|i inputs IH]; intros Hk; [apply step_ret|]. cbn [node_loop]. apply step_bind.
  - intros s. pose proof (step_node i s) as Hr. destruct (gc_free i) eqn:E; [by apply rel_weaken|].
    destruct keep; [|done]. specialize (Hk eq_refl). apply Forall_cons_1 in Hk as [Hk _]. congruence.
  - intros _. apply IH. intros Hkeep. by apply Hk, Forall_cons_1 in Hkeep as [_ ?].
Qed.

Lemma node_new_inv n st d bs r : store_ok st -> node_inv cfg (node_new n st d bs r).
Proof.
  intros Hs. split_and!; [simpl; lia| |done|apply guard_new_inv].
  split_and!; simpl; [lia|constructor|done|lia].
Qed.

(** C8. The node's invariant: whatever transport, clock, commands, events and
    ticks it meets, in whatever order and even when a handler fails, the
    pending queue stays within its cap, the seen cache and the store stay
    consistent and the rate limiters count correctly; and without garbage
    collection no stored message is ever forgotten. *)
Theorem node_invariant (n : Net) (st : Store) (d : DataDir) (bs : list string) (r : bool) (inputs : list NodeInput) :
  store_ok st ->
  let s := (node_loop cfg inputs (node_new n st d bs r)).1 in
  node_inv cfg s
  /\ (Forall (fun i => gc_free i = true) inputs -> dom (store_view st) ⊆ dom (store_view (store s))).
Proof.
  intros Hs s. split.
  - apply (step_loop inputs false); [done|]. by apply node_new_inv.
  - intros Hf. apply (step_loop inputs true (fun _ => Hf) (node_new n st d bs r)); [|done].
    by apply node_new_inv.
Qed.
End node_theorems.
