(* ===== verification/NodeWalk.v ===== *)
(** * Walking through the node

    A relation between the states before and after a handler, given by what it
    says of the transport, of the queue, of the messages handed to the application
    and of the transport metrics, and closed under what the handlers do to these.
    What an input of the run loop may send, queue, publish and deliver is stated
    once, and every input is shown to respect every such relation; a composition
    of the node with a transport only states its relation. *)

From S2P Require Import Prelude External Text Bootstrap Wire E2E Bloom IngestGuard Security Storage Forwarding NodeData Node NodeTheorems.

Open Scope Z_scope.

(** frames that carry no message of a user *)
Definition control (w : WireMessage) : bool :=
  match w with Data _ | EncryptedDirect _ => false | _ => true end.

Record Allow := mkAllow {
  ok_deliver : DirectMessage -> Prop;
  ok_queue : DirectMessage -> Prop;
  ok_send : WireMessage -> Prop;
  ok_publish : string -> list byte -> Prop;
  ok_control : forall w, control w = true -> ok_send w;
}.

Section walk.
Context `{C : Crypto} `{T : MeshTransport} `{M : MessageStore} `{H : !NodeHost} `{HI : IdHash}.
Context `{P : E2EPrims} `{F : FileSys} `{BW : Bincode WireMessage}.
Variable cfg : NodeConf.

(** what the relation may look at *)
Definition observed (s : NodeRunner) : Net * list PendingMessage * list DirectMessage * (nat * Z) :=
  (net s, pending s, incoming s, (connected_peers (metrics s), max_peers (metrics s))).

Class Walk (a : Allow) (R : NodeRunner -> NodeRunner -> Prop) : Prop := {
  walk_preorder :: PreOrder R;
  walk_frame s s' : observed s' = observed s -> R s s';
  walk_metrics s m : R s (set_metrics (update_transport_metrics (net s) m) s);
  walk_deliver s m : ok_deliver a m -> R s (set_incoming (incoming s ++ [m]) s);
  walk_drop s l : (forall i, i ∈ l -> i ∈ pending s) -> R s (set_pending l s);
  walk_queue s to m : ok_queue a m -> R s (set_pending (pending s ++ [mkPending to m]) s);
  walk_forward s i rest : pending s = i :: rest ->
    R s (set_net (net_send_direct (pm_to i) (Data (pm_message i)) (net s)).1 (set_pending rest s));
  walk_send s to m : ok_send a m -> R s (set_net (net_send_direct to m (net s)).1 s);
  walk_publish s scope p : ok_publish a scope p -> R s (set_net (net_publish_scoped scope p (net s)).1 s);
  walk_dial s x : R s (set_net (net_remember_and_dial x (net s)).1 s);
  walk_redial s : R s (set_net (net_redial (net s)) s);
  walk_subscribe s scope : R s (set_net (net_subscribe_scope scope (net s)).1 s);
  walk_unsubscribe s scope : R s (set_net (net_unsubscribe_scope scope (net s)).1 s);
  walk_find s p : R s (set_net (net_kad_find_peer p (net s)) s);
}.

Section rules.
Context {a : Allow} {R : NodeRunner -> NodeRunner -> Prop} {WR : Walk a R}.

Definition walks {A} (m : ST NodeRunner A) : Prop := forall s, R s (m s).1.

Lemma walks_bind {A B} (m : ST NodeRunner A) (f : A -> ST NodeRunner B) :
  walks m -> (forall x, walks (f x)) -> walks (m ≫= f).
Proof.
  intros Hm Hf s. unfold mbind, ST_bind. specialize (Hm s). destruct (m s) as [s1 [x|e]]; [|done].
  etrans; [exact Hm|apply Hf].
Qed.

Lemma walks_frame {A} (m : ST NodeRunner A) : (forall s, observed (m s).1 = observed s) -> walks m.
Proof. intros Hm s. by apply walk_frame. Qed.

Lemma walks_warn {A} (m : ST NodeRunner A) : walks m -> walks (warn_err m).
Proof. intros Hm s. apply Hm. Qed.

Lemma walks_net {A} (f : Net -> Net * anyhow A) : (forall s, R s (set_net (f (net s)).1 s)) -> walks (on_net f).
Proof. intros Hf s. specialize (Hf s). unfold on_net. by destruct (f (net s)). Qed.

Lemma walks_guard {A} (f : IngestGuard -> IngestGuard * A) : walks (on_guard f).
Proof. apply walks_frame. intros s. unfold on_guard. by destruct (f _). Qed.

Lemma walks_send to m : ok_send a m -> walks (send_direct to m).
Proof. intros Hm. apply walks_net. intros s. by apply walk_send. Qed.

Lemma walks_control to m : control m = true -> walks (send_direct to m).
Proof. intros Hm. by apply walks_send, ok_control. Qed.

Lemma walks_ingest m v : walks (node_ingest m v).
Proof. apply walks_frame. intros s. unfold node_ingest, now_ms, prim, mbind, ST_bind. cbn. by repeat case_match. Qed.

Lemma walks_bump g st : (forall v m, connected_peers (st v m) = connected_peers m) -> (forall v m, max_peers (st v m) = max_peers m) ->
  walks (bump g st).
Proof. intros H1 H2. apply walks_frame. intros s. unfold observed, bump, on_metrics, st_modify. cbn. by rewrite H1, H2. Qed.

Lemma walks_throttled peer : walks (is_throttled peer).
Proof.
  apply walks_frame. intros s. unfold is_throttled, now_ms, st_get, st_modify, mbind, ST_bind. cbn.
  by destruct (peer_reputations s !! peer).
Qed.

Lemma walks_reward peer : walks (reward_peer peer).
Proof. apply walks_frame. intros s. unfold reward_peer, st_modify. cbn. by destruct (peer_reputations s !! peer). Qed.

Lemma walks_deliver m : ok_deliver a m -> walks (deliver m).
Proof. intros Hm s. by apply walk_deliver. Qed.

(** *** The queue *)

Lemma unexpired_sub s i : i ∈ unexpired s -> i ∈ pending s.
Proof. by intros [_ Hi]%list_elem_of_filter. Qed.

Lemma walk_shrink s s' l : observed s' = observed (set_pending l s) -> (forall i, i ∈ l -> i ∈ pending s) -> R s s'.
Proof. intros E Hl. etrans; [by apply (walk_drop s l)|by apply walk_frame]. Qed.

Lemma walks_evict_expired : walks evict_expired.
Proof. intros s. apply (walk_shrink s _ (unexpired s)); [done|apply unexpired_sub]. Qed.

Lemma walks_evict_one : walks (evict_one cfg).
Proof.
  intros s. rewrite evict_one_eq. cbv zeta. cbn [fst]. case_decide; [|case_match].
  - apply (walk_shrink s _ (unexpired s)); [done|apply unexpired_sub].
  - apply (walk_shrink s _ (remove_at n (unexpired s))); [done|]. intros i Hi. apply unexpired_sub. unfold remove_at in Hi.
    apply elem_of_app in Hi as [Hi|Hi]; [by eapply elem_of_take in Hi as (? & ? & _); eapply list_elem_of_lookup_2|].
    rewrite <- (take_drop (S n) (unexpired s)). apply elem_of_app. by right.
  - apply (walk_shrink s _ (tail (unexpired s))); [done|]. intros i Hi. apply unexpired_sub.
    destruct (unexpired s); [done|]. by right.
Qed.
End rules.
End walk.

Create HintDb walk.
#[export] Hint Resolve walks_guard walks_send walks_ingest walks_throttled walks_reward walks_evict_one walks_evict_expired
  walks_deliver : walk.
#[export] Hint Extern 1 (walks (st_lift _)) => by apply walks_frame : walk.
#[export] Hint Extern 1 (walks (mret _)) => by apply walks_frame : walk.
#[export] Hint Extern 1 (walks (st_err _)) => by apply walks_frame : walk.
#[export] Hint Extern 1 (walks st_get) => by apply walks_frame : walk.
#[export] Hint Extern 1 (walks now_ms) => by apply walks_frame : walk.
#[export] Hint Extern 1 (walks known) => by apply walks_frame : walk.
#[export] Hint Extern 1 (walks (bump _ _)) => by apply walks_bump : walk.
#[export] Hint Extern 1 (walks (send_direct _ _)) => by eapply walks_control : walk.
#[export] Hint Extern 2 (walks (st_modify _)) => by apply walks_frame : walk.

Ltac walk_tac :=
  repeat (first
    [ progress (eauto 2 with walk)
    | match goal with
      | |- walks (_ ≫= _) => apply walks_bind; [|intros ?]
      | |- walks (warn_err _) => apply walks_warn
      | |- walks (if ?b then _ else _) => destruct b
      | |- walks (match ?x with _ => _ end) => destruct x
      end ]).

Section walk_node.
Context `{C : Crypto} `{T : MeshTransport} `{M : MessageStore} `{H : !NodeHost} `{HI : IdHash}.
Context `{P : E2EPrims} `{F : FileSys} `{BW : Bincode WireMessage}.
Variable cfg : NodeConf.

Section handlers.
Context {a : Allow} {R : NodeRunner -> NodeRunner -> Prop} {WR : Walk a R}.

Lemma walks_strike peer : walks (R := R) (register_strike peer).
Proof. unfold register_strike. walk_tac. Qed.
Lemma walks_reject r : walks (R := R) (record_ingest_reject r).
Proof. destruct r; cbn [record_ingest_reject]; walk_tac. Qed.
Hint Resolve walks_strike walks_reject : walk.

Lemma walks_enqueue to m : ok_queue a m -> walks (R := R) (enqueue cfg to m).
Proof. intros Hm. unfold enqueue. walk_tac. intros s. by apply walk_queue. Qed.
Hint Resolve walks_enqueue : walk.

Lemma walks_enqueue_all l : Forall (fun tm => ok_queue a tm.2) l -> walks (R := R) (enqueue_all cfg l).
Proof. induction 1 as [|[to m] l Hm _ IH]; cbn [enqueue_all]; walk_tac. Qed.
Hint Resolve walks_enqueue_all : walk.

(** the messages a node writes itself *)
Definition own_message (to : option string) (body : string) (p : list byte) (m : DirectMessage) : Prop :=
  exists now, m = mkDM (sign_local cfg (envelope_new (local_peer_id cfg) to p now)) body.

Lemma walks_broadcast_to l body p : (forall m, own_message None body p m -> ok_queue a m) -> walks (R := R) (broadcast_to cfg l body p).
Proof. intros Hm. induction l as [|to l IH]; cbn [broadcast_to]; walk_tac. apply walks_enqueue, Hm. by eexists. Qed.

Lemma walks_direct_internal to body p :
  (forall m, own_message (Some to) body p m -> ok_queue a m) -> walks (R := R) (send_direct_internal cfg to body p).
Proof.
  intros Hm. unfold send_direct_internal. walk_tac; [apply walks_enqueue, Hm; by eexists|].
  apply walks_enqueue_all, Forall_fmap, Forall_forall. intros ? _. apply Hm. by eexists.
Qed.

Lemma walks_broadcast scope body p :
  (forall m, own_message None body p m -> ok_queue a m) -> ok_publish a scope p -> walks (R := R) (broadcast_scoped cfg scope body p).
Proof.
  intros Hm Hp. unfold broadcast_scoped. walk_tac; [apply walks_net; intros ?; by apply walk_publish|by apply walks_broadcast_to].
Qed.
Hint Resolve walks_direct_internal walks_broadcast : walk.

Lemma walks_send_each l m : ok_send a m -> walks (R := R) (send_each l m).
Proof. intros Hm. induction l as [|to l IH]; cbn [send_each]; walk_tac. Qed.
Hint Resolve walks_send_each : walk.

Lemma walks_forward_wire from m : ok_send a m -> walks (R := R) (forward_wire_to_others from m).
Proof. intros Hm. unfold forward_wire_to_others. walk_tac. Qed.
Lemma walks_own_ids : walks (R := R) own_ids.
Proof. unfold own_ids. walk_tac. Qed.
Lemma walks_send_bloom peer ids : walks (R := R) (send_bloom peer ids).
Proof. unfold send_bloom. walk_tac. Qed.
Hint Resolve walks_forward_wire walks_own_ids walks_send_bloom : walk.

Lemma walks_sync_bloom peer : walks (R := R) (send_sync_bloom peer).
Proof. unfold send_sync_bloom. walk_tac. Qed.
Hint Resolve walks_sync_bloom : walk.
Lemma walks_sync_peers l : walks (R := R) (sync_peers l).
Proof. induction l as [|p l IH]; cbn [sync_peers]; walk_tac. Qed.
Lemma walks_missing ids : walks (R := R) (missing_ids ids).
Proof. induction ids as [|i ids IH]; cbn [missing_ids]; walk_tac. Qed.
Lemma walks_load ids : walks (R := R) (load_ids ids).
Proof. induction ids as [|i ids IH]; cbn [load_ids]; walk_tac. Qed.
Lemma walks_sync_data ms : walks (R := R) (handle_sync_data ms).
Proof. induction ms as [|m ms IH]; cbn [handle_sync_data]; walk_tac. Qed.
Hint Resolve walks_sync_peers walks_missing walks_load walks_sync_data : walk.

Lemma walks_subscribe scope : walks (R := R) (on_net (net_subscribe_scope scope)).
Proof. apply walks_net. intros s. apply walk_subscribe. Qed.
Lemma walks_unsubscribe scope : walks (R := R) (on_net (net_unsubscribe_scope scope)).
Proof. apply walks_net. intros s. apply walk_unsubscribe. Qed.
Lemma walks_dial x : walks (R := R) (on_net (net_remember_and_dial x)).
Proof. apply walks_net. intros s. apply walk_dial. Qed.
Lemma walks_gc : walks (R := R) gc_store.
Proof.
  unfold gc_store. walk_tac. apply walks_frame. intros s. unfold prim. by destruct (ms_gc_expired _ _).
Qed.
Hint Resolve walks_subscribe walks_unsubscribe walks_dial walks_gc : walk.

Lemma walks_forward_loop n : walks (R := R) (forward_loop n).
Proof.
  induction n as [|n IH]; cbn [forward_loop]; [by apply walks_frame|]. intros s.
  rewrite (ST_bind_Ok st_get _ _ _ _ eq_refl). destruct (pending s) as [|i rest] eqn:Ep; [by apply walk_frame|].
  rewrite (ST_bind_Ok (st_modify (set_pending rest)) _ _ _ _ eq_refl). rewrite (ST_bind_Ok now_ms _ _ _ _ eq_refl).
  set (s1 := set_ticks _ _). assert (R s s1) as H1.
  { apply (walk_shrink s _ rest); [done|]. intros j Hj. rewrite Ep. by right. }
  unfold mbind at 1, ST_bind at 1. destruct (is_expired _ _); [etrans; [exact H1|apply IH]|].
  destruct (negb _); [etrans; [exact H1|apply IH]|]. unfold prim, send_direct, on_net.
  pose proof (walk_forward s i rest Ep) as Hf. change (net s) with (net s1) in Hf.
  destruct (net_send_direct _ _ (net s1)) as [n' [[]|e]]; cbn [fst] in *.
  all: etrans; [exact Hf|]; etrans; [|apply IH]; by apply walk_frame.
Qed.
Hint Resolve walks_forward_loop : walk.

Lemma walks_forward_once : walks (R := R) forward_once.
Proof.
  unfold forward_once. walk_tac.
  - apply walks_frame. intros s. unfold maybe_rotate. by case_decide.
  - intros s. apply walk_metrics.
Qed.

Lemma walks_route from m : (forall r, ok_queue a (forwarded r m)) -> walks (R := R) (route_data cfg from m).
Proof.
  intros Hm. unfold route_data. walk_tac; cbv zeta; walk_tac.
  all: try (apply walks_net; intros ?; apply walk_find).
  all: apply walks_enqueue_all, Forall_fmap, Forall_forall; intros ? _; apply Hm.
Qed.
Hint Resolve walks_route : walk.

Lemma walks_dial_remotes ks l : walks (R := R) (dial_remotes cfg ks l).
Proof. induction l as [|r l IH]; cbn [dial_remotes]; walk_tac. Qed.

Lemma node_start_walks : walks (R := R) node_start.
Proof.
  assert (forall l, walks (R := R) (subscribe_all l)) as H1 by (induction l; cbn [subscribe_all]; walk_tac).
  assert (forall l, walks (R := R) (subscribe_bulletins l)) as H2 by (induction l; cbn [subscribe_bulletins]; walk_tac).
  unfold node_start. walk_tac. apply walks_net. intros s. apply walk_redial.
Qed.
End handlers.
End walk_node.
#[export] Hint Resolve walks_strike walks_reject walks_enqueue walks_enqueue_all walks_direct_internal walks_broadcast
  walks_send_each walks_forward_wire walks_own_ids walks_send_bloom walks_sync_bloom walks_sync_peers walks_missing walks_load
  walks_sync_data walks_subscribe walks_unsubscribe walks_dial walks_gc walks_forward_once walks_route walks_dial_remotes : walk.

(** ** What an input may do *)
Section walk_inputs.
Context `{C : Crypto} `{T : MeshTransport} `{M : MessageStore} `{H : !NodeHost} `{HI : IdHash}.
Context `{P : E2EPrims} `{F : FileSys} `{BW : Bincode WireMessage}.
Variable cfg : NodeConf.

(** what is handed to the application: a message that passed the signature gate,
    the contents of an encrypted frame that passed the mesh-signature gate and
    decrypts, or a gossip payload *)
Definition may_deliver (i : NodeInput) (m : DirectMessage) : Prop :=
  match i with
  | InEvent (DirectReceived _ (Data m')) => m = m' /\ validate_data_message_signature m' = Ok tt
  | InEvent (DirectReceived from (EncryptedDirect f)) =>
      ed_to_peer f = local_peer_id cfg
      /\ (exists sender, peer_parse from = Some sender /\ verify_encrypted_direct (EncryptedDirect f) sender = true)
      /\ exists plain now, decrypt_with (encrypted_payload f) (enc_keypair cfg) = Ok plain
         /\ let '(author, app) := unwrap_inner plain from in
            m = mkDM (envelope_new author (Some (local_peer_id cfg)) app now) "[encrypted]"
  | InEvent (ScopedReceived from _ p) => exists now body, m = mkDM (envelope_new_unsigned from None p now) body
  | _ => False
  end.

(** what is queued: a message of a command, or a received one with the mask of the
    relay *)
Definition may_queue (i : NodeInput) (m : DirectMessage) : Prop :=
  match i with
  | InEvent (DirectReceived _ (Data m')) => exists r, m = forwarded r m'
  | InCommand (SendDirect to body) => own_message cfg (Some to) body (as_bytes body) m
  | InCommand (SendDirectPayload to body p) => own_message cfg (Some to) body p m
  | InCommand (Broadcast _ body) => own_message cfg None body (as_bytes body) m
  | InCommand (BroadcastPayload _ body p) => own_message cfg None body p m
  | _ => False
  end.

(** the same encrypted frame, up to hops and signature *)
Definition same_frame (f g : EncryptedDirectFrame) : Prop :=
  ed_to_peer f = ed_to_peer g /\ sender_enc_pubkey f = sender_enc_pubkey g /\ encrypted_payload f = encrypted_payload g.

(** what is sent at once: control frames, the frame of a command, and an encrypted
    frame that was received *)
Definition may_send (i : NodeInput) (w : WireMessage) : Prop :=
  control w = true
  \/ match i with
     | InCommand (SendWire _ w') =>
         match w, w' with
         | EncryptedDirect f, EncryptedDirect g => same_frame f g
         | _, _ => w = w'
         end
     | InEvent (DirectReceived _ (EncryptedDirect g)) => exists f, w = EncryptedDirect f /\ same_frame f g
     | _ => False
     end.

Definition may_publish (i : NodeInput) (scope : string) (p : list byte) : Prop :=
  match i with
  | InCommand (Broadcast scope' body) => scope = scope' /\ p = as_bytes body
  | InCommand (BroadcastPayload scope' _ p') => scope = scope' /\ p = p'
  | _ => False
  end.

Definition allows (i : NodeInput) : Allow :=
  mkAllow (may_deliver i) (may_queue i) (may_send i) (may_publish i) (fun w Hw => or_introl Hw).

Lemma sign_same kp f w : sign_encrypted_direct kp (EncryptedDirect f) = Ok w -> exists g, w = EncryptedDirect g /\ same_frame g f.
Proof.
  unfold sign_encrypted_direct. intros Hw. repeat case_match; simplify_eq; by eexists.
Qed.

Lemma walks_send_wire to w R `{WR : !Walk (allows (InCommand (SendWire to w))) R} :
  walks (R := R) (handle_command cfg (SendWire to w)).
Proof.
  cbn [handle_command]. intros s.
  assert (forall w', (match w, keypair cfg with EncryptedDirect _, Some kp => sign_encrypted_direct kp w | _, _ => Ok w end) = Ok w' ->
    may_send (InCommand (SendWire to w)) w') as Hw.
  { intros w' E. right. destruct w, (keypair cfg); simplify_eq; try done.
    by destruct (sign_same _ _ _ E) as (g & -> & ?). }
  destruct (match w, keypair cfg with EncryptedDirect _, Some kp => _ | _, _ => _ end) as [w'|e]; [|by apply walk_frame].
  rewrite (ST_bind_lift _ _ _ _ eq_refl). apply walks_send. by apply Hw.
Qed.

Lemma walks_command cmd R `{WR : !Walk (allows (InCommand cmd)) R} : walks (R := R) (handle_command cfg cmd).
Proof.
  destruct cmd; try apply walks_send_wire; cbn [handle_command].
  1-2: by eapply walks_direct_internal. 1-2: by eapply walks_broadcast.
  all: walk_tac. apply walks_frame. intros s. unfold st_modify. by case_decide.
Qed.

Lemma walks_gossip now from scope p body R `{WR : !Walk (allows (InEvent (ScopedReceived from scope p))) R} :
  walks (R := R) (gossip_store now from p body).
Proof. unfold gossip_store. walk_tac. apply walks_deliver. by do 2 eexists. Qed.
Hint Resolve walks_gossip : walk.

Lemma walks_scoped from scope p R `{WR : !Walk (allows (InEvent (ScopedReceived from scope p))) R} :
  walks (R := R) (handle_scoped from scope p).
Proof. unfold handle_scoped. walk_tac. Qed.

Lemma walks_data from m R `{WR : !Walk (allows (InEvent (DirectReceived from (Data m)))) R} :
  walks (R := R) (handle_data cfg from m).
Proof.
  assert (walks (R := R) (route_data cfg from m)) as Hr by (apply (walks_route cfg (a := allows (InEvent (DirectReceived from (Data m))))); intros r; by exists r).
  unfold handle_data. destruct (validate_data_message_signature m) as [[]|[]] eqn:E; unfold drop_no_sig, drop_invalid_sig, drop_hops; walk_tac.
  by apply walks_deliver.
Qed.

Lemma gate_open from f : encrypted_gate from (EncryptedDirect f) = None ->
  exists sender, peer_parse from = Some sender /\ verify_encrypted_direct (EncryptedDirect f) sender = true.
Proof.
  cbn [encrypted_gate]. destruct (mesh_signature f); [|done]. destruct (peer_parse from) as [p|]; [|done].
  destruct (verify_encrypted_direct _ p) eqn:E; [|done]. by exists p.
Qed.

Lemma walks_encrypted from f R `{WR : !Walk (allows (InEvent (DirectReceived from (EncryptedDirect f)))) R} :
  encrypted_gate from (EncryptedDirect f) = None -> walks (R := R) (handle_encrypted_direct cfg from f).
Proof.
  intros Hg. unfold handle_encrypted_direct. case_decide as Ht.
  - destruct (decrypt_with (encrypted_payload f) (enc_keypair cfg)) as [plain|e] eqn:Ed; [|by apply walks_frame].
    intros s. rewrite (ST_bind_lift _ _ _ _ eq_refl). destruct (unwrap_inner plain from) as [author app] eqn:Eu.
    match goal with |- R s (?m s).1 => enough (walks (R := R) m) as Hm by apply Hm end.
    walk_tac. apply walks_deliver. cbn. split; [done|]. split; [by apply gate_open|]. exists plain, x0. by rewrite Eu.
  - case_decide; [|unfold drop_hops; walk_tac]. apply walks_bind; [by apply walks_frame|]. intros s.
    apply (walks_forward_wire (a := allows (InEvent (DirectReceived from (EncryptedDirect f))))). right.
    destruct (sign_encrypted_direct _ _) as [w|e] eqn:E; [|by eexists].
    destruct (sign_same _ _ _ E) as (g & -> & Hs). by exists g.
Qed.

Lemma walks_stop from m stop a R `{WR : !Walk a R} : encrypted_gate from m = Some stop -> walks (R := R) stop.
Proof.
  unfold encrypted_gate. destruct m; try done. repeat case_match; intros [= <-]; unfold drop_no_sig, drop_invalid_sig; walk_tac.
Qed.

Lemma walks_incoming from m R `{WR : !Walk (allows (InEvent (DirectReceived from m))) R} :
  walks (R := R) (handle_incoming_direct cfg from m).
Proof.
  unfold handle_incoming_direct. apply walks_bind; [walk_tac|]. intros []; [by apply walks_frame|].
  destruct (encrypted_gate from m) as [stop|] eqn:E; [apply (walks_stop from m stop (allows (InEvent (DirectReceived from m))) R E)|].
  destruct m; [by apply walks_data|..|].
  all: unfold handle_sync_bloom, handle_sync_ids, handle_sync_request, handle_peer_info, handle_scope_announce.
  all: walk_tac.
  - by apply walks_encrypted.
  - apply (walks_forward_wire (a := allows (InEvent (DirectReceived from (EncryptedGroup group_id encrypted))))). by left.
Qed.

(** An input does to the transport, to the queue and to the application only what it
    may, and sets the transport metrics to what the transport says, whether the
    handler returns or fails. *)
Lemma node_step_walks i R `{WR : !Walk (allows i) R} : walks (R := R) (node_step cfg i).
Proof.
  destruct i as [ev|cmd|ids| | | |]; cbn [node_step]; unfold dial_rendezvous_list, sync_known_peers; walk_tac.
  - destruct ev; cbn [handle_transport_event]; unfold send_scope_announce, send_peer_info; walk_tac.
    + by apply walks_incoming.
    + by apply walks_scoped.
  - by apply walks_command.
  - apply walks_net. intros s. apply walk_redial.
Qed.
End walk_inputs.
