(* ===== verification/NodeSecurity.v ===== *)
(** * What the node lets in and sends on

    Queue eviction, the signature gates, relaying, throttling and delivery. *)

From S2P Require Import Prelude External Text Bootstrap Wire E2E Bloom IngestGuard Security Storage Forwarding NodeData Node NodeTheorems.

Open Scope Z_scope.

Section node_security.
Context `{C : Crypto} `{T : MeshTransport} `{M : MessageStore} `{ML : !MessageStoreLaws M}.
Context `{NH : !NodeHost} `{HI : IdHash} `{P : E2EPrims} `{F : FileSys} `{BW : Bincode WireMessage}.
Variable cfg : NodeConf.

(** ** The queue *)

Definition item_rank (i : PendingMessage) : Z := priority_rank (priority (dm_envelope (pm_message i))).

Lemma item_rank_range i : 0 <= item_rank i < 3.
Proof. unfold item_rank. destruct (priority _); simpl; lia. Qed.

(** the scan finds the first item of the lowest rank below [r] *)
Lemma evict_scan_spec idx l best r :
  (evict_scan idx l best r = best /\ forall y, y ∈ l -> r <= item_rank y)
  \/ exists l1 x l2, l = l1 ++ x :: l2 /\ evict_scan idx l best r = Some (idx + length l1)%nat
     /\ item_rank x < r /\ (forall y, y ∈ l1 -> item_rank x < item_rank y)
     /\ forall y, y ∈ l2 -> item_rank x <= item_rank y.
Proof.
  revert idx best r. induction l as [|h l IHl]; intros idx best r.
  { left. split; [done|]. by intros y ?%elem_of_nil. }
  cbn [evict_scan]. fold (item_rank h). case_decide as Hr; [case_decide as H0|].
  - right. exists [], h, l. rewrite Nat.add_0_r. split_and!; try done; [by intros y ?%elem_of_nil|].
    intros y _. pose proof (item_rank_range y). lia.
  - right. destruct (IHl (S idx) (Some idx) (item_rank h)) as [[E Hall]|(l1 & x & l2 & -> & E & Hx & H1 & H2)].
    + exists [], h, l. rewrite Nat.add_0_r. split_and!; try done. by intros y ?%elem_of_nil.
    + exists (h :: l1), x, l2. split_and!; try done; [|lia|].
      * rewrite E. f_equal. simpl. lia.
      * intros y [->|Hy]%elem_of_cons; [done|by apply H1].
  - destruct (IHl (S idx) best r) as [[E Hall]|(l1 & x & l2 & -> & E & Hx & H1 & H2)].
    + left. split; [done|]. intros y [->|Hy]%elem_of_cons; [lia|by apply Hall].
    + right. exists (h :: l1), x, l2. split_and!; try done.
      * rewrite E. f_equal. simpl. lia.
      * intros y [->|Hy]%elem_of_cons; [lia|by apply H1].
Qed.

Lemma remove_at_middle {A} (l1 l2 : list A) x : remove_at (length l1) (l1 ++ x :: l2) = l1 ++ l2.
Proof.
  unfold remove_at. rewrite take_app_length. f_equal.
  replace (S (length l1)) with (length (l1 ++ [x])) by (rewrite length_app; simpl; lia).
  change (x :: l2) with ([x] ++ l2). by rewrite app_assoc, drop_app_length.
Qed.

(** the queue [enqueue] appends to, [s1] being the state at the second clock
    reading *)
Inductive room_made (s1 : NodeRunner) : list PendingMessage -> Prop :=
| room_free : (length (pending s1) < pending_cap cfg)%nat -> room_made s1 (pending s1)
| room_expired : length (pending s1) = pending_cap cfg ->
    (length (unexpired s1) < pending_cap cfg)%nat -> room_made s1 (unexpired s1)
| room_evicted l1 x l2 : length (unexpired s1) = pending_cap cfg ->
    unexpired s1 = l1 ++ x :: l2 ->
    (forall y, y ∈ l1 -> item_rank x < item_rank y) -> (forall y, y ∈ l2 -> item_rank x <= item_rank y) ->
    room_made s1 (l1 ++ l2).

Lemma enqueue_room to m s :
  (0 < pending_cap cfg)%nat -> (length (pending s) <= pending_cap cfg)%nat ->
  is_expired m (node_clock (ticks s)) = false ->
  exists s' q, enqueue cfg to m s = (s', Ok tt) /\ pending s' = q ++ [mkPending to m]
               /\ room_made (set_ticks (S (ticks s)) s) q.
Proof.
  intros Hc Hl He. rewrite enqueue_eq, He. cbv zeta. set (s1 := set_ticks (S (ticks s)) s).
  change (pending s) with (pending s1).
  destruct (decide (pending_cap cfg <= length (pending s1))%nat) as [Hfull|Hfull]; cycle 1.
  { rewrite decide_False by done. eexists _, _. split_and!; [done|done|]. constructor. lia. }
  assert (length (pending s1) = pending_cap cfg) as Hlen by (simpl in *; lia).
  assert (length (unexpired s1) <= pending_cap cfg)%nat as Hu
    by (pose proof (filter_pending_le (node_clock (ticks s1)) (pending s1)); unfold unexpired; lia).
  rewrite evict_one_eq. cbv zeta. cbn [fst].
  destruct (decide (length (unexpired s1) < pending_cap cfg)%nat) as [Hroom|Hroom].
  { rewrite decide_False by (cbn [set_pending pending]; lia). eexists _, _. split_and!; [done|done|].
    by apply room_expired. }
  destruct (evict_scan_spec 0 (unexpired s1) None 3) as [[_ Hall]|(l1 & x & l2 & E & -> & _ & H1 & H2)].
  - exfalso. destruct (unexpired s1) as [|y l] eqn:Eu; [simpl in *; lia|].
    pose proof (Hall y ltac:(left)). pose proof (item_rank_range y). lia.
  - assert (length (unexpired s1) = pending_cap cfg) as Hfull1 by lia.
    cbn [Nat.add]. rewrite E, remove_at_middle. rewrite E, length_app in Hfull1. simpl in Hfull1.
    rewrite decide_False by (cbn [set_pending pending]; rewrite length_app; lia).
    eexists _, _. split_and!; [done|done|]. eapply room_evicted; [|exact E|done|done].
    rewrite E, length_app. simpl. lia.
Qed.

(** Queueing never fails: on a queue within its cap, a message that is not
    expired is always appended, the handler's "queue is full" error is
    unreachable, and room is made by the weakest means that suffices: nothing
    is dropped while there is room; else only expired items; else exactly the
    oldest item of the lowest priority. *)
Theorem enqueue_makes_room (to : string) (m : DirectMessage) (s : NodeRunner) :
  (0 < pending_cap cfg)%nat -> (length (pending s) <= pending_cap cfg)%nat ->
  is_expired m (node_clock (ticks s)) = false ->
  exists s' q, enqueue cfg to m s = (s', Ok tt) /\ pending s' = q ++ [mkPending to m]
               /\ room_made (set_ticks (S (ticks s)) s) q.
Proof. apply enqueue_room. Qed.

(** ** The gates *)

(** everything but clock, metrics and reputations is untouched *)
Definition inert (s s' : NodeRunner) : Prop :=
  net s' = net s /\ store s' = store s /\ seen_cache s' = seen_cache s /\ pending s' = pending s
  /\ incoming s' = incoming s /\ ingest_guard s' = ingest_guard s /\ peers s' = peers s
  /\ peer_scopes s' = peer_scopes s /\ peer_x25519 s' = peer_x25519 s /\ data_dir s' = data_dir s.

Lemma inert_trans s1 s2 s3 : inert s1 s2 -> inert s2 s3 -> inert s1 s3.
Proof. unfold inert. intros (->&->&->&->&->&->&->&->&->&->) H. exact H. Qed.

(** the reputation entry after the check of [is_throttled] *)
Definition aged (now : Z) (rep : Reputation) : Reputation :=
  if decide (10 * 60 * 1000 < now -sat last_strike_ms rep)
  then mkRep 0 (last_strike_ms rep) (throttled_until_ms rep) else rep.

Lemma aged_until now rep : throttled_until_ms (aged now rep) = throttled_until_ms rep.
Proof. unfold aged. by case_decide. Qed.

Lemma is_throttled_eq peer s :
  is_throttled peer s =
  (match peer_reputations s !! peer with
   | None => set_ticks (S (ticks s)) s
   | Some rep => set_peer_reputations (<[peer := aged (node_clock (ticks s)) rep]> (peer_reputations s))
                   (set_ticks (S (ticks s)) s)
   end,
   Ok match peer_reputations s !! peer with
      | None => false
      | Some rep => bool_decide (node_clock (ticks s) < throttled_until_ms rep)
      end).
Proof.
  unfold is_throttled. rewrite (ST_bind_Ok now_ms _ s _ _ eq_refl), (ST_bind_Ok st_get _ _ _ _ eq_refl).
  change (peer_reputations (set_ticks (S (ticks s)) s)) with (peer_reputations s).
  destruct (peer_reputations s !! peer) as [rep|]; [|done].
  rewrite (ST_bind_Ok (st_modify _) _ _ _ _ eq_refl). unfold aged. by case_decide.
Qed.

Definition throttled_now (peer : string) (s : NodeRunner) : bool :=
  match peer_reputations s !! peer with
  | None => false
  | Some rep => bool_decide (node_clock (ticks s) < throttled_until_ms rep)
  end.

Lemma throttle_split peer s :
  exists s1, is_throttled peer s = (s1, Ok (throttled_now peer s)) /\ inert s s1
             /\ ticks s1 = S (ticks s) /\ metrics s1 = metrics s
             /\ relay_identity s1 = relay_identity s /\ node_state s1 = node_state s
             /\ peer_reputations s1 !! peer = aged (node_clock (ticks s)) <$> (peer_reputations s !! peer).
Proof.
  rewrite is_throttled_eq. unfold throttled_now.
  destruct (peer_reputations s !! peer) as [rep|] eqn:E; eexists; (split; [done|]);
    split_and!; try done; cbn [set_peer_reputations peer_reputations set_ticks]; by rewrite ?lookup_insert_eq, ?E.
Qed.

(** a frame from a throttled peer *)
Lemma incoming_throttled from m s :
  throttled_now from s = true ->
  exists s', handle_incoming_direct cfg from m s = (s', Ok tt) /\ inert s s'.
Proof.
  intros Ht. destruct (throttle_split from s) as (s1 & E & Hi & _). exists s1.
  unfold handle_incoming_direct. rewrite (ST_bind_Ok _ _ _ _ _ E), Ht. done.
Qed.

Lemma incoming_open from m s :
  throttled_now from s = false ->
  exists s1, is_throttled from s = (s1, Ok false)
    /\ handle_incoming_direct cfg from m s =
       match encrypted_gate from m with
       | Some stop => stop s1
       | None => match m with
                 | Data m => handle_data cfg from m
                 | SyncBloom bloom count => handle_sync_bloom from bloom count
                 | SyncIds ids => handle_sync_ids from ids
                 | SyncRequest ids => handle_sync_request from ids
                 | SyncData messages => handle_sync_data messages
                 | PeerInfo hex _ scopes => handle_peer_info from hex scopes
                 | EncryptedDirect f => handle_encrypted_direct cfg from f
                 | EncryptedGroup _ _ => forward_wire_to_others from m
                 | ScopeAnnounce scopes => handle_scope_announce from scopes
                 end s1
       end.
Proof.
  intros Ht. destruct (throttle_split from s) as (s1 & E & _). rewrite Ht in E. exists s1. split; [done|].
  unfold handle_incoming_direct. rewrite (ST_bind_Ok _ _ _ _ _ E). by destruct (encrypted_gate from m).
Qed.

Lemma register_strike_inert peer s : exists s', register_strike peer s = (s', Ok tt) /\ inert s s'.
Proof. eexists. by split_and!. Qed.

Lemma bad_data_inert from m s e :
  validate_data_message_signature m = Err e ->
  exists s', handle_data cfg from m s = (s', Ok tt) /\ inert s s'.
Proof.
  intros He. unfold handle_data. rewrite He. destruct e; eexists; by split_and!.
Qed.

(** SD-030 at the node: a [Data] frame whose message fails the signature
    gate is dropped whoever sends it: the handler succeeds, nothing is stored,
    delivered, queued or sent, and the replay window and rate limiters do not
    notice it. *)
Theorem unsigned_data_is_inert (from : string) (m : DirectMessage) (s : NodeRunner) (e : Sd030DropReason) :
  validate_data_message_signature m = Err e ->
  exists s', handle_transport_event cfg (DirectReceived from (Data m)) s = (s', Ok tt) /\ inert s s'.
Proof.
  intros He. cbn [handle_transport_event]. destruct (throttled_now from s) eqn:Ht.
  { by apply incoming_throttled. }
  destruct (incoming_open from (Data m) s Ht) as (s1 & E1 & ->). cbn [encrypted_gate].
  destruct (throttle_split from s) as (s1' & E1' & Hi & _). rewrite E1' in E1. injection E1 as -> _.
  destruct (bad_data_inert from m s1 e He) as (s2 & E2 & Hi2). exists s2. split; [done|].
  by eapply inert_trans.
Qed.

(** ** Throttling *)

Lemma bad_sig_strike from m s :
  validate_data_message_signature m = Err InvalidSignature -> throttled_now from s = false ->
  exists s', handle_transport_event cfg (DirectReceived from (Data m)) s = (s', Ok tt)
    /\ inert s s' /\ ticks s' = S (S (ticks s))
    /\ peer_reputations s' !! from = Some (
         let rep := default rep_default (aged (node_clock (ticks s)) <$> (peer_reputations s !! from)) in
         let now := node_clock (S (ticks s)) in
         let n := sat_add 8 (if decide (60 * 1000 < now -sat last_strike_ms rep) then 0 else strikes rep) 1 in
         mkRep n now (if decide (3 <= n) then now +64 5 * 60 * 1000 else throttled_until_ms rep)).
Proof.
  intros He Ht. cbn [handle_transport_event].
  destruct (incoming_open from (Data m) s Ht) as (s1 & E1 & ->). cbn [encrypted_gate].
  destruct (throttle_split from s) as (s1' & E1' & Hi & Htk & _ & _ & _ & Hrep).
  rewrite E1' in E1. injection E1 as -> _. unfold handle_data. rewrite He.
  eexists. split; [done|]. split_and!.
  - eapply inert_trans; [exact Hi|]. by split_and!.
  - by cbn [set_ticks set_peer_reputations set_metrics ticks]; rewrite Htk.
  - cbn [set_ticks set_peer_reputations set_metrics peer_reputations ticks]. rewrite lookup_insert_eq.
    by rewrite Hrep, Htk.
Qed.

(** [from] has [n] strikes, the last at [last], and is not throttled *)
Definition struck (from : string) (n last : Z) (s : NodeRunner) : Prop :=
  0 <= n <= 2 /\ peer_reputations s !! from = (if decide (n = 0) then None else Some (mkRep n last 0)).

Lemma next_strike from m s n last :
  validate_data_message_signature m = Err InvalidSignature -> struck from n last s ->
  0 <= node_clock (ticks s) ->
  (n ≠ 0 -> node_clock (ticks s) -sat last <= 60 * 1000 /\ node_clock (S (ticks s)) -sat last <= 60 * 1000) ->
  exists s', handle_transport_event cfg (DirectReceived from (Data m)) s = (s', Ok tt)
    /\ inert s s' /\ ticks s' = S (S (ticks s))
    /\ peer_reputations s' !! from = Some (let now := node_clock (S (ticks s)) in
         mkRep (n + 1) now (if decide (n = 2) then now +64 5 * 60 * 1000 else 0)).
Proof.
  intros V [Hn Hs] H0 Hd. destruct (bad_sig_strike from m s V) as (s1 & E1 & I1 & T1 & R1).
  { unfold throttled_now. rewrite Hs. case_decide; [done|]. apply bool_decide_eq_false. simpl. lia. }
  exists s1. split_and!; try done. rewrite R1, Hs. f_equal. cbv zeta.
  destruct (decide (n = 0)) as [->|Hne]; cbn [fmap option_fmap option_map from_option]; unfold id.
  - cbn [rep_default strikes last_strike_ms throttled_until_ms].
    replace (sat_add 8 (if decide _ then 0 else 0) 1) with 1 by (by case_decide). done.
  - destruct (Hd Hne) as [Ha Hb]. unfold aged. cbn [last_strike_ms].
    rewrite (decide_False (P := 10 * 60 * 1000 < _)) by lia. cbn [last_strike_ms strikes throttled_until_ms].
    rewrite (decide_False (P := 60 * 1000 < _)) by lia. rewrite sat_add_exact by (unfold umax; lia).
    f_equal. destruct (decide (n = 2)); [by rewrite decide_True by lia|by rewrite decide_False by lia].
Qed.

(** Three strikes: a peer without a record that sends three [Data] frames
    with invalid signatures within a minute is silenced; any frame it sends in
    the five minutes after the third strike is ignored, whatever it contains. *)
Theorem three_bad_signatures_silence_peer (from : string) (m1 m2 m3 : DirectMessage) (w : WireMessage)
    (s : NodeRunner) (t0 : Z) :
  validate_data_message_signature m1 = Err InvalidSignature ->
  validate_data_message_signature m2 = Err InvalidSignature ->
  validate_data_message_signature m3 = Err InvalidSignature ->
  peer_reputations s !! from = None ->
  0 <= t0 -> t0 + 10 * 60 * 1000 < umax 64 ->
  (forall i, (i < 6)%nat -> t0 <= node_clock (ticks s + i) <= t0 + 60 * 1000) ->
  node_clock (ticks s + 6) < node_clock (ticks s + 5) + 5 * 60 * 1000 ->
  exists s' s'',
    node_loop cfg (InEvent (DirectReceived from (Data m1)) :: InEvent (DirectReceived from (Data m2))
                   :: [InEvent (DirectReceived from (Data m3))]) s = (s', Ok tt)
    /\ handle_transport_event cfg (DirectReceived from w) s' = (s'', Ok tt) /\ inert s s''.
Proof.
  intros V1 V2 V3 Hnone H0 Hmax Hclk Hlast.
  pose proof (Hclk 0%nat ltac:(lia)) as K0. pose proof (Hclk 1%nat ltac:(lia)) as K1.
  pose proof (Hclk 2%nat ltac:(lia)) as K2. pose proof (Hclk 3%nat ltac:(lia)) as K3.
  pose proof (Hclk 4%nat ltac:(lia)) as K4. pose proof (Hclk 5%nat ltac:(lia)) as K5.
  rewrite Nat.add_comm in K0, K1, K2, K3, K4, K5. simpl in K0, K1, K2, K3, K4, K5. unfold sat_sub in *.
  destruct (next_strike from m1 s 0 0 V1) as (s1 & E1 & I1 & T1 & R1); [by split|lia|done|].
  destruct (next_strike from m2 s1 1 (node_clock (S (ticks s))) V2) as (s2 & E2 & I2 & T2 & R2);
    [by split|rewrite T1; lia|rewrite T1; unfold sat_sub; lia|]. rewrite T1 in T2, R2.
  destruct (next_strike from m3 s2 2 (node_clock (S (S (S (ticks s))))) V3) as (s3 & E3 & I3 & T3 & R3);
    [by split|rewrite T2; lia|rewrite T2; unfold sat_sub; lia|]. rewrite T2 in T3, R3.
  destruct (incoming_throttled from w s3) as (s4 & E4 & I4).
  { unfold throttled_now. rewrite R3, T3. apply bool_decide_eq_true. cbn [throttled_until_ms]. cbv zeta.
    rewrite decide_True by done. rewrite !(Nat.add_comm (ticks s)) in Hlast. simpl in Hlast.
    rewrite wadd_small; [lia|]. unfold in_u, umax in *. lia. }
  exists s3, s4. split_and!; [|exact E4|].
  - cbn [node_loop node_step].
    rewrite (ST_bind_Ok _ _ _ _ _ E1), (ST_bind_Ok _ _ _ _ _ E2), (ST_bind_Ok _ _ _ _ _ E3). done.
  - eapply inert_trans; [exact I1|]. eapply inert_trans; [exact I2|]. by eapply inert_trans.
Qed.

(** ** Encrypted frames *)

Lemma signed_frame_passes {CL : CryptoLaws C} kp sig f :
  verify_encrypted_direct (EncryptedDirect (with_mesh_signature sig f)) (pk_peer_id (kp_public kp)) = true ->
  encrypted_gate (peer_string (pk_peer_id (kp_public kp))) (EncryptedDirect (with_mesh_signature sig f)) = None.
Proof.
  intros Hv. cbn [encrypted_gate with_mesh_signature mesh_signature].
  rewrite peer_parse_string. by rewrite Hv.
Qed.

(** A ciphertext that does not decrypt stops the node: any peer that is not
    throttled can address to it an [EncryptedDirect] frame, correctly signed
    with the peer's own key, whose payload does not decrypt; the handler's
    error ends the run loop, whatever inputs follow. *)
Theorem undecryptable_frame_stops_node {CL : CryptoLaws C} (kp : Keypair) (sender_key : string)
    (garbage : list byte) (s : NodeRunner) (e : string) (rest : list NodeInput) :
  let from := peer_string (pk_peer_id (kp_public kp)) in
  decrypt_with garbage (enc_keypair cfg) = Err e ->
  throttled_now from s = false ->
  exists frame s', sign_encrypted_direct kp
      (EncryptedDirect (mkED (local_peer_id cfg) sender_key garbage None 0 8)) = Ok frame
    /\ node_loop cfg (InEvent (DirectReceived from frame) :: rest) s = (s', Err e).
Proof.
  intros from He Ht. set (f := mkED (local_peer_id cfg) sender_key garbage None 0 8).
  destruct (sign_ed_spec kp f) as (sig & Hk & Es & Hv).
  specialize (Hv (kp_public kp)). rewrite (kp_sign_verify _ _ _ Hk) in Hv.
  destruct (incoming_open from (EncryptedDirect (with_mesh_signature sig f)) s Ht) as (s1 & _ & E1).
  exists (EncryptedDirect (with_mesh_signature sig f)), s1. split; [done|].
  cbn [node_loop node_step]. apply ST_bind_Err. cbn [handle_transport_event]. rewrite E1.
  unfold from. rewrite signed_frame_passes by done. unfold handle_encrypted_direct.
  cbn [with_mesh_signature ed_to_peer f]. rewrite decide_True by done.
  apply ST_bind_Err. change (encrypted_payload (with_mesh_signature sig f)) with garbage. by rewrite He.
Qed.

(** the frame a relay passes on: one hop more *)
Definition next_hop (f : EncryptedDirectFrame) : EncryptedDirectFrame :=
  mkED (ed_to_peer f) (sender_enc_pubkey f) (encrypted_payload f) (mesh_signature f)
    (sat_add 8 (ed_hop_count f) 1) (ed_max_hops f).

(** A relayed encrypted frame is refused by the next hop: the relay signs
    it with its relay identity, while the receiver checks it against the peer
    id of the connection; so every frame the relay sends on fails verification
    at every receiver, unless the signature of the relay identity happens to
    verify under the other key of the relay too. *)
Theorem relayed_encrypted_frame_refused {CL : CryptoLaws C} (from : string)
    (f : EncryptedDirectFrame) (s : NodeRunner) (node_kp : Keypair) :
  ed_to_peer f ≠ local_peer_id cfg -> ed_hop_count f < ed_max_hops f ->
  exists sig, kp_sign (rel_keypair (relay_identity s)) (ed_bytes (next_hop f)) = Ok sig
    /\ let fwd := EncryptedDirect (with_mesh_signature sig (next_hop f)) in
       handle_encrypted_direct cfg from f s = forward_wire_to_others from fwd s
       /\ encrypted_gate (peer_string (pk_peer_id (kp_public node_kp))) fwd
          = if pk_verify (kp_public node_kp) (ed_bytes (next_hop f)) sig then None else Some drop_invalid_sig.
Proof.
  intros Hto Hhop. unfold handle_encrypted_direct. rewrite decide_False, decide_True by done.
  rewrite (ST_bind_Ok st_get _ _ _ _ eq_refl). cbv zeta.
  destruct (sign_ed_spec (rel_keypair (relay_identity s)) (next_hop f)) as (sig & Hk & Es & Hv).
  exists sig. split_and!; [done| |].
  - unfold next_hop in Es at 1. by rewrite Es.
  - rewrite <- Hv. cbn [encrypted_gate with_mesh_signature mesh_signature]. rewrite peer_parse_string.
    by destruct (verify_encrypted_direct _ _).
Qed.

(** Group frames circulate without end: whatever was received before, a
    node that does not throttle the sender passes an [EncryptedGroup] frame on
    to every other known peer, and keeps nothing that would stop the next copy:
    its store, seen cache, replay window and queue are as before. *)
Theorem group_frame_always_forwarded (from g : string) (p : list byte) (s : NodeRunner) :
  throttled_now from s = false ->
  exists s1, handle_transport_event cfg (DirectReceived from (EncryptedGroup g p)) s
             = send_each (filter (fun q => q ≠ from) (net_known_peers (net s))) (EncryptedGroup g p) s1
    /\ inert s s1
    /\ forall q, throttled_now q (set_ticks (ticks s) s1) = throttled_now q s.
Proof.
  intros Ht. cbn [handle_transport_event].
  destruct (incoming_open from (EncryptedGroup g p) s Ht) as (s1 & E1 & ->). cbn [encrypted_gate].
  destruct (throttle_split from s) as (s1' & E1' & Hi & _). rewrite E1' in E1. injection E1 as -> _.
  exists s1. split_and!; [|done|].
  - unfold forward_wire_to_others. rewrite (ST_bind_Ok known _ s1 s1 _ eq_refl).
    destruct Hi as (-> & _). done.
  - intros q. rewrite is_throttled_eq in E1'. injection E1' as <-. unfold throttled_now.
    destruct (peer_reputations s !! from) as [rep|] eqn:E; cbn [set_ticks set_peer_reputations peer_reputations ticks];
      [|done].
    destruct (decide (q = from)) as [->|Hne].
    + by rewrite lookup_insert_eq, E, aged_until.
    + by rewrite lookup_insert_ne.
Qed.

(** ** Relayed [Data] *)

Lemma signing_bytes_tail e : exists pre, bytes_for_signing e = pre ++ sign_tail e
  /\ exists pre0, bytes_for_signing_v0 e = pre0 ++ sign_tail e.
Proof.
  eexists. split; [unfold bytes_for_signing; by rewrite !app_assoc|].
  eexists. unfold bytes_for_signing_v0. by rewrite !app_assoc.
Qed.

Lemma hop_changes_tail e e' :
  env_wf e -> env_wf e' -> hop_count e ≠ hop_count e' ->
  (if decide (sig_version e = 0) then bytes_for_signing_v0 e else bytes_for_signing e)
  ≠ (if decide (sig_version e' = 0) then bytes_for_signing_v0 e' else bytes_for_signing e').
Proof.
  intros W W' Hh E.
  destruct (signing_bytes_tail e) as (a & Ea & a0 & Ea0).
  destruct (signing_bytes_tail e') as (b & Eb & b0 & Eb0). rewrite Ea, Ea0, Eb, Eb0 in E.
  assert (sign_tail e = sign_tail e') as Ht
    by (repeat case_decide; apply app_tail_inj in E as [_ E]; rewrite ?sign_tail_length; done).
  apply sign_tail_inj in Ht; [|done..]. tauto.
Qed.

Lemma forwarded_wf r m : env_wf (dm_envelope m) -> env_wf (dm_envelope (forwarded r m)).
Proof.
  intros (?&?&?&Hh&?). unfold env_wf. cbn [forwarded apply_relay_forward_mask add_hop dm_envelope hop_count].
  split_and!; try done. unfold in_u in Hh. apply sat_add_in_u; lia.
Qed.

Lemma forwarded_author r m :
  signature_author_peer (dm_envelope (forwarded r m)) = signature_author_peer (dm_envelope m).
Proof. unfold signature_author_peer. simpl. by destruct (author_peer (dm_envelope m)). Qed.

(** Relayed data is refused by the next hop: the hop count is signed, and
    the relay increments it; so a signed message that passed the SD-030 gate of
    the relay fails the gate of every node the relay forwards it to, with
    [InvalidSignature] (which also earns the relay a strike), unless its
    author's key has one signature valid on two texts. *)
Theorem relayed_data_refused (r : RelayIdentity) (m : DirectMessage) :
  env_wf (dm_envelope m) -> hop_count (dm_envelope m) < 255 ->
  is_gossip_relay_body (dm_body m) = false ->
  validate_data_message_signature m = Ok tt ->
  validate_data_message_signature (forwarded r m) = Err InvalidSignature
  \/ exists author pk sig t t', peer_parse (signature_author_peer (dm_envelope m)) = Some author
       /\ inline_key author = Some pk /\ signature (dm_envelope m) = Some sig /\ two_texts pk t t' sig.
Proof.
  intros W Hh Hb. unfold validate_data_message_signature. rewrite forwarded_author.
  change (dm_body (forwarded r m)) with (dm_body m). rewrite Hb.
  change (signature (dm_envelope (forwarded r m))) with (signature (dm_envelope m)).
  destruct (signature (dm_envelope m)) as [sig|] eqn:Es; [|done].
  destruct (peer_parse _) as [author|]; [|done].
  destruct (env_verify author (dm_envelope m)) eqn:Ev; [|done]. intros _.
  destruct (env_verify author (dm_envelope (forwarded r m))) eqn:Ev'; [right|by left].
  unfold env_verify in Ev, Ev'.
  change (signature (dm_envelope (forwarded r m))) with (signature (dm_envelope m)) in Ev'.
  rewrite Es in Ev, Ev'. destruct (inline_key author) as [pk|] eqn:Ek; [|done].
  eexists author, pk, sig, _, _. split_and!; [done..|]. split; [|split; [exact Ev|exact Ev']].
  apply hop_changes_tail; [done|by apply forwarded_wf|].
  cbn [forwarded apply_relay_forward_mask add_hop dm_envelope hop_count].
  destruct W as (_&_&_&[Hp _]&_). rewrite sat_add_exact by (unfold umax; lia). lia.
Qed.
End node_security.
