(* ===== verification/NodeRouting.v ===== *)
(** * Where messages go

    Forwarding targets and local delivery, and that the queue drains. *)

From S2P Require Import Prelude External Text Bootstrap Wire E2E Bloom IngestGuard Security Storage Forwarding NodeData Node NodeTheorems NodeSecurity.

Open Scope Z_scope.

Section node_routing.
Context `{C : Crypto} `{T : MeshTransport} `{M : MessageStore} `{ML : !MessageStoreLaws M}.
Context `{NH : !NodeHost} `{HI : IdHash} `{P : E2EPrims} `{F : FileSys} `{BW : Bincode WireMessage}.
Variable cfg : NodeConf.

Lemma ST_bind_eq {S A B} (m : ST S A) (f : A -> ST S B) s :
  (m ≫= f) s = match m s with (s1, Ok a) => f a s1 | (s1, Err e) => (s1, Err e) end.
Proof. done. Qed.

(** ** What a handler may add to the queue *)

(** [m] adds to the queue only items that satisfy [Q]. *)
Definition adds {A} (Q : PendingMessage -> Prop) (m : ST NodeRunner A) : Prop :=
  forall s i, i ∈ pending (m s).1 -> i ∈ pending s \/ Q i.

Lemma adds_bind {A B} Q (m : ST NodeRunner A) (f : A -> ST NodeRunner B) :
  adds Q m -> (forall a, adds Q (f a)) -> adds Q (m ≫= f).
Proof.
  intros Hm Hf s i. rewrite ST_bind_eq. specialize (Hm s i). destruct (m s) as [s1 [a|e]]; [|done].
  intros Hi. apply Hf in Hi as [Hi|Hi]; [by apply Hm|by right].
Qed.

Lemma adds_frame {A} Q (m : ST NodeRunner A) : (forall s, pending (m s).1 = pending s) -> adds Q m.
Proof. intros Hm s i. rewrite Hm. by left. Qed.

Lemma evict_one_sub s i : i ∈ pending (evict_one cfg s).1 -> i ∈ pending s.
Proof.
  assert (forall j, j ∈ unexpired s -> j ∈ pending s) as Hu.
  { intros j [_ Hj]%list_elem_of_filter. done. }
  rewrite evict_one_eq. cbv zeta. cbn [fst]. case_decide; [apply Hu|].
  destruct (evict_scan 0 (unexpired s) None 3) as [k|]; cbn [set_pending pending]; intros Hi; apply Hu.
  - unfold remove_at in Hi. apply elem_of_app in Hi as [Hi|Hi].
    + rewrite <- (take_drop k (unexpired s)). apply elem_of_app. by left.
    + rewrite <- (take_drop (Datatypes.S k) (unexpired s)). apply elem_of_app. by right.
  - destruct (unexpired s); [done|]. by right.
Qed.

Lemma adds_enqueue to m : adds (fun i => i = mkPending to m) (enqueue cfg to m).
Proof.
  intros s i. rewrite enqueue_eq. cbv zeta. destruct (is_expired m _); [by left|].
  set (s1 := set_ticks _ s). set (s2 := if decide (pending_cap cfg <= length (pending s))%nat then _ else _).
  assert (forall j, j ∈ pending s2 -> j ∈ pending s) as H2.
  { unfold s2. case_decide; [|done]. intros j Hj. by apply evict_one_sub in Hj. }
  case_decide; cbn [fst]; [intros Hi; left; by apply H2|].
  cbn [set_metrics set_pending pending]. intros [Hi|Hi%list_elem_of_singleton]%elem_of_app; [left; by apply H2|by right].
Qed.

Lemma adds_enqueue_all l : adds (fun i => (pm_to i, pm_message i) ∈ l) (enqueue_all cfg l).
Proof.
  induction l as [|[to m] l IHl]; [by apply adds_frame|]. cbn [enqueue_all]. apply adds_bind.
  - intros s i Hi. apply adds_enqueue in Hi as [Hi|Hi]; [by left|]. right. subst. left.
  - intros _ s i Hi. apply IHl in Hi as [Hi|Hi]; [by left|]. right. by right.
Qed.

(** the items a relay queues for a message it got from [from] *)
Definition relayed_item (from : string) (m : DirectMessage) (s : NodeRunner) (i : PendingMessage) : Prop :=
  pm_to i ∈ net_known_peers (net s) /\ pm_to i ≠ from /\ pm_message i = forwarded (relay_identity s) m.

Lemma route_data_adds from m s i :
  i ∈ pending (route_data cfg from m s).1 -> i ∈ pending s \/ relayed_item from m s i.
Proof.
  unfold route_data. destruct (is_for _ m); [by left|].
  rewrite (ST_bind_Ok now_ms _ s _ _ eq_refl). destruct (is_expired m _); [by left|].
  rewrite (ST_bind_Ok st_get _ _ _ _ eq_refl). destruct (negb _); [by left|].
  rewrite (ST_bind_Ok known _ _ _ _ eq_refl). cbv zeta.
  change (net_known_peers (net (set_ticks _ s))) with (net_known_peers (net s)).
  change (relay_identity (set_ticks _ s)) with (relay_identity s).
  set (s1 := set_ticks _ s). set (ps := filter _ _).
  assert (forall t, t ∈ ps -> t ∈ net_known_peers (net s) /\ t ≠ from) as Hps.
  { intros t [? ?]%list_elem_of_filter. done. }
  set (q := now_ms ≫= _).
  assert (adds (relayed_item from m s) q) as Hq.
  { apply adds_bind; [by apply adds_frame|]. intros now.
    destruct (forward_decide _ _ _ _ _) as [|targets| |] eqn:Ed; try by apply adds_frame.
    intros s' j Hj. apply adds_enqueue_all in Hj as [Hj|Hj]; [by left|]. right.
    apply list_elem_of_fmap in Hj as (t & [= E1 E2] & Ht).
    destruct (Hps t) as [H1 H2]; [by eapply forward_decide_sub|].
    unfold relayed_item. by rewrite E1, E2. }
  destruct (to_peer (dm_envelope m)) as [target|]; [|intros Hi; by apply Hq in Hi].
  destruct (decide (target ∈ ps)) as [Ht|Ht].
  - intros Hi. apply adds_enqueue in Hi as [Hi| ->]; [by left|]. right.
    destruct (Hps target Ht). by split_and!.
  - intros Hi. eapply adds_bind in Hi as [Hi|Hi]; [by left|by right|by apply adds_frame|done].
Qed.

(** ** Delivery *)

(** [m] neither delivers nor stores anything *)
Definition quiet {A} (m : ST NodeRunner A) : Prop :=
  forall s, incoming (m s).1 = incoming s /\ store (m s).1 = store s.

Lemma quiet_bind {A B} (m : ST NodeRunner A) (f : A -> ST NodeRunner B) :
  quiet m -> (forall a, quiet (f a)) -> quiet (m ≫= f).
Proof.
  intros Hm Hf s. rewrite ST_bind_eq. destruct (Hm s) as [H1 H2]. destruct (m s) as [s1 [a|e]]; [|done].
  destruct (Hf a s1) as [H3 H4]. cbn [fst] in *. by rewrite H3, H4.
Qed.

Lemma quiet_enqueue to m : quiet (enqueue cfg to m).
Proof.
  intros s. rewrite enqueue_eq. cbv zeta. destruct (is_expired m _); [done|].
  set (s2 := if decide (pending_cap cfg <= length (pending s))%nat then _ else _).
  assert (incoming s2 = incoming s /\ store s2 = store s) as [H1 H2].
  { unfold s2. case_decide; [|done]. rewrite evict_one_eq. cbv zeta. cbn [fst]. by repeat case_match. }
  case_decide; cbn; by rewrite <- H1, <- H2.
Qed.

Lemma quiet_enqueue_all l : quiet (enqueue_all cfg l).
Proof. induction l as [|[to m] l IHl]; [done|]. apply quiet_bind; [apply quiet_enqueue|done]. Qed.

Lemma quiet_net {A} (f : Net -> Net * anyhow A) : quiet (on_net f).
Proof. intros s. unfold on_net. by destruct (f (net s)). Qed.

Lemma quiet_route from m : quiet (route_data cfg from m).
Proof.
  unfold route_data. destruct (is_for _ m); [done|]. apply quiet_bind; [done|]. intros now.
  destruct (is_expired m now); [done|]. apply quiet_bind; [done|]. intros s. destruct (negb _); [done|].
  apply quiet_bind; [done|]. intros ps. cbv zeta.
  assert (forall now, quiet (match forward_decide now m (local_peer_id cfg) (filter (fun p => p ≠ from) ps) (node_state s) with
     | ForwardTo targets => enqueue_all cfg ((fun t => (t, forwarded (relay_identity s) m)) <$> targets)
     | _ => mret tt end)) as Hq.
  { intros t. destruct (forward_decide _ _ _ _ _); try done. apply quiet_enqueue_all. }
  destruct (to_peer (dm_envelope m)) as [target|]; [case_decide|].
  - apply quiet_enqueue.
  - apply quiet_bind; [apply quiet_net|]. intros _. by apply quiet_bind.
  - by apply quiet_bind.
Qed.

Lemma node_ingest_eq m v s :
  node_ingest m v s =
  let '((seen, st), r) := ingest (node_clock (ticks s)) (node_clock (S (ticks s))) (node_clock (S (S (ticks s)))) m v
                            (seen_cache s, store s) in
  (set_seen_cache seen (set_store st (set_ticks (S (S (S (ticks s)))) s)), r).
Proof. done. Qed.

Record accepted_data (from : string) (m : DirectMessage) (s s1 : NodeRunner) : Prop := {
  ad_valid : validate_data_message_signature m = Ok tt;
  ad_hops : hop_count (dm_envelope m) < max_hops (dm_envelope m);
  ad_novel : store_view (store s) !! e_id (dm_envelope m) = None;
  ad_stored : store_view (store s1) = <[e_id (dm_envelope m) := m]> (store_view (store s));
  ad_delivered : incoming s1 = incoming s ++ [m];
  ad_frame : net s1 = net s /\ relay_identity s1 = relay_identity s /\ pending s1 = pending s;
}.

(** A [Data] message is either dropped without effect on queue, transport and
    application, or accepted and routed. *)
Lemma handle_data_cases from m s :
  node_inv cfg s ->
  (exists s', handle_data cfg from m s = (s', Ok tt)
              /\ pending s' = pending s /\ incoming s' = incoming s)
  \/ exists s1, handle_data cfg from m s = route_data cfg from m s1 /\ accepted_data from m s s1.
Proof.
  intros (_ & Hseen & Hstore & _). remember (handle_data cfg from m s) as h eqn:Eh. unfold handle_data in Eh.
  destruct (validate_data_message_signature m) as [[]|e] eqn:Ev.
  2: { left. destruct e; eexists; (split; [exact Eh|done]). }
  destruct (decide (max_hops _ <= _)) as [Hh|Hh]; [left; eexists; (split; [exact Eh|done])|].
  rewrite (ST_bind_Ok now_ms _ s _ _ eq_refl) in Eh. set (s0 := set_ticks _ s) in Eh.
  rewrite ST_bind_eq in Eh. unfold on_guard in Eh. change (ingest_guard s0) with (ingest_guard s) in Eh.
  destruct (allow_direct _ m _ (ingest_guard s)) as [g [[]|reason]].
  2: { left. destruct reason; eexists; (split; [exact Eh|done]). }
  rewrite ST_bind_eq, node_ingest_eq in Eh. set (s1 := set_ingest_guard g s0) in Eh.
  pose proof (ingest_unverified (S := basic_seen_cache) (node_clock (ticks s1)) (node_clock (S (ticks s1)))
                (node_clock (S (S (ticks s1)))) m (seen_cache s, store s) Hstore Hseen) as Hi.
  change (seen_cache s1, store s1) with (seen_cache s, store s) in Eh. destruct (negb _ && novel _ _) eqn:En.
  - right. destruct Hi as ([seen st] & Ei & _ & _ & _ & Hv). rewrite Ei in Eh. cbn [negb] in Eh.
    rewrite ST_bind_eq in Eh. unfold reward_peer, st_modify in Eh. cbv beta iota in Eh. rewrite ST_bind_eq in Eh.
    eexists. split; [exact Eh|].
    apply andb_true_iff in En as [_ [_ En]%andb_true_iff]. apply bool_decide_eq_true in En.
    split; try done; try lia; destruct (peer_reputations _ !! from); try done; by split_and!.
  - left. rewrite Hi in Eh. cbn [negb] in Eh. eexists. split; [exact Eh|done].
Qed.

Lemma data_event_cases from m s :
  node_inv cfg s ->
  (exists s', handle_transport_event cfg (DirectReceived from (Data m)) s = (s', Ok tt)
              /\ pending s' = pending s /\ incoming s' = incoming s)
  \/ exists s1, handle_transport_event cfg (DirectReceived from (Data m)) s = route_data cfg from m s1
                 /\ accepted_data from m s s1.
Proof.
  intros Hinv. cbn [handle_transport_event]. destruct (throttled_now from s) eqn:Ht.
  { left. destruct (incoming_throttled cfg from (Data m) s Ht) as (s' & E & Hi). exists s'.
    destruct Hi as (_ & _ & _ & ? & ? & _). done. }
  destruct (incoming_open cfg from (Data m) s Ht) as (s1 & E1 & ->). cbn [encrypted_gate].
  destruct (throttle_split from s) as (s1' & E1' & Hi & _ & _ & Hrel & _). rewrite E1' in E1. injection E1 as -> _.
  destruct Hi as (I1 & I2 & I3 & I4 & I5 & I6 & _).
  assert (node_inv cfg s1) as Hinv1 by (unfold node_inv in *; by rewrite I2, I3, I4, I6).
  destruct (handle_data_cases from m s1 Hinv1) as [(s' & E & Hp & Hin)|(s2 & E & [A1 A2 A3 A4 A5 (A6 & A7 & A8)])].
  - left. exists s'. by rewrite Hp, Hin.
  - right. exists s2. split; [done|].
    split; [done|done|by rewrite <- I2|by rewrite <- I2|by rewrite <- I5|]. by rewrite A6, A7, A8.
Qed.

(** C10. Forwarding is safe: handling a [Data] frame only ever adds to the queue
    the same message with the relay's mask, for known peers other than the one
    it came from, and only if it passed the signature gate with hops to spare;
    its new hop count is one more and within the limit. *)
Theorem data_forwarding_safe (from : string) (m : DirectMessage) (s : NodeRunner) (i : PendingMessage) :
  node_inv cfg s -> env_wf (dm_envelope m) ->
  i ∈ pending (handle_transport_event cfg (DirectReceived from (Data m)) s).1 ->
  i ∈ pending s
  \/ validate_data_message_signature m = Ok tt
     /\ pm_to i ∈ net_known_peers (net s) /\ pm_to i ≠ from
     /\ pm_message i = forwarded (relay_identity s) m
     /\ hop_count (dm_envelope (pm_message i)) = hop_count (dm_envelope m) + 1
     /\ hop_count (dm_envelope (pm_message i)) <= max_hops (dm_envelope (pm_message i)).
Proof.
  intros Hinv W Hi.
  destruct (data_event_cases from m s Hinv) as [(s' & E & Hp & _)|(s1 & E & [A1 A2 A3 A4 A5 (A6 & A7 & A8)])];
    rewrite E in Hi; [left; cbn [fst] in Hi; by rewrite Hp in Hi|].
  apply route_data_adds in Hi as [Hi|(H1 & H2 & H3)]; [left; by rewrite A8 in Hi|]. right.
  rewrite A6 in H1. rewrite A7 in H3. split_and!; try done; rewrite H3;
    cbn [forwarded apply_relay_forward_mask add_hop dm_envelope hop_count max_hops];
    destruct W as (_ & _ & _ & [? ?] & [? ?]); rewrite sat_add_exact by (unfold umax; lia); lia.
Qed.

(** C9. At most once: when a [Data] frame is delivered to the application, then
    after any further inputs that do not collect garbage, no [Data] frame with
    the same message id is delivered again, whoever sends it. *)
Theorem data_delivered_at_most_once (from from' : string) (m m' : DirectMessage) (s : NodeRunner)
    (inputs : list NodeInput) :
  (0 < pending_cap cfg)%nat -> node_inv cfg s ->
  let s1 := (handle_transport_event cfg (DirectReceived from (Data m)) s).1 in
  incoming s1 ≠ incoming s ->
  Forall (fun i => gc_free i = true) inputs -> e_id (dm_envelope m') = e_id (dm_envelope m) ->
  let s2 := (node_loop cfg inputs s1).1 in
  incoming (handle_transport_event cfg (DirectReceived from' (Data m')) s2).1 = incoming s2.
Proof.
  intros Hcap Hinv s1 Hdel Hfree Hid s2.
  assert (node_inv cfg s1) as Hinv1 by (apply (step_event cfg Hcap true (DirectReceived from (Data m)) s Hinv)).
  destruct (step_loop cfg Hcap inputs true (fun _ => Hfree) s1 Hinv1) as [Hinv2 Hdom].
  specialize (Hdom eq_refl). fold s2 in Hinv2, Hdom.
  assert (is_Some (store_view (store s1) !! e_id (dm_envelope m))) as Hst.
  { destruct (data_event_cases from m s Hinv) as [(s' & E & _ & Hin)|(s0 & E & A)].
    - destruct Hdel. unfold s1. by rewrite E.
    - unfold s1. rewrite E. destruct (quiet_route from m s0) as [_ ->]. rewrite (ad_stored _ _ _ _ A).
      rewrite lookup_insert_eq. by eexists. }
  apply elem_of_dom, Hdom, elem_of_dom in Hst as [x Hx].
  destruct (data_event_cases from' m' s2 Hinv2) as [(s' & -> & _ & Hin)|(s0 & E & A)]; [done|].
  pose proof (ad_novel _ _ _ _ A) as Hn. rewrite Hid in Hn. congruence.
Qed.
End node_routing.

(** ** The queue drains

    Progress of the forwarding tick: whatever is queued is handed to the
    transport within a bounded number of ticks, in the order of the queue. *)


Section liveness.
Context `{C : Crypto} `{T : MeshTransport} `{M : MessageStore} `{H : !NodeHost} `{HI : IdHash}.
Context `{P : E2EPrims} `{F : FileSys} `{BW : Bincode WireMessage}.
Variable cfg : NodeConf.

(** what the transport was asked to send, whether or not it succeeded *)
Variable log : Net -> list (string * WireMessage).
Hypothesis log_send : forall to m n, log (net_send_direct to m n).1 = log n ++ [(to, m)].

Definition frame_of (i : PendingMessage) : string * WireMessage := (pm_to i, Data (pm_message i)).

(** why an item may leave the queue unsent between two states *)
Definition excused (s s' : NodeRunner) (i : PendingMessage) : Prop :=
  (exists n, (ticks s <= n < ticks s')%nat /\ is_expired (pm_message i) (node_clock n) = true)
  \/ can_forward (node_state s) (priority (dm_envelope (pm_message i))) = false.

(** [s'] follows [s], the frames [kept] were sent, [rest] is left of the queue *)
Definition progress (l : list PendingMessage) (s s' : NodeRunner) (kept rest : list PendingMessage) : Prop :=
  kept ++ rest `sublist_of` l /\ log (net s') = log (net s) ++ (frame_of <$> kept)
  /\ (ticks s <= ticks s')%nat /\ node_state s' = node_state s
  /\ forall i, i ∈ l -> i ∈ kept \/ i ∈ rest \/ excused s s' i.

Lemma excused_mono s0 s1 s2 s3 i :
  excused s1 s2 i -> (ticks s0 <= ticks s1)%nat -> (ticks s2 <= ticks s3)%nat -> node_state s1 = node_state s0 ->
  excused s0 s3 i.
Proof. intros [(n & Hn & He)|He] H1 H2 E; [left; exists n; split; [lia|done]|right; by rewrite <- E]. Qed.

Lemma progress_trans l s s1 s2 k1 r1 k2 r2 :
  progress l s s1 k1 r1 -> progress r1 s1 s2 k2 r2 -> progress l s s2 (k1 ++ k2) r2.
Proof.
  intros (Hs1 & L1 & T1 & N1 & A1) (Hs2 & L2 & T2 & N2 & A2). split_and!.
  - rewrite <- app_assoc. etransitivity; [|exact Hs1]. by apply sublist_app.
  - by rewrite L2, L1, fmap_app, app_assoc.
  - lia.
  - by rewrite N2.
  - intros i Hi. rewrite elem_of_app. destruct (A1 i Hi) as [?|[Hr|He]]; [by auto| |].
    + destruct (A2 i Hr) as [?|[?|He]]; [by auto..|]. right; right. by eapply excused_mono.
    + right; right. by eapply excused_mono.
Qed.

Lemma progress_same l s s' :
  log (net s') = log (net s) -> (ticks s <= ticks s')%nat -> node_state s' = node_state s -> progress l s s' [] l.
Proof. intros H1 H2 H3. split_and!; [done|by rewrite H1, app_nil_r|done..|by auto]. Qed.

(** the item at the head is sent or excused *)
Lemma progress_head item rest s :
  pending s = item :: rest ->
  exists s' kept, (_ ← st_modify (set_pending rest);
      now ← now_ms;
      (if is_expired (pm_message item) now then mret tt else
       if negb (can_forward (node_state s) (priority (dm_envelope (pm_message item)))) then mret tt else
       prim (fun s => match send_direct (pm_to item) (Data (pm_message item)) s with
                      | (s, Ok _) => bump messages_forwarded set_messages_forwarded s
                      | (s, Err _) => (s, Ok tt)
                      end))) s = (s', Ok tt)
    /\ pending s' = rest /\ progress (item :: rest) s s' kept rest.
Proof.
  intros _. erewrite ST_bind_Ok; [|reflexivity]. erewrite ST_bind_Ok; [|reflexivity].
  cbn [ticks set_pending]. destruct (is_expired _ _) eqn:He.
  { eexists _, []. split; [reflexivity|]. split; [done|]. split_and!; [by constructor|by rewrite app_nil_r|cbn; lia|done|].
    intros i [->|Hi]%elem_of_cons; [|by auto]. right; right. left. exists (ticks s). cbn. split; [lia|done]. }
  destruct (can_forward _ _) eqn:Hc; cbn [negb].
  - pose proof (log_send (pm_to item) (Data (pm_message item)) (net s)) as Hl.
    unfold prim, send_direct, on_net. cbn [net set_ticks set_pending].
    destruct (net_send_direct _ _ _) as [n' []]; eexists _, [item]; (split; [reflexivity|]); (split; [done|]);
      (split_and!; [done|exact Hl|cbn; lia|done|]); intros i [->|Hi]%elem_of_cons; rewrite ?list_elem_of_singleton; by auto.
  - eexists _, []. split; [reflexivity|]. split; [done|]. split_and!; [by constructor|by rewrite app_nil_r|cbn; lia|done|].
    intros i [->|Hi]%elem_of_cons; [|by auto]. right; right. by right.
Qed.

Lemma forward_loop_progress b s :
  exists s' kept, forward_loop b s = (s', Ok tt) /\ pending s' = drop b (pending s)
    /\ progress (pending s) s s' kept (drop b (pending s)).
Proof.
  revert s. induction b as [|b IH]; intros s.
  { exists s, []. split; [done|]. split; [done|]. by apply progress_same. }
  cbn [forward_loop]. erewrite ST_bind_Ok; [|reflexivity]. destruct (pending s) as [|item rest] eqn:Ep.
  { exists s, []. split; [done|]. split; [done|]. by apply progress_same. }
  destruct (progress_head item rest s Ep) as (s1 & k1 & E1 & P1 & H1).
  destruct (IH s1) as (s2 & k2 & E2 & P2 & H2). rewrite P1 in P2, H2.
  exists s2, (k1 ++ k2). split_and!; [|done|by eapply progress_trans].
  apply ST_bind_inv in E1 as (x1 & [] & Ea & E1). apply ST_bind_inv in E1 as (x2 & now & Eb & E1).
  rewrite (ST_bind_Ok _ _ _ _ _ Ea), (ST_bind_Ok _ _ _ _ _ Eb). by rewrite (ST_bind_Ok _ _ _ _ _ E1).
Qed.

Lemma sublist_filter {A} (Q : A -> Prop) `{!forall x, Decision (Q x)} l : filter Q l `sublist_of` l.
Proof. induction l as [|x l IH]; [constructor|]. rewrite filter_cons. case_decide; by constructor. Qed.

(** one tick *)
Lemma forward_once_progress s :
  exists s' kept, forward_once s = (s', Ok tt) /\ progress (pending s) s s' kept (pending s')
    /\ (length (pending s') <= length (pending s) - forward_budget (node_state s))%nat.
Proof.
  unfold forward_once.
  assert (exists s1, maybe_rotate s = (s1, Ok tt) /\ pending s1 = pending s
            /\ log (net s1) = log (net s) /\ (ticks s <= ticks s1)%nat /\ node_state s1 = node_state s)
    as (s1 & E0 & Ep & El & Et & En).
  { unfold maybe_rotate. case_decide; eexists; (split; [reflexivity|]); cbn; split_and!; (done || lia). }
  rewrite (ST_bind_Ok _ _ _ _ _ E0), (ST_bind_Ok _ _ _ _ _ (evict_expired_eq s1)). erewrite ST_bind_Ok; [|reflexivity].
  set (s2 := set_pending _ _).
  destruct (forward_loop_progress (forward_budget (node_state s2)) s2) as (s3 & kept & E3 & P3 & H3).
  rewrite (ST_bind_Ok _ _ _ _ _ E3). eexists _, kept. split; [reflexivity|]. cbn [pending set_metrics].
  assert (progress (pending s) s s2 [] (unexpired s1)) as H2.
  { split_and!; [|by rewrite app_nil_r|cbn; lia|done|].
    - unfold unexpired. rewrite Ep. apply sublist_filter.
    - intros i Hi. destruct (is_expired (pm_message i) (node_clock (ticks s1))) eqn:He.
      + right; right. left. exists (ticks s1). cbn. split; [lia|done].
      + right; left. apply list_elem_of_filter. by rewrite Ep. }
  rewrite P3. split; [exact (progress_trans _ _ _ _ [] _ _ _ H2 H3)|].
  cbn [node_state s2 set_pending set_ticks pending]. rewrite length_drop. unfold unexpired. rewrite Ep, En.
  pose proof (sublist_length _ _ (sublist_filter (fun i => is_expired (pm_message i) (node_clock (ticks s1)) = false) (pending s))).
  lia.
Qed.

(** C31. Forwarding makes progress: after enough ticks for the length of the queue at
    the energy state's budget, every tick having succeeded, the queue is empty,
    and each message that was queued has been handed to the transport, in the
    order of the queue and with nothing else in between, unless it had expired
    by then or the energy state forbids its priority. *)
Theorem queue_drains (s : NodeRunner) (k : nat) :
  (length (pending s) <= k * forward_budget (node_state s))%nat ->
  exists s' kept, node_loop cfg (replicate k InForwardTick) s = (s', Ok tt) /\ pending s' = []
    /\ kept `sublist_of` pending s
    /\ log (net s') = log (net s) ++ (frame_of <$> kept)
    /\ forall i, i ∈ pending s -> i ∈ kept \/ excused s s' i.
Proof.
  enough (forall k s, exists s' kept, node_loop cfg (replicate k InForwardTick) s = (s', Ok tt)
    /\ progress (pending s) s s' kept (pending s')
    /\ (length (pending s') <= length (pending s) - k * forward_budget (node_state s))%nat) as Hk.
  { intros Hl. destruct (Hk k s) as (s' & kept & E & (Hs & L & _ & _ & A) & Hlen).
    assert (pending s' = []) as Hp by (apply nil_length_inv; lia). rewrite Hp in *. rewrite app_nil_r in Hs.
    exists s', kept. split_and!; try done. intros i Hi. destruct (A i Hi) as [?|[?%elem_of_nil|?]]; by auto. }
  clear k s. intros k. induction k as [|k IH]; intros s.
  { exists s, []. split; [done|]. split; [by apply progress_same|lia]. }
  destruct (forward_once_progress s) as (s1 & k1 & E1 & H1 & L1).
  destruct (IH s1) as (s2 & k2 & E2 & H2 & L2). exists s2, (k1 ++ k2). split_and!.
  - cbn [replicate node_loop node_step]. by rewrite (ST_bind_Ok _ _ _ _ _ E1).
  - by eapply progress_trans.
  - destruct H1 as (_ & _ & _ & En & _). rewrite En in L2. lia.
Qed.
End liveness.
