(* ===== verification/Libp2pNode.v ===== *)
(** * The node over libp2p

    [Libp2pTransport] as the [MeshTransport] of the run loop: the calls of the
    node change the transport of [Libp2p.v], and what the swarm reports becomes
    the events the node handles.  [Instant::now()] is the next of a sequence of
    readings. *)

From S2P Require Import Prelude External Text Bootstrap Wire E2E Bloom IngestGuard Security Storage Forwarding Libp2p NodeData Node NodeTheorems NodeSecurity NodeRouting NodeWalk.

Open Scope Z_scope.

Section libp2p_net.
Context {K : Type} `{CK : Countable K} `{W : !SwarmEnv K} `{C : Crypto}.
Variable instants : nat -> Z.

Record Libp2pNet := mkLibp2pNet {
  ln_transport : Libp2pTransport (K := K);
  ln_watching : bool;
  ln_readings : nat;
}.

Definition ln_run {A} (f : Libp2pTransport (K := K) -> Libp2pTransport (K := K) * A) (n : Libp2pNet) : Libp2pNet * A :=
  let '(t, r) := f (ln_transport n) in (mkLibp2pNet t (ln_watching n) (ln_readings n), r).
Definition ln_set (f : Libp2pTransport (K := K) -> Libp2pTransport (K := K)) (n : Libp2pNet) : Libp2pNet :=
  mkLibp2pNet (f (ln_transport n)) (ln_watching n) (ln_readings n).

Definition ln_send_direct (to : string) (m : WireMessage) (n : Libp2pNet) : Libp2pNet * anyhow unit :=
  ln_run (lt_send_direct (instants (ln_readings n)) to m)
    (mkLibp2pNet (ln_transport n) (ln_watching n) (S (ln_readings n))).

Definition libp2p_mesh : MeshTransport := {|
  Net := Libp2pNet;
  net_known_peers n := known_peers (ln_transport n);
  net_remember_and_dial a := ln_run (remember_and_dial a);
  net_redial := ln_set redial_stored_targets;
  net_send_direct := ln_send_direct;
  net_publish_scoped scope p := ln_run (publish_scoped scope p);
  net_subscribe_scope scope := ln_run (subscribe_scope scope);
  net_unsubscribe_scope scope := ln_run (unsubscribe_scope scope);
  net_kad_find_peer p := ln_set (kad_find_peer p);
  net_connected_count n := connected_peer_count (ln_transport n);
  net_max_direct_peers n := Z.of_nat (max_direct_peers (ln_transport n));
  net_cap_rejections n := transport_cap_rejections (ln_transport n);
|}.
End libp2p_net.

Section libp2p_node.
Context {K : Type} `{CK : Countable K} `{W : !SwarmEnv K} `{C : Crypto}.
Variable local_id : K.
Variable instants : nat -> Z.
#[local] Existing Instance libp2p_mesh.
#[local] Instance the_mesh : MeshTransport := libp2p_mesh instants.
Context `{M : MessageStore} `{ML : !MessageStoreLaws M} `{H : !NodeHost} `{HI : IdHash}.
Context `{P : E2EPrims} `{F : FileSys} `{BW : Bincode WireMessage}.
Variable cfg : NodeConf.

(** what the run loop selects from: the transport, and everything else *)
Inductive Libp2pInput := FromTransport (i : TransportInput (K := K)) | FromLoop (i : NodeInput).

Definition poll (i : TransportInput (K := K)) : ST NodeRunner (option TransportEvent) := fun s =>
  let n : Libp2pNet := net s in
  let '((t, rx), ev) := transport_input local_id i (ln_transport n, ln_watching n) in
  (set_net (mkLibp2pNet t rx (ln_readings n) : Net) s, Ok ev).

Definition libp2p_step (i : Libp2pInput) : ST NodeRunner unit :=
  match i with
  | FromTransport i => ev ← poll i; match ev with Some ev => node_step cfg (InEvent ev) | None => mret tt end
  | FromLoop i => node_step cfg i
  end.

Fixpoint libp2p_loop (inputs : list Libp2pInput) : ST NodeRunner unit :=
  match inputs with
  | [] => mret tt
  | i :: inputs => _ ← libp2p_step i; libp2p_loop inputs
  end.

(** ** The cap and the metrics *)

(** the transport holds its cap, and the node reports no more than that *)
Definition capped (max : nat) (s : NodeRunner) : Prop :=
  let c := peer_cap (ln_transport (net s)) in
  cap_inv c /\ cap_max_peers c = max /\ (0 < max)%nat
  /\ Z.of_nat (connected_peers (metrics s)) <= max_peers (metrics s).

Definition keeps_cap (max : nat) (s s' : NodeRunner) : Prop := capped max s -> capped max s'.

Lemma capped_report max s : capped max s ->
  cap_inv (peer_cap (ln_transport (net s))) /\ (length (net_known_peers (net s)) <= max)%nat
  /\ Z.of_nat (connected_peers (metrics s)) <= max_peers (metrics s).
Proof.
  intros (H1 & H2 & H3 & H4). split_and!; try done. cbn. unfold known_peers.
  etrans; [apply length_filter|]. rewrite length_fmap. destruct H1 as [_ H1]. unfold cap_len, size, set_size in H1. simpl in *. lia.
Qed.

Lemma keeps_cap_net max (s : NodeRunner) (n : Libp2pNet) :
  (cap_inv (peer_cap (ln_transport (net s))) -> cap_inv (peer_cap (ln_transport n))) ->
  cap_max_peers (peer_cap (ln_transport n)) = cap_max_peers (peer_cap (ln_transport (net s))) ->
  keeps_cap max s (set_net (n : Net) s).
Proof. intros Hi Hm (H1 & H2 & H3 & H4). unfold capped. cbn [net set_net metrics]. rewrite Hm. by split_and!; [apply Hi|..]. Qed.

Lemma keeps_cap_same max (s : NodeRunner) (n : Libp2pNet) :
  peer_cap (ln_transport n) = peer_cap (ln_transport (net s)) -> keeps_cap max s (set_net (n : Net) s).
Proof. intros E. apply keeps_cap_net; by rewrite E. Qed.

Lemma cap_touch_max now p c : cap_max_peers (cap_touch (K := K) now p c) = cap_max_peers c.
Proof. unfold cap_touch. by case_decide. Qed.

#[local] Instance cap_walk allow max : Walk allow (keeps_cap max).
Proof.
  assert (forall s to m, keeps_cap max s (set_net (net_send_direct to m (net s)).1 s)) as Hsend.
  { intros s to m. cbn. unfold ln_send_direct, ln_run, lt_send_direct. cbn.
    destruct (pid_parse to); [|by apply keeps_cap_same].
    apply keeps_cap_net; cbn; [apply cap_touch_inv|apply cap_touch_max]. }
  split; try by intros; intros Hs.
  - split; [by intros s Hs|]. intros s1 s2 s3 H1 H2 Hs. by apply H2, H1.
  - unfold keeps_cap, capped, observed. by intros s s' [= -> _ _ -> ->].
  - intros s m (H1 & H2 & H3 & H4). split_and!; try done. destruct H1 as [_ H1]. cbn.
    unfold connected_peer_count, max_direct_peers. lia.
  - intros s i rest _. apply (Hsend (set_pending rest s)).
  - intros s to m _. apply Hsend.
  - intros s a. apply keeps_cap_same. cbn. unfold ln_run, remember_and_dial, queue_dial_target.
    destruct (addr_parse a); [|done]. cbn. apply add_target_cap.
  - intros s. apply keeps_cap_same. apply dial_all_cap.
  - intros s p. apply keeps_cap_same. cbn. unfold kad_find_peer. by destruct (pid_parse p).
Qed.

Lemma poll_capped i max s : keeps_cap max s (poll i s).1.
Proof.
  unfold poll. destruct (transport_input local_id i _) as [[t rx] ev] eqn:E. intros Hs. pose proof Hs as (H1 & H2 & H3 & H4).
  pose proof (transport_run_inv local_id [i] (ln_transport (net s), ln_watching (net s)) H1 ltac:(cbn; lia)) as [Hi Hm].
  cbn [transport_run] in Hi, Hm. rewrite E in Hi, Hm. cbn in Hi, Hm. by apply keeps_cap_net.
Qed.

Lemma libp2p_step_capped i max s : keeps_cap max s (libp2p_step i s).1.
Proof.
  destruct i as [i|i]; cbn [libp2p_step]; [|apply (node_step_walks cfg i (keeps_cap max))].
  pose proof (poll_capped i max s) as Hp. unfold mbind, ST_bind.
  destruct (poll i s) as [s1 [[ev|]|e]]; try exact Hp. intros Hs. apply (node_step_walks cfg (InEvent ev) (keeps_cap max)), Hp, Hs.
Qed.

(** the limit of a new transport *)
Definition limit_of (max : nat) : nat := if decide (max = 0%nat) then 50%nat else max.

Lemma new_capped addrs max watching st d bs r :
  capped (limit_of max) (node_new (mkLibp2pNet (transport_new addrs max) watching 0 : Net) st d bs r).
Proof.
  unfold capped. cbn [node_new net metrics ln_transport]. unfold transport_new. rewrite setup_kad_cap, relay_listen_cap, dial_all_cap.
  split_and!; [apply cap_new_inv|done|unfold limit_of; case_decide; lia|done].
Qed.

Hypothesis cap_pos : (0 < pending_cap cfg)%nat.

Lemma set_net_rel (n : Net) s : rel cfg false s (set_net n s).
Proof. by apply rel_frame. Qed.

Lemma libp2p_step_inv i s : rel cfg false s (libp2p_step i s).1.
Proof.
  destruct i as [i|i]; cbn [libp2p_step]; [|intros Hs; split; [by apply (step_node cfg cap_pos i s)|done]].
  unfold mbind, ST_bind, poll. destruct (transport_input local_id i _) as [[t rx] [ev|]]; cbn [fst]; [|by apply rel_frame].
  etrans; [apply set_net_rel|].
  intros Hs. split; [by apply (step_node cfg cap_pos (InEvent ev))|done].
Qed.

(** what the node over libp2p keeps, failing steps included *)
Lemma libp2p_loop_keeps max inputs s : capped max s -> node_inv cfg s ->
  capped max (libp2p_loop inputs s).1 /\ node_inv cfg (libp2p_loop inputs s).1.
Proof.
  revert s. induction inputs as [|i inputs IH]; intros s Hc Hn; [done|].
  pose proof (libp2p_step_capped i max s Hc) as Hc1. pose proof (libp2p_step_inv i s Hn) as [Hn1 _].
  cbn [libp2p_loop]. unfold mbind, ST_bind. destruct (libp2p_step i s) as [s1 [[]|e]]; cbn [fst] in *; [by apply IH|done].
Qed.

(** ** Evicted peers *)

(** the tracked peers do not change, and no listed peer is dropped *)
Definition same_peers (s s' : NodeRunner) : Prop :=
  cap_peers (peer_cap (ln_transport (net s'))) = cap_peers (peer_cap (ln_transport (net s))).

#[local] Instance peers_walk allow : Walk allow same_peers.
Proof.
  assert (forall s to m, same_peers s (set_net (net_send_direct to m (net s)).1 s)) as Hsend.
  { intros s to m. unfold same_peers. cbn. unfold ln_send_direct, ln_run, lt_send_direct. cbn. destruct (pid_parse to); [|done].
    cbn. unfold cap_touch. by case_decide. }
  split; try done.
  - split; [by unfold same_peers|]. intros s1 s2 s3 H1 H2. unfold same_peers in *. by rewrite H2, H1.
  - unfold same_peers, observed. by intros s s' [= -> _ _ _ _].
  - intros s i rest _. apply (Hsend (set_pending rest s)).
  - intros s a. unfold same_peers. cbn. unfold ln_run, remember_and_dial, queue_dial_target. destruct (addr_parse a); [|done].
    cbn. by rewrite add_target_cap.
  - intros s. unfold same_peers. cbn. by rewrite dial_all_cap.
  - intros s p. unfold same_peers. cbn. unfold kad_find_peer. by destruct (pid_parse p).
Qed.

(** a computation that drops no listed peer *)
Definition lists {A} (e : string) (m : ST NodeRunner A) : Prop := forall s, e ∈ peers s -> e ∈ peers (m s).1.

Lemma lists_bind {A B} e (m : ST NodeRunner A) (f : A -> ST NodeRunner B) :
  lists e m -> (forall a, lists e (f a)) -> lists e (m ≫= f).
Proof.
  intros Hm Hf s Hs. unfold mbind, ST_bind. specialize (Hm s Hs). destruct (m s) as [s1 [a|?]]; [by apply Hf|done].
Qed.

Lemma lists_send e to m : lists e (send_direct to m).
Proof. intros s Hs. unfold send_direct, on_net. by destruct (net_send_direct to m (net s)). Qed.

Lemma peer_up_lists p e : lists e (handle_transport_event cfg (PeerUp p)).
Proof.
  cbn [handle_transport_event]. destruct (is_relay_peer p); [by intros s Hs|]. apply lists_bind.
  { intros s Hs. cbn. unfold push_new. case_decide; [done|]. apply elem_of_app. by left. }
  intros _. unfold send_scope_announce, send_peer_info, send_sync_bloom, own_ids, send_bloom.
  repeat first [apply lists_bind; [|intros ?] | apply lists_send | (by intros s Hs) | case_match].
Qed.

Lemma closed_untracked later e (t : Libp2pTransport (K := K)) : e ∉ cap_peers (peer_cap t) ->
  handle_swarm_event local_id later (ConnectionClosed e) t = (t, None).
Proof. intros He. cbn [handle_swarm_event]. unfold cap_contains. by rewrite bool_decide_eq_false_2, andb_false_r. Qed.

(** A peer the cap evicts stays in the list of the node: when a new connection makes
    the transport disconnect a listed peer, the node still lists that peer after its
    connection has closed, although the transport no longer tracks it. *)
Theorem evicted_peer_stays_listed (now later : Z) (p e : K) (s : NodeRunner) (t' : Libp2pTransport (K := K)) (o : option TransportEvent) :
  handle_swarm_event local_id now (ConnectionEstablished p) (ln_transport (net s)) = (t', o) ->
  e ∉ cap_peers (peer_cap t') -> pid_string e ∈ peers s ->
  let s' := (libp2p_loop [FromTransport (ISwarm now (ConnectionEstablished p)); FromTransport (ISwarm later (ConnectionClosed e))] s).1 in
  pid_string e ∈ peers s' /\ e ∉ cap_peers (peer_cap (ln_transport (net s'))).
Proof.
  intros Hev He Hl. cbv zeta. cbn [libp2p_loop libp2p_step]. set (up := poll (ISwarm now (ConnectionEstablished p)) ≫= _).
  assert (pid_string e ∈ peers (up s).1 /\ e ∉ cap_peers (peer_cap (ln_transport (net (up s).1)))) as [H1 H2].
  { unfold up, mbind, ST_bind, poll. cbn [transport_input]. rewrite Hev.
    set (s1 := set_net _ s). assert (o = None \/ o = Some (PeerUp (pid_string p))) as [->| ->].
    { cbn [handle_swarm_event] in Hev. unfold peer_up in Hev.
      destruct (handle_connection_established local_id now p _) as [? []]; injection Hev as _ <-; auto. }
    - done.
    - split; [by apply peer_up_lists|].
      pose proof (node_step_walks cfg (InEvent (PeerUp (pid_string p))) same_peers s1) as E. unfold same_peers in E. rewrite E. exact He. }
  rewrite ST_bind_eq. destruct (up s) as [s2 [[]|?]]; cbn [fst] in *; [|by split].
  rewrite ST_bind_eq, ST_bind_eq. unfold poll. cbn [transport_input]. by rewrite (closed_untracked later e _ H2).
Qed.
End libp2p_node.
