(* ===== verification/NodeHandle.v ===== *)
(** * The handle of the run loop

    [NodeHandle] of [mycelium-node/src/node.rs]: the objects the run loop shares
    with the application.  The command channel, the peer list and the key table
    are part of [AppNodeData.v]; the rest is the view below, a projection of the
    state of [NodeData.v] at the moment it is read. *)

From S2P Require Import Prelude External Text Bootstrap Wire E2E Bloom IngestGuard Security Storage Forwarding NodeData Node NodeTheorems.

Open Scope Z_scope.

Section handle.
Context `{C : Crypto}.

Record NodeView := mkView {
  nv_metrics : NodeMetrics;
  nv_reputations : gmap string Reputation;
  nv_scopes : gset string;
  nv_bulletins : list string;
  nv_relay : RelayIdentity;
  nv_instant : Z;
  nv_listen_addrs : list string;
}.

Definition peer_reputation (v : NodeView) (peer_id : string) : option Reputation := nv_reputations v !! peer_id.
Definition handle_scopes (v : NodeView) : list string := elements (nv_scopes v).
Definition handle_relay_peer_id (v : NodeView) : string := relay_peer_id (nv_relay v).

(** [created_at.elapsed().as_secs()] *)
Definition relay_keypair_age_secs (v : NodeView) : Z := nv_instant v -sat rel_created_at (nv_relay v).
Definition is_bulletin_enabled (v : NodeView) : bool := negb (bool_decide (nv_bulletins v = [])).
End handle.

(** ** What the run loop shares *)
Section view_of.
Context `{C : Crypto} `{T : MeshTransport} `{M : MessageStore}.

Definition view_of (now : Z) (s : NodeRunner) : NodeView :=
  mkView (metrics s) (peer_reputations s) (subscribed_scopes s) (bulletin_subscriptions s) (relay_identity s) now
    (listen_addrs s).
End view_of.

(** ** Start-up: the configuration *)

(** the connectivity watch is there or not *)
Record NodeConfig := mkNodeConfig {
  nc_listen_addr : string;
  nc_db_path : string;
  nc_keypair_path : option string;
  nc_forwarding_interval_ms : Z;
  nc_sync_interval_secs : Z;
  nc_bootstrap_peers : list string;
  nc_connectivity_rx : bool;
  nc_display_name : option string;
  nc_storage_key : option (list byte);
  nc_max_relay_fanout : nat;
  nc_rendezvous_enabled : bool;
  nc_bulletin_subscriptions : list string;
  nc_max_peers : nat;
}.

Definition default_max_peers : nat := 50.
Definition default_max_relay_fanout : nat := 3.

Definition config_default : NodeConfig :=
  mkNodeConfig "/ip4/0.0.0.0/tcp/0" ".mycelium-node" (Some ".mycelium-node/identity"%string) 500 30 [] false None None
    default_max_relay_fanout true [] default_max_peers.

Definition with_defaults (db_path : string) : NodeConfig :=
  mkNodeConfig "/ip4/0.0.0.0/tcp/0" db_path (Some (db_path +:+ "/identity")%string) 500 30 [] false None None
    default_max_relay_fanout true [] default_max_peers.

(** where the identity is kept: the configured path, or beside the database *)
Definition keypair_path_of (c : NodeConfig) : string := default (nc_db_path c +:+ "/identity")%string (nc_keypair_path c).

(** the two ways of getting defaults agree, and a configuration that leaves the
    identity path open finds the one the defaults name *)
Theorem defaults_agree (db : string) (c : NodeConfig) :
  config_default = with_defaults ".mycelium-node"
  /\ (nc_db_path c = db -> nc_keypair_path c = None -> keypair_path_of c = keypair_path_of (with_defaults db)).
Proof. split; [done|]. intros Hd Hk. unfold keypair_path_of. by rewrite Hd, Hk. Qed.

(** ** Start-up: the peers to dial

    [NodeRunner::new]: the configured peers, or those of the environment and the
    files when none are configured, and every persisted one. *)

Definition push_peer (peers : list string) (extra : string) : list string :=
  if existsb (fun p => bool_decide (p = extra)) peers then peers else peers ++ [extra].

Definition dial_list (configured : list string) (env : option string) (d : DataDir) : list string :=
  foldl push_peer (if bool_decide (configured = []) then load_bootstrap_peers env d else configured)
    (load_persisted_dial_peers d).

(** no peer is lost, and a persisted one is dialled once *)
Lemma push_peer_incl peers x : peers ⊆ push_peer peers x /\ x ∈ push_peer peers x.
Proof.
  unfold push_peer. destruct (existsb _ peers) eqn:E; [|set_solver].
  apply existsb_exists in E as (y & Hy & E%bool_decide_eq_true). subst. rewrite list_elem_of_In. set_solver.
Qed.

Lemma push_peer_nodup peers x : NoDup peers -> NoDup (push_peer peers x).
Proof.
  intros H. unfold push_peer. destruct (existsb _ peers) eqn:E; [done|]. apply NoDup_app. split_and!; [done| |apply NoDup_singleton].
  intros y Hy ->%list_elem_of_singleton. enough (existsb (fun p => bool_decide (p = x)) peers = true) by congruence.
  apply existsb_exists. exists x. by rewrite <- list_elem_of_In, bool_decide_true.
Qed.

Theorem dial_list_complete (configured : list string) (env : option string) (d : DataDir) :
  let base := if bool_decide (configured = []) then load_bootstrap_peers env d else configured in
  base ⊆ dial_list configured env d
  /\ load_persisted_dial_peers d ⊆ dial_list configured env d
  /\ (NoDup base -> NoDup (dial_list configured env d)).
Proof.
  cbv zeta. unfold dial_list. generalize (if bool_decide (configured = []) then load_bootstrap_peers env d else configured).
  generalize (load_persisted_dial_peers d). intros extra.
  induction extra as [|x extra IH]; intros base; [set_solver|]. cbn [foldl].
  destruct (IH (push_peer base x)) as (H1 & H2 & H3). destruct (push_peer_incl base x) as [Hi Hx].
  split_and!; [set_solver|set_solver|]. intros Hn. by apply H3, push_peer_nodup.
Qed.

(** ** Requests through the handle

    The operations of [NodeHandle] that read what the run loop shares, and the two
    that send a command with a reply channel and wait: the loop answers, or ends
    and drops the channel. *)


Section requests.
Context `{C : Crypto} `{T : MeshTransport} `{M : MessageStore} `{ML : !MessageStoreLaws M} `{H : !NodeHost}.
Context `{HI : IdHash} `{P : E2EPrims} `{F : FileSys} `{BW : Bincode WireMessage}.
Variable cfg : NodeConf.

Definition handle_metrics (v : NodeView) : NodeMetrics := nv_metrics v.
Definition handle_listen_addrs (v : NodeView) : list string := nv_listen_addrs v.
Definition handle_bulletins (v : NodeView) : list string := nv_bulletins v.

(** [tx.send(cmd)] with a reply channel, handled by the loop, then [rx.await] *)
Definition ask {A} (cmd : NodeCommand) (answer : NodeRunner -> anyhow A) (closed : string) : ST NodeRunner A := fun s =>
  match handle_command cfg cmd s with
  | (s', Ok _) => (s', match answer s with Ok a => Ok a | Err _ => Err closed end)
  | (s', Err _) => (s', Err closed)
  end.

Definition gc_now : ST NodeRunner nat := ask GcNow (fun s => (gc_store s).2) "gc response channel closed".
Definition store_stats : ST NodeRunner StoreStats := ask GetStoreStats (fun s => ms_stats (store s)) "store stats response channel closed".
Definition subscribe_bulletin (scope : string) : ST NodeRunner unit := handle_command cfg (SubscribeBulletinScope scope).
Definition unsubscribe_bulletin (scope : string) : ST NodeRunner unit := handle_command cfg (UnsubscribeBulletinScope scope).

(** A collection asked for through the handle is answered, and only removes
    messages; asking for the figures changes nothing. *)
Theorem requests_answered (s : NodeRunner) :
  store_ok (store s) ->
  (exists s' n, gc_now s = (s', Ok n) /\ store_ok (store s') /\ store_view (store s') ⊆ store_view (store s)
     /\ pending s' = pending s /\ incoming s' = incoming s /\ net s' = net s)
  /\ (store_stats s).1 = s /\ forall r, ms_stats (store s) = Ok r -> (store_stats s).2 = Ok r.
Proof.
  intros Hs. split.
  - destruct (ms_gc_ok (node_clock (ticks s)) (store s) Hs) as (st & n & E & Hok & Hv).
    set (s1 := set_store st (set_ticks (S (ticks s)) s)).
    assert (gc_store s = (s1, Ok n)) as Eg.
    { unfold gc_store. rewrite (ST_bind_Ok now_ms _ s _ _ eq_refl). unfold prim. cbn [store set_ticks]. by rewrite E. }
    exists s1, n. unfold gc_now, ask. cbn [handle_command]. rewrite (ST_bind_Ok _ _ _ _ _ Eg), Eg. by split_and!.
  - unfold store_stats, ask. cbn [handle_command]. rewrite (ST_bind_Ok st_get _ _ _ _ eq_refl).
    unfold mbind, ST_bind, st_lift. destruct (ms_stats (store s)); (split; [done|]); intros ? [=]; by subst.
Qed.
End requests.
