(* ===== verification/NodeStart.v ===== *)
(** * Starting a node

    [NodeRunner::new_with_transport] over any transport, [Libp2pTransport::new] and
    [NodeRunner::new].  Building the swarm and listening are the library's, and so
    arguments that may fail; opening the message store is an argument too. *)

From S2P Require Import Prelude External Text Bootstrap Wire E2E Host AtRest Bloom IngestGuard Security Storage Forwarding Libp2p NodeData Node NodeTheorems NodeSecurity NodeRouting NodeWalk Libp2pNode NodeHandle.

Open Scope Z_scope.

(** ** Over any transport *)
Section assemble.
Context `{C : Crypto} `{T : MeshTransport} `{M : MessageStore} `{H : !NodeHost}.

Definition PENDING_CAP : nat := 1024.
Lemma pending_cap_pos : (0 < PENDING_CAP)%nat.
Proof. unfold PENDING_CAP. lia. Qed.

Definition assemble (c : NodeConfig) (kp : option Keypair) (p : string) (enc : EncryptionKeypair) (n : Net) (st : Store) (d : DataDir) :
    NodeConf * NodeRunner :=
  (mkConf kp p PENDING_CAP enc (nc_display_name c) (nc_max_relay_fanout c),
   node_new n st d (nc_bulletin_subscriptions c) (nc_rendezvous_enabled c)).
End assemble.

Section new_with_transport.
Context `{V : VaultHost} `{DK : Disk} `{KR : Keyring} `{P : E2EPrims}.
Context `{T : MeshTransport} `{M : MessageStore} `{H : !NodeHost}.
Variable open_store : string -> anyhow Store.

Definition new_with_transport (c : NodeConfig) (kp : option Keypair) (p : string) (n : Net) (d : DataDir) : ST VaultWorld (NodeConf * NodeRunner) :=
  enc ← load_or_create_enc_keypair (nc_db_path c) (nc_storage_key c);
  st ← st_lift (open_store (nc_db_path c));
  mret (assemble c kp p enc n st d).

Lemma new_with_transport_inv c kp p n d w w' cr :
  new_with_transport c kp p n d w = (w', Ok cr) -> exists enc st, open_store (nc_db_path c) = Ok st /\ cr = assemble c kp p enc n st d.
Proof.
  intros H1. apply ST_bind_inv in H1 as (w1 & enc & _ & H1). apply ST_bind_inv in H1 as (w2 & st & Hst & H1).
  injection Hst as _ Hst. injection H1 as _ <-. by exists enc, st.
Qed.
End new_with_transport.

(** [MeshBehaviour]: the protocols the swarm of a node runs with; those left out
    take the defaults of libp2p *)
Section behaviour.
Context `{C : Crypto}.
Record MeshBehaviour := mkMesh {
  mb_peer : string;
  mb_gossip_signer : Keypair;
  mb_direct : string;
  mb_identify : string;
  mb_kad_protocol : string;
  mb_kad_query_timeout : Z;
}.

Definition mesh_behaviour (local_key : Keypair) : MeshBehaviour :=
  mkMesh (peer_string (pk_peer_id (kp_public local_key))) local_key "/mycelium/direct/1" "mycelium/0.1" "/mycelium/kad/1.0.0" 60.
End behaviour.

(** ** Over libp2p *)
Section libp2p_start.
Context {K : Type} `{CK : Countable K} `{W : !SwarmEnv K}.
Context `{V : VaultHost} `{DK : Disk} `{KR : Keyring} `{P : E2EPrims} `{M : MessageStore} `{H : !NodeHost}.
Variable instants : nat -> Z.
#[local] Instance net_libp2p : MeshTransport := libp2p_mesh instants.
Variable open_store : string -> anyhow Store.
(** [SwarmBuilder] up to [build] with the behaviour, and [listen_on] *)
Variables (build_swarm : MeshBehaviour -> anyhow unit) (listen_on : string -> anyhow unit).

Definition QUIC_ADDR : string := "/ip4/0.0.0.0/udp/0/quic-v1".

(** listening on QUIC is tried and not required *)
Definition libp2p_new (c : NodeConfig) (keypair_path : option string) (peers : list string) : ST VaultWorld (Keypair * Libp2pTransport (K := K)) :=
  let keypair_path := default ".mycelium-node/identity"%string keypair_path in
  key ← load_or_create_keypair keypair_path (nc_storage_key c);
  _ ← st_lift (build_swarm (mesh_behaviour key));
  _ ← st_lift (listen_on (nc_listen_addr c));
  _ ← match addr_parse QUIC_ADDR with Some _ => mret tt | None => st_err "invalid multiaddr" end;
  mret (key, transport_new peers (nc_max_peers c)).

Definition runner_over_libp2p (c : NodeConfig) (env : option string) (d : DataDir) : ST VaultWorld (NodeConf * NodeRunner) :=
  let peers := dial_list (nc_bootstrap_peers c) env d in
  kt ← libp2p_new c (Some (keypair_path_of c)) peers;
  new_with_transport open_store c (Some kt.1) (peer_string (pk_peer_id (kp_public kt.1)))
    (mkLibp2pNet kt.2 (nc_connectivity_rx c) 0 : Net) d.

Lemma libp2p_new_inv c path peers w w' kt : libp2p_new c path peers w = (w', Ok kt) ->
  exists w1, load_or_create_keypair (default ".mycelium-node/identity"%string path) (nc_storage_key c) w = (w1, Ok kt.1)
    /\ build_swarm (mesh_behaviour kt.1) = Ok tt /\ listen_on (nc_listen_addr c) = Ok tt /\ kt.2 = transport_new peers (nc_max_peers c).
Proof.
  intros H1. apply ST_bind_inv in H1 as (w1 & key & Hk & H1). apply ST_bind_inv in H1 as (w2 & [] & [= <- Hb] & H1).
  apply ST_bind_inv in H1 as (w3 & [] & [= <- Hl] & H1). apply ST_bind_inv in H1 as (w4 & [] & _ & H1).
  injection H1 as _ <-. by exists w1.
Qed.

(** ** The swarm is told to dial *)

Abbreviation told t t' := (swarm_log t `prefix_of` swarm_log t').

Lemma foldl_told {A} (f : Libp2pTransport (K := K) -> A -> Libp2pTransport (K := K)) l t : (forall t a, told t (f t a)) -> told t (foldl f t l).
Proof. intros Hf. revert t. induction l as [|a l IH]; intros t; [done|]. cbn. etrans; [apply Hf|apply IH]. Qed.

Lemma emit_told (x : SwarmCmd K Multiaddr) t : told t (Libp2p.emit x t).
Proof. by eexists. Qed.

Lemma dial_all_log l (t : Libp2pTransport (K := K)) a : a ∈ l -> CDial a ∈ swarm_log (foldl (fun t a => (dial a t).1) t l).
Proof.
  revert t. induction l as [|b l IH]; intros t; [by intros ?%elem_of_nil|]. cbn. intros [->|Ha]%elem_of_cons; [|by apply IH].
  eapply elem_of_prefix; [|apply foldl_told; intros; apply emit_told]. cbn. apply elem_of_app. right. by left.
Qed.

Lemma relay_listen_told l (t : Libp2pTransport (K := K)) : told t (enable_relay_inbound_listen l t).
Proof.
  induction l as [|a l IH]; [done|]. cbn. destruct (negb _); [done|]. destruct (addr_parse _); [apply emit_told|done].
Qed.

Lemma setup_kad_told (t : Libp2pTransport (K := K)) : told t (setup_kad t).
Proof.
  unfold setup_kad. set (t1 := set_kad_mode KadClient t). assert (told t t1) as H1 by apply emit_told. etrans; [exact H1|].
  set (t2 := foldl _ t1 _). assert (told t1 t2) as H2.
  { apply foldl_told. intros t' a. destruct (head _); [apply emit_told|done]. }
  etrans; [exact H2|]. case_decide; [done|apply emit_told].
Qed.

Lemma transport_new_dials addrs max s a : s ∈ addrs -> addr_parse s = Some a ->
  CDial a ∈ swarm_log (transport_new (K := K) addrs max).
Proof.
  intros Hs Ha. unfold transport_new. eapply elem_of_prefix; [|etrans; [apply relay_listen_told|apply setup_kad_told]].
  apply dial_all_log. apply list_elem_of_omap. by exists s.
Qed.
End libp2p_start.

(** ** From start-up on *)
Section lifetime.
Context {K : Type} `{CK : Countable K} `{W : !SwarmEnv K}.
Context `{V : VaultHost} `{DK : Disk} `{KR : Keyring} `{P : E2EPrims} `{M : MessageStore} `{ML : !MessageStoreLaws M} `{H : !NodeHost}.
Context `{HI : IdHash} `{F : FileSys} `{BW : Bincode WireMessage}.
Variables (local_id : K) (instants : nat -> Z) (open_store : string -> anyhow Store).
Variables (build_swarm : MeshBehaviour -> anyhow unit) (listen_on : string -> anyhow unit).
#[local] Instance lifetime_net : MeshTransport := libp2p_mesh instants.
Hypothesis stores_open_sound : forall db st, open_store db = Ok st -> store_ok st.

(** C11. A node started over libp2p, whatever the configuration, the files and the key
    store hold: it goes by the peer id of the key pair in its identity file, its
    swarm has been told to dial every configured address that parses and every one
    it had persisted; and after any swarm events, connectivity changes, commands
    and ticks, failing ones included, it keeps its invariant, tracks at most the
    configured number of peers (50 for 0), exactly those with a last-seen time, and
    reports no more connections than its limit. *)
Theorem libp2p_node_lifetime (c : NodeConfig) (env : option string) (d : DataDir) (w w' : VaultWorld) (cfg : NodeConf)
    (s0 : NodeRunner) (inputs : list (Libp2pInput (K := K))) :
  runner_over_libp2p instants open_store build_swarm listen_on c env d w = (w', Ok (cfg, s0)) ->
  let s := (libp2p_loop local_id instants cfg inputs s0).1 in
  (exists w1 kp, load_or_create_keypair (keypair_path_of c) (nc_storage_key c) w = (w1, Ok kp)
     /\ keypair cfg = Some kp /\ local_peer_id cfg = peer_string (pk_peer_id (kp_public kp)))
  /\ (forall x a, x ∈ nc_bootstrap_peers c \/ x ∈ load_persisted_dial_peers d -> addr_parse x = Some a ->
        CDial a ∈ swarm_log (ln_transport (net s0)))
  /\ node_inv cfg s
  /\ cap_inv (peer_cap (ln_transport (net s)))
  /\ (length (net_known_peers (net s)) <= limit_of (nc_max_peers c))%nat
  /\ Z.of_nat (connected_peers (metrics s)) <= max_peers (metrics s).
Proof.
  intros Hr s. apply ST_bind_inv in Hr as (w1 & [kp t] & Hk & Hr).
  apply libp2p_new_inv in Hk as (w2 & Hk & _ & _ & Ht). cbn [fst snd default] in *. subst t.
  apply new_with_transport_inv in Hr as (enc & st & Hst & [= -> ->]). split; [by exists w2, kp|]. split.
  - intros x a Hx Ha. eapply transport_new_dials; [|exact Ha].
    destruct (dial_list_complete (nc_bootstrap_peers c) env d) as (H1 & H2 & _). destruct Hx as [Hx|Hx]; [|by apply H2].
    apply H1. by case_bool_decide as E; [rewrite E in Hx; apply elem_of_nil in Hx|].
  - unfold s. match goal with |- context [libp2p_loop _ _ ?cfg _ ?s0] =>
      destruct (libp2p_loop_keeps local_id instants cfg pending_cap_pos (limit_of (nc_max_peers c)) inputs s0) as [Hc Hn] end.
    + apply new_capped.
    + apply node_new_inv; [exact pending_cap_pos|by eapply stores_open_sound].
    + split; [exact Hn|]. by apply capped_report.
Qed.
End lifetime.
