(* ===== verification/CoreDemo.v ===== *)
(** * Concrete runs of the core and node components

    Codecs for the wire types over the toy instances, and one run of every
    theorem of the core, guard, store, forwarding and transport files on
    concrete inputs. *)

From S2P Require Import Prelude External Text Instances Bootstrap Wire E2E Bloom IngestGuard Security Storage Forwarding Libp2p.

Open Scope Z_scope.

(** ** Codecs *)

Definition priority_code (p : Priority) : option (option positive) :=
  match p with Low => None | Normal => Some None | High => Some (Some 1%positive) end.
Definition code_priority (o : option (option positive)) : Priority :=
  match o with None => Low | Some None => Normal | Some (Some _) => High end.
Lemma code_priority_code p : code_priority (priority_code p) = p.
Proof. by destruct p. Qed.
Global Instance codec_priority : Codec Priority := codec_iso priority_code code_priority code_priority_code.

Definition env_tuple (e : Envelope) :=
  ((e_id e, from_peer e, to_peer e, payload e, created_at_ms e, ttl_secs e),
   (priority e, signature e, sig_version e, hop_count e, max_hops e, author_peer e)).
Definition tuple_env (t : (string * string * option string * list byte * Z * Z)
                          * (Priority * option (list byte) * Z * Z * Z * option string)) : Envelope :=
  let '((i, f, o, p, c, l), (r, g, v, h, x, a)) := t in mkEnvelope i f o p c l r g v h x a.
Lemma tuple_env_tuple e : tuple_env (env_tuple e) = e.
Proof. by destruct e. Qed.
Global Instance codec_envelope : Codec Envelope := codec_iso env_tuple tuple_env tuple_env_tuple.

Lemma dm_pair m : mkDM (dm_envelope m) (dm_body m) = m.
Proof. by destruct m. Qed.
Global Instance codec_dm : Codec DirectMessage :=
  codec_iso (fun m => (dm_envelope m, dm_body m)) (fun p => mkDM p.1 p.2) dm_pair.

Definition ed_tuple (f : EncryptedDirectFrame) :=
  (ed_to_peer f, sender_enc_pubkey f, encrypted_payload f, mesh_signature f, ed_hop_count f, ed_max_hops f).
Definition tuple_ed (t : string * string * list byte * option (list byte) * Z * Z) : EncryptedDirectFrame :=
  let '(a, b, c, d, e, f) := t in mkED a b c d e f.
Lemma tuple_ed_tuple f : tuple_ed (ed_tuple f) = f.
Proof. by destruct f. Qed.
Global Instance codec_ed : Codec EncryptedDirectFrame := codec_iso ed_tuple tuple_ed tuple_ed_tuple.

Abbreviation wire_sum :=
  (DirectMessage + (list byte * Z) + list string + list string
   + (list DirectMessage + list string + EncryptedDirectFrame + (string * list byte)
      + (string * option string * list string)))%type.

Definition wire_to_sum (w : WireMessage) : wire_sum :=
  match w with
  | Data m => inl (inl (inl (inl m)))
  | SyncBloom b c => inl (inl (inl (inr (b, c))))
  | SyncIds l => inl (inl (inr l))
  | SyncRequest l => inl (inr l)
  | SyncData l => inr (inl (inl (inl (inl l))))
  | ScopeAnnounce l => inr (inl (inl (inl (inr l))))
  | EncryptedDirect f => inr (inl (inl (inr f)))
  | EncryptedGroup g p => inr (inl (inr (g, p)))
  | PeerInfo h d s => inr (inr (h, d, s))
  end.
Definition sum_to_wire (w : wire_sum) : WireMessage :=
  match w with
  | inl (inl (inl (inl m))) => Data m
  | inl (inl (inl (inr (b, c)))) => SyncBloom b c
  | inl (inl (inr l)) => SyncIds l
  | inl (inr l) => SyncRequest l
  | inr (inl (inl (inl (inl l)))) => SyncData l
  | inr (inl (inl (inl (inr l)))) => ScopeAnnounce l
  | inr (inl (inl (inr f))) => EncryptedDirect f
  | inr (inl (inr (g, p))) => EncryptedGroup g p
  | inr (inr (h, d, s)) => PeerInfo h d s
  end.
Lemma sum_to_wire_to_sum w : sum_to_wire (wire_to_sum w) = w.
Proof. by destruct w. Qed.
Global Instance codec_wire : Codec WireMessage := codec_iso wire_to_sum sum_to_wire sum_to_wire_to_sum.

(** ** A signed message *)

Definition author_kp : list byte := as_bytes "author-key".
Definition author_id : string := peer_string (pk_peer_id (kp_public author_kp)).

Definition env0 : Envelope := envelope_new author_id (Some "12D3KooDest"%string) (as_bytes "hi") 1000000.
Definition env1 : Envelope := (env_sign (C := crypto_tag) author_kp env0).1.
Definition msg1 : DirectMessage := mkDM env1 "hello".

Lemma env1_wf : env_wf env1.
Proof. split_and!; vm_compute; split; congruence. Qed.

Lemma env1_verifies : env_verify (C := crypto_tag) author_kp env1 = true.
Proof. by vm_compute. Qed.

(** the same envelope one hop on, and as a broadcast with the recipient in the payload *)
Definition env_hop : Envelope :=
  mkEnvelope (e_id env1) author_id (to_peer env1) (payload env1) (created_at_ms env1) (ttl_secs env1) (priority env1)
    (signature env1) 1 1 8 None.
Definition env_to_all : Envelope :=
  mkEnvelope (e_id env1) author_id None (as_bytes "12D3KooDesthi") (created_at_ms env1) (ttl_secs env1) (priority env1)
    (signature env1) 1 0 8 None.

Lemma envelope_signature_binds_witness :
  env_verify (C := crypto_tag) author_kp env_hop = false
  /\ ~ same_signed env1 env_hop
  /\ env_verify (C := crypto_tag) author_kp env_to_all = true.
Proof.
  assert (env_wf env_hop) as W by (split_and!; vm_compute; split; congruence).
  assert (env_wf env_to_all) as W' by (split_and!; vm_compute; split; congruence).
  destruct (envelope_signature_binds (C := crypto_tag) author_kp env1 env_hop env1_wf W eq_refl
              ltac:(vm_compute; congruence) ltac:(vm_compute; congruence) env1_verifies) as (_ & H & _).
  destruct (envelope_signature_binds (C := crypto_tag) author_kp env1 env_to_all env1_wf W' eq_refl
              ltac:(vm_compute; congruence) ltac:(vm_compute; congruence) env1_verifies) as (_ & H' & _).
  assert (env_verify (C := crypto_tag) author_kp env_hop = false) as Ev by (by vm_compute).
  split; [exact Ev|]. split.
  - intros Hs. assert (env_verify (C := crypto_tag) author_kp env_hop = true) as E by (apply H; by left). congruence.
  - apply H'. left. split; [split_and!; reflexivity|by vm_compute].
Defined.

Lemma envelope_recipient_malleable_witness :
  env_verify (C := crypto_tag) author_kp
    (mkEnvelope (e_id env1) author_id None (as_bytes "12D3KooDesthi") 1000000 604800 Normal
       (signature env1) 1 0 8 None) = true.
Proof.
  exact (envelope_recipient_malleable (C := crypto_tag) author_kp env1 "12D3KooDest" eq_refl env1_verifies).
Defined.

Definition frame0 : EncryptedDirectFrame := mkED "12D3KooDest" "aa" (as_bytes "ciphertext") None 0 8.
Definition frame1 : EncryptedDirectFrame :=
  with_mesh_signature (tag author_kp (ed_bytes frame0)) frame0.

Lemma encrypted_direct_binds_witness : frame1 = frame1.
Proof.
  assert (verify_encrypted_direct (C := crypto_tag) (EncryptedDirect frame1) author_kp = true) as Hv by (by vm_compute).
  assert (x00 ∉ as_bytes (ed_to_peer frame1)) as N1 by (apply (bool_decide_unpack _); by vm_compute).
  assert (x00 ∉ as_bytes (sender_enc_pubkey frame1)) as N2 by (apply (bool_decide_unpack _); by vm_compute).
  destruct (encrypted_direct_binds (C := crypto_tag) author_kp frame1 frame1 eq_refl N1 N1 N2 N2)
    as [E|(pk & sig & _ & _ & [] & _)]; try exact Hv; try done; split; vm_compute; congruence.
Defined.

Lemma sd030_gate_witness : validate_data_message_signature (C := crypto_tag) msg1 = Ok tt.
Proof.
  exact (proj2 (sd030_gate (C := crypto_tag) msg1 author_kp env0 "hello") ltac:(by vm_compute)).
Defined.

Lemma wrap_unwrap_roundtrip_witness :
  exists w, wrap_inner "12D3KooAuthor" (as_bytes "app") = Some w
            /\ unwrap_inner w "relay" = ("12D3KooAuthor"%string, as_bytes "app").
Proof.
  destruct (wrap_unwrap_roundtrip "12D3KooAuthor" (as_bytes "app") [] "relay") as (H & _).
  apply H; [vm_compute; lia|reflexivity|discriminate].
Defined.

Lemma encrypt_decrypt_direct_witness :
  exists blob, encrypt_for (P := e2e_toy) (as_bytes "eph") (as_bytes "nonce-nonce-") (as_bytes "secret")
                 (enc_public (enc_from_secret (P := e2e_toy) (as_bytes "bob"))) = Ok blob
    /\ decrypt_with (P := e2e_toy) blob (enc_from_secret (P := e2e_toy) (as_bytes "bob")) = Ok (as_bytes "secret").
Proof.
  eexists. split; [reflexivity|].
  refine (proj1 (encrypt_decrypt_direct (L := e2e_toy_laws) (as_bytes "eph") (as_bytes "nonce-nonce-")
                   (as_bytes "secret") _ [] (as_bytes "bob")) eq_refl).
Defined.

(** ** Bloom filter *)

Definition toy_hash (id : string) (seed : Z) : Z :=
  foldl (fun h b => (h * 1000003 + Z_of_byte b) mod 2 ^ 64) (seed + 7) (as_bytes id).

Lemma foldl_mod_range l h : in_u 64 h -> in_u 64 (foldl (fun h b => (h * 1000003 + Z_of_byte b) mod 2 ^ 64) h l).
Proof.
  revert h. induction l as [|b l IHl]; intros h Hh; [done|]. apply IHl. apply Z.mod_pos_bound. lia.
Qed.

Global Instance id_hash_toy : IdHash.
Proof.
  refine {| id_hash id seed := wrap 64 (toy_hash id seed) |}. intros. by apply wrap_in_u.
Defined.

Lemma bloom_no_false_negatives_witness :
  exists b, bloom_insert "message-id" bloom_new = Some b /\ bloom_contains "message-id" b = Some true.
Proof.
  destruct (bloom_no_false_negatives bloom_new "message-id" bloom_new_wf) as (b & H1 & _ & H2 & _). eauto.
Defined.

Lemma bloom_wire_roundtrip_witness : bloom_from_bytes (bloom_to_bytes bloom_new) = Some bloom_new.
Proof. exact (proj1 (bloom_wire_roundtrip [] bloom_new) bloom_new_wf). Defined.

(** ** Ingest guard *)

Lemma direct_rate_bounded_witness :
  accepted_of "a" (direct_run [("a"%string, msg1, 1000000); ("a"%string, msg1, 1000001)] guard_new).2 <= 240.
Proof.
  refine (direct_rate_bounded "a" 1000000 _ guard_new guard_new_inv _ _); [lia|].
  repeat constructor; vm_compute; congruence.
Defined.

Lemma replay_window_refines_witness :
  replay_rep AUTHOR_ID_WINDOW (replay guard_new) (fun _ => [])
  /\ (is_duplicate "a" "id" (replay guard_new)).2 = false.
Proof.
  assert (replay_rep AUTHOR_ID_WINDOW (replay guard_new) (fun _ => [])) as H0.
  { split; [done|]. intros a. split; [constructor|done]. }
  destruct (replay_window_refines (replay guard_new) (fun _ => []) "a" "id" H0) as [H1 H2].
  split; [exact H2|]. destruct (is_duplicate "a" "id" (replay guard_new)) as [w d]. destruct H1 as [-> _].
  reflexivity.
Defined.

(** a guard whose author has used up the minute *)
Definition spent_guard : IngestGuard :=
  mkGuard (mkRate DIRECT_RATE_PER_MINUTE RATE_WINDOW_MS {[ "a"%string := (120, 1000000) ]})
    (rate_gossip guard_new) (replay guard_new).

Lemma rate_limited_message_is_burnt_witness :
  let g1 := (allow_direct "a" msg1 1000001 spent_guard).1 in
  (allow_direct "a" msg1 1060000 g1).2 = Err Stale \/ (allow_direct "a" msg1 1060000 g1).2 = Err Replay.
Proof.
  intros g1.
  refine (rate_limited_message_is_burnt spent_guard g1 (fun _ => []) "a" msg1 1000001 1060000 _ _).
  - split; [done|]. intros a. split; [constructor|done].
  - by vm_compute.
Defined.

(** ** Store *)

Definition store1 : SledMessageStore := (persist (D := sled_gmap) 1000 msg1 (store_open tree_new)).1.

Lemma store1_inv : store_inv store1.
Proof. apply persist_inv; [apply store_open_new_inv|by vm_compute]. Qed.

Lemma gc_exact_witness :
  exists s' n, gc_expired (GC_AGE_MS + 2000) store1 = (s', Ok n) /\ store_inv s'.
Proof.
  destruct (gc_exact (GC_AGE_MS + 2000) store1 store1_inv) as (s' & n & H1 & H2 & _). eauto.
Defined.

Lemma persist_then_load_witness :
  exists s', persist (D := sled_gmap) 1000 msg1 (store_open tree_new) = (s', Ok tt) /\ recent 1 s' = Ok [msg1].
Proof.
  destruct (persist_then_load (D := sled_gmap) 1000 0 msg1 (store_open tree_new) tree_ok_new ltac:(lia) ltac:(lia))
    as (s' & H1 & _ & _ & H2 & _). eauto.
Defined.

Lemma reopen_forgets_index_witness :
  gc_expired (2 * GC_AGE_MS) (store_open (sdb store1)) = (store_open (sdb store1), Ok 0%nat).
Proof.
  refine (proj1 (reopen_forgets_index (sdb store1) (2 * GC_AGE_MS) 0 (e_id env1) msg1 _ _)).
  - exact (proj1 store1_inv).
  - by vm_compute.
Defined.

(** ** Ingest *)

Lemma seen_new_ok : seen_ok (seen_new 8 : @Seen basic_seen_cache).
Proof. split_and!; simpl; [lia|constructor|done|lia]. Qed.

Lemma empty_store_ok : store_ok (store_open (D := sled_gmap) tree_new : @Store sled_message_store).
Proof. exact tree_ok_new. Qed.

Lemma ingest_exactly_once_witness :
  let st := (seen_new 8, store_open (D := sled_gmap) tree_new) in
  exists st', ingest (S := basic_seen_cache) (M := sled_message_store) 1000001 0 1000001 msg1 false st = (st', Ok true).
Proof.
  intros st.
  destruct (ingest_exactly_once (S := basic_seen_cache) (M := sled_message_store)
              1000001 0 1000001 1000002 0 1000002 msg1 false false st empty_store_ok seen_new_ok) as (st' & H & _).
  exists st'. exact (eq_trans H ltac:(vm_compute; reflexivity)).
Defined.

(** ** The peer cap *)

Definition swarm_toy : SwarmEnv positive := {|
  Multiaddr := string;
  addr_parse s := Some s;
  addr_string s := s;
  addr_p2p _ := [];
  addr_push_p2p s _ := s;
  pid_parse s := Some 1%positive;
  pid_string p := of_bytes (pos_bytes p);
  dial_result _ _ := Ok tt;
  is_connected _ _ := false;
  publish_result _ _ _ := Ok tt;
  subscribe_result _ _ := Ok true;
|}.

Definition full_cap : Libp2pTransport (W := swarm_toy) :=
  mkTransport (mkCap 2 {[2%positive; 3%positive]} (<[2%positive := 10]> {[3%positive := 5]}) 0) [] [].

Lemma full_cap_inv : cap_inv (peer_cap full_cap).
Proof. split; [by vm_compute|vm_compute; lia]. Qed.

Lemma full_cap_evicts_lru_witness :
  exists t' e ts, handle_swarm_event (W := swarm_toy) (C := crypto_tag) 1%positive 20 (ConnectionEstablished 4%positive) full_cap
                  = (t', Some (PeerUp (of_bytes (pos_bytes 4))))
    /\ peer_last_seen (peer_cap full_cap) !! e = Some ts.
Proof.
  destruct (full_cap_evicts_lru (W := swarm_toy) (C := crypto_tag) 1%positive 20 4%positive full_cap full_cap_inv)
    as (t' & e & ts & H1 & _ & H2 & _); [vm_compute; lia|by vm_compute|discriminate|by vm_compute|
      apply (bool_decide_unpack _); by vm_compute|].
  exists t', e, ts. split; [exact H1|exact H2].
Defined.

Definition after_evict : Libp2pTransport (W := swarm_toy) :=
  (handle_swarm_event (W := swarm_toy) (C := crypto_tag) 1%positive 20 (ConnectionEstablished 4%positive) full_cap).1.

Lemma evicted_peer_never_reported_down_witness :
  handle_swarm_event (W := swarm_toy) (C := crypto_tag) 1%positive 30 (ConnectionClosed 3%positive) after_evict
  = (after_evict, None).
Proof.
  refine (evicted_peer_never_reported_down (W := swarm_toy) (C := crypto_tag) 1%positive 20 30 4%positive 3%positive
            full_cap after_evict (Some (PeerUp (of_bytes (pos_bytes 4)))) _ _ _).
  - by vm_compute.
  - by vm_compute; left.
  - discriminate.
Defined.
