(* ===== verification/NodeDemo.v ===== *)
(** * Concrete runs of the node

    A node over an in-memory transport, store and file system, and one run of
    every theorem about the node. *)

From S2P Require Import Prelude External Text Instances Bootstrap Wire E2E Bloom IngestGuard Security Storage Forwarding NodeData Node NodeTheorems NodeSecurity NodeRouting CoreDemo.

Open Scope Z_scope.

(** ** A transport that records what is sent *)

Record ToyNet := mkToy { toy_peers : list string; toy_sent : list (string * WireMessage) }.

Global Instance net_toy : MeshTransport := {|
  Net := ToyNet;
  net_known_peers := toy_peers;
  net_remember_and_dial _ n := (n, Ok tt);
  net_redial n := n;
  net_send_direct to m n := (mkToy (toy_peers n) (toy_sent n ++ [(to, m)]), Ok tt);
  net_publish_scoped _ _ n := (n, Ok tt);
  net_subscribe_scope _ n := (n, Ok tt);
  net_unsubscribe_scope _ n := (n, Ok tt);
  net_kad_find_peer _ n := n;
  net_connected_count n := length (toy_peers n);
  net_max_direct_peers _ := 50;
  net_cap_rejections _ := 0;
|}.

Global Instance host_toy : NodeHost (C := crypto_tag) := {|
  node_clock n := 1000000 + Z.of_nat n;
  node_instant n := Z.of_nat n;
  gen_keypair n := as_bytes "relay-identity";
|}.

Global Existing Instance e2e_toy.
Global Existing Instance fs_mem.

Definition node_kp : list byte := as_bytes "node-key".
Definition node_id : string := peer_string (pk_peer_id (kp_public node_kp)).

Definition conf : NodeConf := mkConf (Some node_kp) node_id 1024 (enc_from_secret (as_bytes "enc")) None 3.

Definition net0 : ToyNet := mkToy ["12D3KooDest"; "12D3KooOther"]%string [].
Definition node0 : NodeRunner :=
  node_new (net0 : @Net net_toy) (store_open tree_new : @Store (sled_message_store (D := sled_gmap)))
    (mkDir None None) [] true.

Lemma conf_cap : (0 < pending_cap conf)%nat.
Proof. apply (bool_decide_unpack _). by vm_compute. Qed.

Lemma node0_inv : node_inv conf node0.
Proof. apply node_new_inv; [exact conf_cap|exact empty_store_ok]. Qed.

Definition bad_msg : DirectMessage :=
  mkDM (mkEnvelope (e_id env1) (from_peer env1) (to_peer env1) (as_bytes "tampered") (created_at_ms env1)
          (ttl_secs env1) Normal (signature env1) 1 0 8 None) "hello".

Lemma node_invariant_witness :
  node_inv conf (node_loop conf [InEvent (DirectReceived "x" (Data msg1)); InForwardTick; InGcTick] node0).1.
Proof.
  exact (proj1 (node_invariant conf conf_cap net0 (store_open tree_new) (mkDir None None) [] true
                  [InEvent (DirectReceived "x" (Data msg1)); InForwardTick; InGcTick] empty_store_ok)).
Defined.

Lemma enqueue_makes_room_witness :
  exists s', enqueue conf "12D3KooDest" msg1 node0 = (s', Ok tt).
Proof.
  destruct (enqueue_makes_room conf "12D3KooDest" msg1 node0 conf_cap (proj1 node0_inv) ltac:(by vm_compute))
    as (s' & _ & H & _). eauto.
Defined.

Lemma unsigned_data_is_inert_witness :
  exists s', handle_transport_event conf (DirectReceived "x" (Data (mkDM env0 "unsigned"))) node0 = (s', Ok tt)
             /\ inert node0 s'.
Proof.
  exact (unsigned_data_is_inert conf "x" (mkDM env0 "unsigned") node0 NoSignature ltac:(by vm_compute)).
Defined.

Lemma three_bad_signatures_silence_peer_witness :
  exists s' s'', node_loop conf [InEvent (DirectReceived "x" (Data bad_msg)); InEvent (DirectReceived "x" (Data bad_msg));
                                 InEvent (DirectReceived "x" (Data bad_msg))] node0 = (s', Ok tt)
    /\ handle_transport_event conf (DirectReceived "x" (Data msg1)) s' = (s'', Ok tt) /\ inert node0 s''.
Proof.
  assert (validate_data_message_signature bad_msg = Err InvalidSignature) as V by (by vm_compute).
  apply (three_bad_signatures_silence_peer conf "x" bad_msg bad_msg bad_msg (Data msg1) node0 1000000 V V V).
  - by vm_compute.
  - lia.
  - vm_compute; reflexivity.
  - intros i Hi. cbn [node_clock host_toy node0 node_new ticks]. lia.
  - cbn [node_clock host_toy node0 node_new ticks]. lia.
Defined.

Lemma undecryptable_frame_stops_node_witness :
  exists frame s', sign_encrypted_direct author_kp
      (EncryptedDirect (mkED (local_peer_id conf) "aa" (as_bytes "junk") None 0 8)) = Ok frame
    /\ node_loop conf [InEvent (DirectReceived author_id frame); InForwardTick] node0
       = (s', Err "ciphertext too short"%string).
Proof.
  exact (undecryptable_frame_stops_node conf author_kp "aa" (as_bytes "junk") node0 "ciphertext too short"
           [InForwardTick] ltac:(by vm_compute) ltac:(by vm_compute)).
Defined.

Lemma relayed_encrypted_frame_refused_witness :
  exists fwd, handle_encrypted_direct conf "x" frame1 node0 = forward_wire_to_others "x" fwd node0
    /\ encrypted_gate node_id fwd = Some drop_invalid_sig.
Proof.
  destruct (relayed_encrypted_frame_refused conf "x" frame1 node0 node_kp ltac:(by vm_compute) ltac:(by vm_compute))
    as (sig & Hk & H1 & H2).
  eexists. split; [exact H1|].
  change (Ok (tag (rel_keypair (relay_identity node0)) (ed_bytes (next_hop frame1))) = Ok sig :> anyhow (list byte)) in Hk.
  injection Hk as <-. transitivity (if pk_verify (kp_public node_kp) (ed_bytes (next_hop frame1))
    (tag (rel_keypair (relay_identity node0)) (ed_bytes (next_hop frame1))) then None else Some drop_invalid_sig); [exact H2|].
  assert (pk_verify (kp_public node_kp) (ed_bytes (next_hop frame1))
    (tag (rel_keypair (relay_identity node0)) (ed_bytes (next_hop frame1))) = false) as -> by (by vm_compute). reflexivity.
Defined.

Lemma group_frame_always_forwarded_witness :
  exists s1, handle_transport_event conf (DirectReceived "12D3KooDest" (EncryptedGroup "g" [])) node0
             = send_each ["12D3KooOther"%string] (EncryptedGroup "g" []) s1.
Proof.
  destruct (group_frame_always_forwarded conf "12D3KooDest" "g" [] node0 ltac:(by vm_compute)) as (s1 & H & _).
  exists s1. exact H.
Defined.

Lemma relayed_data_refused_witness :
  validate_data_message_signature (forwarded (relay_identity node0) msg1) = Err InvalidSignature.
Proof.
  destruct (relayed_data_refused (relay_identity node0) msg1 env1_wf ltac:(by vm_compute) ltac:(by vm_compute)
           ltac:(by vm_compute)) as [H|_]; [exact H|by vm_compute].
Defined.

Lemma data_forwarding_safe_witness :
  let i := mkPending "12D3KooDest" (forwarded (relay_identity node0) msg1) in
  i ∈ pending node0 \/ pm_to i ≠ "x"%string.
Proof.
  intros i. destruct (data_forwarding_safe conf "x" msg1 node0 i node0_inv env1_wf) as [H|(_ & _ & H & _)].
  - vm_compute. left.
  - left. exact H.
  - right. exact H.
Defined.

Lemma data_delivered_at_most_once_witness :
  let s1 := (handle_transport_event conf (DirectReceived "x" (Data msg1)) node0).1 in
  let s2 := (node_loop conf [InForwardTick] s1).1 in
  incoming (handle_transport_event conf (DirectReceived "y" (Data msg1)) s2).1 = incoming s2.
Proof.
  cbv zeta.
  pose proof (data_delivered_at_most_once conf "x" "y" msg1 msg1 node0 [InForwardTick] conf_cap node0_inv) as H.
  cbv zeta in H. apply H.
  - vm_compute. discriminate.
  - repeat constructor.
  - reflexivity.
Defined.

(** one queued message is sent by the first tick *)
Definition queued1 : NodeRunner := set_pending [mkPending "12D3KooDest" msg1] node0.

Lemma queue_drains_witness :
  exists s' kept, node_loop conf (replicate 1 InForwardTick) queued1 = (s', Ok tt) /\ pending s' = []
    /\ kept `sublist_of` pending queued1
    /\ toy_sent (net s') = toy_sent (net queued1) ++ (frame_of <$> kept)
    /\ forall i, i ∈ pending queued1 -> i ∈ kept \/ excused queued1 s' i.
Proof.
  apply (queue_drains conf (toy_sent : @Net net_toy -> _)).
  - done.
  - apply (bool_decide_unpack _). by vm_compute.
Defined.
