(* ===== verification/Relay.v ===== *)
(** * The public relay

    [mycelium-relay/src/main.rs]: the counters and sets behind the status page
    and the rendezvous list, updated by the swarm's event loop and by two HTTP
    handlers.  The event loop and the handlers interleave freely; a run is a
    sequence of their steps. *)

From S2P Require Import Prelude.

Open Scope Z_scope.

Record StatusState := mkStatus {
  connections : Z;
  reservations : Z;
  connected_peers : gset string;
  reserved_peers : gset string;
  rendezvous_opt_in : gset string;
}.

Definition status_new : StatusState := mkStatus 0 0 ∅ ∅ ∅.

Definition atomic_saturating_sub (n : Z) : Z := n -sat 1.

(** ** HTTP handlers *)

(** the response code *)
Inductive StatusCode := BAD_REQUEST | NO_CONTENT.

Definition rendezvous (s : StatusState) : list string :=
  filter (fun p => p ∈ rendezvous_opt_in s) (elements (reserved_peers s)).

Definition rendezvous_register (peer : string) (s : StatusState) : StatusState * StatusCode :=
  if decide (peer = ""%string) then (s, BAD_REQUEST) else
  (mkStatus (connections s) (reservations s) (connected_peers s) (reserved_peers s)
     ({[peer]} ∪ rendezvous_opt_in s), NO_CONTENT).

Definition rendezvous_unregister (peer : string) (s : StatusState) : StatusState * StatusCode :=
  (mkStatus (connections s) (reservations s) (connected_peers s) (reserved_peers s)
     (rendezvous_opt_in s ∖ {[peer]}), NO_CONTENT).

(** the numbers of the status page *)
Record StatusPage := mkPage { pg_connections : Z; pg_unique : nat; pg_reachable : nat; pg_reservations : Z }.

Definition status (s : StatusState) : StatusPage :=
  mkPage (connections s) (size (connected_peers s)) (length (rendezvous s)) (reservations s).

(** ** The event loop *)

Inductive RelayEvent :=
| RConnectionEstablished (p : string)
| RConnectionClosed (p : string)
| RReservationAccepted (p : string) (renewed : bool)
| RReservationTimedOut (p : string)
| ROther.

Definition on_event (ev : RelayEvent) (s : StatusState) : StatusState :=
  match ev with
  | RConnectionEstablished p =>
      mkStatus (connections s +64 1) (reservations s) ({[p]} ∪ connected_peers s) (reserved_peers s)
        (rendezvous_opt_in s)
  | RConnectionClosed p =>
      mkStatus (atomic_saturating_sub (connections s)) (reservations s) (connected_peers s ∖ {[p]})
        (reserved_peers s ∖ {[p]}) (rendezvous_opt_in s ∖ {[p]})
  | RReservationAccepted p renewed =>
      mkStatus (connections s) (if renewed then reservations s else reservations s +64 1) (connected_peers s)
        ({[p]} ∪ reserved_peers s) (rendezvous_opt_in s)
  | RReservationTimedOut p =>
      mkStatus (connections s) (atomic_saturating_sub (reservations s)) (connected_peers s)
        (reserved_peers s ∖ {[p]}) (rendezvous_opt_in s ∖ {[p]})
  | ROther => s
  end.

Inductive RelayStep :=
| SEvent (ev : RelayEvent)
| SRegister (p : string)
| SUnregister (p : string).

Definition relay_step (i : RelayStep) (s : StatusState) : StatusState :=
  match i with
  | SEvent ev => on_event ev s
  | SRegister p => (rendezvous_register p s).1
  | SUnregister p => (rendezvous_unregister p s).1
  end.

(** ** What really happens on the network

    [open] counts the open connections of every peer.  A connection closes
    only if it is open, and a reservation is granted only over an open one; no
    process holds 2^64 connections. *)

Abbreviation open_conns := (gmap string nat).
Definition conns_of (o : open_conns) (p : string) : nat := default 0%nat (o !! p).
Definition total_conns (o : open_conns) : Z := msum Z.of_nat o.

Inductive net_step : open_conns -> RelayStep -> open_conns -> Prop :=
| net_establish o p : total_conns o + 1 < 2 ^ 64 ->
    net_step o (SEvent (RConnectionEstablished p)) (<[p := S (conns_of o p)]> o)
| net_close o p : (0 < conns_of o p)%nat ->
    net_step o (SEvent (RConnectionClosed p)) (<[p := (conns_of o p - 1)%nat]> o)
| net_reserve o p renewed : (0 < conns_of o p)%nat -> net_step o (SEvent (RReservationAccepted p renewed)) o
| net_timeout o p : net_step o (SEvent (RReservationTimedOut p)) o
| net_other o : net_step o (SEvent ROther) o
| net_register o p : net_step o (SRegister p) o
| net_unregister o p : net_step o (SUnregister p) o.

(** reachable pairs of network and relay state *)
Inductive relay_run : open_conns -> StatusState -> Prop :=
| run_start : relay_run ∅ status_new
| run_step o s i o' : relay_run o s -> net_step o i o' -> relay_run o' (relay_step i s).

Record relay_inv (o : open_conns) (s : StatusState) : Prop := {
  ri_conns : connections s = total_conns o;
  ri_bound : total_conns o < 2 ^ 64;
  ri_connected : forall p, p ∈ connected_peers s -> (0 < conns_of o p)%nat;
  ri_reserved : forall p, p ∈ reserved_peers s -> (0 < conns_of o p)%nat;
  ri_named : ""%string ∉ rendezvous_opt_in s;
}.

Lemma conns_of_insert o p n q : conns_of (<[p := n]> o) q = if decide (q = p) then n else conns_of o q.
Proof.
  unfold conns_of. destruct (decide (q = p)) as [->|Hd]; [by rewrite lookup_insert_eq|by rewrite lookup_insert_ne].
Qed.

Lemma total_conns_insert o p n : total_conns (<[p := n]> o) = Z.of_nat n - Z.of_nat (conns_of o p) + total_conns o.
Proof. unfold total_conns, conns_of. rewrite msum_insert. destruct (o !! p); cbn [default id from_option]; lia. Qed.

Lemma conns_of_le_total o p : Z.of_nat (conns_of o p) <= total_conns o.
Proof.
  unfold conns_of. destruct (o !! p) as [n|] eqn:E; cbn [default id from_option].
  - apply (msum_elem Z.of_nat o p n); [intros; lia|done].
  - apply msum_nonneg. intros; lia.
Qed.

Lemma relay_inv_step o s i o' : relay_inv o s -> net_step o i o' -> relay_inv o' (relay_step i s).
Proof.
  intros [Hc Hb Hcp Hrp Hn] Hs.
  destruct Hs as [o p Ho|o p Ho|o p rn Ho|o p|o|o p|o p].
  - assert (0 <= total_conns o) by (apply msum_nonneg; intros; lia).
    split; cbn [relay_step on_event connections connected_peers reserved_peers rendezvous_opt_in]; [| | | |done].
    + rewrite total_conns_insert, Hc. mach.
    + rewrite total_conns_insert. lia.
    + intros q [->%elem_of_singleton|Hq]%elem_of_union; rewrite conns_of_insert; [rewrite decide_True by done; lia|].
      specialize (Hcp q Hq). destruct (decide (q = p)); lia.
    + intros q Hq. specialize (Hrp q Hq). rewrite conns_of_insert. destruct (decide (q = p)); lia.
  - pose proof (conns_of_le_total o p).
    split; cbn [relay_step on_event connections connected_peers reserved_peers rendezvous_opt_in].
    + rewrite total_conns_insert, Hc. unfold atomic_saturating_sub. mach.
    + rewrite total_conns_insert. lia.
    + intros q [Hq Hne]%elem_of_difference. rewrite conns_of_insert, decide_False; [auto|set_solver].
    + intros q [Hq Hne]%elem_of_difference. rewrite conns_of_insert, decide_False; [auto|set_solver].
    + set_solver.
  - split; cbn [relay_step on_event connections connected_peers reserved_peers rendezvous_opt_in]; try done.
    intros q [->%elem_of_singleton|Hq]%elem_of_union; auto.
  - split; cbn [relay_step on_event connections connected_peers reserved_peers rendezvous_opt_in]; try done;
      set_solver.
  - by split.
  - unfold relay_step, rendezvous_register. destruct (decide (p = ""%string)); cbn [fst]; [by split|].
    split; cbn [connections connected_peers reserved_peers rendezvous_opt_in]; try done. set_solver.
  - split; cbn [relay_step rendezvous_unregister fst connections connected_peers reserved_peers rendezvous_opt_in];
      try done; set_solver.
Qed.

Lemma relay_inv_run o s : relay_run o s -> relay_inv o s.
Proof.
  induction 1 as [|o s i o' _ IH Hs]; [|by eapply relay_inv_step].
  split; try done; set_solver.
Qed.

Lemma elem_of_rendezvous s p : p ∈ rendezvous s <-> p ∈ rendezvous_opt_in s /\ p ∈ reserved_peers s.
Proof. unfold rendezvous. by rewrite list_elem_of_filter, elem_of_elements. Qed.

(** In every state the relay reaches, whatever the interleaving of swarm
    events with register and unregister requests, the connection count of the
    status page is the number of open connections; the rendezvous list has no
    duplicates and its length is the page's reachable count; and every peer
    on it is named, opted in, holds a reservation and has an open connection. *)
Theorem rendezvous_lists_live_peers o s : relay_run o s ->
  pg_connections (status s) = total_conns o /\
  pg_reachable (status s) = length (rendezvous s) /\ NoDup (rendezvous s) /\
  forall p, p ∈ rendezvous s ->
    p <> ""%string /\ p ∈ rendezvous_opt_in s /\ p ∈ reserved_peers s /\ (0 < conns_of o p)%nat.
Proof.
  intros [Hc _ _ Hr Hn]%relay_inv_run. split_and!; [done|done| |].
  - apply NoDup_filter, NoDup_elements.
  - intros p [Ho Hp]%elem_of_rendezvous. split_and!; auto. by intros ->.
Qed.

Lemma rendezvous_lists_live_peers_witness :
  exists o s, relay_run o s /\ rendezvous s = ["alice"%string] /\
    forall p, p ∈ rendezvous s ->
      p <> ""%string /\ p ∈ rendezvous_opt_in s /\ p ∈ reserved_peers s /\ (0 < conns_of o p)%nat.
Proof.
  assert (Hrun : exists o, relay_run o (relay_step (SRegister "alice") (relay_step (SEvent (RReservationAccepted "alice" false))
      (relay_step (SEvent (RConnectionEstablished "alice")) status_new)))).
  { eexists. eapply run_step; [eapply run_step; [eapply run_step; [apply run_start|]|]|].
    - apply net_establish. by vm_compute.
    - apply net_reserve. vm_compute. lia.
    - apply net_register. }
  destruct Hrun as [o Hrun]. eexists o, _. split; [exact Hrun|]. split; [by vm_compute|].
  apply (rendezvous_lists_live_peers o _ Hrun).
Defined.

(** ** Two defects of the bookkeeping *)

(** A peer that closes one of two open connections disappears from every set,
    its reservation and its opt-in included, while it is still connected. *)
Theorem closing_one_connection_delists_peer o s p o1 : relay_run o s -> net_step o (SEvent (RConnectionClosed p)) o1 ->
  let s1 := relay_step (SEvent (RConnectionClosed p)) s in
  (p ∉ connected_peers s1) /\ (p ∉ rendezvous s1) /\ conns_of o1 p = (conns_of o p - 1)%nat.
Proof.
  intros _ Hs. inversion Hs; subst. cbn [relay_step on_event connected_peers]. split_and!.
  - intros [_ Hn]%elem_of_difference. by apply Hn, elem_of_singleton.
  - rewrite elem_of_rendezvous. intros [[_ Hn]%elem_of_difference _]. by apply Hn, elem_of_singleton.
  - by rewrite conns_of_insert, decide_True.
Qed.

(** two connections of one peer, then one closes *)
Definition connect_once (p : string) (o : open_conns) : open_conns := <[p := S (conns_of o p)]> o.
Definition two_conns : open_conns := connect_once "alice" (connect_once "alice" ∅).
Definition two_conns_state : StatusState :=
  relay_step (SEvent (RConnectionEstablished "alice")) (relay_step (SEvent (RConnectionEstablished "alice")) status_new).

Lemma two_conns_run : relay_run two_conns two_conns_state.
Proof.
  eapply (run_step (connect_once "alice" ∅)); [eapply (run_step ∅); [apply run_start|]|].
  all: apply net_establish; by vm_compute.
Qed.

Lemma closing_one_connection_delists_peer_witness :
  let s := relay_step (SEvent (RConnectionClosed "alice")) two_conns_state in
  ("alice"%string ∉ connected_peers s) /\ ("alice"%string ∉ rendezvous s) /\
  conns_of (<["alice"%string := (conns_of two_conns "alice" - 1)%nat]> two_conns) "alice" = 1%nat.
Proof.
  apply (closing_one_connection_delists_peer two_conns two_conns_state "alice").
  - exact two_conns_run.
  - apply (net_close two_conns "alice"). vm_compute. lia.
Defined.

(** [n] visits of one peer: connect, reserve, leave *)
Fixpoint visits (p : string) (n : nat) (s : StatusState) : StatusState :=
  match n with
  | O => s
  | S n => on_event (RConnectionClosed p) (on_event (RReservationAccepted p false)
             (on_event (RConnectionEstablished p) (visits p n s)))
  end.

(** A reservation that ends because its connection closes is never taken off
    the reservations counter: after [n] visits nobody holds a reservation and
    nobody is connected, and the counter shows [n]. *)
Theorem closed_reservations_still_counted p n : Z.of_nat n < 2 ^ 64 ->
  let s := visits p n status_new in
  pg_reservations (status s) = Z.of_nat n /\ reserved_peers s = ∅ /\ connected_peers s = ∅ /\ connections s = 0.
Proof.
  induction n as [|n IH]; intros Hn; [done|].
  destruct IH as (Hr & Hs & Hc & H0); [lia|]. cbn [status pg_reservations] in Hr.
  cbn [visits on_event status pg_reservations reservations reserved_peers connected_peers connections].
  rewrite Hr, Hs, Hc, H0. split_and!; [|set_solver|set_solver|reflexivity].
  mach.
Qed.

Lemma closed_reservations_still_counted_witness : pg_reservations (status (visits "alice" 3 status_new)) = 3.
Proof. apply (closed_reservations_still_counted "alice" 3). done. Defined.
