(* ===== verification/Sim.v ===== *)
(** * The network simulator

    [mycelium-sim]: the virtual clock, the event scheduler, the simulated
    transport and the runner that moves frames between nodes.  The nodes
    themselves run in other tasks; what they send while the runner yields is an
    argument of [run_for_async].  A channel to a node is the list of all events
    ever sent on it. *)

From S2P Require Import Prelude Wire.

Open Scope Z_scope.

(** ** [scheduler.rs] *)

Record LinkProfile := mkLink {
  latency_ms : Z;
  loss_per_mille : Z;
  link_bandwidth_bytes_per_sec : Z;
}.

Definition link_default : LinkProfile := mkLink 10 0 (64 * 1024).

Section scheduler.
Context {T : Type}.

Record ScheduledEvent := mkEvent { at_ms : Z; seq : Z; ev_payload : T }.

(** [Ord]: the greatest event is the earliest, the first pushed among equals *)
Definition ev_cmp (self other : ScheduledEvent) : comparison :=
  match at_ms other ?= at_ms self with
  | Eq => seq other ?= seq self
  | c => c
  end.

Definition ev_eq (self other : ScheduledEvent) : bool :=
  bool_decide (at_ms self = at_ms other) && bool_decide (seq self = seq other).

(** [BinaryHeap]: the greatest element, and the rest *)
Fixpoint heap_pop (q : list ScheduledEvent) : option (ScheduledEvent * list ScheduledEvent) :=
  match q with
  | [] => None
  | e :: q => match heap_pop q with
              | None => Some (e, [])
              | Some (f, r) => match ev_cmp e f with Lt => Some (f, e :: r) | _ => Some (e, q) end
              end
  end.

Definition heap_peek (q : list ScheduledEvent) : option ScheduledEvent := fst <$> heap_pop q.

Record EventScheduler := mkSched { next_seq : Z; queue : list ScheduledEvent }.

Definition sched_default : EventScheduler := mkSched 0 [].

Definition sched_push (at_ : Z) (p : T) (s : EventScheduler) : EventScheduler :=
  let n := next_seq s +64 1 in mkSched n (mkEvent at_ n p :: queue s).

Definition pop_ready (now : Z) (s : EventScheduler) : EventScheduler * option ScheduledEvent :=
  let ready := match heap_peek (queue s) with Some e => bool_decide (at_ms e <= now) | None => false end in
  if ready then
    match heap_pop (queue s) with
    | Some (e, r) => (mkSched (next_seq s) r, Some e)
    | None => (s, None)
    end
  else (s, None).

Definition next_timestamp (s : EventScheduler) : option Z := at_ms <$> heap_peek (queue s).

(** *** Order *)

Definition earlier (e f : ScheduledEvent) : Prop := at_ms e < at_ms f \/ at_ms e = at_ms f /\ seq e < seq f.

Lemma ev_cmp_Lt e f : ev_cmp e f = Lt <-> earlier f e.
Proof.
  unfold ev_cmp, earlier. destruct (Z.compare_spec (at_ms f) (at_ms e)); [|naive_solver lia|naive_solver lia].
  rewrite Z.compare_lt_iff. lia.
Qed.

Lemma heap_pop_spec q :
  match heap_pop q with
  | None => q = []
  | Some (e, r) => q ≡ₚ e :: r /\ forall f, f ∈ r -> ~ earlier f e
  end.
Proof.
  induction q as [|e q IH]; [done|]. cbn [heap_pop].
  destruct (heap_pop q) as [[f r]|]; [|subst q; split; [done|by intros ? ?%elem_of_nil]].
  destruct IH as [Hp Hr].
  assert (Hlt := ev_cmp_Lt e f). destruct (ev_cmp e f).
  2: { split; [rewrite Hp; apply Permutation_swap|]. intros g [->|Hg]%elem_of_cons; [|auto].
       destruct Hlt as [Hlt _]. specialize (Hlt eq_refl). unfold earlier in *. lia. }
  all: split; [done|]; intros g; rewrite Hp; intros [->|Hg%Hr]%elem_of_cons Hge.
  all: try (apply Hlt in Hge; discriminate).
  all: assert (~ earlier f e) as Hfe by (intros Hx%Hlt; discriminate); unfold earlier in *; lia.
Qed.

(** sequence numbers are distinct and not larger than the last one given *)
Definition sched_inv (s : EventScheduler) : Prop :=
  0 <= next_seq s /\ NoDup (seq <$> queue s) /\ forall e, e ∈ queue s -> seq e <= next_seq s.

Lemma sched_inv_default : sched_inv sched_default.
Proof. split_and!; [done|constructor|by intros ? ?%elem_of_nil]. Qed.

Lemma sched_inv_push at_ p s : sched_inv s -> next_seq s + 1 < 2 ^ 64 -> sched_inv (sched_push at_ p s).
Proof.
  intros (H0 & Hn & Hle) Hb.
  assert (E : next_seq s +64 1 = next_seq s + 1) by mach.
  unfold sched_inv, sched_push. cbn [next_seq queue fmap list_fmap seq]. rewrite E. split_and!; [lia| |].
  - constructor; [|done]. intros (e & Heq & He)%list_elem_of_fmap. specialize (Hle e He). lia.
  - intros e [->|He]%elem_of_cons; [done|]. specialize (Hle e He). lia.
Qed.

(** What a single pop does. *)
Lemma pop_ready_spec now s : sched_inv s ->
  let '(s', r) := pop_ready now s in
  sched_inv s' /\ next_seq s' = next_seq s /\
  match r with
  | Some e => at_ms e <= now /\ queue s ≡ₚ e :: queue s' /\ forall f, f ∈ queue s' -> earlier e f
  | None => s' = s /\ forall f, f ∈ queue s -> now < at_ms f
  end.
Proof.
  intros Hi. pose proof Hi as (H0 & Hn & Hle). unfold pop_ready, heap_peek. pose proof (heap_pop_spec (queue s)) as Hp.
  destruct (heap_pop (queue s)) as [[e r]|]; cbn [fmap option_fmap option_map fst].
  - destruct Hp as [Hp Hr]. destruct (bool_decide_reflect (at_ms e <= now)) as [Hat|Hat].
    + rewrite Hp in Hn. cbn [fmap list_fmap] in Hn. apply NoDup_cons in Hn as [Hne Hnd].
      split_and!; cbn [next_seq queue]; [split_and!|done|done|done|]; [done|done| |].
      * intros f Hf. apply Hle. rewrite Hp. by right.
      * intros f Hf. assert (seq f ≠ seq e).
        { intros Heq. apply Hne. rewrite <- Heq. by apply list_elem_of_fmap_2. }
        specialize (Hr f Hf). unfold earlier in *. lia.
    + split_and!; try done. intros f. rewrite Hp. intros [->|Hf%Hr]%elem_of_cons; [lia|]. unfold earlier in Hf. lia.
  - split_and!; try done. rewrite Hp. by intros ? ?%elem_of_nil.
Qed.

Lemma pop_ready_length now s s' e : pop_ready now s = (s', Some e) -> length (queue s) = S (length (queue s')).
Proof.
  unfold pop_ready, heap_peek. pose proof (heap_pop_spec (queue s)) as Hp.
  destruct (heap_pop (queue s)) as [[f r]|]; cbn [fmap option_fmap option_map fst]; [|by intros [=]].
  destruct (bool_decide _); intros [= <- <-]. destruct Hp as [Hp _]. by rewrite Hp.
Qed.

(** [while let Some(event) = pop_ready(now)] *)
Fixpoint pop_all (fuel : nat) (now : Z) (s : EventScheduler) : EventScheduler * list ScheduledEvent :=
  match fuel with
  | O => (s, [])
  | S n => match pop_ready now s with
           | (s, Some e) => let '(s, out) := pop_all n now s in (s, e :: out)
           | (s, None) => (s, [])
           end
  end.

Fixpoint push_all (l : list (Z * T)) (s : EventScheduler) : EventScheduler :=
  match l with [] => s | (at_, p) :: l => push_all l (sched_push at_ p s) end.

Lemma pop_all_spec n now s : sched_inv s -> (length (queue s) <= n)%nat ->
  let '(s', out) := pop_all n now s in
  queue s ≡ₚ out ++ queue s' /\ StronglySorted earlier out /\ Forall (fun e => at_ms e <= now) out
  /\ forall f, f ∈ queue s' -> now < at_ms f.
Proof.
  revert s. induction n as [|n IH]; intros s Hi Hl; cbn [pop_all].
  { destruct (queue s) eqn:E; [|cbn [length] in Hl; lia]. split_and!; [done|constructor|done|].
    by intros ? ?%elem_of_nil. }
  pose proof (pop_ready_spec now s Hi) as Hs. destruct (pop_ready now s) as [s' [e|]] eqn:E.
  - destruct Hs as (Hi' & _ & Hat & Hp & He). apply pop_ready_length in E.
    specialize (IH s' Hi' ltac:(lia)). destruct (pop_all n now s') as [s'' out].
    destruct IH as (Hp' & Hss & Hall & Hlate). split_and!; [by rewrite Hp, Hp'| |by constructor|done].
    constructor; [done|]. apply Forall_forall. intros f Hf. apply He. rewrite Hp'. apply elem_of_app. by left.
  - destruct Hs as (_ & _ & -> & Hlate). split_and!; [done|constructor|done|done].
Qed.

End scheduler.
Global Arguments ScheduledEvent : clear implicits.
Global Arguments EventScheduler : clear implicits.

(** ** [clock.rs] *)

Definition advance_to (timestamp now : Z) : Z := Z.max now timestamp.

(** ** [transport.rs] *)

Inductive SimAction :=
| SimSendDirect (from to : string) (message : WireMessage)
| SimPublishScoped (from scope : string) (scoped_payload : list byte).

Record SimTransport := mkSimTransport {
  sim_local_peer : string;
  sim_links : gmap (string * string) LinkProfile;
  sim_actions : list SimAction;
}.

Definition sim_known_peers (t : SimTransport) : list string :=
  omap (fun k => if decide (k.1 = sim_local_peer t) then Some k.2 else None) (elements (dom (sim_links t))).

(** the runner keeps the other end of the channel, so sending does not fail *)
Definition sim_send_direct (to : string) (m : WireMessage) (t : SimTransport) : SimTransport * anyhow unit :=
  (mkSimTransport (sim_local_peer t) (sim_links t) (sim_actions t ++ [SimSendDirect (sim_local_peer t) to m]), Ok tt).

Definition sim_publish_scoped (scope : string) (p : list byte) (t : SimTransport) : SimTransport * anyhow unit :=
  (mkSimTransport (sim_local_peer t) (sim_links t)
     (sim_actions t ++ [SimPublishScoped (sim_local_peer t) scope p]), Ok tt).

(** ** [runner.rs] *)

Record SimNodeSpec := mkSpec { sp_peer_id : string; online : bool; bandwidth_bytes_per_sec : Z }.

Inductive ScheduledAction :=
| Deliver (to : string) (event : TransportEvent) (bytes : Z)
| Availability (peer : string) (is_up : bool).

Record SimulationMetrics := mkSimMetrics {
  delivered : Z;
  duplicates : Z;
  dropped_loss : Z;
  dropped_offline : Z;
  dropped_bandwidth : Z;
  sent_bytes : Z;
  latencies_ms : list Z;
}.

Record SimulationRunner := mkSim {
  clock_ms : Z;
  scheduler : EventScheduler ScheduledAction;
  links : gmap (string * string) LinkProfile;
  nodes : gmap string SimNodeSpec;
  event_txs : gmap string (list TransportEvent);
  bandwidth_usage : gmap (string * Z) Z;
  delivered_ids : gmap string Z;
  sim_metrics : SimulationMetrics;
  rng_state : Z;
  action_rx : list SimAction;
}.

Definition set_clock x s := mkSim x (scheduler s) (links s) (nodes s) (event_txs s) (bandwidth_usage s) (delivered_ids s) (sim_metrics s) (rng_state s) (action_rx s).
Definition set_scheduler x s := mkSim (clock_ms s) x (links s) (nodes s) (event_txs s) (bandwidth_usage s) (delivered_ids s) (sim_metrics s) (rng_state s) (action_rx s).
Definition set_links x s := mkSim (clock_ms s) (scheduler s) x (nodes s) (event_txs s) (bandwidth_usage s) (delivered_ids s) (sim_metrics s) (rng_state s) (action_rx s).
Definition set_nodes x s := mkSim (clock_ms s) (scheduler s) (links s) x (event_txs s) (bandwidth_usage s) (delivered_ids s) (sim_metrics s) (rng_state s) (action_rx s).
Definition set_event_txs x s := mkSim (clock_ms s) (scheduler s) (links s) (nodes s) x (bandwidth_usage s) (delivered_ids s) (sim_metrics s) (rng_state s) (action_rx s).
Definition set_bandwidth_usage x s := mkSim (clock_ms s) (scheduler s) (links s) (nodes s) (event_txs s) x (delivered_ids s) (sim_metrics s) (rng_state s) (action_rx s).
Definition set_delivered_ids x s := mkSim (clock_ms s) (scheduler s) (links s) (nodes s) (event_txs s) (bandwidth_usage s) x (sim_metrics s) (rng_state s) (action_rx s).
Definition set_sim_metrics x s := mkSim (clock_ms s) (scheduler s) (links s) (nodes s) (event_txs s) (bandwidth_usage s) (delivered_ids s) x (rng_state s) (action_rx s).
Definition set_rng_state x s := mkSim (clock_ms s) (scheduler s) (links s) (nodes s) (event_txs s) (bandwidth_usage s) (delivered_ids s) (sim_metrics s) x (action_rx s).
Definition set_action_rx x s := mkSim (clock_ms s) (scheduler s) (links s) (nodes s) (event_txs s) (bandwidth_usage s) (delivered_ids s) (sim_metrics s) (rng_state s) x.

Definition count_offline s := let m := sim_metrics s in
  set_sim_metrics (mkSimMetrics (delivered m) (duplicates m) (dropped_loss m) (dropped_offline m +64 1) (dropped_bandwidth m) (sent_bytes m) (latencies_ms m)) s.
Definition count_loss s := let m := sim_metrics s in
  set_sim_metrics (mkSimMetrics (delivered m) (duplicates m) (dropped_loss m +64 1) (dropped_offline m) (dropped_bandwidth m) (sent_bytes m) (latencies_ms m)) s.
Definition count_bandwidth s := let m := sim_metrics s in
  set_sim_metrics (mkSimMetrics (delivered m) (duplicates m) (dropped_loss m) (dropped_offline m) (dropped_bandwidth m +64 1) (sent_bytes m) (latencies_ms m)) s.
Definition count_bytes b s := let m := sim_metrics s in
  set_sim_metrics (mkSimMetrics (delivered m) (duplicates m) (dropped_loss m) (dropped_offline m) (dropped_bandwidth m) (sent_bytes m +64 b) (latencies_ms m)) s.
Definition count_duplicate s := let m := sim_metrics s in
  set_sim_metrics (mkSimMetrics (delivered m) (duplicates m +64 1) (dropped_loss m) (dropped_offline m) (dropped_bandwidth m) (sent_bytes m) (latencies_ms m)) s.
Definition count_delivered lat s := let m := sim_metrics s in
  set_sim_metrics (mkSimMetrics (delivered m +64 1) (duplicates m) (dropped_loss m) (dropped_offline m) (dropped_bandwidth m) (sent_bytes m) (latencies_ms m ++ [lat])) s.

Definition sim_new (start seed : Z) : SimulationRunner :=
  mkSim start sched_default ∅ ∅ ∅ ∅ ∅ (mkSimMetrics 0 0 0 0 0 0 []) (Z.max seed 1) [].

(** a fresh channel, whatever was registered before *)
Definition register_node (p : string) (bandwidth : Z) (s : SimulationRunner) : SimulationRunner :=
  set_nodes (<[p := mkSpec p true bandwidth]> (nodes s)) (set_event_txs (<[p := []]> (event_txs s)) s).

Definition set_link (a b : string) (profile : LinkProfile) (s : SimulationRunner) : SimulationRunner :=
  set_links (<[(b, a) := profile]> (<[(a, b) := profile]> (links s))) s.

Definition schedule_availability (p : string) (at_ : Z) (up : bool) (s : SimulationRunner) : SimulationRunner :=
  set_scheduler (sched_push at_ (Availability p up) (scheduler s)) s.

Definition is_online (s : SimulationRunner) (p : string) : bool :=
  match nodes s !! p with Some n => online n | None => false end.

Definition consume_bandwidth (p : string) (bytes : Z) (s : SimulationRunner) : SimulationRunner * bool :=
  let key := (p, clock_ms s / 1000) in
  let used := default 0 (bandwidth_usage s !! key) in
  let budget := match nodes s !! p with Some n => bandwidth_bytes_per_sec n | None => 0 end in
  if decide (budget < used +sat bytes)
  then (set_bandwidth_usage (<[key := used]> (bandwidth_usage s)) s, false)
  else (set_bandwidth_usage (<[key := used +sat bytes]> (bandwidth_usage s)) s, true).

Definition roll_loss (per_mille : Z) (s : SimulationRunner) : SimulationRunner * bool :=
  if decide (per_mille = 0) then (s, false) else
  let r := wrap 64 (wrap 64 (rng_state s * 6364136223846793005) + 1) in
  (set_rng_state r s, bool_decide (r mod 1000 < per_mille)).

Definition delivered_key_fields (m : WireMessage) (to : string) : option (string * Z) :=
  match m with
  | Data msg => match to_peer (dm_envelope msg) with
                | Some target => if decide (target = to)
                                 then Some (e_id (dm_envelope msg), created_at_ms (dm_envelope msg)) else None
                | None => None
                end
  | _ => None
  end.

Definition record_delivery (to : string) (m : WireMessage) (s : SimulationRunner) : SimulationRunner :=
  match delivered_key_fields m to with
  | None => s
  | Some (id, created) =>
      let key := (to +:+ ":" +:+ id)%string in
      let dup := delivered_ids s !! key in
      let s := set_delivered_ids (<[key := clock_ms s]> (delivered_ids s)) s in
      match dup with
      | Some _ => count_duplicate s
      | None => count_delivered (clock_ms s -sat created) s
      end
  end.

(** [.len()] of strings is in bytes *)
Definition strings_size (l : list string) : Z := sumZ (fun s => Z.of_nat (length (as_bytes s))) l.

Definition wire_message_size (m : WireMessage) : Z :=
  match m with
  | Data msg => Z.of_nat (length (as_bytes (dm_body msg))) + Z.of_nat (length (payload (dm_envelope msg))) + 64
  | SyncIds ids | SyncRequest ids => strings_size ids + 32
  | SyncBloom bloom _ => Z.of_nat (length bloom) + 32
  | SyncData messages => sumZ (fun m => Z.of_nat (length (as_bytes (dm_body m)))) messages + 64
  | ScopeAnnounce scopes => strings_size scopes + 32
  | EncryptedDirect f => Z.of_nat (length (encrypted_payload f)) + 64 + 96
  | EncryptedGroup _ enc => Z.of_nat (length enc) + 32
  | PeerInfo hex _ _ => Z.of_nat (length (as_bytes hex)) + 32
  end.

Definition schedule (at_ : Z) (a : ScheduledAction) (s : SimulationRunner) : SimulationRunner :=
  set_scheduler (sched_push at_ a (scheduler s)) s.

(** one recipient of a scoped publish *)
Definition publish_to (from scope : string) (p : list byte) (s : SimulationRunner) (to : string) : SimulationRunner :=
  if decide (to = from) then s else
  if negb (is_online s from) || negb (is_online s to) then count_offline s else
  match links s !! (from, to) with
  | None => s
  | Some profile =>
      let '(s, lost) := roll_loss (loss_per_mille profile) s in
      if (lost : bool) then count_loss s else
      schedule (clock_ms s +sat latency_ms profile)
        (Deliver to (ScopedReceived from scope p) (Z.of_nat (length p) + 32)) s
  end.

Definition schedule_action (s : SimulationRunner) (a : SimAction) : SimulationRunner :=
  match a with
  | SimSendDirect from to m =>
      if negb (is_online s from) || negb (is_online s to) then count_offline s else
      match links s !! (from, to) with
      | None => count_offline s
      | Some profile =>
          let '(s, lost) := roll_loss (loss_per_mille profile) s in
          if (lost : bool) then count_loss s else
          schedule (clock_ms s +sat latency_ms profile) (Deliver to (DirectReceived from m) (wire_message_size m)) s
      end
  | SimPublishScoped from scope p => foldl (publish_to from scope p) s (elements (dom (nodes s)))
  end.

Definition run_scheduled (a : ScheduledAction) (s : SimulationRunner) : SimulationRunner :=
  match a with
  | Availability p up =>
      match nodes s !! p with
      | Some n => set_nodes (<[p := mkSpec (sp_peer_id n) up (bandwidth_bytes_per_sec n)]> (nodes s)) s
      | None => s
      end
  | Deliver to event bytes =>
      let '(s, ok) := consume_bandwidth to bytes s in
      if negb ok then count_bandwidth s else
      let s := count_bytes bytes s in
      let s := match event_txs s !! to with
               | Some sent => set_event_txs (<[to := sent ++ [event]]> (event_txs s)) s
               | None => s
               end in
      match event with DirectReceived _ m => record_delivery to m s | _ => s end
  end.

(** the [while let] over the events that are due *)
Fixpoint drain_ready (fuel : nat) (s : SimulationRunner) : SimulationRunner :=
  match fuel with
  | O => s
  | S n => match pop_ready (clock_ms s) (scheduler s) with
           | (sch, Some e) => drain_ready n (run_scheduled (ev_payload e) (set_scheduler sch s))
           | (_, None) => s
           end
  end.

Definition step_until_next_event (s : SimulationRunner) : SimulationRunner :=
  let s := foldl schedule_action (set_action_rx [] s) (action_rx s) in
  let s := match next_timestamp (scheduler s) with
           | Some next_at => set_clock (advance_to next_at (clock_ms s)) s
           | None => s
           end in
  drain_ready (length (queue (scheduler s))) s.

(** The driver.  [burst] is what the node tasks send at the yield of one
    iteration, [arrivals] the bursts of a run; [None] is out of fuel. *)
Definition run_iteration (target : Z) (burst : list SimAction) (s : SimulationRunner) : SimulationRunner :=
  let s := step_until_next_event s in
  let s := set_action_rx (action_rx s ++ burst) s in
  if decide (next_timestamp (scheduler s) = None /\ action_rx s = [])
  then set_clock (advance_to (Z.min (clock_ms s +sat 1) target) (clock_ms s)) s else s.

Fixpoint run_loop (fuel : nat) (target : Z) (arrivals : list (list SimAction)) (s : SimulationRunner) :
    option SimulationRunner :=
  match fuel with
  | O => None
  | S n =>
      if decide (clock_ms s < target) then
        run_loop n target (tail arrivals) (run_iteration target (default [] (head arrivals)) s)
      else Some s
  end.

Definition run_for_async (fuel : nat) (arrivals : list (list SimAction)) (duration : Z) (s : SimulationRunner) :
    option SimulationRunner :=
  run_loop fuel (clock_ms s +sat duration) arrivals s.

(** no yield: nothing arrives *)
Definition run_for (fuel : nat) (duration : Z) (s : SimulationRunner) : option SimulationRunner :=
  run_for_async fuel [] duration s.

(** ** Time *)

Lemma pop_ready_None {T} now (s s' : EventScheduler T) :
  pop_ready now s = (s', None) -> forall f, f ∈ queue s -> now < at_ms f.
Proof.
  unfold pop_ready, heap_peek. pose proof (heap_pop_spec (queue s)) as Hp.
  destruct (heap_pop (queue s)) as [[e r]|]; cbn [fmap option_fmap option_map fst].
  - destruct Hp as [Hp Hr]. destruct (bool_decide_reflect (at_ms e <= now)) as [Hat|Hat]; [by intros [=]|].
    intros _ f. rewrite Hp. intros [->|Hf%Hr]%elem_of_cons; [lia|]. unfold earlier in Hf. lia.
  - intros _ f. rewrite Hp. by intros ?%elem_of_nil.
Qed.

Lemma next_timestamp_Some {T} (s : EventScheduler T) t :
  next_timestamp s = Some t -> exists e, e ∈ queue s /\ at_ms e = t.
Proof.
  unfold next_timestamp, heap_peek. pose proof (heap_pop_spec (queue s)) as Hp.
  destruct (heap_pop (queue s)) as [[e r]|]; [|done]. intros [= <-]. exists e. split; [|done].
  destruct Hp as [Hp _]. rewrite Hp. by left.
Qed.

Lemma next_timestamp_None {T} (s : EventScheduler T) : next_timestamp s = None <-> queue s = [].
Proof.
  unfold next_timestamp, heap_peek. pose proof (heap_pop_spec (queue s)) as Hp.
  destruct (heap_pop (queue s)) as [[e r]|]; [|done]. split; [done|]. intros E. rewrite E in Hp.
  by destruct Hp as [Hp%Permutation_nil_l _].
Qed.

(** what scheduling leaves alone *)
Record sched_frame (s s' : SimulationRunner) : Prop := {
  fr_clock : clock_ms s' = clock_ms s;
  fr_links : links s' = links s;
  fr_nodes : nodes s' = nodes s;
  fr_txs : event_txs s' = event_txs s;
  fr_usage : bandwidth_usage s' = bandwidth_usage s;
  fr_ids : delivered_ids s' = delivered_ids s;
  fr_delivered : delivered (sim_metrics s') = delivered (sim_metrics s);
  fr_latencies : latencies_ms (sim_metrics s') = latencies_ms (sim_metrics s);
  fr_bandwidth : dropped_bandwidth (sim_metrics s') = dropped_bandwidth (sim_metrics s);
  fr_actions : action_rx s' = action_rx s;
}.

Global Instance sched_frame_preorder : PreOrder sched_frame.
Proof. split; [by intros s; split|]. intros a b c [] []. split; congruence. Qed.

Lemma roll_loss_frame x s : sched_frame s (roll_loss x s).1.
Proof. unfold roll_loss. destruct (decide _); by split. Qed.

Lemma publish_to_frame from scope p s to : sched_frame s (publish_to from scope p s to).
Proof.
  unfold publish_to. destruct (decide _); [done|]. destruct (_ || _); [by split|].
  destruct (links s !! _) as [pr|]; [|done]. pose proof (roll_loss_frame (loss_per_mille pr) s) as Hr.
  destruct (roll_loss _ s) as [s1 []]; (etrans; [exact Hr|by split]).
Qed.

Lemma foldl_frame {A} (f : SimulationRunner -> A -> SimulationRunner) l s :
  (forall s a, sched_frame s (f s a)) -> sched_frame s (foldl f s l).
Proof. intros Hf. revert s. induction l as [|a l IH]; intros s; [done|]. cbn [foldl]. etrans; [apply Hf|apply IH]. Qed.

Lemma schedule_action_frame s a : sched_frame s (schedule_action s a).
Proof.
  destruct a as [from to m|from scope p]; cbn [schedule_action]; [|apply foldl_frame, publish_to_frame].
  destruct (_ || _); [by split|]. destruct (links s !! _) as [pr|]; [|by split].
  pose proof (roll_loss_frame (loss_per_mille pr) s) as Hr.
  destruct (roll_loss _ s) as [s1 []]; (etrans; [exact Hr|by split]).
Qed.

Lemma record_delivery_same to m s : clock_ms (record_delivery to m s) = clock_ms s
  /\ scheduler (record_delivery to m s) = scheduler s /\ action_rx (record_delivery to m s) = action_rx s.
Proof.
  unfold record_delivery. destruct (delivered_key_fields m to) as [[id c]|]; [|done].
  by destruct (delivered_ids s !! _).
Qed.

Lemma run_scheduled_same a s : clock_ms (run_scheduled a s) = clock_ms s
  /\ scheduler (run_scheduled a s) = scheduler s /\ action_rx (run_scheduled a s) = action_rx s.
Proof.
  destruct a as [to ev b|p up]; cbn [run_scheduled]; [|by destruct (nodes s !! p)].
  unfold consume_bandwidth. destruct (decide _); cbn [negb]; [done|].
  cbn [count_bytes set_bandwidth_usage set_sim_metrics event_txs].
  destruct (event_txs s !! to); destruct ev; try done;
    match goal with |- context [record_delivery ?t ?m ?x] => exact (record_delivery_same t m x) end.
Qed.

(** no event is due and nothing waits to be scheduled *)
Definition settled (s : SimulationRunner) : Prop :=
  action_rx s = [] /\ forall f, f ∈ queue (scheduler s) -> clock_ms s < at_ms f.

Lemma drain_ready_settles n s : (length (queue (scheduler s)) <= n)%nat -> action_rx s = [] ->
  settled (drain_ready n s) /\ clock_ms (drain_ready n s) = clock_ms s.
Proof.
  revert s. induction n as [|n IH]; intros s Hl Ha; cbn [drain_ready].
  { split; [|done]. split; [done|]. destruct (queue (scheduler s)); [by intros ? ?%elem_of_nil|cbn [length] in Hl; lia]. }
  destruct (pop_ready (clock_ms s) (scheduler s)) as [sch [e|]] eqn:E.
  - apply pop_ready_length in E.
    destruct (run_scheduled_same (ev_payload e) (set_scheduler sch s)) as (Hc & Hs & Hr).
    cbn [set_scheduler clock_ms scheduler action_rx] in Hc, Hs, Hr.
    rewrite <- Hc. apply IH; [rewrite Hs; lia|by rewrite Hr].
  - split; [|done]. split; [done|]. by eapply pop_ready_None.
Qed.

(** After a step nothing is due; time does not go back, and moves on when an
    event was waiting. *)
Lemma step_settles s : settled (step_until_next_event s) /\ clock_ms s <= clock_ms (step_until_next_event s)
  /\ (settled s -> queue (scheduler s) ≠ [] -> clock_ms s < clock_ms (step_until_next_event s))
  /\ (settled s -> queue (scheduler s) = [] -> clock_ms (step_until_next_event s) = clock_ms s).
Proof.
  unfold step_until_next_event.
  set (s1 := foldl schedule_action (set_action_rx [] s) (action_rx s)).
  assert (Hf : sched_frame (set_action_rx [] s) s1) by (apply foldl_frame, schedule_action_frame).
  assert (Hs1 : settled s -> s1 = set_action_rx [] s) by (intros [Ha _]; unfold s1; by rewrite Ha).
  destruct Hf as [Hc _ _ _ _ _ _ _ _ Ha]. cbn [set_action_rx clock_ms action_rx] in Hc, Ha.
  destruct (next_timestamp (scheduler s1)) as [t|] eqn:Et.
  - destruct (drain_ready_settles (length (queue (scheduler (set_clock (advance_to t (clock_ms s1)) s1))))
      (set_clock (advance_to t (clock_ms s1)) s1)) as [Hset Hcl]; [done|done|].
    rewrite Hcl. cbn [set_clock clock_ms]. unfold advance_to. split_and!; [done|lia| |].
    + intros Hst Hq. destruct (next_timestamp_Some _ _ Et) as (e & He & <-).
      rewrite (Hs1 Hst) in He. apply Hst in He. lia.
    + intros Hst Hq. rewrite (Hs1 Hst) in Et. cbn [set_action_rx scheduler] in Et.
      apply next_timestamp_None in Hq. by rewrite Hq in Et.
  - destruct (drain_ready_settles (length (queue (scheduler s1))) s1) as [Hset Hcl]; [done|done|].
    rewrite Hcl. split_and!; [done|lia| |done].
    intros Hst Hq. rewrite (Hs1 Hst) in Et. by apply next_timestamp_None in Et.
Qed.

Lemma run_iteration_spec target burst s : target <= umax 64 -> clock_ms s < target ->
  let s' := run_iteration target burst s in
  action_rx s' = burst /\ clock_ms s <= clock_ms s'
  /\ (forall f, f ∈ queue (scheduler s') -> clock_ms s' < at_ms f)
  /\ (settled s -> burst = [] -> clock_ms s < clock_ms s').
Proof.
  intros Ht Hlt. destruct (step_settles s) as ([Ha Hd] & Hmono & Hprog & Hstay).
  unfold run_iteration. rewrite Ha. cbn [app set_action_rx scheduler action_rx].
  destruct (decide _) as [[Hq%next_timestamp_None Hr]|Hq]; cbn [set_clock set_action_rx clock_ms scheduler action_rx].
  - assert (clock_ms s < advance_to (Z.min (clock_ms (step_until_next_event s) +sat 1) target)
              (clock_ms (step_until_next_event s))) by (unfold advance_to, sat_add; lia).
    split_and!; [done|lia| |done]. rewrite Hq. by intros ? ?%elem_of_nil.
  - split_and!; [done|done|done|]. intros Hset Hr. apply Hprog; [done|]. intros Hqs. apply Hq. split; [|done].
    unfold step_until_next_event. destruct Hset as [Hset _]. rewrite Hset. cbn [foldl].
    assert (Hnx : next_timestamp (scheduler (set_action_rx [] s)) = None) by (by apply next_timestamp_None).
    rewrite Hnx. cbn [set_action_rx scheduler]. by rewrite Hqs.
Qed.

Lemma run_loop_total target n : target <= umax 64 -> forall arrivals s (b : bool),
  (b = false -> settled s) ->
  (Z.to_nat (target - clock_ms s) + 2 * length arrivals + (if b then 1 else 0) < n)%nat ->
  exists s', run_loop n target arrivals s = Some s' /\ target <= clock_ms s'
    /\ (clock_ms s < target \/ b = false -> forall f, f ∈ queue (scheduler s') -> clock_ms s' < at_ms f).
Proof.
  intros Ht. induction n as [|n IH]; intros arrivals s b Hb Hn; [lia|]. cbn [run_loop].
  destruct (decide (clock_ms s < target)) as [Hlt|Hge].
  2: { exists s. split_and!; [done|lia|]. intros [?| ->]; [lia|]. by apply Hb. }
  destruct (run_iteration_spec target (default [] (head arrivals)) s Ht Hlt) as (Hact & Hle & Hlate & Hp).
  set (s3 := run_iteration _ _ s) in *.
  destruct (IH (tail arrivals) s3 (bool_decide (default [] (head arrivals) ≠ []))) as (s' & Hrun & Hend & Hq').
  - intros Hb'%bool_decide_eq_false_1. split; [|done]. rewrite Hact. by apply dec_stable.
  - destruct (bool_decide_reflect (default [] (head arrivals) ≠ [])) as [Hne|He].
    + destruct arrivals as [|a arrivals]; [done|]. cbn [tail length] in *. destruct b; lia.
    + assert (length (tail arrivals) <= length arrivals)%nat by (destruct arrivals; cbn [tail length]; lia).
      destruct b; [lia|]. enough (clock_ms s < clock_ms s3) by lia. apply Hp; [by apply Hb|by apply dec_stable].
  - exists s'. split_and!; [done|done|]. intros _.
    destruct (decide (clock_ms s3 < target)) as [H3|H3]; [apply Hq'; by left|].
    destruct n as [|n]; [done|]. cbn [run_loop] in Hrun. rewrite decide_False in Hrun by done.
    by injection Hrun as <-.
Qed.

(** The simulation driver returns: for any state, any finite traffic from
    the node tasks and any duration, [run_for_async] stops within one iteration
    per millisecond, two per burst of traffic and two more; the clock has then
    reached the target and no event that is due is left waiting. *)
Theorem run_for_completes (arrivals : list (list SimAction)) (duration : Z) (s : SimulationRunner) (fuel : nat) :
  0 < duration -> 0 <= clock_ms s < umax 64 ->
  (Z.to_nat duration + 2 * length arrivals + 2 <= fuel)%nat ->
  exists s', run_for_async fuel arrivals duration s = Some s' /\ clock_ms s +sat duration <= clock_ms s'
    /\ forall f, f ∈ queue (scheduler s') -> clock_ms s' < at_ms f.
Proof.
  intros Hd Hc Hf. unfold run_for_async.
  destruct (run_loop_total (clock_ms s +sat duration) fuel) with (arrivals := arrivals) (s := s) (b := true)
    as (s' & Hr & Ht & Hq); [unfold sat_add; lia|done|unfold sat_add; lia|].
  exists s'. split_and!; [done|done|]. apply Hq. left. unfold sat_add. lia.
Qed.
