(* ===== verification/SimTheorems.v ===== *)
(** * The simulator's books

    Every copy of a frame the runner takes is delivered, counted as dropped for
    exactly one reason, or still in flight; links never exceed the receiver's
    bandwidth; the delivery metric counts each message once. *)

From S2P Require Import Prelude Text Wire Sim.

Open Scope Z_scope.

Definition deliveries (e : ScheduledEvent ScheduledAction) : Z :=
  match ev_payload e with Deliver _ _ _ => 1 | Availability _ _ => 0 end.

Definition in_flight (s : SimulationRunner) : Z := sumZ deliveries (queue (scheduler s)).

Definition mailed (s : SimulationRunner) : Z := msum (fun l => Z.of_nat (length l)) (event_txs s).

Definition accounted (s : SimulationRunner) : Z :=
  let m := sim_metrics s in
  dropped_offline m + dropped_loss m + dropped_bandwidth m + mailed s + in_flight s.

(** does the publisher's loop count a copy for this peer? *)
Definition counts_copy (s : SimulationRunner) (from to : string) : bool :=
  negb (bool_decide (to = from)) &&
  (negb (is_online s from) || negb (is_online s to) || bool_decide (is_Some (links s !! (from, to)))).

(** the copies an action stands for *)
Definition copies (s : SimulationRunner) (a : SimAction) : Z :=
  match a with
  | SimSendDirect _ _ _ => 1
  | SimPublishScoped from _ _ =>
      sumZ (fun to => if counts_copy s from to then 1 else 0) (elements (dom (nodes s)))
  end.

Definition budget (s : SimulationRunner) (p : string) : Z :=
  match nodes s !! p with Some n => bandwidth_bytes_per_sec n | None => 0 end.

Definition deliver_ok (s : SimulationRunner) (a : ScheduledAction) : Prop :=
  match a with Deliver to _ b => is_Some (event_txs s !! to) /\ 0 <= b | Availability _ _ => True end.

Record sim_inv (s : SimulationRunner) : Prop := {
  si_drops : 0 <= dropped_offline (sim_metrics s) /\ 0 <= dropped_loss (sim_metrics s)
             /\ 0 <= dropped_bandwidth (sim_metrics s);
  si_queue : forall e, e ∈ queue (scheduler s) -> deliver_ok s (ev_payload e);
  si_nodes : forall p, is_Some (nodes s !! p) <-> is_Some (event_txs s !! p);
  si_usage : forall k u, bandwidth_usage s !! k = Some u -> 0 <= u <= budget s k.1;
  si_budget : forall p, 0 <= budget s p;
  si_delivered : delivered (sim_metrics s) = Z.of_nat (size (delivered_ids s));
  si_latencies : delivered (sim_metrics s) = Z.of_nat (length (latencies_ms (sim_metrics s)));
  si_mailed : delivered (sim_metrics s) <= mailed s;
}.

Lemma mailed_nonneg s : 0 <= mailed s.
Proof. apply msum_nonneg. intros; lia. Qed.
Lemma in_flight_nonneg s : 0 <= in_flight s.
Proof. apply sumZ_nonneg. intros e _. unfold deliveries. destruct (ev_payload e); lia. Qed.
#[export] Hint Resolve mailed_nonneg in_flight_nonneg : mach.

(** ** Scheduling *)

(** [s'] is [s] with [k] more copies on the books *)
Definition books (k : Z) (s s' : SimulationRunner) : Prop :=
  0 <= k /\ sched_frame s s' /\
  (sim_inv s -> accounted s + k < 2 ^ 64 -> sim_inv s' /\ accounted s' = accounted s + k).

Lemma books_refl s : books 0 s s.
Proof. split_and!; [lia|done|]. intros Hi _. split; [done|lia]. Qed.

Lemma books_trans j k a b c : books j a b -> books k b c -> books (j + k) a c.
Proof.
  intros (Hj & Fj & Bj) (Hk & Fk & Bk). split_and!; [lia|by etrans|]. intros Hi Hb.
  destruct (Bj Hi ltac:(lia)) as [Hib Eb]. destruct (Bk Hib ltac:(lia)) as [Hic Ec]. split; [done|lia].
Qed.

(** the invariant depends on the frame, the drop counters and the queue *)
Lemma sim_inv_frame s s' : sched_frame s s' -> sim_inv s ->
  0 <= dropped_offline (sim_metrics s') -> 0 <= dropped_loss (sim_metrics s') ->
  (forall e, e ∈ queue (scheduler s') -> e ∈ queue (scheduler s) \/ deliver_ok s (ev_payload e)) -> sim_inv s'.
Proof.
  intros [F1 F2 F3 F4 F5 F6 F7 F8 F9 _] [I1 I2 I3 I4 I5 I6 I7 I8] Ho Hl Hq.
  split; unfold budget, deliver_ok, mailed in *; rewrite ?F3, ?F4, ?F5, ?F6, ?F7, ?F8, ?F9; try done.
  - naive_solver.
  - intros e He. destruct (Hq e He) as [He'|He']; [by apply I2|done].
Qed.

Lemma books_offline s : books 1 s (count_offline s).
Proof.
  split_and!; [done|by split|]. intros Hi Hb. pose proof (mailed_nonneg s). pose proof (in_flight_nonneg s).
  destruct (si_drops s Hi) as (H1 & H2 & H3). unfold accounted in *.
  assert (E : dropped_offline (sim_metrics s) +64 1 = dropped_offline (sim_metrics s) + 1) by mach.
  unfold mailed, in_flight in *. split.
  - apply (sim_inv_frame s); try done; [|by intros; left].
    cbn [count_offline set_sim_metrics sim_metrics dropped_offline]. lia.
  - cbn [count_offline set_sim_metrics sim_metrics dropped_offline dropped_loss dropped_bandwidth event_txs scheduler].
    rewrite E. lia.
Qed.

Lemma books_loss s : books 1 s (count_loss s).
Proof.
  split_and!; [done|by split|]. intros Hi Hb. pose proof (mailed_nonneg s). pose proof (in_flight_nonneg s).
  destruct (si_drops s Hi) as (H1 & H2 & H3). unfold accounted in *.
  assert (E : dropped_loss (sim_metrics s) +64 1 = dropped_loss (sim_metrics s) + 1) by mach.
  unfold mailed, in_flight in *. split.
  - apply (sim_inv_frame s); try done; [|by intros; left].
    cbn [count_loss set_sim_metrics sim_metrics dropped_loss]. lia.
  - cbn [count_loss set_sim_metrics sim_metrics dropped_offline dropped_loss dropped_bandwidth event_txs scheduler].
    rewrite E. lia.
Qed.

Lemma books_roll x s : books 0 s (roll_loss x s).1.
Proof.
  unfold roll_loss. destruct (decide (x = 0)); [apply books_refl|]. cbn [fst].
  split_and!; [done|by split|]. intros Hi _. split; [|unfold accounted, mailed, in_flight; cbn; lia].
  apply (sim_inv_frame s); try done; [apply Hi|apply Hi|by intros; left].
Qed.

Lemma books_schedule at_ to ev b s : is_Some (nodes s !! to) -> 0 <= b ->
  books 1 s (schedule at_ (Deliver to ev b) s).
Proof.
  intros Hto Hb0. split_and!; [done|by split|]. intros Hi Hb. split.
  - apply (sim_inv_frame s); try done; [apply Hi|apply Hi|].
    intros e [->|He]%elem_of_cons; [right|by left]. split; [by apply Hi|done].
  - unfold accounted, in_flight, schedule, sched_push.
    cbn [set_scheduler scheduler queue sumZ sim_metrics]. unfold mailed. cbn [event_txs set_scheduler].
    change (sumZ deliveries (mkEvent at_ (next_seq (scheduler s) +64 1) (Deliver to ev b) :: queue (scheduler s)))
      with (1 + sumZ deliveries (queue (scheduler s))). lia.
Qed.

(** the part the two kinds of sends share *)
Lemma books_attempt x at_ to ev b s : is_Some (nodes s !! to) -> 0 <= b ->
  books 1 s (let '(s1, lost) := roll_loss x s in
             if (lost : bool) then count_loss s1 else schedule (at_ s1) (Deliver to ev b) s1).
Proof.
  intros Hto Hb. pose proof (books_roll x s) as Hr. destruct (roll_loss x s) as [s1 lost]; cbn [fst] in Hr.
  change 1 with (0 + 1). eapply books_trans; [exact Hr|]. destruct lost; [apply books_loss|].
  apply books_schedule; [|done]. destruct Hr as (_ & F & _). by rewrite (fr_nodes _ _ F).
Qed.

Lemma is_online_node s p : is_online s p = true -> is_Some (nodes s !! p).
Proof. unfold is_online. by destruct (nodes s !! p). Qed.

Lemma sumZ_length_nonneg {A B} (f : A -> list B) l : 0 <= sumZ (fun a => Z.of_nat (length (f a))) l.
Proof. apply sumZ_nonneg. intros; lia. Qed.

Lemma wire_message_size_nonneg m : 0 <= wire_message_size m.
Proof.
  destruct m; cbn [wire_message_size]; unfold strings_size;
    try match goal with |- context [sumZ ?f ?l] => assert (0 <= sumZ f l) by apply sumZ_length_nonneg end; lia.
Qed.

Lemma books_publish_to from scope p s to :
  books (if counts_copy s from to then 1 else 0) s (publish_to from scope p s to).
Proof.
  unfold counts_copy, publish_to. destruct (decide (to = from)) as [->|Hne]; [rewrite bool_decide_true by done; apply books_refl|].
  rewrite bool_decide_false by done. cbn [negb andb].
  destruct (is_online s from); cbn [negb orb]; [|apply books_offline].
  destruct (is_online s to) eqn:Ho; cbn [negb orb]; [|apply books_offline]. apply is_online_node in Ho.
  destruct (links s !! (from, to)) as [pr|]; [rewrite bool_decide_true by done|rewrite bool_decide_false by naive_solver; apply books_refl].
  apply (books_attempt _ (fun s1 => clock_ms s1 +sat latency_ms pr)); [done|lia].
Qed.

Lemma counts_copy_frame s s' from to : sched_frame s s' -> counts_copy s' from to = counts_copy s from to.
Proof. intros F. unfold counts_copy, is_online. by rewrite (fr_nodes _ _ F), (fr_links _ _ F). Qed.

Lemma copies_frame s s' a : sched_frame s s' -> copies s' a = copies s a.
Proof.
  intros F. destruct a as [from to m|from scope p]; cbn [copies]; [done|]. rewrite (fr_nodes _ _ F).
  apply sumZ_ext. intros to _. by rewrite (counts_copy_frame _ _ _ _ F).
Qed.

Lemma books_foldl {A} (f : SimulationRunner -> A -> SimulationRunner) (k : SimulationRunner -> A -> Z) l s :
  (forall s a, books (k s a) s (f s a)) -> (forall s s' a, sched_frame s s' -> k s' a = k s a) ->
  books (sumZ (k s) l) s (foldl f s l).
Proof.
  intros Hf Hk. revert s. induction l as [|a l IH]; intros s; [apply books_refl|]. cbn [foldl].
  replace (sumZ (k s) (a :: l)) with (k s a + sumZ (k (f s a)) l).
  - eapply books_trans; [apply Hf|apply IH].
  - change (sumZ (k s) (a :: l)) with (k s a + sumZ (k s) l). f_equal. apply sumZ_ext. intros b _. apply Hk, Hf.
Qed.

Lemma books_schedule_action s a : books (copies s a) s (schedule_action s a).
Proof.
  destruct a as [from to m|from scope p]; cbn [schedule_action copies].
  - destruct (is_online s from); cbn [negb orb]; [|apply books_offline].
    destruct (is_online s to) eqn:Ho; cbn [negb]; [|apply books_offline]. apply is_online_node in Ho.
    destruct (links s !! (from, to)) as [pr|]; [|apply books_offline].
    apply (books_attempt _ (fun s1 => clock_ms s1 +sat latency_ms pr)); [done|apply wire_message_size_nonneg].
  - apply (books_foldl (publish_to from scope p) (fun s to => if counts_copy s from to then 1 else 0)).
    + intros. apply books_publish_to.
    + intros s1 s2 to F. by rewrite (counts_copy_frame _ _ _ _ F).
Qed.

Lemma books_actions l s : books (sumZ (copies s) l) s (foldl schedule_action s l).
Proof. apply books_foldl; [apply books_schedule_action|intros; by apply copies_frame]. Qed.

(** ** Running scheduled actions *)

Definition weight (a : ScheduledAction) : Z := match a with Deliver _ _ _ => 1 | Availability _ _ => 0 end.

Lemma inv_usage p sec u s : sim_inv s -> 0 <= u <= budget s p ->
  sim_inv (set_bandwidth_usage (<[(p, sec) := u]> (bandwidth_usage s)) s).
Proof.
  intros [I1 I2 I3 I4 I5 I6 I7 I8] Hu. split; try done. intros k u'. cbn [set_bandwidth_usage bandwidth_usage].
  destruct (decide (k = (p, sec))) as [->|Hk].
  - rewrite lookup_insert_eq. by intros [= <-].
  - rewrite lookup_insert_ne by done. apply I4.
Qed.

Lemma inv_bandwidth s : sim_inv s -> accounted s + 1 < 2 ^ 64 ->
  sim_inv (count_bandwidth s) /\ accounted (count_bandwidth s) = accounted s + 1.
Proof.
  intros Hi Hb. pose proof (mailed_nonneg s). pose proof (in_flight_nonneg s).
  destruct (si_drops s Hi) as (H1 & H2 & H3). unfold accounted in *.
  assert (E : dropped_bandwidth (sim_metrics s) +64 1 = dropped_bandwidth (sim_metrics s) + 1) by mach.
  unfold mailed, in_flight in *. split.
  - destruct Hi as [I1 I2 I3 I4 I5 I6 I7 I8]. split; try done.
    cbn [count_bandwidth set_sim_metrics sim_metrics dropped_offline dropped_loss dropped_bandwidth]. lia.
  - cbn [count_bandwidth set_sim_metrics sim_metrics dropped_offline dropped_loss dropped_bandwidth event_txs scheduler].
    rewrite E. lia.
Qed.

Lemma inv_mail to ev l s : sim_inv s -> event_txs s !! to = Some l ->
  let s' := set_event_txs (<[to := l ++ [ev]]> (event_txs s)) s in
  sim_inv s' /\ mailed s' = mailed s + 1 /\ accounted s' = accounted s + 1.
Proof.
  intros Hi Hl s'. assert (Hm : mailed s' = mailed s + 1).
  { unfold mailed, s'. cbn [set_event_txs event_txs]. rewrite msum_insert, Hl, length_app. cbn [length]. lia. }
  split_and!; [|done|unfold accounted; rewrite Hm; unfold s', in_flight; cbn [set_event_txs sim_metrics scheduler]; lia].
  destruct Hi as [I1 I2 I3 I4 I5 I6 I7 I8].
  assert (Hdom : forall p, is_Some (event_txs s' !! p) <-> is_Some (event_txs s !! p)).
  { intros p. unfold s'. cbn [set_event_txs event_txs]. destruct (decide (to = p)) as [<-|Hp].
    - by rewrite lookup_insert_eq, Hl.
    - by rewrite lookup_insert_ne. }
  split; try done.
  - intros e He. specialize (I2 e He). unfold deliver_ok in *. destruct (ev_payload e); [by rewrite Hdom|done].
  - intros p. rewrite Hdom. apply I3.
  - rewrite Hm. cbn [s' set_event_txs sim_metrics]. lia.
Qed.

Lemma inv_record to m s : sim_inv s -> delivered (sim_metrics s) + 1 <= mailed s -> mailed s < 2 ^ 64 ->
  sim_inv (record_delivery to m s) /\ accounted (record_delivery to m s) = accounted s.
Proof.
  intros [I1 I2 I3 I4 I5 I6 I7 I8] Hd Hb. unfold record_delivery.
  destruct (delivered_key_fields m to) as [[id c]|]; [|by split].
  destruct (delivered_ids s !! _) as [x|] eqn:E.
  - split; [|done]. split; try done. cbn [count_duplicate set_sim_metrics sim_metrics set_delivered_ids delivered delivered_ids].
    rewrite map_size_insert_Some; [done|by eexists].
  - assert (E1 : delivered (sim_metrics s) +64 1 = delivered (sim_metrics s) + 1) by mach.
    split; [|done]. split; try done;
      cbn [count_delivered set_sim_metrics sim_metrics set_delivered_ids delivered delivered_ids latencies_ms]; rewrite E1.
    + rewrite map_size_insert_None by done. lia.
    + rewrite length_app. cbn [length]. lia.
    + done.
Qed.

Lemma inv_availability p up n s : sim_inv s -> nodes s !! p = Some n ->
  sim_inv (set_nodes (<[p := mkSpec (sp_peer_id n) up (bandwidth_bytes_per_sec n)]> (nodes s)) s).
Proof.
  intros [I1 I2 I3 I4 I5 I6 I7 I8] Hn.
  assert (Hb : forall q, budget (set_nodes (<[p := mkSpec (sp_peer_id n) up (bandwidth_bytes_per_sec n)]> (nodes s)) s) q
                         = budget s q).
  { intros q. unfold budget. cbn [set_nodes nodes]. destruct (decide (p = q)) as [<-|Hq].
    - by rewrite lookup_insert_eq, Hn.
    - by rewrite lookup_insert_ne. }
  split; try done.
  - intros q. rewrite <- I3. cbn [set_nodes nodes]. destruct (decide (p = q)) as [<-|Hq].
    + by rewrite lookup_insert_eq, Hn.
    + by rewrite lookup_insert_ne.
  - intros k u Hu. rewrite Hb. by apply I4.
  - intros q. by rewrite Hb.
Qed.

Lemma mailed_le_accounted s : sim_inv s -> mailed s <= accounted s.
Proof. intros Hi. pose proof (in_flight_nonneg s). pose proof (si_drops s Hi). unfold accounted. lia. Qed.

Lemma inv_deliver to ev b s : sim_inv s -> deliver_ok s (Deliver to ev b) -> accounted s + 1 < 2 ^ 64 ->
  sim_inv (run_scheduled (Deliver to ev b) s) /\ accounted (run_scheduled (Deliver to ev b) s) = accounted s + 1.
Proof.
  intros Hi [[l Hl] Hb0] Hb. cbn [run_scheduled]. unfold consume_bandwidth. fold (budget s to).
  set (used := default 0 (bandwidth_usage s !! (to, clock_ms s `div` 1000))).
  assert (Hu : 0 <= used <= budget s to).
  { unfold used. destruct (bandwidth_usage s !! _) as [u|] eqn:E; [exact (si_usage s Hi _ _ E)|].
    pose proof (si_budget s Hi to). cbn [default from_option id]. lia. }
  destruct (decide (budget s to < used +sat b)) as [Hlt|Hge]; cbn [negb].
  { destruct (inv_bandwidth _ (inv_usage to (clock_ms s / 1000) used s Hi Hu)) as [H1 H2]; [done|]. by split. }
  pose proof (inv_usage to (clock_ms s / 1000) (used +sat b) s Hi ltac:(mach_unfold; lia)) as Hi1.
  set (s1 := set_bandwidth_usage _ s) in *.
  assert (Hi2 : sim_inv (count_bytes b s1)) by (by destruct Hi1; split).
  assert (Ha : accounted (count_bytes b s1) = accounted s) by done.
  assert (Hl2 : event_txs (count_bytes b s1) !! to = Some l) by done.
  rewrite Hl2. destruct (inv_mail to ev l _ Hi2 Hl2) as (Hi3 & Hm & Ha3).
  set (s3 := set_event_txs _ _) in *.
  destruct ev; try (split; [done|lia]).
  destruct (inv_record to message s3 Hi3) as [H1 H2]; [|pose proof (mailed_le_accounted s3 Hi3); lia|].
  - pose proof (si_mailed _ Hi2). change (sim_metrics s3) with (sim_metrics (count_bytes b s1)). lia.
  - split; [done|lia].
Qed.

Lemma inv_run_scheduled a s : sim_inv s -> deliver_ok s a -> accounted s + weight a < 2 ^ 64 ->
  sim_inv (run_scheduled a s) /\ accounted (run_scheduled a s) = accounted s + weight a.
Proof.
  intros Hi Ha Hb. destruct a as [to ev b|p up]; [by apply inv_deliver|]. cbn [run_scheduled weight] in *.
  destruct (nodes s !! p) as [n|] eqn:E; [|split; [done|lia]].
  split; [by apply inv_availability|]. unfold accounted, mailed, in_flight. cbn [set_nodes sim_metrics event_txs scheduler]. lia.
Qed.

Lemma inv_pop s sch e : sim_inv s -> pop_ready (clock_ms s) (scheduler s) = (sch, Some e) ->
  sim_inv (set_scheduler sch s) /\ deliver_ok (set_scheduler sch s) (ev_payload e)
  /\ accounted (set_scheduler sch s) + weight (ev_payload e) = accounted s.
Proof.
  intros Hi Hp. assert (Hq : queue (scheduler s) ≡ₚ e :: queue sch).
  { revert Hp. unfold pop_ready, heap_peek. pose proof (heap_pop_spec (queue (scheduler s))) as Hs.
    destruct (heap_pop _) as [[f r]|]; cbn [fmap option_fmap option_map fst]; [|by intros [=]].
    destruct (bool_decide _); intros [= <- <-]. apply Hs. }
  destruct Hi as [I1 I2 I3 I4 I5 I6 I7 I8]. split_and!.
  - split; try done. intros f Hf. cbn [set_scheduler scheduler] in Hf. apply I2. rewrite Hq. by right.
  - apply I2. rewrite Hq. by left.
  - unfold accounted, mailed, in_flight. cbn [set_scheduler sim_metrics event_txs scheduler].
    rewrite (sumZ_perm _ _ _ Hq). change (sumZ deliveries (e :: queue sch)) with (deliveries e + sumZ deliveries (queue sch)).
    change (weight (ev_payload e)) with (deliveries e). lia.
Qed.

Lemma inv_drain n s : sim_inv s -> accounted s < 2 ^ 64 ->
  sim_inv (drain_ready n s) /\ accounted (drain_ready n s) = accounted s.
Proof.
  revert s. induction n as [|n IH]; intros s Hi Hb; cbn [drain_ready]; [by split|].
  destruct (pop_ready (clock_ms s) (scheduler s)) as [sch [e|]] eqn:E; [|by split].
  destruct (inv_pop s sch e Hi E) as (Hi1 & Hd & Ha).
  destruct (inv_run_scheduled _ _ Hi1 Hd ltac:(lia)) as [Hi2 Ha2].
  destruct (IH _ Hi2 ltac:(lia)) as [Hi3 Ha3]. split; [done|lia].
Qed.

Definition waiting_copies (s : SimulationRunner) : Z := sumZ (copies s) (action_rx s).

Lemma inv_set_clock t s : sim_inv s -> sim_inv (set_clock t s).
Proof. by intros []; split. Qed.

Lemma inv_set_actions l s : sim_inv s -> sim_inv (set_action_rx l s).
Proof. by intros []; split. Qed.

Lemma inv_step s : sim_inv s -> accounted s + waiting_copies s < 2 ^ 64 ->
  sim_inv (step_until_next_event s) /\ accounted (step_until_next_event s) = accounted s + waiting_copies s.
Proof.
  intros Hi Hb. unfold step_until_next_event.
  destruct (books_actions (action_rx s) (set_action_rx [] s)) as (_ & _ & HB).
  change (copies (set_action_rx [] s)) with (copies s) in HB. fold (waiting_copies s) in HB.
  destruct HB as [Hi1 Ha1]; [by apply inv_set_actions|done|].
  set (s1 := foldl schedule_action _ _) in *.
  change (accounted (set_action_rx [] s)) with (accounted s) in Ha1.
  destruct (next_timestamp (scheduler s1)) as [t|].
  - destruct (inv_drain (length (queue (scheduler (set_clock (advance_to t (clock_ms s1)) s1))))
      (set_clock (advance_to t (clock_ms s1)) s1)) as [H1 H2]; [by apply inv_set_clock| |].
    + change (accounted (set_clock (advance_to t (clock_ms s1)) s1)) with (accounted s1). lia.
    + split; [done|]. rewrite H2. exact Ha1.
  - destruct (inv_drain (length (queue (scheduler s1))) s1) as [H1 H2]; [done|lia|]. split; [done|lia].
Qed.

(** ** Reachable simulations *)

(** [n] counts the copies taken from the action channel so far. *)
Inductive sim_reach : Z -> SimulationRunner -> Prop :=
| sr_new start seed : sim_reach 0 (sim_new start seed)
| sr_register n s p bw : sim_reach n s -> nodes s !! p = None -> 0 <= bw -> sim_reach n (register_node p bw s)
| sr_link n s a b pr : sim_reach n s -> sim_reach n (set_link a b pr s)
| sr_availability n s p t up : sim_reach n s -> sim_reach n (schedule_availability p t up s)
| sr_send n s a : sim_reach n s -> sim_reach n (set_action_rx (action_rx s ++ [a]) s)
| sr_clock n s t : sim_reach n s -> sim_reach n (set_clock (advance_to t (clock_ms s)) s)
| sr_step n s : sim_reach n s -> n + waiting_copies s < 2 ^ 64 ->
    sim_reach (n + waiting_copies s) (step_until_next_event s).

Lemma inv_register p bw s : sim_inv s -> nodes s !! p = None -> 0 <= bw ->
  sim_inv (register_node p bw s) /\ accounted (register_node p bw s) = accounted s.
Proof.
  intros [I1 I2 I3 I4 I5 I6 I7 I8] Hn Hb.
  assert (Ht : event_txs s !! p = None) by (apply eq_None_not_Some; rewrite <- I3, Hn; by intros [? ?]).
  assert (Hm : mailed (register_node p bw s) = mailed s).
  { unfold mailed, register_node. cbn [set_nodes set_event_txs event_txs]. rewrite msum_insert_new by done. done. }
  assert (Hbu : forall q, budget s q <= budget (register_node p bw s) q /\ 0 <= budget (register_node p bw s) q).
  { intros q. unfold budget, register_node. cbn [set_nodes nodes]. pose proof (I5 q). unfold budget in *.
    destruct (decide (p = q)) as [<-|Hq]; [rewrite lookup_insert_eq, Hn in *; cbn [bandwidth_bytes_per_sec]; lia|].
    rewrite lookup_insert_ne by done. lia. }
  split; [split; try done|unfold accounted; by rewrite Hm].
  - intros e He. specialize (I2 e He). unfold deliver_ok in *. destruct (ev_payload e) as [to ev b|]; [|done].
    split; [|apply I2]. cbn [register_node set_nodes set_event_txs event_txs].
    destruct (decide (p = to)) as [<-|Hq]; [by rewrite lookup_insert_eq|rewrite lookup_insert_ne by done; apply I2].
  - intros q. cbn [register_node set_nodes set_event_txs event_txs nodes].
    destruct (decide (p = q)) as [<-|Hq]; [by rewrite !lookup_insert_eq|rewrite !lookup_insert_ne by done; apply I3].
  - intros k u Hu. specialize (I4 k u Hu). specialize (Hbu k.1). lia.
  - intros q. apply Hbu.
  - by rewrite Hm.
Qed.

Lemma sim_reach_inv n s : sim_reach n s -> sim_inv s /\ accounted s = n.
Proof.
  induction 1 as [start seed|n s p bw _ [Hi Ha] Hn Hb|n s a b pr _ [Hi Ha]|n s p t up _ [Hi Ha]|n s a _ [Hi Ha]|n s t _ [Hi Ha]|n s _ [Hi Ha] Hb].
  - split; [|done]. split; try done.
    + by intros e ?%elem_of_nil.
    + intros p. cbn [sim_new nodes event_txs]. by rewrite !lookup_empty.
  - destruct (inv_register p bw s Hi Hn Hb) as [H1 H2]. split; [done|lia].
  - split; [by destruct Hi; split|done].
  - split; [|unfold accounted, in_flight, mailed, schedule_availability, sched_push in *;
              cbn [set_scheduler scheduler queue sim_metrics event_txs]; exact Ha].
    destruct Hi as [I1 I2 I3 I4 I5 I6 I7 I8]. split; try done. by intros e [->|He]%elem_of_cons; [|apply I2].
  - split; [by apply inv_set_actions|done].
  - split; [by apply inv_set_clock|done].
  - destruct (inv_step s Hi ltac:(lia)) as [H1 H2]. split; [done|lia].
Qed.

(** The simulator's books balance: after any set-up, traffic and steps, the
    copies it has taken (one per direct send; one per other node of a publish
    that is offline or linked) are exactly those dropped as offline, lost or
    over bandwidth, plus those handed to the nodes, plus those in flight; no
    node receives more bytes in a second than its bandwidth; and the delivery
    count is the number of distinct recorded deliveries and of latencies. *)
Theorem simulation_books_balance (n : Z) (s : SimulationRunner) : sim_reach n s ->
  dropped_offline (sim_metrics s) + dropped_loss (sim_metrics s) + dropped_bandwidth (sim_metrics s)
    + mailed s + in_flight s = n
  /\ (forall p sec used, bandwidth_usage s !! (p, sec) = Some used -> used <= budget s p)
  /\ delivered (sim_metrics s) = Z.of_nat (size (delivered_ids s))
  /\ delivered (sim_metrics s) = Z.of_nat (length (latencies_ms (sim_metrics s))).
Proof.
  intros [Hi Ha]%sim_reach_inv. split_and!; [exact Ha| |apply Hi|apply Hi].
  intros p sec used Hu. apply (si_usage s Hi (p, sec) used Hu).
Qed.

(** ** Scheduling order *)

Lemma list_filter_all {A} (P : A -> Prop) `{forall x, Decision (P x)} (l : list A) : (forall x, x ∈ l -> P x) -> filter P l = l.
Proof.
  induction l as [|x l IH]; intros Hl; [done|]. rewrite filter_cons_True by (apply Hl; by left).
  f_equal. apply IH. intros y Hy. apply Hl. by right.
Qed.

Lemma list_filter_none {A} (P : A -> Prop) `{forall x, Decision (P x)} (l : list A) : (forall x, x ∈ l -> ~ P x) -> filter P l = [].
Proof.
  induction l as [|x l IH]; intros Hl; [done|]. rewrite filter_cons_False by (apply Hl; by left).
  apply IH. intros y Hy. apply Hl. by right.
Qed.

Section order.
Context {T : Type}.

(** the [i]-th push gets sequence number [n + i + 1] *)
Definition numbered (n : Z) (l : list (Z * T)) : list (ScheduledEvent T) :=
  imap (fun i x => mkEvent x.1 (n + 1 + Z.of_nat i) x.2) l.

Lemma push_all_spec l (s : EventScheduler T) : sched_inv s -> next_seq s + Z.of_nat (length l) < 2 ^ 64 ->
  sched_inv (push_all l s) /\ queue (push_all l s) ≡ₚ numbered (next_seq s) l ++ queue s.
Proof.
  revert s. induction l as [|[t p] l IH]; intros s Hi Hb; [done|]. cbn [push_all length] in *.
  pose proof Hi as (H0 & _ & _).
  assert (E : next_seq s +64 1 = next_seq s + 1) by mach.
  destruct (IH (sched_push t p s)) as [Hi' Hq].
  - apply sched_inv_push; [done|lia].
  - cbn [sched_push next_seq]. rewrite E. lia.
  - split; [done|]. rewrite Hq. unfold sched_push. cbn [next_seq queue]. rewrite E.
    unfold numbered. cbn [imap fst snd]. rewrite <- Permutation_middle.
    replace (next_seq s + 1 + Z.of_nat 0) with (next_seq s + 1) by lia. cbn [app]. f_equiv. f_equiv.
    apply reflexive_eq, imap_ext. intros i x _. cbn [compose]. f_equal. lia.
Qed.

(** The scheduler delivers in order: when [l] is pushed on an empty
    scheduler and everything due at [now] is popped, exactly the events due at
    [now] come out, each once, in order of time and first-in-first-out among
    events of the same time; the later ones stay queued. *)
Theorem scheduler_in_order (l : list (Z * T)) (now : Z) s' out : Z.of_nat (length l) < 2 ^ 64 ->
  pop_all (length l) now (push_all l sched_default) = (s', out) ->
  out ≡ₚ filter (fun e => at_ms e <= now) (numbered 0 l)
  /\ StronglySorted earlier out
  /\ queue s' ≡ₚ filter (fun e => ~ at_ms e <= now) (numbered 0 l).
Proof.
  intros Hb Hp. destruct (push_all_spec l sched_default sched_inv_default) as [Hi Hq]; [done|].
  cbn [sched_default queue next_seq] in Hq. rewrite app_nil_r in Hq.
  pose proof (pop_all_spec (length l) now _ Hi) as Hs. rewrite Hp in Hs.
  destruct Hs as (Hall & Hss & Hdue & Hlate).
  { rewrite Hq. unfold numbered. by rewrite length_imap. }
  rewrite Hq in Hall. rewrite Forall_forall in Hdue. rewrite Hall, !filter_app. split_and!; [|done|].
  - rewrite list_filter_all by done. rewrite list_filter_none; [by rewrite app_nil_r|].
    intros f Hf%Hlate. lia.
  - rewrite list_filter_none; [cbn [app]|intros f Hf Hn; by apply Hn, Hdue].
    rewrite list_filter_all; [done|]. intros f Hf%Hlate. lia.
Qed.
End order.

Lemma scheduler_in_order_witness :
  let out := (pop_all 3 10 (push_all [(20, "b"%string); (10, "a1"%string); (10, "a2"%string)] sched_default)).2 in
  ev_payload <$> out = ["a1"; "a2"]%string /\ StronglySorted earlier out.
Proof.
  split; [reflexivity|].
  apply (scheduler_in_order [(20, "b"%string); (10, "a1"%string); (10, "a2"%string)] 10
    (pop_all 3 10 (push_all [(20, "b"%string); (10, "a1"%string); (10, "a2"%string)] sched_default)).1); reflexivity.
Defined.

(** ** Examples *)

(** [run_for] can overshoot: with one event scheduled for 5000 ms, running for
    10 ms moves the clock to 5000. *)
Theorem run_for_overshoots :
  clock_ms <$> run_for 12 10 (schedule_availability "a" 5000 false (sim_new 0 1)) = Some 5000.
Proof. vm_compute. reflexivity. Qed.

Definition sim_pair : SimulationRunner :=
  set_link "a" "b" link_default (register_node "b" 100 (register_node "a" 100 (sim_new 0 1))).

Definition ping : SimAction := SimSendDirect "a" "b" (SyncIds ["x"; "y"]%string).

(** three sends of 34 bytes over a bandwidth of 100: two arrive, one is dropped *)
Definition sim_sent : SimulationRunner := set_action_rx [ping; ping; ping] sim_pair.

Lemma sim_pair_reach : sim_reach 0 sim_pair.
Proof. apply sr_link, sr_register; [apply sr_register; [apply sr_new| |]| |]; done. Qed.

Lemma sim_sent_reach : sim_reach 0 sim_sent.
Proof. exact (sr_send _ _ ping (sr_send _ _ ping (sr_send _ _ ping sim_pair_reach))). Qed.

Lemma simulation_books_balance_witness :
  let s := step_until_next_event sim_sent in
  dropped_bandwidth (sim_metrics s) = 1 /\ mailed s = 2 /\
  dropped_offline (sim_metrics s) + dropped_loss (sim_metrics s) + dropped_bandwidth (sim_metrics s)
    + mailed s + in_flight s = 3.
Proof.
  split; [by vm_compute|]. split; [by vm_compute|].
  assert (E : 0 + waiting_copies sim_sent = 3) by (by vm_compute). rewrite <- E.
  apply (simulation_books_balance (0 + waiting_copies sim_sent) (step_until_next_event sim_sent)). apply sr_step; [exact sim_sent_reach|by vm_compute].
Defined.

Lemma run_for_completes_witness :
  exists s', run_for_async 55 [[ping]] 50 sim_sent = Some s' /\ clock_ms sim_sent +sat 50 <= clock_ms s'
    /\ forall f, f ∈ queue (scheduler s') -> clock_ms s' < at_ms f.
Proof. apply (run_for_completes [[ping]] 50 sim_sent 55); vm_compute; [done|split; done|lia]. Defined.
