(* ===== verification/SimMesh.v ===== *)
(** * A mesh of nodes in the simulator

    [spawn_sim_node] starts a real node over a simulated transport; the driver of
    [runner.rs] then alternates between moving frames and letting the node tasks
    run.  Here the run loops of [Node.v] take their turns over the network of
    [Sim.v]: a turn reads the shared links, handles one input, and leaves what it
    sent in the action channel; an event is taken from the channel of the node in
    the order it was put there.  An error ends the task of the node.  The lists of
    all actions sent and of all commands given are kept beside the state for the
    theorems; no operation reads them. *)

From S2P Require Import Prelude External Text Bootstrap Wire E2E AtRest Bloom IngestGuard Security Storage Forwarding NodeData Node NodeTheorems NodeWalk NodeSecurity NodeHandle NodeStart Sim SimTheorems.

Open Scope Z_scope.

(** ** [impl MeshTransport for SimTransport], with the defaults of the trait *)

Definition sim_mesh : MeshTransport := {|
  Net := SimTransport;
  net_known_peers := sim_known_peers;
  net_remember_and_dial _ t := (t, Ok tt);
  net_redial t := t;
  net_send_direct := sim_send_direct;
  net_publish_scoped := sim_publish_scoped;
  net_subscribe_scope _ t := (t, Ok tt);
  net_unsubscribe_scope _ t := (t, Ok tt);
  net_kad_find_peer _ t := t;
  net_connected_count t := length (sim_known_peers t);
  net_max_direct_peers _ := umax 64;
  net_cap_rejections _ := 0;
|}.

Section mesh.
Context `{C : Crypto} `{M : MessageStore} `{HI : IdHash} `{P : E2EPrims} `{F : FileSys} `{BW : Bincode WireMessage}.
#[local] Existing Instance sim_mesh.
(** each node reads its own clocks and draws its own keys *)
Variable hosts : string -> NodeHost.

Record SimNode := mkSimNode {
  sn_conf : NodeConf;
  sn_runner : NodeRunner;
  sn_received : nat;
  sn_running : bool;
}.

Record Mesh := mkMesh {
  mesh_sim : SimulationRunner;
  mesh_nodes : gmap string SimNode;
  mesh_sent : list SimAction;
  mesh_log : list (string * NodeCommand);
}.

Definition mesh_new (start seed : Z) : Mesh := mkMesh (sim_new start seed) ∅ [] [].
Definition set_mesh_sim (v : SimulationRunner) (m : Mesh) : Mesh := mkMesh v (mesh_nodes m) (mesh_sent m) (mesh_log m).

(** ** Starting a node *)

Definition sim_config (db_path : string) : NodeConfig :=
  mkNodeConfig "/ip4/0.0.0.0/tcp/0" db_path None 10 2 [] false None None 3 true [] 50.

Definition build_transport (p : string) (bandwidth : Z) (s : SimulationRunner) : SimulationRunner * SimTransport :=
  let s := register_node p bandwidth s in (s, mkSimTransport p (links s) []).

(** the node task: the start of [run], then its turns *)
Definition start_node_task (p : string) (cr : NodeConf * NodeRunner) (m : Mesh) : Mesh :=
  mkMesh (mesh_sim m) (<[p := mkSimNode cr.1 (node_start cr.2).1 0 true]> (mesh_nodes m)) (mesh_sent m) (mesh_log m).

Definition spawn_with (kp : Keypair) (enc : EncryptionKeypair) (st : Store) (d : DataDir) (db_path : string) (bandwidth : Z) (m : Mesh) : Mesh :=
  let p := peer_string (pk_peer_id (kp_public kp)) in
  let '(s, t) := build_transport p bandwidth (mesh_sim m) in
  start_node_task p (assemble (H := hosts p) (sim_config db_path) (Some kp) p enc (t : Net) st d) (set_mesh_sim s m).

(** ** Turns of the node tasks *)

Inductive Turn :=
| TCommand (cmd : NodeCommand)
| TRendezvous (ids : list string)
| TForward
| TSync
| TGc
| TDial.

Definition turn_input (t : Turn) : NodeInput :=
  match t with
  | TCommand cmd => InCommand cmd
  | TRendezvous ids => InRendezvous ids
  | TForward => InForwardTick
  | TSync => InSyncTick
  | TGc => InGcTick
  | TDial => InDialTick
  end.

Definition logged (p : string) (i : NodeInput) : list (string * NodeCommand) :=
  match i with InCommand cmd => [(p, cmd)] | _ => [] end.

(** the node with its transport: the shared links, an empty end of the channel *)
Definition connected (s : SimulationRunner) (r : NodeRunner) : NodeRunner :=
  set_net (mkSimTransport (sim_local_peer (net r)) (links s) [] : Net) r.

Definition node_turn (p : string) (i : NodeInput) (took : nat) (m : Mesh) : Mesh :=
  match mesh_nodes m !! p with
  | Some n =>
      if sn_running n then
        let '(r, res) := node_step (H := hosts p) (sn_conf n) i (connected (mesh_sim m) (sn_runner n)) in
        let sent := sim_actions (net r) in
        mkMesh (set_action_rx (action_rx (mesh_sim m) ++ sent) (mesh_sim m))
          (<[p := mkSimNode (sn_conf n) r (sn_received n + took) (is_ok res)]> (mesh_nodes m))
          (mesh_sent m ++ sent) (mesh_log m ++ logged p i)
      else m
  | None => m
  end.

(** [event_rx.recv()]: the next event, if there is one *)
Definition next_mail (p : string) (m : Mesh) : option TransportEvent :=
  n ← mesh_nodes m !! p; l ← event_txs (mesh_sim m) !! p; l !! sn_received n.

(** ** Steps *)

Inductive MeshStep :=
| MSpawn (kp : Keypair) (enc : EncryptionKeypair) (st : Store) (d : DataDir) (db_path : string) (bandwidth : Z)
| MTurn (p : string) (t : Turn)
| MReceive (p : string)
| MAdvance
| MIdle (target : Z)
| MLink (a b : string) (profile : LinkProfile)
| MAvailability (p : string) (at_ : Z) (up : bool).

Definition on_sim (f : SimulationRunner -> SimulationRunner) (m : Mesh) : Mesh := set_mesh_sim (f (mesh_sim m)) m.

(** the end of an iteration of [run_for_async] *)
Definition idle (target : Z) (s : SimulationRunner) : SimulationRunner :=
  if decide (next_timestamp (scheduler s) = None /\ action_rx s = [])
  then set_clock (advance_to (Z.min (clock_ms s +sat 1) target) (clock_ms s)) s else s.

Definition mesh_step (m : Mesh) (x : MeshStep) : Mesh :=
  match x with
  | MSpawn kp enc st d db_path bw => spawn_with kp enc st d db_path bw m
  | MTurn p t => node_turn p (turn_input t) 0 m
  | MReceive p => match next_mail p m with Some ev => node_turn p (InEvent ev) 1 m | None => m end
  | MAdvance => on_sim step_until_next_event m
  | MIdle target => on_sim (idle target) m
  | MLink a b profile => on_sim (set_link a b profile) m
  | MAvailability p at_ up => on_sim (schedule_availability p at_ up) m
  end.

Definition mesh_run (xs : list MeshStep) (m : Mesh) : Mesh := foldl mesh_step m xs.

(** [run_for_async]: each iteration moves frames, yields to the node tasks, which
    take some turns, and lets time pass when nothing waits *)
Fixpoint mesh_loop (fuel : nat) (target : Z) (yields : list (list MeshStep)) (m : Mesh) : option Mesh :=
  match fuel with
  | O => None
  | S n =>
      if decide (clock_ms (mesh_sim m) < target) then
        let m := on_sim step_until_next_event m in
        let m := mesh_run (default [] (head yields)) m in
        mesh_loop n target (tail yields) (on_sim (idle target) m)
      else Some m
  end.

Definition mesh_run_for (fuel : nat) (yields : list (list MeshStep)) (duration : Z) (m : Mesh) : option Mesh :=
  mesh_loop fuel (clock_ms (mesh_sim m) +sat duration) yields m.

(** ** The mesh refines the simulator *)

(** the steps node tasks take *)
Definition node_move (x : MeshStep) : bool := match x with MTurn _ _ | MReceive _ => true | _ => false end.

(** node tasks only add to the action channel, what they send *)
Definition only_sends (m m' : Mesh) : Prop :=
  exists l, mesh_sim m' = set_action_rx (action_rx (mesh_sim m) ++ l) (mesh_sim m) /\ mesh_sent m' = mesh_sent m ++ l.

#[local] Instance only_sends_preorder : PreOrder only_sends.
Proof.
  split.
  - intros m. exists []. rewrite !app_nil_r. split; [by destruct (mesh_sim m)|done].
  - intros a b c (l & E1 & E2) (k & E3 & E4). exists (l ++ k). rewrite E3, E1, E4, E2. cbn. by rewrite !app_assoc.
Qed.

Lemma node_turn_sends p i took m : only_sends m (node_turn p i took m).
Proof.
  unfold node_turn. destruct (mesh_nodes m !! p) as [n|]; [|done]. destruct (sn_running n); [|done].
  destruct (node_step _ _ _) as [r res]. by eexists.
Qed.

Lemma node_moves_send xs m : Forall (fun x => node_move x = true) xs -> only_sends m (mesh_run xs m).
Proof.
  intros Hx. revert m. induction Hx as [|x xs Hx _ IH]; intros m; [done|]. cbn [mesh_run foldl].
  etrans; [|apply IH]. destruct x; try done; cbn [mesh_step]; [apply node_turn_sends|].
  destruct (next_mail p m); [apply node_turn_sends|done].
Qed.

(** what the nodes send at each yield of a run up to [target] *)
Fixpoint handed (target : Z) (yields : list (list MeshStep)) (m : Mesh) : list (list SimAction) :=
  match yields with
  | [] => []
  | y :: yields =>
      if decide (clock_ms (mesh_sim m) < target) then
        let m1 := on_sim step_until_next_event m in
        let m2 := mesh_run y m1 in
        drop (length (mesh_sent m1)) (mesh_sent m2) :: handed target yields (on_sim (idle target) m2)
      else []
  end.

Lemma handed_length target yields m : (length (handed target yields m) <= length yields)%nat.
Proof.
  revert m. induction yields as [|y yields IH]; intros m; cbn [handed length]; [done|].
  case_decide; cbn [length]; [specialize (IH (on_sim (idle target) (mesh_run y (on_sim step_until_next_event m))))|]; lia.
Qed.

(** one iteration: the simulator is handed what the nodes sent *)
Lemma yield_burst target y m :
  Forall (fun x => node_move x = true) y ->
  let m1 := on_sim step_until_next_event m in
  let m2 := mesh_run y m1 in
  let burst := drop (length (mesh_sent m1)) (mesh_sent m2) in
  mesh_sim (on_sim (idle target) m2) = run_iteration target burst (mesh_sim m) /\ mesh_sent m2 = mesh_sent m ++ burst.
Proof.
  intros Hy m1 m2 burst. destruct (node_moves_send y m1 Hy) as (l & E1 & E2). fold m2 in E1, E2.
  assert (burst = l) as -> by (unfold burst; by rewrite E2, drop_app_length). split; [|done].
  cbn [on_sim set_mesh_sim mesh_sim]. by rewrite E1.
Qed.

Lemma mesh_loop_handed fuel target yields m :
  Forall (Forall (fun x => node_move x = true)) yields ->
  mesh_sim <$> mesh_loop fuel target yields m = run_loop fuel target (handed target yields m) (mesh_sim m)
  /\ forall m', mesh_loop fuel target yields m = Some m' -> mesh_sent m' = mesh_sent m ++ concat (handed target yields m).
Proof.
  revert yields m. induction fuel as [|n IH]; intros yields m Hy; [done|]. cbn [mesh_loop run_loop].
  destruct (decide (clock_ms (mesh_sim m) < target)) as [Hlt|Hge].
  2: { split; [done|]. intros m' [= <-]. destruct yields as [|y yields]; cbn [handed]; [|rewrite decide_False by done];
       by rewrite app_nil_r. }
  assert (Forall (fun x => node_move x = true) (default [] (head yields))) as Hh by (by destruct Hy; [constructor|]).
  destruct (yield_burst target (default [] (head yields)) m Hh) as [Hit Hs].
  destruct (IH (tail yields) (on_sim (idle target) (mesh_run (default [] (head yields)) (on_sim step_until_next_event m))))
    as [E1 E2]; [by destruct Hy|].
  destruct yields as [|y yields]; cbn [handed head tail default from_option id] in *.
  - cbn [mesh_run foldl] in *. rewrite drop_all in Hit. rewrite E1, Hit. split; [done|]. intros m' Hm'.
    by rewrite (E2 _ Hm').
  - rewrite decide_True by done. cbn [head tail default from_option id concat]. rewrite E1, Hit. split; [done|].
    intros m' Hm'. rewrite (E2 _ Hm'). rewrite app_assoc. f_equal. exact Hs.
Qed.

(** C17. Running a mesh of real nodes is a run of the simulator: whatever the nodes do at
    the yields, the network moves through exactly the states of the driver that is
    handed, at each iteration, what the nodes sent at that yield, and every action
    sent during the run is handed over once and in order; so the run ends, at or
    after the target and with nothing due left over.  The activity of the nodes is a
    finite list of yields, after which they stay idle; the run takes at most as many
    iterations as the duration has milliseconds, plus two for each yield. *)
Theorem mesh_run_refines (yields : list (list MeshStep)) (duration : Z) (m : Mesh) (fuel : nat) :
  Forall (Forall (fun x => node_move x = true)) yields ->
  0 < duration -> 0 <= clock_ms (mesh_sim m) < umax 64 ->
  (Z.to_nat duration + 2 * length yields + 2 <= fuel)%nat ->
  let target := clock_ms (mesh_sim m) +sat duration in
  exists m', mesh_run_for fuel yields duration m = Some m'
    /\ run_for_async fuel (handed target yields m) duration (mesh_sim m) = Some (mesh_sim m')
    /\ mesh_sent m' = mesh_sent m ++ concat (handed target yields m)
    /\ target <= clock_ms (mesh_sim m')
    /\ forall f, f ∈ queue (scheduler (mesh_sim m')) -> clock_ms (mesh_sim m') < at_ms f.
Proof.
  intros Hy Hd Hc Hf target. unfold mesh_run_for, run_for_async. fold target.
  destruct (mesh_loop_handed fuel target yields m Hy) as [E Hs]. pose proof (handed_length target yields m) as Hl.
  assert (clock_ms (mesh_sim m) < target <= clock_ms (mesh_sim m) + duration /\ target <= umax 64) as Htg
    by (unfold target, sat_add; lia). clearbody target.
  destruct (run_loop_total target fuel) with (arrivals := handed target yields m) (s := mesh_sim m) (b := true) as (s' & Hr & Ht & Hq);
    [lia|done|lia|].
  rewrite Hr in E. destruct (mesh_loop fuel target yields m) as [m'|] eqn:Em; [|done]. injection E as <-.
  exists m'. split_and!; try done; [by apply Hs|]. apply Hq. left. lia.
Qed.
End mesh.
