(* ===== verification/SimTrace.v ===== *)
(** * Where the messages of a mesh come from

    The simulated network carries only what nodes sent; the nodes of a mesh send,
    queue and deliver only messages that go back to a command given to one of
    them.  Then: a direct message crosses the mesh, and how nodes are started. *)

From S2P Require Import Prelude External Text Bootstrap Wire E2E AtRest Bloom IngestGuard Security Storage Forwarding NodeData Node NodeTheorems NodeWalk NodeSecurity NodeHandle.
From S2P Require Import NodeStart Sim SimMesh NodeRouting Host.

Open Scope Z_scope.

(** ** The network moves frames and makes none *)

(** what an action puts into the channel of a node *)
Definition carries (a : SimAction) (to : string) (ev : TransportEvent) : Prop :=
  match a, ev with
  | SimSendDirect from to' w, DirectReceived from' w' => to' = to /\ from' = from /\ w' = w
  | SimPublishScoped from scope p, ScopedReceived from' scope' p' => from ≠ to /\ from' = from /\ scope' = scope /\ p' = p
  | _, _ => False
  end.

Definition carried (sent : list SimAction) (to : string) (ev : TransportEvent) : Prop := exists a, a ∈ sent /\ carries a to ev.

Record sim_carries (sent : list SimAction) (s : SimulationRunner) : Prop := {
  sc_waiting : forall a, a ∈ action_rx s -> a ∈ sent;
  sc_flight : forall e to ev b, e ∈ queue (scheduler s) -> ev_payload e = Deliver to ev b -> carried sent to ev;
  sc_mail : forall to l ev, event_txs s !! to = Some l -> ev ∈ l -> carried sent to ev;
}.

Lemma carried_mono sent sent' to ev : sent ⊆ sent' -> carried sent to ev -> carried sent' to ev.
Proof. intros Hs (a & Ha & Hc). exists a. split; [by apply Hs|done]. Qed.

Lemma sim_carries_frame sent s s' : action_rx s' = action_rx s -> scheduler s' = scheduler s -> event_txs s' = event_txs s ->
  sim_carries sent s -> sim_carries sent s'.
Proof. intros E1 E2 E3 [H1 H2 H3]. split; by rewrite ?E1, ?E2, ?E3. Qed.

Lemma sim_carries_schedule sent at_ to ev b s : carried sent to ev -> sim_carries sent s -> sim_carries sent (schedule at_ (Deliver to ev b) s).
Proof.
  intros Hc [H1 H2 H3]. split; try done. intros e to' ev' b'. cbn.
  intros [->|He]%elem_of_cons; [by intros [= -> -> _]|by apply H2].
Qed.

Lemma sim_carries_roll sent x s : sim_carries sent s -> sim_carries sent (roll_loss x s).1.
Proof. intros Hs. unfold roll_loss. case_decide; [done|]. by apply (sim_carries_frame sent s). Qed.

Lemma sim_carries_attempt sent x at_ to ev b s : carried sent to ev -> sim_carries sent s ->
  sim_carries sent (let '(s, lost) := roll_loss x s in if (lost : bool) then count_loss s else schedule (at_ s) (Deliver to ev b) s).
Proof.
  intros Hc Hs%(sim_carries_roll sent x). destruct (roll_loss x s) as [s1 []]; cbn in *.
  - by apply (sim_carries_frame sent s1).
  - by apply sim_carries_schedule.
Qed.

Lemma sim_carries_action sent a s : a ∈ sent -> sim_carries sent s -> sim_carries sent (schedule_action s a).
Proof.
  intros Ha Hs. destruct a as [from to w|from scope p]; cbn [schedule_action].
  - destruct (_ || _); [by apply (sim_carries_frame sent s)|]. destruct (links s !! _); [|by apply (sim_carries_frame sent s)].
    apply sim_carries_attempt; [|done]. by eexists.
  - generalize (elements (dom (nodes s))). intros l. revert s Hs. induction l as [|to l IH]; intros s Hs; [done|]. cbn [foldl].
    apply IH. unfold publish_to. case_decide; [done|]. destruct (_ || _); [by apply (sim_carries_frame sent s)|].
    destruct (links s !! _); [|done]. apply sim_carries_attempt; [|done]. eexists. split; [exact Ha|]. by split_and!.
Qed.

Lemma sim_carries_run sent x s : (forall to ev b, x = Deliver to ev b -> carried sent to ev) -> sim_carries sent s -> sim_carries sent (run_scheduled x s).
Proof.
  intros Hx Hs. destruct x as [to ev b|p up]; cbn [run_scheduled].
  2: { destruct (nodes s !! p); [by apply (sim_carries_frame sent s)|done]. }
  specialize (Hx to ev b eq_refl). unfold consume_bandwidth. destruct (decide _); cbn [negb]; [by apply (sim_carries_frame sent s)|].
  set (s1 := count_bytes b _). assert (sim_carries sent s1) as H1 by (by apply (sim_carries_frame sent s)).
  change (event_txs s) with (event_txs s1). set (s2 := match event_txs s1 !! to with Some _ => _ | None => _ end).
  assert (sim_carries sent s2) as H2.
  { unfold s2. destruct (event_txs s1 !! to) as [l|] eqn:El; [|done]. destruct H1 as [H1 H2 H3]. split; try done.
    intros to' l' ev'. cbn. destruct (decide (to = to')) as [<-|Hne].
    - rewrite lookup_insert_eq. intros [= <-] [He|He%list_elem_of_singleton]%elem_of_app; [by eapply H3|by subst].
    - rewrite lookup_insert_ne by done. apply H3. }
  destruct ev; try done. unfold record_delivery. destruct (delivered_key_fields _ _) as [[id c]|]; [|done].
  destruct (delivered_ids s2 !! _); by apply (sim_carries_frame sent s2).
Qed.

Lemma sim_carries_drain sent n s : sim_carries sent s -> sim_carries sent (drain_ready n s).
Proof.
  revert s. induction n as [|n IH]; intros s Hs; [done|]. cbn [drain_ready].
  destruct (pop_ready (clock_ms s) (scheduler s)) as [sch [e|]] eqn:E; [|done]. apply IH.
  assert (queue (scheduler s) ≡ₚ e :: queue sch) as Hq.
  { unfold pop_ready, heap_peek in E. pose proof (heap_pop_spec (queue (scheduler s))) as Hp.
    destruct (heap_pop (queue (scheduler s))) as [[f r]|]; cbn in E; [|done]. destruct (bool_decide _); [|done].
    injection E as <- <-. apply Hp. }
  destruct Hs as [H1 H2 H3]. apply sim_carries_run.
  - intros to ev b He. eapply H2; [|exact He]. rewrite Hq. by left.
  - split; try done. cbn. intros f to ev b Hf. apply H2. rewrite Hq. by right.
Qed.

Lemma sim_carries_step sent s : sim_carries sent s -> sim_carries sent (step_until_next_event s).
Proof.
  intros Hs. unfold step_until_next_event. apply sim_carries_drain.
  assert (forall l s, (forall a, a ∈ l -> a ∈ sent) -> sim_carries sent s -> sim_carries sent (foldl schedule_action s l)) as Hf.
  { induction l as [|a l IH]; intros s' Hl Hs'; [done|]. cbn. apply IH; [intros; apply Hl; by right|].
    apply sim_carries_action; [apply Hl; by left|done]. }
  assert (sim_carries sent (foldl schedule_action (set_action_rx [] s) (action_rx s))) as H1.
  { apply Hf; [apply Hs|]. destruct Hs as [_ H2 H3]. split; try done. by intros a ?%elem_of_nil. }
  destruct (next_timestamp _); [|done]. eapply sim_carries_frame; [..|exact H1]; done.
Qed.

(** ** Traces *)
Section trace.
Context `{C : Crypto}.

(** author, recipient, text and payload of a message: what a relay does not change *)
Definition content (m : DirectMessage) : string * option string * string * list byte :=
  (signature_author_peer (dm_envelope m), to_peer (dm_envelope m), dm_body m, payload (dm_envelope m)).

(** [m] is the message of the command, given to node [a] *)
Definition authored (a : string) (cmd : NodeCommand) (m : DirectMessage) : Prop :=
  match cmd with
  | SendDirect to body => content m = (a, Some to, body, as_bytes body)
  | SendDirectPayload to body p => content m = (a, Some to, body, p)
  | Broadcast _ body => content m = (a, None, body, as_bytes body)
  | BroadcastPayload _ body p => content m = (a, None, body, p)
  | SendWire _ (Data m') => content m = content m'
  | _ => False
  end.

Definition traced (log : list (string * NodeCommand)) (w : WireMessage) : Prop :=
  match w with
  | Data m => exists a cmd, (a, cmd) ∈ log /\ authored a cmd m
  | EncryptedDirect f => exists a to g, (a, SendWire to (EncryptedDirect g)) ∈ log /\ same_frame f g
  | _ => True
  end.

Definition published (log : list (string * NodeCommand)) (from scope : string) (p : list byte) : Prop :=
  exists cmd, (from, cmd) ∈ log /\ may_publish (InCommand cmd) scope p.

Definition action_traced (log : list (string * NodeCommand)) (a : SimAction) : Prop :=
  match a with
  | SimSendDirect _ _ w => traced log w
  | SimPublishScoped from scope p => published log from scope p
  end.

Definition sender (a : SimAction) : string :=
  match a with SimSendDirect from _ _ => from | SimPublishScoped from _ _ => from end.

Lemma traced_mono log log' w : log ⊆ log' -> traced log w -> traced log' w.
Proof. intros Hl. destruct w; try done; cbn; naive_solver. Qed.

Lemma action_traced_mono log log' a : log ⊆ log' -> action_traced log a -> action_traced log' a.
Proof. intros Hl. destruct a; cbn; [by apply traced_mono|]. intros (cmd & ? & ?). exists cmd. split; [by apply Hl|done]. Qed.

Lemma content_forwarded r m : content (forwarded r m) = content m.
Proof. unfold content. rewrite forwarded_author. done. Qed.

Lemma content_own cfg to body p m : own_message cfg to body p m -> content m = (local_peer_id cfg, to, body, p).
Proof.
  intros [now ->]. unfold content, sign_local. cbn [dm_envelope dm_body]. destruct (keypair cfg); [|done].
  unfold env_sign. by destruct (kp_sign _ _).
Qed.
End trace.

(** ** One turn *)
Section turn.
Context `{C : Crypto} `{M : MessageStore} `{ML : !MessageStoreLaws M} `{H : !NodeHost} `{HI : IdHash}.
Context `{P : E2EPrims} `{F : FileSys} `{BW : Bincode WireMessage}.
#[local] Existing Instance sim_mesh.
Variables (p : string) (cfg : NodeConf) (i : NodeInput) (log : list (string * NodeCommand)).
Hypothesis queue_log : forall m, may_queue cfg i m -> traced log (Data m).
Hypothesis send_log : forall w, may_send i w -> traced log w.
Hypothesis publish_log : forall scope x, may_publish i scope x -> published log p scope x.

Definition queue_traced (s : NodeRunner) : Prop := Forall (fun x => traced log (Data (pm_message x))) (pending s).

Definition turn_rel (s s' : NodeRunner) : Prop :=
  sim_local_peer (net s) = p -> queue_traced s ->
  sim_local_peer (net s') = p /\ queue_traced s'
  /\ (exists new, sim_actions (net s') = sim_actions (net s) ++ new /\ Forall (fun a => sender a = p /\ action_traced log a) new)
  /\ exists got, incoming s' = incoming s ++ got /\ Forall (may_deliver cfg i) got.

Lemma turn_same s s' : sim_local_peer (net s') = sim_local_peer (net s) -> sim_actions (net s') = sim_actions (net s) ->
  incoming s' = incoming s -> (queue_traced s -> queue_traced s') -> turn_rel s s'.
Proof.
  intros E1 E2 E3 Hq Hp Hs. split_and!; [by rewrite E1|by apply Hq|exists []; by rewrite E2, app_nil_r|exists []; by rewrite E3, app_nil_r].
Qed.

Lemma turn_sends s n a : n = mkSimTransport (sim_local_peer (net s)) (sim_links (net s)) (sim_actions (net s) ++ [a]) ->
  (sim_local_peer (net s) = p -> sender a = p /\ action_traced log a) -> turn_rel s (set_net (n : Net) s).
Proof.
  intros -> Ha Hp Hs. split_and!; [done|done| |exists []; by rewrite app_nil_r].
  exists [a]. split; [done|]. apply Forall_singleton. by apply Ha.
Qed.

#[local] Instance turn_preorder : PreOrder turn_rel.
Proof.
  split; [intros s; by apply turn_same|]. intros s1 s2 s3 H1 H2 Hp Hs.
  destruct (H1 Hp Hs) as (Hp2 & Hs2 & (n1 & E1 & F1) & (g1 & G1 & D1)).
  destruct (H2 Hp2 Hs2) as (Hp3 & Hs3 & (n2 & E2 & F2) & (g2 & G2 & D2)). split_and!; try done.
  - exists (n1 ++ n2). by rewrite E2, E1, app_assoc, Forall_app.
  - exists (g1 ++ g2). by rewrite G2, G1, app_assoc, Forall_app.
Qed.

#[local] Instance turn_walk : Walk (allows cfg i) turn_rel.
Proof.
  split; try (by intros; apply turn_same).
  - exact turn_preorder.
  - intros s s' [= E1 E2 E3 _ _]. apply turn_same; rewrite ?E1; try done. unfold queue_traced. by rewrite E2.
  - intros s m Hm Hp Hs. split_and!; try done; [exists []; by rewrite app_nil_r|]. exists [m]. by rewrite Forall_singleton.
  - intros s l Hl. apply turn_same; try done. unfold queue_traced. rewrite !Forall_forall. cbn. naive_solver.
  - intros s to m Hm. apply turn_same; try done. unfold queue_traced. cbn. rewrite Forall_app, Forall_singleton.
    intros Hs. split; [done|]. by apply queue_log.
  - intros s x rest Ep Hp Hs. unfold queue_traced in Hs. rewrite Ep in Hs. apply Forall_cons_1 in Hs as [Hx Hr].
    apply (turn_sends (set_pending rest s) _ (SimSendDirect (sim_local_peer (net s)) (pm_to x) (Data (pm_message x)))); done.
  - intros s to w Hw. apply (turn_sends s _ (SimSendDirect (sim_local_peer (net s)) to w)); [done|]. intros Hp. split; [done|].
    by apply send_log.
  - intros s scope x Hx. apply (turn_sends s _ (SimPublishScoped (sim_local_peer (net s)) scope x)); [done|]. intros Hp. split; [done|].
    cbn. rewrite Hp. by apply publish_log.
Qed.

Lemma turn_traced s : turn_rel s (node_step cfg i s).1.
Proof. apply (node_step_walks cfg i turn_rel). Qed.
End turn.

(** ** Every reachable mesh *)
Section mesh_trace.
Context `{C : Crypto} `{M : MessageStore} `{ML : !MessageStoreLaws M} `{HI : IdHash}.
Context `{P : E2EPrims} `{F : FileSys} `{BW : Bincode WireMessage}.
#[local] Existing Instance sim_mesh.
Variable hosts : string -> NodeHost.

Record node_ok (sent : list SimAction) (log : list (string * NodeCommand)) (p : string) (n : SimNode) : Prop := {
  no_peer : local_peer_id (sn_conf n) = p;
  no_key : exists kp, keypair (sn_conf n) = Some kp /\ p = peer_string (pk_peer_id (kp_public kp));
  no_local : sim_local_peer (net (sn_runner n)) = p;
  no_cap : (0 < pending_cap (sn_conf n))%nat;
  no_inv : node_inv (sn_conf n) (sn_runner n);
  no_queue : queue_traced log (sn_runner n);
  no_incoming : forall m, m ∈ incoming (sn_runner n) -> exists ev, carried sent p ev /\ may_deliver (sn_conf n) (InEvent ev) m;
}.

Record mesh_ok (m : Mesh) : Prop := {
  mo_sim : sim_carries (mesh_sent m) (mesh_sim m);
  mo_sent : forall a, a ∈ mesh_sent m -> is_Some (mesh_nodes m !! sender a) /\ action_traced (mesh_log m) a;
  mo_nodes : forall p n, mesh_nodes m !! p = Some n -> node_ok (mesh_sent m) (mesh_log m) p n;
}.

Lemma node_ok_mono sent sent' log log' p n : sent ⊆ sent' -> log ⊆ log' -> node_ok sent log p n -> node_ok sent' log' p n.
Proof.
  intros Hs Hl [H1 H0 H2 H3 H4 H5 H6]. split; try done.
  - eapply Forall_impl; [exact H5|]. intros x. by apply traced_mono.
  - intros m Hm. destruct (H6 m Hm) as (ev & Hc & Hd). exists ev. split; [by eapply carried_mono|done].
Qed.

(** the event is in the network, the command in the log *)
Definition input_known (m : Mesh) (p : string) (i : NodeInput) : Prop :=
  match i with InEvent ev => carried (mesh_sent m) p ev | _ => True end.

Lemma carried_traced m p from w : mesh_ok m -> carried (mesh_sent m) p (DirectReceived from w) -> traced (mesh_log m) w.
Proof.
  intros Hm (a & Ha & Hc). destruct a as [from' to w'|]; [|done]. destruct Hc as (_ & _ & ->).
  by apply (mo_sent m Hm) in Ha as [_ ?].
Qed.

Lemma carried_queue m p from x y : mesh_ok m -> carried (mesh_sent m) p (DirectReceived from (Data x)) -> content y = content x ->
  traced (mesh_log m) (Data y).
Proof.
  intros Hm Hc Hy. destruct (carried_traced m p from (Data x) Hm Hc) as (a & cmd & Ha & Hau). exists a, cmd. split; [done|].
  destruct cmd; cbn in *; rewrite ?Hy; try done.
Qed.

Lemma turn_queue m p cfg i x : mesh_ok m -> local_peer_id cfg = p -> input_known m p i -> may_queue cfg i x ->
  traced (mesh_log m ++ logged p i) (Data x).
Proof.
  intros Hm Hp Hi Hx. destruct i as [ev|cmd| | | | |]; try done.
  - destruct ev; try done. destruct message; try done. destruct Hx as [r ->]. cbn [logged]. rewrite app_nil_r.
    eapply carried_queue; [done|exact Hi|apply content_forwarded].
  - exists p, cmd. split; [apply elem_of_app; right; by left|].
    destruct cmd; try done; cbn in *; apply content_own in Hx; by rewrite Hx, Hp.
Qed.

Lemma turn_send m p i w : mesh_ok m -> input_known m p i -> may_send i w -> traced (mesh_log m ++ logged p i) w.
Proof.
  intros Hm Hi [Hw|Hw]; [by destruct w|]. destruct i as [ev|cmd| | | | |]; try done.
  - destruct ev; try done. destruct message; try done. destruct Hw as (g & -> & Hg). cbn [logged]. rewrite app_nil_r.
    destruct (carried_traced m p _ _ Hm Hi) as (a & to & k & Ha & Hk). exists a, to, k. split; [done|].
    destruct Hg as (? & ? & ?), Hk as (? & ? & ?). split_and!; congruence.
  - destruct cmd; try done. assert ((p, SendWire to m0) ∈ mesh_log m ++ logged p (InCommand (SendWire to m0))) as Hin
      by (apply elem_of_app; right; by left).
    destruct w, m0; simplify_eq; try done; [by eexists p, _|by eexists p, to, _].
Qed.

Lemma turn_ok p i took m : mesh_ok m -> input_known m p i -> mesh_ok (node_turn hosts p i took m).
Proof.
  intros Hm Hi. unfold node_turn. destruct (mesh_nodes m !! p) as [n|] eqn:En; [|done]. destruct (sn_running n); [|done].
  pose proof (mo_nodes m Hm p n En) as [N1 N0 N2 N3 N4 N5 N6]. set (log := mesh_log m ++ logged p i).
  assert (mesh_log m ⊆ log) as Hlog by (intros x Hx; apply elem_of_app; by left).
  pose proof (turn_traced (H := hosts p) p (sn_conf n) i log (fun x => turn_queue m p (sn_conf n) i x Hm N1 Hi)
    (fun w => turn_send m p i w Hm Hi)) as Ht.
  specialize (Ht ltac:(intros scope x Hx; destruct i as [|cmd| | | | |]; try done; exists cmd; split; [apply elem_of_app; right; by left|done])).
  specialize (Ht (connected (mesh_sim m) (sn_runner n)) N2 ltac:(eapply Forall_impl; [exact N5|]; intros x; by apply traced_mono)).
  assert (node_inv (sn_conf n) (connected (mesh_sim m) (sn_runner n))) as Hinv by done.
  pose proof (step_node (NH := hosts p) (sn_conf n) N3 i _ Hinv) as [Hinv' _].
  destruct (node_step (sn_conf n) i _) as [r res]. cbn [fst] in *.
  destruct Ht as (R1 & R2 & (new & Hnew & Hok) & (got & Hgot & Hdel)). cbn in Hnew, Hgot. rewrite Hnew.
  assert (mesh_sent m ⊆ mesh_sent m ++ new) as Hsent by (intros x Hx; apply elem_of_app; by left).
  split; cbn [mesh_sim mesh_sent mesh_log mesh_nodes].
  - destruct (mo_sim m Hm) as [S1 S2 S3]. split; cbn.
    + intros a [Ha|Ha]%elem_of_app; [by apply Hsent, S1|apply elem_of_app; by right].
    + intros e to ev b He Hb. eapply carried_mono; [exact Hsent|by eapply S2].
    + intros to l ev Hl Hev. eapply carried_mono; [exact Hsent|by eapply S3].
  - intros a [Ha|Ha]%elem_of_app.
    + destruct (mo_sent m Hm a Ha) as [Hn Ht]. split; [|by eapply action_traced_mono].
      destruct (decide (p = sender a)) as [<-|Hne]; [by rewrite lookup_insert_eq|by rewrite lookup_insert_ne].
    + apply (proj1 (Forall_forall _ _) Hok) in Ha as [<- Ht]. split; [by rewrite lookup_insert_eq|done].
  - intros q n'. destruct (decide (p = q)) as [<-|Hne].
    + rewrite lookup_insert_eq. intros [= <-]. split; try done. cbn. rewrite Hgot.
      intros x [Hx|Hx]%elem_of_app.
      * destruct (N6 x Hx) as (ev & Hc & Hd). exists ev. split; [by eapply carried_mono|done].
      * apply (proj1 (Forall_forall _ _) Hdel) in Hx. destruct i as [ev| | | | | |]; try done. exists ev. split; [by eapply carried_mono|done].
    + rewrite lookup_insert_ne by done. intros Hn'. eapply node_ok_mono; [exact Hsent|exact Hlog|by apply (mo_nodes m Hm)].
Qed.

Lemma on_sim_ok f m : (forall s, sim_carries (mesh_sent m) s -> sim_carries (mesh_sent m) (f s)) -> mesh_ok m -> mesh_ok (on_sim f m).
Proof. intros Hf [H1 H2 H3]. split; try done. by apply Hf. Qed.

(** nodes start on a sound store *)
Definition step_sound (x : MeshStep) : Prop := match x with MSpawn _ _ st _ _ _ => store_ok st | _ => True end.

(** what starting a node leaves alone over this transport *)
Definition core (s : NodeRunner) := (net s, pending s, incoming s, seen_cache s, store s, ingest_guard s).

Lemma core_bind {A B} (m : ST NodeRunner A) (f : A -> ST NodeRunner B) :
  (forall s, core (m s).1 = core s) -> (forall a s, core (f a s).1 = core s) -> forall s, core ((m ≫= f) s).1 = core s.
Proof. intros Hm Hf s. unfold mbind, ST_bind. specialize (Hm s). destruct (m s) as [s1 [a|e]]; [|done]. by rewrite Hf. Qed.

Lemma node_start_core s : core (node_start s).1 = core s.
Proof.
  assert (forall l s, core (subscribe_all l s).1 = core s) as H1 by (induction l; [done|by apply core_bind]).
  assert (forall l s, core (subscribe_bulletins l s).1 = core s) as H2
    by (induction l; [done|apply core_bind; [done|intros _; by apply core_bind]]).
  apply core_bind; [apply H1|intros _]. apply core_bind; [done|intros x]. apply core_bind; [apply H2|done].
Qed.

Lemma node_inv_core cfg s s' : core s' = core s -> node_inv cfg s -> node_inv cfg s'.
Proof. intros [= _ E2 _ E4 E5 E6]. unfold node_inv. by rewrite E2, E4, E5, E6. Qed.

Lemma spawn_ok kp enc st d db bw m : store_ok st -> mesh_ok m -> mesh_ok (spawn_with hosts kp enc st d db bw m).
Proof.
  intros Hst Hm. unfold spawn_with, build_transport, start_node_task. cbn [fst snd assemble].
  set (p := peer_string _). set (s := register_node p bw (mesh_sim m)).
  remember (node_new _ st d _ _) as r eqn:Hr. pose proof (node_start_core r) as [= E1 E2 E3 _ _ _]. split; cbn [mesh_sim set_mesh_sim mesh_sent mesh_log mesh_nodes].
  - destruct (mo_sim m Hm) as [S1 S2 S3]. split; try done. intros to l ev. cbn.
    destruct (decide (p = to)) as [<-|Hne]; [rewrite lookup_insert_eq; by intros [= <-] ?%elem_of_nil|].
    rewrite lookup_insert_ne by done. apply S3.
  - intros a Ha. destruct (mo_sent m Hm a Ha) as [Hn Ht]. split; [|done].
    destruct (decide (p = sender a)) as [<-|Hne]; [by rewrite lookup_insert_eq|by rewrite lookup_insert_ne].
  - intros q n. destruct (decide (p = q)) as [<-|Hne].
    + rewrite lookup_insert_eq. intros [= <-]. split; cbn [sn_conf sn_runner local_peer_id pending_cap].
      * done.
      * by eexists.
      * by rewrite E1, Hr.
      * exact pending_cap_pos.
      * apply (node_inv_core _ r); [apply node_start_core|]. rewrite Hr. apply (node_new_inv (NH := hosts p)); [exact pending_cap_pos|done].
      * unfold queue_traced. rewrite E2, Hr. constructor.
      * rewrite E3, Hr. by intros x ?%elem_of_nil.
    + rewrite lookup_insert_ne by done. apply (mo_nodes m Hm).
Qed.

Lemma mesh_step_ok m x : step_sound x -> mesh_ok m -> mesh_ok (mesh_step hosts m x).
Proof.
  intros Hx Hm. destruct x; cbn [mesh_step].
  - by apply spawn_ok.
  - apply turn_ok; [done|]. by destruct t.
  - destruct (next_mail p m) as [ev|] eqn:E; [|done]. apply turn_ok; [done|]. unfold next_mail in E.
    destruct (mesh_nodes m !! p) as [n|]; [|done]. cbn in E. destruct (event_txs (mesh_sim m) !! p) as [l|] eqn:El; [|done].
    cbn in E. eapply (sc_mail _ _ (mo_sim m Hm)); [exact El|by eapply list_elem_of_lookup_2].
  - apply on_sim_ok; [|done]. apply sim_carries_step.
  - apply on_sim_ok; [|done]. intros s Hs. unfold idle. case_decide; [by apply (sim_carries_frame _ s)|done].
  - apply on_sim_ok; [|done]. intros s Hs. by apply (sim_carries_frame _ s).
  - apply on_sim_ok; [|done]. intros s [S1 S2 S3]. split; try done. cbn. intros e to ev b [->|He]%elem_of_cons; [done|by apply S2].
Qed.

Lemma mesh_run_ok xs m : Forall step_sound xs -> mesh_ok m -> mesh_ok (mesh_run hosts xs m).
Proof. intros Hx. revert m. induction Hx as [|x xs Hx _ IH]; intros m Hm; [done|]. cbn. by apply IH, mesh_step_ok. Qed.

Lemma mesh_new_ok start seed : mesh_ok (mesh_new start seed).
Proof. split; cbn; [split; cbn|..]; try (by intros ? ?%elem_of_nil); try done. by intros e to ev b ?%elem_of_nil. Qed.

(** C15. Nothing in a mesh is invented or altered: whatever nodes are started, links
    set, commands given and turns taken in whatever order, every message a node has
    handed to its application was sent to it by a node of the mesh and passed the
    gate of its kind: a data message has a valid signature and the author,
    recipient, text and payload of a command given to some node; the contents of an
    encrypted frame come from a frame of such a command that names this node,
    carries a valid signature of the sender and decrypts; and a gossip payload was
    published by another node on a command of its own.  Every node keeps its
    invariant. *)
Theorem mesh_messages_traceable (start seed : Z) (xs : list MeshStep) (p : string) (n : SimNode) (m : DirectMessage) :
  Forall step_sound xs ->
  let w := mesh_run hosts xs (mesh_new start seed) in
  mesh_nodes w !! p = Some n ->
  node_inv (sn_conf n) (sn_runner n)
  /\ (m ∈ incoming (sn_runner n) -> exists from, is_Some (mesh_nodes w !! from)
  /\ ( (SimSendDirect from p (Data m) ∈ mesh_sent w /\ validate_data_message_signature m = Ok tt
         /\ exists a cmd, (a, cmd) ∈ mesh_log w /\ authored a cmd m)
     \/ (exists f a to g sender plain, SimSendDirect from p (EncryptedDirect f) ∈ mesh_sent w
         /\ (a, SendWire to (EncryptedDirect g)) ∈ mesh_log w /\ same_frame f g /\ ed_to_peer g = p
         /\ peer_parse from = Some sender /\ verify_encrypted_direct (EncryptedDirect f) sender = true
         /\ decrypt_with (encrypted_payload g) (enc_keypair (sn_conf n)) = Ok plain
         /\ payload (dm_envelope m) = (unwrap_inner plain from).2 /\ from_peer (dm_envelope m) = (unwrap_inner plain from).1)
     \/ (exists scope x, SimPublishScoped from scope x ∈ mesh_sent w /\ from ≠ p /\ published (mesh_log w) from scope x
         /\ from_peer (dm_envelope m) = from /\ payload (dm_envelope m) = x))).
Proof.
  intros Hx w Hn. assert (mesh_ok w) as Hw by (apply mesh_run_ok; [done|apply mesh_new_ok]).
  destruct (mo_nodes w Hw p n Hn) as [N1 _ _ _ N4 _ N6]. split; [done|]. intros Hm.
  destruct (N6 m Hm) as (ev & (a & Ha & Hc) & Hd). destruct (mo_sent w Hw a Ha) as [Hs Ht]. exists (sender a). split; [done|].
  destruct a as [from to wm|from scope x], ev; try done; cbn [sender].
  - destruct Hc as (-> & -> & ->). destruct wm; try done.
    + left. destruct Hd as [-> Hv]. done.
    + right; left. destruct Hd as (Hto & (sender & Hsp & Hsv) & plain & now & Hdec & Hmsg).
      destruct Ht as (a & to & g & Hg & Hsame). exists f, a, to, g, sender, plain. pose proof Hsame as (E1 & _ & E3).
      destruct (unwrap_inner plain from) as [author app]. subst m. split_and!; try done; congruence.
  - right; right. destruct Hc as (Hne & -> & -> & ->). destruct Hd as (now & body & ->). by exists scope, x.
Qed.
End mesh_trace.

(** ** A message crosses the mesh

    Progress of the composition: a direct message written at one node of a quiet
    mesh is queued, handed to the network by the next forwarding tick, carried over
    the link and handed to the application of the other node. *)


(** ** At the nodes, over any transport *)
Section nodes.
Context `{C : Crypto} `{T : MeshTransport} `{M : MessageStore} `{ML : !MessageStoreLaws M}.
Context `{NH : !NodeHost} `{HI : IdHash} `{P : E2EPrims} `{F : FileSys} `{BW : Bincode WireMessage}.
Variable cfg : NodeConf.

(** the message of [SendDirect], written at the next clock reading *)
Definition written (to body : string) (s : NodeRunner) : DirectMessage :=
  mkDM (sign_local cfg (envelope_new (local_peer_id cfg) (Some to) (as_bytes body) (node_clock (ticks s)))) body.

(** unexpired at the next [n] clock readings *)
Definition alive (n : nat) (m : DirectMessage) (s : NodeRunner) : Prop :=
  forall k, (k < n)%nat -> is_expired m (node_clock (k + ticks s)) = false.

Lemma command_queues to body s :
  (0 < pending_cap cfg)%nat -> node_inv cfg s -> pending s = [] -> to ∈ net_known_peers (net s) -> alive 5 (written to body s) s ->
  exists s', handle_command cfg (SendDirect to body) s = (s', Ok tt) /\ pending s' = [mkPending to (written to body s)]
    /\ net s' = net s /\ node_state s' = node_state s /\ incoming s' = incoming s /\ ticks s' = (5 + ticks s)%nat.
Proof.
  intros Hc (_ & Hseen & Hstore & _) Hp Hto Hx. cbn [handle_command]. unfold send_direct_internal.
  rewrite (ST_bind_Ok now_ms _ s _ _ eq_refl). cbv zeta. fold (written to body s). set (m := written to body s) in *.
  set (s1 := set_ticks _ s). rewrite ST_bind_eq, node_ingest_eq. change (seen_cache s1, store s1) with (seen_cache s, store s).
  destruct (ingest (S := basic_seen_cache) _ _ _ m false (seen_cache s, store s)) as [[seen st] r] eqn:Ei.
  assert (is_ok r = true) as Hr.
  { pose proof (ingest_unverified (S := basic_seen_cache) (node_clock (ticks s1)) (node_clock (S (ticks s1)))
      (node_clock (S (S (ticks s1)))) m (seen_cache s, store s) Hstore Hseen) as Hi.
    destruct (negb _ && _); [destruct Hi as (st' & E & _)|rename Hi into E]; rewrite Ei in E; by inversion E. }
  destruct r as [b|]; [|done]. cbv beta iota. set (s2 := set_seen_cache _ _).
  rewrite (ST_bind_Ok known _ _ _ _ eq_refl). change (net_known_peers (net s2)) with (net_known_peers (net s)).
  rewrite decide_True by done. rewrite enqueue_eq. cbv zeta. change (ticks s2) with (4 + ticks s)%nat. rewrite (Hx 4%nat) by lia.
  assert (~ (pending_cap cfg <= length (pending s))%nat) as Hd by (rewrite Hp; cbn; lia).
  change (pending s2) with (pending s).
  destruct (decide (pending_cap cfg <= length (pending s))%nat) as [?|_]; [done|].
  change (pending (set_ticks _ s2)) with (pending s). rewrite decide_False by exact Hd. eexists. split; [done|]. cbn. by rewrite Hp.
Qed.

Lemma tick_sends to m s n :
  pending s = [mkPending to m] -> alive 3 m s -> can_forward (node_state s) (priority (dm_envelope m)) = true ->
  net_send_direct to (Data m) (net s) = (n, Ok tt) ->
  exists s', node_step cfg InForwardTick s = (s', Ok tt) /\ net s' = n /\ pending s' = [] /\ incoming s' = incoming s.
Proof.
  intros Hp Hx Hf Hn. cbn [node_step]. unfold forward_once.
  assert (exists s1, maybe_rotate s = (s1, Ok tt) /\ pending s1 = pending s /\ net s1 = net s /\ node_state s1 = node_state s
    /\ incoming s1 = incoming s /\ ticks s1 = S (ticks s)) as (s1 & E1 & P1 & N1 & S1 & I1 & K1) by (unfold maybe_rotate; case_decide; eexists; by split_and!).
  rewrite (ST_bind_Ok _ _ _ _ _ E1), (ST_bind_Ok _ _ _ _ _ (evict_expired_eq s1)).
  assert (unexpired s1 = [mkPending to m]) as Hu.
  { unfold unexpired. rewrite P1, Hp. rewrite filter_cons_True; [done|]. cbn [pm_message]. rewrite K1. apply (Hx 1%nat). lia. }
  rewrite (ST_bind_Ok st_get _ _ _ _ eq_refl). set (s2 := set_pending _ _).
  change (node_state s2) with (node_state s1). rewrite S1.
  assert (exists b, forward_budget (node_state s) = S b) as [b ->] by (destruct (node_state s); by eexists).
  cbn [forward_loop]. rewrite ST_bind_eq, (ST_bind_Ok st_get _ _ _ _ eq_refl). change (pending s2) with (unexpired s1). rewrite Hu.
  rewrite (ST_bind_Ok (st_modify _) _ _ _ _ eq_refl), (ST_bind_Ok now_ms _ _ _ _ eq_refl), ST_bind_eq. cbn [pm_message pm_to].
  assert (forall x, ticks x = S (ticks s1) -> is_expired m (node_clock (ticks x)) = false) as Hl
    by (intros x ->; rewrite K1; apply (Hx 2%nat); lia).
  rewrite Hl by done. change (node_state s2) with (node_state s1). rewrite S1, Hf. cbn [negb]. unfold prim, send_direct, on_net.
  match goal with |- context [net_send_direct to (Data m) ?x] => replace x with (net s) by (symmetry; exact N1) end.
  rewrite Hn. cbv beta iota. unfold bump, on_metrics, st_modify. cbv beta iota.
  match goal with |- context [forward_loop b ?x] => assert (forward_loop b x = (x, Ok tt)) as ->
    by (destruct b as [|b]; [done|cbn [forward_loop]; by rewrite (ST_bind_Ok st_get _ _ _ _ eq_refl)]) end.
  eexists. split; [done|]. by split_and!.
Qed.

(** what a node asks of a message before it takes it: the neighbour is not
    throttled; the creation time is within the bounds of the clock; the author has
    not sent this id before and has messages left in this minute; the message has
    not expired; and neither the seen cache nor the store knows it *)
Record takes (from : string) (m : DirectMessage) (s : NodeRunner) : Prop := {
  tk_throttle : throttled_now from s = false;
  tk_fresh : check_envelope_freshness (created_at_ms (dm_envelope m)) (node_clock (S (ticks s))) = true;
  tk_id : (is_duplicate (signature_author_peer (dm_envelope m)) (e_id (dm_envelope m)) (replay (ingest_guard s))).2 = false;
  tk_rate : (rate_allow (signature_author_peer (dm_envelope m)) (node_clock (S (ticks s))) (rate_direct (ingest_guard s))).2 = true;
  tk_live : alive 3 m s;
  tk_novel : novel m (seen_cache s, store s) = true;
}.

Lemma takes_guard from m s : takes from m s ->
  (allow_direct (signature_author_peer (dm_envelope m)) m (node_clock (S (ticks s))) (ingest_guard s)).2 = Ok tt.
Proof.
  intros [_ Hf Hi Hr _ _]. unfold allow_direct. rewrite Hf. cbn [negb].
  destruct (is_duplicate _ _ _) as [w dup]. cbn in Hi. subst dup.
  destruct (rate_allow _ _ _) as [r ok]. cbn in Hr. by subst ok.
Qed.

Lemma data_taken from m s :
  node_inv cfg s -> takes from m s -> validate_data_message_signature m = Ok tt ->
  hop_count (dm_envelope m) < max_hops (dm_envelope m) -> is_for (local_peer_id cfg) m = true ->
  exists s', node_step cfg (InEvent (DirectReceived from (Data m))) s = (s', Ok tt) /\ incoming s' = incoming s ++ [m].
Proof.
  intros (_ & Hseen & Hstore & _) Htk Hv Hh Hfor. pose proof (takes_guard _ _ _ Htk) as Hg. destruct Htk as [Ht _ _ _ Hl Hnov]. cbn [node_step handle_transport_event].
  destruct (incoming_open cfg from (Data m) s Ht) as (s1 & E1 & ->). cbn [encrypted_gate].
  destruct (throttle_split from s) as (s1' & E1' & Hi & Hticks & _). rewrite E1' in E1. injection E1 as -> _.
  destruct Hi as (I1 & I2 & I3 & I4 & I5 & I6 & _).
  unfold handle_data. rewrite Hv. rewrite decide_False by lia. rewrite (ST_bind_Ok now_ms _ s1 _ _ eq_refl).
  rewrite ST_bind_eq. unfold on_guard. cbn [ingest_guard set_ticks]. rewrite I6, Hticks.
  destruct (allow_direct _ _ _ _) as [g [[]|]]; [|done]. cbv beta iota. set (s2 := set_ingest_guard g _).
  rewrite ST_bind_eq, node_ingest_eq. change (seen_cache s2, store s2) with (seen_cache s1, store s1). rewrite I2, I3.
  pose proof (ingest_unverified (S := basic_seen_cache) (node_clock (ticks s2)) (node_clock (S (ticks s2)))
    (node_clock (S (S (ticks s2)))) m (seen_cache s, store s) Hstore Hseen) as Hing.
  assert (is_expired m (node_clock (ticks s2)) = false) as Hlive by (apply (Hl 2%nat); lia).
  rewrite Hlive in Hing. cbn [negb andb] in Hing. rewrite Hnov in Hing.
  destruct Hing as ([seen st] & -> & _). cbv beta iota. cbn [negb]. rewrite ST_bind_eq. unfold reward_peer at 1, st_modify at 1.
  cbv beta iota. rewrite ST_bind_eq. unfold deliver, st_modify at 1. cbv beta iota. unfold route_data. rewrite Hfor.
  unfold bump, on_metrics, st_modify. eexists. split; [done|]. cbn.
  destruct (peer_reputations _ !! from); cbn; by rewrite I5.
Qed.
End nodes.

(** ** In the network *)

(** a lossless link in a quiet network, with bandwidth to spare at the time of
    arrival *)
Record link_ready (s : SimulationRunner) (a b : string) (size : Z) (pr : LinkProfile) : Prop := {
  lr_link : links s !! (a, b) = Some pr;
  lr_loss : loss_per_mille pr = 0;
  lr_latency : 0 <= latency_ms pr;
  lr_clock : 0 <= clock_ms s /\ clock_ms s + latency_ms pr <= umax 64;
  lr_from : is_online s a = true;
  lr_to : is_online s b = true;
  lr_quiet : queue (scheduler s) = [];
  lr_room : default 0 (bandwidth_usage s !! (b, (clock_ms s + latency_ms pr) / 1000)) +sat size
            <= match nodes s !! b with Some n => bandwidth_bytes_per_sec n | None => 0 end;
}.

Lemma record_delivery_txs to m s : event_txs (record_delivery to m s) = event_txs s.
Proof. unfold record_delivery. destruct (delivered_key_fields _ _) as [[id c]|]; [|done]. by destruct (delivered_ids s !! _). Qed.

(** the one frame of the queue is due *)
Lemma drain_one e q s :
  scheduler s = mkSched q [e] -> at_ms e <= clock_ms s ->
  drain_ready 1 s = run_scheduled (ev_payload e) (set_scheduler (mkSched q []) s).
Proof.
  intros E Hd. cbn [drain_ready]. rewrite E. unfold pop_ready, heap_peek. cbn. rewrite bool_decide_eq_true_2 by done. done.
Qed.

Lemma delivered_in_budget s a b w l :
  event_txs s !! b = Some l ->
  default 0 (bandwidth_usage s !! (b, clock_ms s / 1000)) +sat wire_message_size w
    <= match nodes s !! b with Some n => bandwidth_bytes_per_sec n | None => 0 end ->
  event_txs (run_scheduled (Deliver b (DirectReceived a w) (wire_message_size w)) s) !! b = Some (l ++ [DirectReceived a w]).
Proof.
  intros Hl Hr. cbn [run_scheduled]. unfold consume_bandwidth. rewrite decide_False by lia. cbn [negb].
  cbn [count_bytes set_bandwidth_usage set_sim_metrics event_txs]. rewrite Hl, record_delivery_txs. apply lookup_insert_eq.
Qed.

Lemma network_carries s a b w pr l :
  link_ready s a b (wire_message_size w) pr -> action_rx s = [SimSendDirect a b w] -> event_txs s !! b = Some l ->
  let s' := step_until_next_event s in
  event_txs s' !! b = Some (l ++ [DirectReceived a w]) /\ clock_ms s' = clock_ms s + latency_ms pr.
Proof.
  intros [L1 L2 L3 [L4 L5] L6 L7 L8 L9] Ha Hl. unfold step_until_next_event. rewrite Ha. cbn [foldl].
  set (due := clock_ms s + latency_ms pr) in *. set (d := Deliver b (DirectReceived a w) (wire_message_size w)).
  assert (schedule_action (set_action_rx [] s) (SimSendDirect a b w) = schedule due d (set_action_rx [] s)) as ->.
  { cbn [schedule_action]. change (is_online (set_action_rx [] s)) with (is_online s). rewrite L6, L7. cbn [negb orb].
    change (links (set_action_rx [] s)) with (links s). rewrite L1. unfold roll_loss. rewrite decide_True by lia.
    change (clock_ms (set_action_rx [] s)) with (clock_ms s).
    assert (clock_ms s +sat latency_ms pr = due) as -> by (unfold sat_add; lia). done. }
  set (s1 := schedule due d (set_action_rx [] s)). assert (exists q, scheduler s1 = mkSched q [mkEvent due q d]) as [q Hq].
  { exists (next_seq (scheduler s) +64 1). cbn. unfold sched_push. by rewrite L8. }
  assert (next_timestamp (scheduler s1) = Some due) as -> by (by rewrite Hq).
  assert (advance_to due (clock_ms s1) = due) as -> by (change (clock_ms s1) with (clock_ms s); unfold advance_to; lia).
  set (s2 := set_clock due s1). assert (scheduler s2 = mkSched q [mkEvent due q d]) as Hq2 by exact Hq.
  replace (length (queue (scheduler s2))) with 1%nat by (by rewrite Hq2).
  rewrite (drain_one _ _ _ Hq2) by done. split.
  - by apply delivered_in_budget.
  - etrans; [apply run_scheduled_same|done].
Qed.

(** ** End to end *)
Section end_to_end.
Context `{C : Crypto} {CL : CryptoLaws C} `{M : MessageStore} `{ML : !MessageStoreLaws M} `{HI : IdHash}.
Context `{P : E2EPrims} `{F : FileSys} `{BW : Bincode WireMessage}.
#[local] Existing Instance sim_mesh.
Variable hosts : string -> NodeHost.

Lemma known_of_link p q ls acts pr : ls !! (p, q) = Some pr -> q ∈ sim_known_peers (mkSimTransport p ls acts).
Proof.
  intros Hl. unfold sim_known_peers. cbn. apply list_elem_of_omap. exists (p, q). split.
  - apply elem_of_elements, elem_of_dom. by eexists.
  - cbn. by rewrite decide_True.
Qed.

(** a turn that ends without an error *)
Lemma node_turn_ok p i took m n r :
  mesh_nodes m !! p = Some n -> sn_running n = true ->
  node_step (H := hosts p) (sn_conf n) i (connected (mesh_sim m) (sn_runner n)) = (r, Ok tt) ->
  node_turn hosts p i took m =
    mkMesh (set_action_rx (action_rx (mesh_sim m) ++ sim_actions (net r)) (mesh_sim m))
      (<[p := mkSimNode (sn_conf n) r (sn_received n + took) true]> (mesh_nodes m))
      (mesh_sent m ++ sim_actions (net r)) (mesh_log m ++ logged p i).
Proof. intros Hn Hr Hs. unfold node_turn. by rewrite Hn, Hr, Hs. Qed.

Lemma written_content (H : NodeHost) cfg to body s : content (written (NH := H) cfg to body s) = (local_peer_id cfg, Some to, body, as_bytes body).
Proof. apply content_own. by eexists. Qed.

Lemma written_gate (H : NodeHost) cfg to body s kp : keypair cfg = Some kp -> local_peer_id cfg = peer_string (pk_peer_id (kp_public kp)) ->
  validate_data_message_signature (written (NH := H) cfg to body s) = Ok tt
  /\ hop_count (dm_envelope (written (NH := H) cfg to body s)) < max_hops (dm_envelope (written (NH := H) cfg to body s)).
Proof.
  intros Hk Hp. unfold written, sign_local. rewrite Hk. split.
  - by apply (sd030_gate (mkDM (envelope_new (local_peer_id cfg) (Some to) (as_bytes body) 0) body) kp).
  - unfold env_sign. by destruct (kp_sign _ _).
Qed.

(** a command and a tick of the sender put the frame into the action channel *)
Lemma handed_over w a b body na pr :
  let m := written (NH := hosts a) (sn_conf na) b body (sn_runner na) in
  mesh_ok w -> mesh_nodes w !! a = Some na -> sn_running na = true -> pending (sn_runner na) = [] ->
  can_forward (node_state (sn_runner na)) (priority (dm_envelope m)) = true -> alive (NH := hosts a) 8 m (sn_runner na) ->
  action_rx (mesh_sim w) = [] -> links (mesh_sim w) !! (a, b) = Some pr ->
  let w' := mesh_run hosts [MTurn a (TCommand (SendDirect b body)); MTurn a TForward] w in
  mesh_sim w' = set_action_rx [SimSendDirect a b (Data m)] (mesh_sim w)
  /\ (exists na', mesh_nodes w' !! a = Some na' /\ sn_running na' = true /\ pending (sn_runner na') = [])
  /\ forall q, q ≠ a -> mesh_nodes w' !! q = mesh_nodes w !! q.
Proof.
  intros m Hw Ha Hra Hp Hf Hal Hq Hlink. destruct (mo_nodes w Hw a na Ha) as [A1 _ A4 A5 A6 _ _].
  destruct (command_queues (NH := hosts a) (sn_conf na) b body (connected (mesh_sim w) (sn_runner na)) A5 A6 Hp)
    as (r1 & E1 & P1 & N1 & S1 & _ & K1).
  { eapply known_of_link. cbn. by rewrite A4. }
  { intros k Hk. apply Hal. lia. }
  pose proof (node_turn_ok a (turn_input (TCommand (SendDirect b body))) 0 w na r1 Ha Hra E1) as T1.
  assert (sim_local_peer (net r1) = a /\ sim_actions (net r1) = []) as [L1 Z1] by (by rewrite N1).
  rewrite Z1, Hq in T1. cbn [app] in T1. cbn [mesh_run foldl mesh_step]. set (w1 := node_turn hosts a _ 0 w) in *.
  set (na1 := mkSimNode (sn_conf na) r1 (sn_received na + 0) true) in T1.
  assert (mesh_nodes w1 !! a = Some na1) as Ha1 by (rewrite T1; apply lookup_insert_eq).
  assert (mesh_sim w1 = set_action_rx [] (mesh_sim w)) as Hs1 by (by rewrite T1).
  destruct (tick_sends (NH := hosts a) (sn_conf na) b m (connected (mesh_sim w1) r1)
    (mkSimTransport a (links (mesh_sim w)) [SimSendDirect a b (Data m)])) as (r2 & E2 & N2 & P2 & _).
  { exact P1. }
  { intros k Hk. change (ticks (connected (mesh_sim w1) r1)) with (ticks r1). rewrite K1.
    replace (k + _)%nat with ((k + 5) + ticks (sn_runner na))%nat by (cbn; lia). apply Hal. lia. }
  { cbn. by rewrite S1. }
  { cbn. rewrite L1, Hs1. done. }
  rewrite (node_turn_ok a (turn_input TForward) 0 w1 na1 r2 Ha1 eq_refl E2), N2, Hs1. cbn. split_and!; [done| |].
  - eexists. by rewrite lookup_insert_eq.
  - intros q Hne. by rewrite lookup_insert_ne, T1; [cbn; rewrite lookup_insert_ne|].
Qed.

(** C16. From any reachable mesh whose network is quiet, a direct message given to node
    [a] for node [b] crosses the mesh: after the command, one forwarding tick of
    [a], one step of the network and one turn of [b], the application of [b] has
    been handed exactly that message, with its author, recipient and text, both
    nodes still run, and the clock has moved by the latency of the link.

    The conditions: both nodes run; [a] has nothing else to forward and its energy
    state lets this message through; the message has not expired at the next eight
    clock readings of [a] and the next three of [b]; [b] has read all its mail, does
    not throttle [a], finds the creation time in bounds, has messages of this author
    left in this minute and knows neither the id nor the message ([takes]); no
    action is waiting in the channel and no frame in the scheduler, and the link is
    up between two online nodes, without loss and with bandwidth left at the time of
    arrival ([link_ready]). *)
Theorem mesh_direct_arrives (start seed : Z) (xs : list MeshStep) (a b body : string) (na nb : SimNode) (pr : LinkProfile) (l : list TransportEvent) :
  Forall step_sound xs ->
  let w := mesh_run hosts xs (mesh_new start seed) in
  let m := written (NH := hosts a) (sn_conf na) b body (sn_runner na) in
  a ≠ b -> mesh_nodes w !! a = Some na -> mesh_nodes w !! b = Some nb -> sn_running na = true -> sn_running nb = true ->
  pending (sn_runner na) = [] -> can_forward (node_state (sn_runner na)) (priority (dm_envelope m)) = true ->
  alive (NH := hosts a) 8 m (sn_runner na) -> takes (NH := hosts b) a m (sn_runner nb) ->
  action_rx (mesh_sim w) = [] -> event_txs (mesh_sim w) !! b = Some l -> sn_received nb = length l ->
  link_ready (mesh_sim w) a b (wire_message_size (Data m)) pr ->
  let w' := mesh_run hosts [MTurn a (TCommand (SendDirect b body)); MTurn a TForward; MAdvance; MReceive b] w in
  content m = (a, Some b, body, as_bytes body)
  /\ (exists na', mesh_nodes w' !! a = Some na' /\ sn_running na' = true /\ pending (sn_runner na') = [])
  /\ (exists nb', mesh_nodes w' !! b = Some nb' /\ sn_running nb' = true
        /\ incoming (sn_runner nb') = incoming (sn_runner nb) ++ [m])
  /\ clock_ms (mesh_sim w') = clock_ms (mesh_sim w) + latency_ms pr.
Proof.
  intros Hx w m Hab Ha Hb Hra Hrb Hp Hf Hal Htk Hq Hl Hrec Hlink w'.
  assert (mesh_ok w) as Hw by (apply mesh_run_ok; [done|apply mesh_new_ok]).
  destruct (mo_nodes w Hw a na Ha) as [A1 (kp & A2 & A3) _ _ _ _ _]. destruct (mo_nodes w Hw b nb Hb) as [B1 _ _ _ B6 _ _].
  assert (content m = (a, Some b, body, as_bytes body)) as Hm by (by unfold m; rewrite written_content, A1).
  split; [done|].
  destruct (handed_over w a b body na pr Hw Ha Hra Hp Hf Hal Hq (lr_link _ _ _ _ _ Hlink)) as (Hs & Hna & Hother).
  unfold w'. change (mesh_run hosts ?l w) with (mesh_run hosts [MAdvance; MReceive b] (mesh_run hosts [MTurn a (TCommand (SendDirect b body)); MTurn a TForward] w)).
  set (w2 := mesh_run hosts [_; _] w) in *. cbn [mesh_run foldl mesh_step].
  destruct (network_carries (mesh_sim w2) a b (Data m) pr l) as [Hmail Hclock]; [by rewrite Hs; destruct Hlink|by rewrite Hs..|].
  set (w3 := on_sim step_until_next_event w2). assert (mesh_nodes w3 !! b = Some nb) as Hb3 by (by cbn; rewrite Hother).
  assert (next_mail b w3 = Some (DirectReceived a (Data m))) as ->.
  { unfold next_mail. rewrite Hb3. cbn [mbind option_bind].
    change (event_txs (mesh_sim w3)) with (event_txs (step_until_next_event (mesh_sim w2))). rewrite Hmail. cbn [mbind option_bind].
    by rewrite Hrec, lookup_app_r, Nat.sub_diag. }
  destruct (written_gate (hosts a) (sn_conf na) b body (sn_runner na) kp A2 ltac:(by rewrite A1)) as [Hg Hh].
  destruct (data_taken (NH := hosts b) (sn_conf nb) a m (connected (mesh_sim w3) (sn_runner nb))) as (r & E & Hi);
    [done|by destruct Htk|done|done| |].
  { unfold is_for. rewrite B1. apply bool_decide_eq_true_2. by injection Hm. }
  rewrite (node_turn_ok b _ 1 w3 nb r Hb3 Hrb E). cbn [mesh_nodes mesh_sim]. split_and!.
  - destruct Hna as (na' & Hna & ?). exists na'. by rewrite lookup_insert_ne.
  - eexists. rewrite lookup_insert_eq. by split_and!.
  - etrans; [exact Hclock|]. by rewrite Hs.
Qed.
End end_to_end.

(** ** Starting a simulated node

    [spawn_sim_node] of [mycelium-sim/src/runner.rs]: the data directory, the two
    key pairs of [AtRest.v], the registration with the network, the message store
    and the node task.  The directory for temporary files, the opening of the
    message store and what the node reads from its directory are arguments. *)


Section spawn.
Context `{V : VaultHost} `{DK : Disk} `{K : Keyring} {RD : DirRemoval} `{P : E2EPrims}.
Context `{M : MessageStore} `{HI : IdHash} `{F : FileSys} `{BW : Bincode WireMessage}.
#[local] Existing Instance sim_mesh.
Variable hosts : string -> NodeHost.
Variables (temp_dir : string) (open_store : string -> anyhow Store) (data_dir : string -> DataDir).

Abbreviation sim_op := (ST (VaultWorld * Mesh)).

Definition on_world {A} (m : ST VaultWorld A) : sim_op A := fun s => let '(w, r) := m s.1 in ((w, s.2), r).
Definition on_mesh {A} (f : Mesh -> Mesh * A) : sim_op A := fun s => let '(m, a) := f s.2 in ((s.1, m), Ok a).

Definition sim_db_path (run_id : Z) (peer_id : string) : string :=
  path_join temp_dir ("mycelium-sim-" +:+ show run_id +:+ "-" +:+ peer_id).

Definition sim_register (p : string) (bandwidth : Z) (m : Mesh) : Mesh * SimTransport :=
  let '(s, t) := build_transport p bandwidth (mesh_sim m) in (set_mesh_sim s m, t).

Definition spawn_sim_node (run_id bandwidth : Z) : sim_op string :=
  s ← st_get;
  let idx := size (nodes (mesh_sim s.2)) in
  let db_path := sim_db_path run_id ("n" +:+ show (Z.of_nat idx)) in
  _ ← on_world (st_ignore (remove_dir_all db_path));
  _ ← on_world (on_fs (fun f => disk_create_dir_all f db_path));
  kp ← on_world (load_or_create_keypair (db_path +:+ "/identity") None);
  let peer_id := peer_string (pk_peer_id (kp_public kp)) in
  transport ← on_mesh (sim_register peer_id bandwidth);
  let config := sim_config db_path in
  runner ← on_world (new_with_transport (H := hosts peer_id) open_store config (Some kp) peer_id (transport : Net) (data_dir db_path));
  _ ← on_mesh (fun m => (start_node_task peer_id runner m, tt));
  mret peer_id.

(** ** What a start does to the mesh *)

Lemma on_world_inv {A} (m : ST VaultWorld A) s s' a : on_world m s = (s', Ok a) -> s'.2 = s.2 /\ m s.1 = (s'.1, Ok a).
Proof. unfold on_world. destruct (m s.1) as [w r]. by intros [= <- ->]. Qed.

Lemma on_world_mesh {A} (m : ST VaultWorld A) s : (on_world m s).1.2 = s.2.
Proof. unfold on_world. by destruct (m s.1). Qed.

(** A start that succeeds is the step [MSpawn] of the mesh with the key pairs read
    or made in the node's directory, so that what holds of every run of the mesh
    holds of a simulation whose nodes are started this way; the handle names the
    peer of the key. *)
Theorem spawn_is_a_mesh_step (run_id bandwidth : Z) (s s' : VaultWorld * Mesh) (p : string) :
  spawn_sim_node run_id bandwidth s = (s', Ok p) ->
  exists kp enc st, let db := sim_db_path run_id ("n" +:+ show (Z.of_nat (size (nodes (mesh_sim s.2))))) in
    p = peer_string (pk_peer_id (kp_public kp)) /\ open_store db = Ok st
    /\ s'.2 = mesh_step hosts s.2 (MSpawn kp enc st (data_dir db) db bandwidth)
    /\ is_Some (mesh_nodes s'.2 !! p).
Proof.
  unfold spawn_sim_node. rewrite (ST_bind_Ok st_get _ s _ _ eq_refl). cbv zeta. set (db := sim_db_path _ _). intros H.
  apply ST_bind_inv in H as (s1 & [] & [E1 _]%on_world_inv & H). apply ST_bind_inv in H as (s2 & [] & [E2 _]%on_world_inv & H).
  apply ST_bind_inv in H as (s3 & kp & [E3 _]%on_world_inv & H). rewrite E1 in E2. rewrite E2 in E3.
  apply ST_bind_inv in H as (s4 & t & E4 & H). apply ST_bind_inv in H as (s5 & cr & [E5 Hn]%on_world_inv & H).
  apply ST_bind_inv in H as (s7 & [] & E7 & H). apply new_with_transport_inv in Hn as (enc & st & Hst & ->).
  injection H as <- <-. exists kp, enc, st.
  unfold on_mesh in E4, E7. cbn [sim_register build_transport] in E4. injection E4 as <- <-. injection E7 as <-.
  cbn [snd] in *. split_and!; [done|done| |].
  - cbn [mesh_step]. unfold spawn_with. cbn [build_transport]. by rewrite E5, E3.
  - rewrite E5. cbn. by rewrite lookup_insert_eq.
Qed.

(** A start that fails never starts a task.  Before the registration the mesh is as
    it was; when the encryption keys or the store fail the node stays registered
    with the network: its frames are taken, and no task will read them. *)
Theorem spawn_failure (run_id bandwidth : Z) (s s' : VaultWorld * Mesh) (e : string) :
  spawn_sim_node run_id bandwidth s = (s', Err e) ->
  s'.2 = s.2 \/ exists p, s'.2 = set_mesh_sim (register_node p bandwidth (mesh_sim s.2)) s.2.
Proof.
  unfold spawn_sim_node. rewrite (ST_bind_Ok st_get _ s _ _ eq_refl). cbv zeta. set (db := sim_db_path _ _). intros H.
  apply ST_bind_inv_Err in H as [H|(s1 & [] & [E1 _]%on_world_inv & H)]; [left; by rewrite <- (on_world_mesh (st_ignore (remove_dir_all db)) s), H|].
  apply ST_bind_inv_Err in H as [H|(s2 & [] & [E2 _]%on_world_inv & H)].
  { left. rewrite <- E1. match type of H with on_world ?m _ = _ => by rewrite <- (on_world_mesh m s1), H end. }
  apply ST_bind_inv_Err in H as [H|(s3 & kp & [E3 _]%on_world_inv & H)].
  { left. rewrite <- E1, <- E2. match type of H with on_world ?m _ = _ => by rewrite <- (on_world_mesh m s2), H end. }
  rewrite E1 in E2. rewrite E2 in E3. right. exists (peer_string (pk_peer_id (kp_public kp))). rewrite <- E3.
  apply ST_bind_inv_Err in H as [H|(s4 & t & E4 & H)]; [done|]. unfold on_mesh in E4. cbn [sim_register build_transport] in E4.
  injection E4 as E4 _.
  apply ST_bind_inv_Err in H as [H|(s5 & enc & [E5 _]%on_world_inv & H)].
  { match type of H with on_world ?m _ = _ => pose proof (on_world_mesh m s4) as E5; rewrite H in E5 end. by rewrite <- E4 in E5. }
  by apply ST_bind_inv_Err in H as [H|(s7 & [] & E7 & H)].
Qed.
End spawn.
