(* ===== verification/Scenarios.v ===== *)
(** * Simulation scenarios

    [mycelium-sim/src/scenarios.rs].  [Envelope::new] reads the wall clock, which
    is an argument; the rates, floating-point numbers in the code, are exact
    fractions here.  The transports the scenarios build are dropped at once, so no
    node answers. *)

From Stdlib Require Import QArith.
From S2P Require Import Prelude External Text Wire Sim SimTheorems.

Open Scope Z_scope.

Record ScenarioReport := mkReport {
  expected_deliveries : Z;
  delivery_success_rate : Q;
  duplicate_count : Z;
  avg_latency_ms : Q;
  rp_metrics : SimulationMetrics;
}.

Definition report (m : SimulationMetrics) (expected : Z) : ScenarioReport :=
  mkReport expected (delivered m # Z.to_pos (Z.max expected 1)) (duplicates m)
    (match latencies_ms m with [] => 0 | l => sumZ id l # Pos.of_nat (length l) end) m.

Record BloomSyncEfficiencyReport := mkBloomReport {
  messages_total : Z;
  bloom_bytes_per_round : Z;
  ids_bytes_per_round : Z;
  estimated_roundtrips_bloom : Z;
  estimated_roundtrips_ids : Z;
}.

(** [((n as f64) / d).ceil() as u64] *)
Definition ceil_div (n d : Z) : Z := (n + d - 1) / d.

Definition bloom_sync_efficiency_compare (nodes messages_per_node : Z) : BloomSyncEfficiencyReport :=
  let messages_total := nodes * messages_per_node in
  let avg_id_len := 64 in
  mkBloomReport messages_total 1024 (messages_total * avg_id_len) (ceil_div messages_total 512) (ceil_div messages_total 128).

Definition send_action (a : SimAction) (s : SimulationRunner) : SimulationRunner := set_action_rx (action_rx s ++ [a]) s.

Section scenarios.
Context `{C : Crypto}.
(** the clock reading of the [i]-th message *)
Variable wall : nat -> Z.

Definition make_msg (from : string) (to : option string) (body : string) (now : Z) : DirectMessage :=
  mkDM (envelope_new from to (as_bytes body) now) body.

Definition send_data (from to body : string) (now : Z) : SimulationRunner -> SimulationRunner :=
  send_action (SimSendDirect from to (Data (make_msg from (Some to) body now))).

(** [for i in 0..n] *)
Definition for_each (n : nat) (f : nat -> SimulationRunner -> SimulationRunner) (s : SimulationRunner) : SimulationRunner :=
  foldl (fun s i => f i s) s (List.seq 0%nat n).

Definition finish (fuel : nat) (duration expected : Z) (s : SimulationRunner) : option ScenarioReport :=
  (fun s => report (sim_metrics s) expected) <$> run_for fuel duration s.

Definition partition_setup (seed : Z) : SimulationRunner :=
  send_data "A" "C" "partition-test" (wall 0%nat)
    (schedule_availability "B" 2000 true (schedule_availability "B" 500 false
      (set_link "A" "C" link_default (set_link "B" "C" link_default (set_link "A" "B" link_default
        (register_node "C" (64 * 1024) (register_node "B" (64 * 1024) (register_node "A" (64 * 1024) (sim_new 0 seed))))))))).
Definition partition_and_merge (fuel : nat) (seed : Z) : option ScenarioReport := finish fuel 3000 1 (partition_setup seed).

Definition load_setup (seed : Z) : SimulationRunner :=
  for_each 500 (fun i => send_data "A" "B" ("load-" +:+ show (Z.of_nat i)) (wall i))
    (set_link "A" "B" (mkLink 25 20 (8 * 1024))
      (register_node "B" (8 * 1024) (register_node "A" (8 * 1024) (sim_new 0 seed)))).
Definition high_message_load (fuel : nat) (seed : Z) : option ScenarioReport := finish fuel 5000 500 (load_setup seed).

Definition churn_setup (seed : Z) : SimulationRunner :=
  for_each 50 (fun i => send_data "A" "B" ("churn-" +:+ show (Z.of_nat i)) (wall i))
    (for_each 8 (fun i => schedule_availability "B" (200 + Z.of_nat i * 300) (Nat.even i))
      (set_link "A" "B" link_default
        (register_node "B" (32 * 1024) (register_node "A" (32 * 1024) (sim_new 0 seed))))).
Definition node_churn (fuel : nat) (seed : Z) : option ScenarioReport := finish fuel 4000 50 (churn_setup seed).

(** nothing is sent in these *)
Definition bloom_sync_efficiency (seed : Z) : ScenarioReport :=
  let sim := for_each 10 (fun i => register_node ("N" +:+ show (Z.of_nat i)) (64 * 1024)) (sim_new 0 seed) in
  let _eff := bloom_sync_efficiency_compare 10 50 in
  report (sim_metrics sim) 1.
Definition hop_limit_containment (seed : Z) : ScenarioReport :=
  report (sim_metrics (register_node "B" (64 * 1024) (register_node "A" (64 * 1024) (sim_new 0 seed)))) 1.
Definition scope_isolation (seed : Z) : ScenarioReport := report (sim_metrics (sim_new 0 seed)) 1.
End scenarios.

(** ** Theorems *)

(** runs without arrivals account for the waiting actions once *)
Lemma run_iteration_reach n s target :
  sim_reach n s -> n + waiting_copies s < 2 ^ 64 ->
  sim_reach (n + waiting_copies s) (run_iteration target [] s) /\ waiting_copies (run_iteration target [] s) = 0.
Proof.
  intros Hs Hb. destruct (step_settles s) as ([Ha _] & _). pose proof (sr_step n s Hs Hb) as Hr.
  unfold run_iteration. set (s1 := step_until_next_event s) in *. rewrite app_nil_r.
  assert (set_action_rx (action_rx s1) s1 = s1) as -> by by destruct s1.
  destruct (decide _); (split; [by try apply sr_clock|]); unfold waiting_copies; [cbn [set_clock action_rx]|]; by rewrite Ha.
Qed.

Lemma run_loop_reach fuel target n s s' :
  sim_reach n s -> n + waiting_copies s < 2 ^ 64 -> run_loop fuel target [] s = Some s' -> clock_ms s < target ->
  sim_reach (n + waiting_copies s) s'.
Proof.
  revert n s. induction fuel as [|fuel IH]; intros n s Hs Hb; cbn [run_loop]; [done|].
  intros H Hc. rewrite decide_True in H by done. cbn [head tail default] in H.
  destruct (run_iteration_reach n s target Hs Hb) as [Hr Hw]. set (s1 := run_iteration target [] s) in *.
  destruct (decide (clock_ms s1 < target)) as [H1|H1].
  - specialize (IH _ _ Hr). rewrite Hw, Z.add_0_r in IH. apply IH; [lia|done|done].
  - destruct fuel as [|fuel]; [done|]. cbn [run_loop] in H. rewrite decide_False in H by done. by injection H as <-.
Qed.

Section sends.
Context `{C : Crypto}.

Lemma waiting_send from to body now s : waiting_copies (send_data from to body now s) = waiting_copies s + 1.
Proof. unfold waiting_copies, send_data, send_action. cbn [set_action_rx action_rx]. rewrite sumZ_app. reflexivity. Qed.

Lemma clock_send from to body now s : clock_ms (send_data from to body now s) = clock_ms s.
Proof. done. Qed.

Lemma for_each_app n f s : for_each (S n) f s = f n (for_each n f s).
Proof. unfold for_each. by rewrite seq_S, foldl_app. Qed.

Lemma for_each_sends n (from to : string) (body : nat -> string) (now : nat -> Z) s :
  sim_reach 0 s -> let s' := for_each n (fun i => send_data from to (body i) (now i)) s in
  sim_reach 0 s' /\ waiting_copies s' = waiting_copies s + Z.of_nat n /\ clock_ms s' = clock_ms s.
Proof.
  intros Hs. cbv zeta. induction n as [|n (H1 & H2 & H3)]; [split_and!; [done|cbn; lia|done]|]. rewrite for_each_app. split_and!.
  - by apply sr_send.
  - rewrite waiting_send, H2. lia.
  - by rewrite clock_send.
Qed.

Lemma for_each_keeps (I : SimulationRunner -> Prop) n f s : I s -> (forall i s, I s -> I (f i s)) -> I (for_each n f s).
Proof. intros Hs Hf. induction n as [|n IH]; [done|]. rewrite for_each_app. by apply Hf. Qed.

(** what a scenario that ends well reports *)
Definition sound_report (expected : Z) (r : ScenarioReport) : Prop :=
  let m := rp_metrics r in
  expected_deliveries r = expected /\ 0 <= delivered m
  /\ delivered m + dropped_loss m + dropped_offline m + dropped_bandwidth m <= expected
  /\ (0 <= delivery_success_rate r <= 1)%Q.

Lemma finish_sound fuel duration expected s :
  sim_reach 0 s -> waiting_copies s = expected -> 0 < expected < 2 ^ 64 -> clock_ms s = 0 -> 0 < duration <= umax 64 ->
  (Z.to_nat duration + 2 <= fuel)%nat ->
  exists r, finish fuel duration expected s = Some r /\ sound_report expected r.
Proof.
  intros Hs Hw He Hc Hd Hf. unfold finish, run_for, run_for_async. rewrite Hc.
  assert (0 +sat duration = duration) as -> by (unfold sat_add; lia).
  destruct (run_loop_total duration fuel) with (arrivals := @nil (list SimAction)) (s := s) (b := true) as (s' & Hr & _); [lia|done| |].
  { rewrite Hc. cbn [length]. lia. }
  rewrite Hr. eexists. split; [reflexivity|].
  assert (sim_reach (0 + waiting_copies s) s') as Hs' by (eapply run_loop_reach; [done|lia|done|lia]).
  apply sim_reach_inv in Hs' as [Hi Ha]. rewrite Hw, Z.add_0_l in Ha. pose proof (si_mailed _ Hi) as Hm.
  pose proof (in_flight_nonneg s') as Hfl. pose proof (si_drops _ Hi) as (D1 & D2 & D3). unfold accounted in Ha.
  assert (0 <= delivered (sim_metrics s')) as H0 by (rewrite (si_delivered _ Hi); lia).
  unfold sound_report. cbn [report rp_metrics expected_deliveries delivery_success_rate]. split_and!; [done|done|lia| |].
  - unfold Qle. cbn. lia.
  - unfold Qle. cbn [Qnum Qden]. rewrite Z2Pos.id by lia. lia.
Qed.
End sends.

(** The scenarios that send traffic end, whatever the seed and the clock: they
    report what they sent as delivered or dropped at most once, and a success rate
    between zero and one. *)
Theorem scenarios_sound `{C : Crypto} (wall : nat -> Z) (seed : Z) (fuel : nat) :
  (Z.to_nat 5002 <= fuel)%nat ->
  (exists r, partition_and_merge wall fuel seed = Some r /\ sound_report 1 r)
  /\ (exists r, high_message_load wall fuel seed = Some r /\ sound_report 500 r)
  /\ (exists r, node_churn wall fuel seed = Some r /\ sound_report 50 r).
Proof.
  intros Hf. split_and!.
  - apply finish_sound; [|unfold partition_setup; by rewrite waiting_send|done|done|done|lia].
    apply sr_send. do 2 apply sr_availability. do 3 apply sr_link. repeat (apply sr_register; [|done|done]). apply sr_new.
  - pose proof (for_each_sends 500 "A" "B" (fun i => ("load-" +:+ show (Z.of_nat i))%string) wall) as Hl.
    destruct (Hl (set_link "A" "B" (mkLink 25 20 (8 * 1024))
      (register_node "B" (8 * 1024) (register_node "A" (8 * 1024) (sim_new 0 seed))))) as (H1 & H2 & H3).
    { apply sr_link. repeat (apply sr_register; [|done|done]). apply sr_new. }
    apply finish_sound; [exact H1|exact H2|done|exact H3|done|lia].
  - set (s0 := for_each 8 (fun i => schedule_availability "B" (200 + Z.of_nat i * 300) (Nat.even i))
      (set_link "A" "B" link_default (register_node "B" (32 * 1024) (register_node "A" (32 * 1024) (sim_new 0 seed))))).
    assert (sim_reach 0 s0 /\ waiting_copies s0 = 0 /\ clock_ms s0 = 0) as (R1 & R2 & R3).
    { apply (for_each_keeps (fun s => sim_reach 0 s /\ waiting_copies s = 0 /\ clock_ms s = 0)).
      - split_and!; [|done|done]. apply sr_link. repeat (apply sr_register; [|done|done]). apply sr_new.
      - intros i s (? & ? & ?). split_and!; [by apply sr_availability|done|done]. }
    destruct (for_each_sends 50 "A" "B" (fun i => ("churn-" +:+ show (Z.of_nat i))%string) wall s0 R1) as (H1 & H2 & H3).
    rewrite R2 in H2. rewrite R3 in H3. apply finish_sound; [exact H1|exact H2|done|exact H3|done|lia].
Qed.

(** The other three send nothing: they report that nothing was delivered. *)
Theorem empty_scenarios_deliver_nothing (seed : Z) :
  delivered (rp_metrics (bloom_sync_efficiency seed)) = 0
  /\ delivered (rp_metrics (hop_limit_containment seed)) = 0 /\ delivered (rp_metrics (scope_isolation seed)) = 0.
Proof. split_and!; [|done|done]. by apply (for_each_keeps (fun s => delivered (sim_metrics s) = 0)). Qed.
