(* ===== verification/AppStorage.v ===== *)
(** * The application database

    [mycelium-app/src/contacts.rs], [envelope.rs] (the message records),
    [groups.rs], [scope_key.rs], [miniapp_storage_enc.rs] and [storage.rs]: one
    sled database with a tree per peer, scope and kind of record.  Clock
    readings and random bytes are arguments; uuids are their text form. *)

From S2P Require Import Prelude External Text Instances Host E2E AtRest.

Open Scope Z_scope.

(** ** Records *)

Inductive ContactStatus := Pending | Accepted.
Global Instance ContactStatus_eq_dec : EqDecision ContactStatus.
Proof. solve_decision. Defined.

Record Contact := mkContact {
  ct_peer_id : string;
  ct_display_name : string;
  ct_added_at_ms : Z;
  ct_status : ContactStatus;
}.

Definition contact_new (peer_id display_name : string) (status : ContactStatus) (now : Z) : Contact :=
  mkContact peer_id display_name now status.

Record ChatMessage := mkChat {
  ch_id : string;
  ch_from_display_name : string;
  ch_body : string;
  ch_timestamp_ms : Z;
  ch_reply_to : option string;
}.

Record BulletinPost := mkPost {
  bp_id : string;
  bp_from_display_name : string;
  bp_title : string;
  bp_body : string;
  bp_scope : string;
  bp_timestamp_ms : Z;
  bp_expires_at_ms : Z;
}.

Record Attachment := mkAttachment {
  at_filename : string;
  at_mime_type : string;
  at_data : list byte;
  at_size_bytes : Z;
}.

Record MailMessage := mkMail {
  ml_id : string;
  ml_from_peer : string;
  ml_from_display_name : string;
  ml_to_peer : string;
  ml_subject : string;
  ml_body : string;
  ml_timestamp_ms : Z;
  ml_attachments : list Attachment;
}.

Record Group := mkGroup {
  gr_id : string;
  gr_name : string;
  gr_key : list byte;
  gr_members : list string;
  gr_created_at_ms : Z;
}.

Record ScopeKey := mkScopeKey {
  sk_scope : string;
  sk_display_name : string;
  sk_key : list byte;
  sk_added_at_ms : Z;
}.

(** [Group::record_peer_seen] *)
Definition record_peer_seen (peer_id : string) (g : Group) : Group :=
  if decide (peer_id = ""%string) then g else
  if decide (peer_id ∈ gr_members g) then g else
  mkGroup (gr_id g) (gr_name g) (gr_key g) (gr_members g ++ [peer_id]) (gr_created_at_ms g).

(** [String::from_utf8_lossy]: each maximal invalid part becomes U+FFFD *)
Definition REPLACEMENT : list byte := [xef; xbf; xbd].
Definition lead3 (a b : byte) : bool :=
  (byte_in 224 224 a && byte_in 160 191 b) || (byte_in 225 236 a && is_cont b)
  || (byte_in 237 237 a && byte_in 128 159 b) || (byte_in 238 239 a && is_cont b).
Definition lead4 (a b : byte) : bool :=
  (byte_in 240 240 a && byte_in 144 191 b) || (byte_in 241 243 a && is_cont b)
  || (byte_in 244 244 a && byte_in 128 143 b).

Fixpoint utf8_lossy (l : list byte) : list byte :=
  match l with
  | [] => []
  | a :: r =>
    if byte_in 0 127 a then a :: utf8_lossy r else
    match r with
    | [] => REPLACEMENT
    | b :: r2 =>
      if utf8_2 a b then a :: b :: utf8_lossy r2 else
      if negb (lead3 a b || lead4 a b) then REPLACEMENT ++ utf8_lossy r else
      match r2 with
      | [] => REPLACEMENT
      | c :: r3 =>
        if negb (is_cont c) then REPLACEMENT ++ utf8_lossy r2 else
        if lead3 a b then a :: b :: c :: utf8_lossy r3 else
        match r3 with
        | [] => REPLACEMENT
        | d :: r4 => if is_cont d then a :: b :: c :: d :: utf8_lossy r4
                     else REPLACEMENT ++ utf8_lossy r3
        end
      end
    end
  end.

Definition from_utf8_lossy (l : list byte) : string := of_bytes (utf8_lossy l).

Section invites.
Context `{C : Crypto} `{J : Json}.

Definition group_new (name : string) (key : list byte) (now : Z) : Group :=
  mkGroup (hex_encode (blake3 key)) name key [] now.

Definition group_export_invite (g : Group) : string :=
  json_to_string (JObj [("type", JStr "mycelium-group-invite"); ("version", JNum 1);
    ("id", JStr (gr_id g)); ("name", JStr (gr_name g)); ("key", JStr (hex_encode (gr_key g)))])%string.

(** the 32-byte key of an invite *)
Definition invite_key (v : JValue) : anyhow (list byte) :=
  match jas_str (jget v "key") with
  | None => Err "missing key"%string
  | Some h => match hex_decode h with
              | None => Err "hex"%string
              | Some b => to_key b "invalid key length"
              end
  end.

Definition group_from_invite (json : string) (now : Z) : anyhow Group :=
  v ← json_from_str json;
  key ← invite_key v;
  Ok (mkGroup (default ""%string (jas_str (jget v "id"))) (default "Group"%string (jas_str (jget v "name"))) key [] now).

Definition scope_key_new (scope display_name : string) (key : list byte) (now : Z) : ScopeKey :=
  mkScopeKey scope display_name key now.

Definition scope_export_invite (s : ScopeKey) : string :=
  json_to_string (JObj [("type", JStr "mycelium-scope-key"); ("version", JNum 1);
    ("scope", JStr (sk_scope s)); ("display_name", JStr (sk_display_name s));
    ("key", JStr (hex_encode (sk_key s)))])%string.

Definition scope_from_invite (json : string) (now : Z) : anyhow ScopeKey :=
  v ← json_from_str json;
  if decide (jas_str (jget v "type") ≠ Some "mycelium-scope-key"%string)
  then Err "invalid invite type"%string else
  key ← invite_key v;
  Ok (mkScopeKey (default "unknown"%string (jas_str (jget v "scope")))
        (default "Encrypted Channel"%string (jas_str (jget v "display_name"))) key now).
End invites.

(** ** Encrypted mini-app values *)

Section kv_enc.
Context `{P : E2EPrims}.

Definition ENC_PREFIX : list byte := as_bytes "enc1:".

(** [expect] would panic where these return an error; HKDF and the cipher do
    not fail on such inputs. *)
Definition derive_record_key (m : list byte) (scoped_key : string) : anyhow (list byte) :=
  hkdf m (as_bytes ("mycelium-miniapp-kv:" +:+ scoped_key)).

Definition encrypt_value (m : list byte) (scoped_key plaintext : string) (nonce_bytes : list byte)
    : anyhow (list byte) :=
  key ← derive_record_key m scoped_key;
  ct ← chacha_encrypt key nonce_bytes (as_bytes plaintext);
  Ok (ENC_PREFIX ++ nonce_bytes ++ ct).

Definition decrypt_value (m : list byte) (scoped_key : string) (blob : list byte) : anyhow string :=
  if decide (take (length ENC_PREFIX) blob ≠ ENC_PREFIX) then
    match from_utf8 blob with
    | Some s => Ok s
    | None => Err "invalid miniapp storage utf8"%string
    end
  else
  let rest := drop (length ENC_PREFIX) blob in
  if (length rest <? NONCE_LEN + 16)%nat then Err "truncated encrypted miniapp value"%string else
  key ← derive_record_key m scoped_key;
  match chacha_decrypt key (take NONCE_LEN rest) (drop NONCE_LEN rest) with
  | None => Err "miniapp storage decrypt failed"%string
  | Some pt => match from_utf8 pt with
               | Some s => Ok s
               | None => Err "invalid decrypted utf8"%string
               end
  end.
End kv_enc.

(** ** Keys of the trees *)

Definition ts_key (ts : Z) : string := of_bytes (be_bytes 8 ts).
Definition ts_uuid_key (ts : Z) (id : string) : string := (fmt_020 ts +:+ ":" +:+ id)%string.
Definition bulletin_key (p : BulletinPost) : string := ts_uuid_key (bp_expires_at_ms p) (bp_id p).

Definition chat_tree (peer : string) : string := ("chat:" +:+ peer)%string.
Definition groupchat_tree (id : string) : string := ("groupchat:" +:+ id)%string.
Definition bulletin_tree (scope : string) : string := ("bulletin:" +:+ scope)%string.

(** the codecs of every stored type *)
Class AppCodecs := {
  bin_chat :: Bincode ChatMessage;
  bin_post :: Bincode BulletinPost;
  bin_mail :: Bincode MailMessage;
  bin_contact :: Bincode Contact;
  bin_group :: Bincode Group;
  json_scope_key :: Serde ScopeKey;
}.

Class AppCodecLaws (B : AppCodecs) : Prop := {
  bin_chat_laws :: BincodeLaws bin_chat;
  bin_post_laws :: BincodeLaws bin_post;
  bin_mail_laws :: BincodeLaws bin_mail;
  bin_contact_laws :: BincodeLaws bin_contact;
  bin_group_laws :: BincodeLaws bin_group;
  json_scope_key_laws :: SerdeLaws json_scope_key;
}.

Section storage.
Context `{D : Sled} `{DB : !SledDb} `{B : AppCodecs} `{P : E2EPrims}.

Record AppStorage := mkApp { app_db : Db; at_rest_key : option (list byte) }.

Abbreviation app_op := (ST AppStorage).

Definition with_tree {A} (name : string) (f : Tree -> anyhow A) : app_op A :=
  s ← st_get;
  t ← st_lift (db_open_tree (app_db s) name);
  st_lift (f t).

Definition upd_tree (name : string) (f : Tree -> anyhow Tree) : app_op unit :=
  s ← st_get;
  t ← st_lift (db_open_tree (app_db s) name);
  t' ← st_lift (f t);
  st_put (mkApp (db_put (app_db s) name t') (at_rest_key s)).

Fixpoint decode_rows {A} `{Bincode A} (rows : list (string * list byte)) : anyhow (list A) :=
  match rows with
  | [] => Ok []
  | (_, v) :: rows => a ← de v; l ← decode_rows rows; Ok (a :: l)
  end.

(** [tree.iter().rev().take(limit)], decoded *)
Definition newest {A} `{Bincode A} (limit : nat) (t : Tree) : anyhow (list A) :=
  rows ← tree_iter t;
  decode_rows (take limit (reverse rows)).

Definition get_row {A} `{Bincode A} (key : string) (t : Tree) : anyhow (option A) :=
  o ← tree_get t key;
  match o with Some v => a ← de v; Ok (Some a) | None => Ok None end.

Definition put_row {A} `{Bincode A} (key : string) (a : A) (t : Tree) : anyhow Tree :=
  b ← ser a;
  tree_insert t key b.

Definition save_chat (peer_id : string) (msg : ChatMessage) : app_op unit :=
  upd_tree (chat_tree peer_id) (put_row (ts_key (ch_timestamp_ms msg)) msg).

Definition chat_history (peer_id : string) (limit : nat) : app_op (list ChatMessage) :=
  with_tree (chat_tree peer_id) (newest limit).

Definition save_contact (c : Contact) : app_op unit :=
  upd_tree "contacts:data" (put_row (ct_peer_id c) c).

Definition contact_by_id (peer_id : string) : app_op (option Contact) :=
  with_tree "contacts:data" (get_row peer_id).

Definition all_contacts : app_op (list Contact) :=
  with_tree "contacts:data" (fun t =>
    rows ← tree_iter t;
    out ← decode_rows rows;
    Ok (sort_by (key_desc ct_added_at_ms) out)).

Definition contacts_with_status (status : ContactStatus) : app_op (list Contact) :=
  l ← all_contacts;
  mret (filter (fun c => ct_status c = status) l).

Definition delete_contact (peer_id : string) : app_op unit :=
  upd_tree "contacts:data" (fun t => tree_remove t peer_id).

Definition upsert_contact (peer_id display_name : string) (status : ContactStatus) (now : Z) : app_op Contact :=
  o ← contact_by_id peer_id;
  let contact :=
    match o with
    | Some existing =>
        mkContact (ct_peer_id existing)
          (if decide (display_name = ""%string) then ct_display_name existing else display_name)
          (ct_added_at_ms existing) status
    | None => contact_new peer_id display_name status now
    end in
  _ ← save_contact contact;
  mret contact.

Definition save_bulletin (post : BulletinPost) : app_op unit :=
  upd_tree (bulletin_tree (bp_scope post)) (put_row (bulletin_key post) post).

Definition bulletins_for_scope (scope : string) (now : Z) : app_op (list BulletinPost) :=
  with_tree (bulletin_tree scope) (fun t =>
    rows ← tree_iter t;
    posts ← decode_rows rows;
    Ok (sort_by (key_desc bp_timestamp_ms) (filter (fun p => now <= bp_expires_at_ms p) posts))).

(** the keys of the expired posts of one tree; rows that cannot be read or
    decoded are skipped *)
Definition expired_keys (now : Z) (t : Tree) : list string :=
  match tree_iter t with
  | Err _ => []
  | Ok rows =>
      omap (fun kv => match de (A := BulletinPost) kv.2 with
                      | Ok post => if decide (bp_expires_at_ms post < now) then Some kv.1 else None
                      | Err _ => None
                      end) rows
  end.

(** a failing removal keeps the removals before it *)
Fixpoint remove_keys (keys : list string) (t : Tree) : Tree * anyhow unit :=
  match keys with
  | [] => (t, Ok tt)
  | k :: keys => match tree_remove t k with
                 | Ok t' => remove_keys keys t'
                 | Err e => (t, Err e)
                 end
  end.

Definition remove_from (name : string) (keys : list string) : app_op unit :=
  s ← st_get;
  t ← st_lift (db_open_tree (app_db s) name);
  let '(t', r) := remove_keys keys t in
  _ ← st_put (mkApp (db_put (app_db s) name t') (at_rest_key s));
  st_lift r.

Fixpoint prune_trees (now : Z) (names : list string) (removed : Z) : app_op Z :=
  match names with
  | [] => mret removed
  | name :: names =>
      match from_utf8 (as_bytes name) with
      | None => prune_trees now names removed
      | Some n =>
          if negb (starts_with "bulletin:" n) then prune_trees now names removed else
          s ← st_get;
          t ← st_lift (db_open_tree (app_db s) n);
          let keys := expired_keys now t in
          _ ← remove_from n keys;
          prune_trees now names (removed + Z.of_nat (length keys))
      end
  end.

Definition prune_expired_bulletins (now : Z) : app_op Z :=
  s ← st_get;
  prune_trees now (db_tree_names (app_db s)) 0.

Definition save_mail_inbox (mail : MailMessage) : app_op unit :=
  upd_tree "mail:inbox" (put_row (ts_uuid_key (ml_timestamp_ms mail) (ml_id mail)) mail).

Definition save_mail_sent (mail : MailMessage) : app_op unit :=
  upd_tree "mail:sent" (put_row (ts_uuid_key (ml_timestamp_ms mail) (ml_id mail)) mail).

Definition inbox (limit : nat) : app_op (list MailMessage) := with_tree "mail:inbox" (newest limit).
Definition sent (limit : nat) : app_op (list MailMessage) := with_tree "mail:sent" (newest limit).

Definition mark_read (mail_id : string) : app_op unit :=
  upd_tree "mail:read" (fun t => tree_insert t mail_id [x01]).

Definition is_read (mail_id : string) : app_op bool :=
  with_tree "mail:read" (fun t => o ← tree_get t mail_id; Ok (bool_decide (is_Some o))).

Definition save_group (g : Group) : app_op unit := upd_tree "groups:data" (put_row (gr_id g) g).
Definition delete_group (id : string) : app_op unit := upd_tree "groups:data" (fun t => tree_remove t id).
Definition group_by_id (id : string) : app_op (option Group) := with_tree "groups:data" (get_row id).
Definition all_groups : app_op (list Group) :=
  with_tree "groups:data" (fun t => rows ← tree_iter t; decode_rows rows).

Definition group_record_peer_seen (group_id peer_id : string) : app_op unit :=
  o ← group_by_id group_id;
  match o with
  | None => mret tt
  | Some g => save_group (record_peer_seen peer_id g)
  end.

Definition save_group_chat (group_id : string) (msg : ChatMessage) : app_op unit :=
  upd_tree (groupchat_tree group_id) (put_row (ts_uuid_key (ch_timestamp_ms msg) (ch_id msg)) msg).

Definition group_chat_history (group_id : string) (limit : nat) : app_op (list ChatMessage) :=
  with_tree (groupchat_tree group_id) (newest limit).

(** ** Mini-app values *)

Definition encode_miniapp_value (scoped_key value : string) (nonce : list byte) (s : AppStorage)
    : anyhow (list byte) :=
  match at_rest_key s with
  | Some m => encrypt_value m scoped_key value nonce
  | None => Ok (as_bytes value)
  end.

Definition decode_miniapp_value (scoped_key : string) (blob : list byte) (s : AppStorage) : anyhow string :=
  match at_rest_key s with
  | Some m => decrypt_value m scoped_key blob
  | None => Ok (from_utf8_lossy blob)
  end.

Definition miniapp_get (scoped_key : string) : app_op (option string) :=
  s ← st_get;
  with_tree "miniapp_storage" (fun t =>
    o ← tree_get t scoped_key;
    match o with
    | Some v => x ← decode_miniapp_value scoped_key v s; Ok (Some x)
    | None => Ok None
    end).

Definition miniapp_set (scoped_key value : string) (nonce : list byte) : app_op unit :=
  s ← st_get;
  upd_tree "miniapp_storage" (fun t =>
    bytes ← encode_miniapp_value scoped_key value nonce s;
    tree_insert t scoped_key bytes).

Definition miniapp_delete (scoped_key : string) : app_op unit :=
  upd_tree "miniapp_storage" (fun t => tree_remove t scoped_key).

(** [Tree::scan_prefix]: the rows whose key starts with the prefix, in order *)
Definition scan_prefix (prefix : string) (t : Tree) : anyhow (list (string * list byte)) :=
  rows ← tree_iter t;
  Ok (filter (fun kv => starts_with prefix kv.1 = true) rows).

Definition miniapp_list (scoped_prefix : string) : app_op (list string) :=
  with_tree "miniapp_storage" (fun t =>
    rows ← scan_prefix scoped_prefix t;
    Ok (sort_by key_le ((fun kv => from_utf8_lossy (as_bytes kv.1)) <$> rows))).

Definition app_prefix (app_id : string) : string := ("app:" +:+ app_id +:+ ":")%string.

Definition miniapp_clear_all_for_app (app_id : string) : app_op unit :=
  keys ← with_tree "miniapp_storage" (fun t =>
    Ok (match scan_prefix (app_prefix app_id) t with Ok rows => rows.*1 | Err _ => [] end));
  remove_from "miniapp_storage" keys.

(** ** Scope keys, as JSON *)

Definition save_scope_key (k : ScopeKey) : app_op unit :=
  upd_tree "scope_keys" (fun t => b ← to_json k; tree_insert t (sk_scope k) b).

Definition get_scope_key (scope : string) : app_op (option ScopeKey) :=
  with_tree "scope_keys" (fun t =>
    o ← tree_get t scope;
    match o with Some b => k ← from_json b; Ok (Some k) | None => Ok None end).

Definition all_scope_keys : app_op (list ScopeKey) :=
  with_tree "scope_keys" (fun t =>
    rows ← tree_iter t;
    Ok (sort_by (key_asc sk_added_at_ms) (omap (fun kv => of_res (from_json kv.2)) rows))).

Definition delete_scope_key (scope : string) : app_op unit :=
  upd_tree "scope_keys" (fun t => tree_remove t scope).
End storage.
