(* ===== verification/AppStorageTheorems.v ===== *)
(** * Properties of the application database

    Every row is stored under its own key and decodes; histories are newest
    first; pruning removes exactly the expired posts; contacts, scope keys and
    mini-app values round trip. *)

From S2P Require Import Prelude External Text Instances Host E2E AtRest AppStorage.

Open Scope Z_scope.

(** ** Facts about rows *)

Lemma StronglySorted_reverse {A} (R : relation A) l :
  StronglySorted R l -> StronglySorted (flip R) (reverse l).
Proof.
  induction 1 as [|x l Hl IH Hx]; [constructor|]. rewrite reverse_cons.
  apply StronglySorted_app_2; [|done|by repeat constructor].
  intros a b Ha Hb. apply list_elem_of_singleton in Hb as ->. rewrite elem_of_reverse in Ha.
  rewrite Forall_forall in Hx. exact (Hx _ Ha).
Qed.

Section rows.
Context `{D : Sled} {DL : SledLaws D} {DO : SledOrder D} {A : Type} `{B : Bincode A} {BL : BincodeLaws B}.

Abbreviation decodes := (fun (kv : string * list byte) (a : A) => de kv.2 = Ok a).

(** the decoded values of a tree, as a multiset *)
Definition contents (t : Tree) : list A := omap (fun kv => of_res (de kv.2)) (map_to_list (tree_view t)).

Lemma decode_rows_Forall2 rows l : Forall2 decodes rows l -> decode_rows rows = Ok l.
Proof.
  induction 1 as [|[k b] a rows l Hab Hf IH]; [done|]. cbn [decode_rows].
  cbn in Hab. by rewrite Hab, IH.
Qed.

Lemma decodes_omap rows l : Forall2 decodes rows l -> omap (fun kv => of_res (de kv.2)) rows = l.
Proof. induction 1 as [|[k b] a rows l Hab Hf IH]; [done|]. cbn in *. by rewrite Hab, IH. Qed.

Lemma rows_decode rows :
  (forall kv, kv ∈ rows -> exists a : A, de kv.2 = Ok a) -> exists l, Forall2 decodes rows l.
Proof.
  induction rows as [|kv rows IH]; intros H; [by exists []|].
  destruct (H kv) as [a Ha]; [left|]. destruct IH as [l Hl]; [intros; apply H; by right|].
  exists (a :: l). by constructor.
Qed.

Lemma tree_iter_contents t :
  tree_ok (A := A) t ->
  exists rows l, tree_iter t = Ok rows /\ StronglySorted row_le rows
    /\ Forall2 decodes rows l /\ l ≡ₚ contents t /\ rows ≡ₚ map_to_list (tree_view t).
Proof.
  intros Hok. destruct (tree_iter_view t) as (rows & Hi & Hp).
  destruct (rows_decode rows) as [l Hl].
  { intros [k b] Hin. rewrite Hp in Hin. apply elem_of_map_to_list in Hin. by eapply Hok. }
  exists rows, l. split_and!; [done|by eapply tree_iter_sorted|done| |done].
  rewrite <- (decodes_omap _ _ Hl). unfold contents. by rewrite Hp.
Qed.

Lemma elem_of_contents t a : a ∈ contents t <-> exists k b, tree_view t !! k = Some b /\ de b = Ok a.
Proof.
  unfold contents. rewrite list_elem_of_omap. split.
  - intros ([k b] & Hin & Hd). apply elem_of_map_to_list in Hin. exists k, b. cbn in Hd.
    by destruct (de b); simplify_eq/=.
  - intros (k & b & Hk & Hd). exists (k, b). split; [by apply elem_of_map_to_list|]. cbn. by rewrite Hd.
Qed.

(** ** Histories *)

Section history.
Variables (keyf : A -> string) (ts : A -> Z) (wf : A -> Prop).
Hypothesis key_time : forall a b, wf a -> wf b -> key_le (keyf a) (keyf b) -> ts a <= ts b.

Definition filed (t : Tree) : Prop :=
  forall k b, tree_view t !! k = Some b -> exists a, de b = Ok a /\ k = keyf a /\ wf a.

Lemma filed_ok t : filed t -> tree_ok (A := A) t.
Proof. intros H k b Hb. destruct (H k b Hb) as (a & Ha & _). eauto. Qed.

Lemma sorted_decoded rows l :
  (forall kv, kv ∈ rows -> exists a, de kv.2 = Ok a /\ kv.1 = keyf a /\ wf a) ->
  Forall2 decodes rows l -> StronglySorted (flip row_le) rows -> StronglySorted (key_desc ts) l.
Proof.
  intros Hr Hf. induction Hf as [|kv a rows l Ha Hf IH]; intros Hs; [constructor|].
  apply StronglySorted_inv in Hs as [Hs Hall]. constructor.
  { apply IH; [|done]. intros kv' Hin. apply Hr. by right. }
  destruct (Hr kv) as (a' & Ha' & Ek & Hwf); [left|]. assert (a' = a) as -> by congruence.
  apply Forall_forall. intros x Hx. pose proof (proj1 (Forall_forall _ _) Hall) as Hall'.
  destruct (proj1 (list_elem_of_lookup _ _) Hx) as [i Hi].
  destruct (Forall2_lookup_r _ _ _ _ _ Hf Hi) as (kv' & Hkv & Hd).
  assert (kv' ∈ rows) as Hin by by eapply list_elem_of_lookup_2.
  destruct (Hr kv') as (x' & Hx' & Ek' & Hwf'); [by right|]. assert (x' = x) as -> by congruence.
  unfold key_desc. apply key_time; [done|done|]. rewrite <- Ek, <- Ek'. by apply Hall'.
Qed.

(** A tree whose rows are filed under time-ordered keys is read newest first. *)
Lemma newest_spec limit t :
  filed t -> exists l, newest limit t = Ok (take limit l) /\ l ≡ₚ contents t /\ StronglySorted (key_desc ts) l.
Proof.
  intros Hfl. destruct (tree_iter_contents t (filed_ok t Hfl)) as (rows & l & Hi & Hs & Hf & Hc & Hp).
  exists (reverse l). split_and!.
  - unfold newest. rewrite Hi. cbn [mbind Res_bind]. apply decode_rows_Forall2.
    apply Forall2_take. by apply Forall2_reverse.
  - by rewrite reverse_Permutation.
  - eapply (sorted_decoded (reverse rows)).
    + intros [k b] Hin. rewrite elem_of_reverse in Hin. rewrite Hp in Hin.
      apply elem_of_map_to_list in Hin. destruct (Hfl _ _ Hin) as (a & ? & ? & ?). eauto.
    + by apply Forall2_reverse.
    + by apply StronglySorted_reverse.
Qed.
End history.
End rows.

(** ** Keys *)

Lemma ts_key_time a b : in_u 64 a -> in_u 64 b -> key_le (ts_key a) (ts_key b) -> a <= b.
Proof.
  unfold key_le, ts_key. rewrite !as_of_bytes. intros Ha Hb H.
  apply (stamped_le (be_bytes 8 a) (be_bytes 8 b) [] []).
  - by rewrite !be_bytes_length.
  - intros. by apply be_bytes_mono.
  - by rewrite !app_nil_r.
Qed.

Lemma ts_uuid_key_time a b x y :
  in_u 64 a -> in_u 64 b -> key_le (ts_uuid_key a x) (ts_uuid_key b y) -> a <= b.
Proof.
  unfold key_le, ts_uuid_key. rewrite !(as_bytes_app (fmt_020 _)). intros Ha Hb.
  apply stamped_le.
  - by rewrite !fmt_020_length.
  - intros. by apply fmt_020_mono.
Qed.

Lemma key_le_refl k : key_le k k.
Proof. by destruct (total key_le k k). Qed.

(** Mail, group chat and bulletin keys name the time and the id. *)
Lemma ts_uuid_key_inj a b x y :
  in_u 64 a -> in_u 64 b -> ts_uuid_key a x = ts_uuid_key b y -> a = b /\ x = y.
Proof.
  intros Ha Hb E.
  assert (a = b) as ->.
  { apply Z.le_antisymm; eapply (ts_uuid_key_time _ _ _ _); try done;
      (rewrite E || rewrite <- E); apply key_le_refl. }
  split; [done|]. unfold ts_uuid_key in E.
  apply (inj (String.append (fmt_020 b))) in E. by apply (inj (String.append ":")) in E.
Qed.

Lemma ts_key_inj a b : in_u 64 a -> in_u 64 b -> ts_key a = ts_key b -> a = b.
Proof.
  intros Ha Hb E. apply Z.le_antisymm; apply ts_key_time; try done;
    (rewrite E || rewrite <- E); apply key_le_refl.
Qed.

(** ** The database invariant *)

Section storage_inv.
Context `{D : Sled} {DL : SledLaws D} {DO : SledOrder D} `{DB : !SledDb} {DBL : SledDbLaws DB}.
Context `{B : AppCodecs} {BL : AppCodecLaws B} `{P : E2EPrims}.
Implicit Types s : AppStorage.

Abbreviation view s n := (tree_view (db_view (app_db s) n)).

(** a row of tree [n] is filed under the key of the value it holds; a mail is
    marked as read with one byte *)
Definition row_filed (n k : string) (b : list byte) : Prop :=
  (forall p, n = chat_tree p -> exists m : ChatMessage,
     de b = Ok m /\ k = ts_key (ch_timestamp_ms m) /\ in_u 64 (ch_timestamp_ms m))
  /\ (forall g, n = groupchat_tree g -> exists m : ChatMessage,
     de b = Ok m /\ k = ts_uuid_key (ch_timestamp_ms m) (ch_id m) /\ in_u 64 (ch_timestamp_ms m))
  /\ (forall sc, n = bulletin_tree sc -> exists p : BulletinPost,
     de b = Ok p /\ k = bulletin_key p /\ bp_scope p = sc /\ utf8_valid (as_bytes sc) = true)
  /\ (n = "mail:inbox"%string \/ n = "mail:sent"%string -> exists m : MailMessage,
     de b = Ok m /\ k = ts_uuid_key (ml_timestamp_ms m) (ml_id m) /\ in_u 64 (ml_timestamp_ms m))
  /\ (n = "contacts:data"%string -> exists c : Contact, de b = Ok c /\ k = ct_peer_id c)
  /\ (n = "groups:data"%string -> exists g : Group, de b = Ok g /\ k = gr_id g)
  /\ (n = "scope_keys"%string -> exists x : ScopeKey, from_json b = Ok x /\ k = sk_scope x)
  /\ (n = "mail:read"%string -> b = [x01]).

Definition db_good s : Prop := forall n k b, view s n !! k = Some b -> row_filed n k b.

Lemma upd_tree_ok n f s t' :
  f (db_view (app_db s) n) = Ok t' ->
  upd_tree n f s = (mkApp (db_put (app_db s) n t') (at_rest_key s), Ok tt).
Proof.
  intros Hf. unfold upd_tree. erewrite ST_bind_Ok; [|reflexivity].
  rewrite (ST_bind_lift _ _ _ _ (db_open_view _ _)). by rewrite (ST_bind_lift _ _ _ _ Hf).
Qed.

Lemma with_tree_eq {A} n (f : Tree -> anyhow A) s : with_tree n f s = (s, f (db_view (app_db s) n)).
Proof.
  unfold with_tree. erewrite ST_bind_Ok; [|reflexivity].
  by rewrite (ST_bind_lift _ _ _ _ (db_open_view _ _)).
Qed.

Lemma upd_tree_keeps n f :
  (forall t t', f t = Ok t' -> forall k b, tree_view t' !! k = Some b ->
     tree_view t !! k = Some b \/ row_filed n k b) ->
  keeps db_good (upd_tree n f).
Proof.
  intros Hf s Hs. unfold upd_tree. erewrite ST_bind_Ok; [|reflexivity].
  rewrite (ST_bind_lift _ _ _ _ (db_open_view _ _)). unfold mbind, ST_bind, st_lift.
  destruct (f (db_view (app_db s) n)) as [t'|e] eqn:E; [|done].
  intros n' k b. cbn [fst st_put app_db]. rewrite db_put_view.
  destruct (decide (n = n')) as [<-|]; [|apply Hs]. intros Hk.
  destruct (Hf _ _ E k b Hk) as [Hold|]; [by apply Hs|done].
Qed.

Lemma put_row_inv {A} `{Ba : Bincode A} {La : BincodeLaws Ba} key (a : A) t t' :
  put_row key a t = Ok t' -> exists b, de b = Ok a /\ tree_view t' = <[key := b]> (tree_view t).
Proof.
  unfold put_row. destruct (ser_total a) as [b Hb]. rewrite Hb. cbn [mbind Res_bind]. intros Hi.
  destruct (tree_insert_view t key b) as (t2 & Hi2 & Hv). exists b.
  split; [by apply de_ser|]. congruence.
Qed.

Lemma put_row_ok {A} `{Ba : Bincode A} {La : BincodeLaws Ba} key (a : A) t :
  exists t' b, put_row key a t = Ok t' /\ de b = Ok a /\ tree_view t' = <[key := b]> (tree_view t).
Proof.
  unfold put_row. destruct (ser_total a) as [b Hb]. rewrite Hb. cbn [mbind Res_bind].
  destruct (tree_insert_view t key b) as (t2 & Hi2 & Hv). exists t2, b.
  split_and!; [done|by apply de_ser|done].
Qed.

Lemma put_keeps {A} `{Ba : Bincode A} {La : BincodeLaws Ba} n key (a : A) :
  (forall b, de b = Ok a -> row_filed n key b) -> keeps db_good (upd_tree n (put_row key a)).
Proof.
  intros Hg. apply upd_tree_keeps. intros t t' Ht k b Hk.
  destruct (put_row_inv _ _ _ _ Ht) as (b' & Hb' & Hv). rewrite Hv in Hk.
  apply lookup_insert_Some in Hk as [[<- <-]|[_ Hk]]; [right; by apply Hg|by left].
Qed.

Lemma remove_keeps n key : keeps db_good (upd_tree n (fun t => tree_remove t key)).
Proof.
  apply upd_tree_keeps. intros t t' Ht k b Hk. left.
  destruct (tree_remove_view t key) as (t2 & Hr & Hv). assert (t2 = t') as -> by congruence.
  rewrite Hv in Hk. by apply lookup_delete_Some in Hk as [_ Hk].
Qed.

Lemma raw_keeps n key bytes :
  (forall b, bytes = Ok b -> row_filed n key b) ->
  keeps db_good (upd_tree n (fun t => b ← bytes; tree_insert t key b)).
Proof.
  intros Hg. apply upd_tree_keeps. intros t t' Ht k b Hk.
  destruct bytes as [b0|e]; [|done]. cbn [mbind Res_bind] in Ht.
  destruct (tree_insert_view t key b0) as (t2 & Hi & Hv). assert (t2 = t') as -> by congruence.
  rewrite Hv in Hk. apply lookup_insert_Some in Hk as [[<- <-]|[_ Hk]]; [right; by apply Hg|by left].
Qed.

Lemma remove_keys_ok keys t :
  exists t', remove_keys keys t = (t', Ok tt)
    /\ forall k, tree_view t' !! k = if decide (k ∈ keys) then None else tree_view t !! k.
Proof.
  revert t. induction keys as [|k0 keys IH]; intros t; cbn [remove_keys].
  { exists t. split; [done|]. intros k. rewrite decide_False; [done|]. apply not_elem_of_nil. }
  destruct (tree_remove_view t k0) as (t1 & -> & Hv). destruct (IH t1) as (t' & -> & Ht').
  exists t'. split; [done|]. intros k. rewrite Ht', Hv.
  destruct (decide (k ∈ keys)) as [Hin|Hin].
  - rewrite decide_True; [done|]. by right.
  - destruct (decide (k = k0)) as [->|Hn].
    + rewrite lookup_delete_eq, decide_True; [done|]. left.
    + rewrite lookup_delete_ne by done. rewrite decide_False; [done|].
      by intros [?|?]%elem_of_cons.
Qed.

Lemma remove_from_ok n keys s :
  exists t', remove_from n keys s = (mkApp (db_put (app_db s) n t') (at_rest_key s), Ok tt)
    /\ forall k, tree_view t' !! k = if decide (k ∈ keys) then None else view s n !! k.
Proof.
  destruct (remove_keys_ok keys (db_view (app_db s) n)) as (t' & Hr & Hv). exists t'. split; [|done].
  unfold remove_from. erewrite ST_bind_Ok; [|reflexivity].
  rewrite (ST_bind_lift _ _ _ _ (db_open_view _ _)). by rewrite Hr.
Qed.

Lemma remove_from_keeps n keys : keeps db_good (remove_from n keys).
Proof.
  intros s Hs. destruct (remove_from_ok n keys s) as (t' & -> & Hv). intros n' k b. cbn [fst app_db].
  rewrite db_put_view. destruct (decide (n = n')) as [<-|]; [|apply Hs].
  rewrite Hv. destruct (decide (k ∈ keys)); [done|apply Hs].
Qed.

Lemma with_tree_keeps {A} n (f : Tree -> anyhow A) : keeps db_good (with_tree n f).
Proof. intros s Hs. by rewrite with_tree_eq. Qed.
End storage_inv.

#[export] Hint Resolve with_tree_keeps remove_keeps remove_from_keeps : keeps.

(** tree names of different kinds differ *)
Ltac tree_names :=
  unfold chat_tree, groupchat_tree, bulletin_tree in *;
  repeat match goal with
  | |- _ /\ _ => split
  | H : _ \/ _ |- _ => destruct H
  end; intros; try discriminate; try (destruct_or?; discriminate).

(** ** Every sequence of storage calls *)

Inductive StoreOp :=
| OSaveChat (peer : string) (m : ChatMessage)
| OSaveContact (c : Contact)
| ODeleteContact (peer : string)
| OUpsertContact (peer name : string) (st : ContactStatus) (now : Z)
| OSaveBulletin (p : BulletinPost)
| OPrune (now : Z)
| OSaveInbox (m : MailMessage)
| OSaveSent (m : MailMessage)
| OMarkRead (id : string)
| OSaveGroup (g : Group)
| ODeleteGroup (id : string)
| OPeerSeen (group peer : string)
| OSaveGroupChat (id : string) (m : ChatMessage)
| OKvSet (key value : string) (nonce : list byte)
| OKvDelete (key : string)
| OKvClear (app : string)
| OSaveScopeKey (k : ScopeKey)
| ODeleteScopeKey (scope : string).

(** what the Rust types guarantee of the arguments *)
Definition op_typed (o : StoreOp) : Prop :=
  match o with
  | OSaveChat _ m | OSaveGroupChat _ m => in_u 64 (ch_timestamp_ms m)
  | OSaveInbox m | OSaveSent m => in_u 64 (ml_timestamp_ms m)
  | OSaveBulletin p => in_u 64 (bp_expires_at_ms p) /\ utf8_valid (as_bytes (bp_scope p)) = true
  | _ => True
  end.

Section reach.
Context `{D : Sled} {DL : SledLaws D} {DO : SledOrder D} `{DB : !SledDb} {DBL : SledDbLaws DB}.
Context `{B : AppCodecs} {BL : AppCodecLaws B} `{P : E2EPrims}.
Implicit Types s : AppStorage.

Abbreviation view s n := (tree_view (db_view (app_db s) n)).

Definition run_op (o : StoreOp) : ST AppStorage unit :=
  match o with
  | OSaveChat p m => save_chat p m
  | OSaveContact c => save_contact c
  | ODeleteContact p => delete_contact p
  | OUpsertContact p n st now => st_ignore (upsert_contact p n st now)
  | OSaveBulletin p => save_bulletin p
  | OPrune now => st_ignore (prune_expired_bulletins now)
  | OSaveInbox m => save_mail_inbox m
  | OSaveSent m => save_mail_sent m
  | OMarkRead id => mark_read id
  | OSaveGroup g => save_group g
  | ODeleteGroup id => delete_group id
  | OPeerSeen g p => group_record_peer_seen g p
  | OSaveGroupChat id m => save_group_chat id m
  | OKvSet k v n => miniapp_set k v n
  | OKvDelete k => miniapp_delete k
  | OKvClear a => miniapp_clear_all_for_app a
  | OSaveScopeKey k => save_scope_key k
  | ODeleteScopeKey sc => delete_scope_key sc
  end.

Definition run_ops (ops : list StoreOp) s : AppStorage := foldl (fun s o => (run_op o s).1) s ops.

Lemma contacts_row_filed c b : de b = Ok c -> row_filed "contacts:data" (ct_peer_id c) b.
Proof. intros Hb. unfold row_filed. tree_names. by exists c. Qed.

Lemma groups_row_filed g b : de b = Ok g -> row_filed "groups:data" (gr_id g) b.
Proof. intros Hb. unfold row_filed. tree_names. by exists g. Qed.

Lemma prune_trees_keeps now names removed : keeps db_good (prune_trees now names removed).
Proof.
  revert removed. induction names as [|n names IH]; intros removed; cbn [prune_trees]; [apply keeps_ret|].
  keeps_auto.
Qed.

Lemma bulletin_row_filed p b :
  utf8_valid (as_bytes (bp_scope p)) = true ->
  de b = Ok p -> row_filed (bulletin_tree (bp_scope p)) (bulletin_key p) b.
Proof.
  intros Hu Hb. unfold row_filed. tree_names.
  match goal with H : _ = (_ +:+ ?sc)%string |- _ =>
    apply (inj (String.append "bulletin:")) in H; subst sc end.
  by exists p.
Qed.

Lemma run_op_keeps o : op_typed o -> keeps db_good (run_op o).
Proof.
  destruct o; cbn [op_typed run_op]; intros Ht.
  - apply put_keeps. intros b Hb. unfold row_filed. tree_names. by exists m.
  - apply put_keeps. apply contacts_row_filed.
  - apply remove_keeps.
  - apply keeps_ignore. unfold upsert_contact. apply keeps_bind; [apply with_tree_keeps|]. intros o.
    apply keeps_bind; [|intros; apply keeps_ret]. apply put_keeps. apply contacts_row_filed.
  - destruct Ht as [_ Hu]. apply put_keeps. intros b. by apply bulletin_row_filed.
  - apply keeps_ignore. unfold prune_expired_bulletins. apply keeps_bind; [apply keeps_get|].
    intros s. apply prune_trees_keeps.
  - apply put_keeps. intros b Hb. unfold row_filed. tree_names. by exists m.
  - apply put_keeps. intros b Hb. unfold row_filed. tree_names. by exists m.
  - apply (raw_keeps _ _ (Ok [x01])). intros b [= <-]. unfold row_filed. by tree_names.
  - apply put_keeps. apply groups_row_filed.
  - apply remove_keeps.
  - unfold group_record_peer_seen. apply keeps_bind; [apply with_tree_keeps|].
    intros [g|]; [|apply keeps_ret]. apply put_keeps. apply groups_row_filed.
  - apply put_keeps. intros b Hb. unfold row_filed. tree_names. by exists m.
  - unfold miniapp_set. apply keeps_bind; [apply keeps_get|]. intros s. apply raw_keeps.
    intros b _. unfold row_filed. tree_names.
  - apply remove_keeps.
  - unfold miniapp_clear_all_for_app. keeps_auto.
  - apply raw_keeps. intros b Hb. unfold row_filed. tree_names. exists k. split; [|done].
    by apply from_to_json.
  - apply remove_keeps.
Qed.

Lemma run_ops_good ops s : Forall op_typed ops -> db_good s -> db_good (run_ops ops s).
Proof.
  intros Ht. revert s. induction Ht as [|o ops Ho Ht IH]; intros s Hs; [done|].
  cbn. apply IH. by apply run_op_keeps.
Qed.

Lemma db_good_new k : db_good (mkApp db_new k).
Proof. intros n key b. cbn [app_db]. by rewrite db_view_new, tree_view_new, lookup_empty. Qed.

(** ** Histories *)

Lemma chat_filed s p : db_good s ->
  filed (fun m => ts_key (ch_timestamp_ms m)) (fun m => in_u 64 (ch_timestamp_ms m)) (db_view (app_db s) (chat_tree p)).
Proof. intros Hs k b Hk. by apply (proj1 (Hs _ _ _ Hk) p). Qed.

Lemma groupchat_filed s g : db_good s ->
  filed (fun m => ts_uuid_key (ch_timestamp_ms m) (ch_id m)) (fun m => in_u 64 (ch_timestamp_ms m))
    (db_view (app_db s) (groupchat_tree g)).
Proof. intros Hs k b Hk. by apply (proj1 (proj2 (Hs _ _ _ Hk)) g). Qed.

Lemma mail_filed s n : db_good s -> n = "mail:inbox"%string \/ n = "mail:sent"%string ->
  filed (fun m => ts_uuid_key (ml_timestamp_ms m) (ml_id m)) (fun m => in_u 64 (ml_timestamp_ms m))
    (db_view (app_db s) n).
Proof. intros Hs Hn k b Hk. destruct (Hs _ _ _ Hk) as (_ & _ & _ & Hm & _). by apply Hm. Qed.

(** what a history call returns: the [limit] newest of all stored values *)
Definition newest_of {A} (ts : A -> Z) (limit : nat) (stored : list A) (r : anyhow (list A)) : Prop :=
  exists l, r = Ok (take limit l) /\ l ≡ₚ stored /\ StronglySorted (key_desc ts) l.

(** Histories: after any storage calls, the chat, group chat, inbox and sent
    histories never fail and return the [limit] newest stored messages, newest
    first: key order in the database is time order. *)
Theorem histories_newest_first (ops : list StoreOp) (key : option (list byte)) (peer group : string) (limit : nat) :
  Forall op_typed ops ->
  let s := run_ops ops (mkApp db_new key) in
  newest_of ch_timestamp_ms limit (contents (db_view (app_db s) (chat_tree peer))) (chat_history peer limit s).2
  /\ newest_of ch_timestamp_ms limit (contents (db_view (app_db s) (groupchat_tree group))) (group_chat_history group limit s).2
  /\ newest_of ml_timestamp_ms limit (contents (db_view (app_db s) "mail:inbox")) (inbox limit s).2
  /\ newest_of ml_timestamp_ms limit (contents (db_view (app_db s) "mail:sent")) (sent limit s).2.
Proof.
  intros Ht s. assert (db_good s) as Hs by (apply run_ops_good; [done|apply db_good_new]).
  unfold chat_history, group_chat_history, inbox, sent. rewrite !with_tree_eq. unfold newest_of. cbn [snd].
  split_and!.
  - eapply newest_spec; [|by apply chat_filed]. cbn. intros. by apply ts_key_time.
  - eapply newest_spec; [|by apply groupchat_filed]. cbn. intros. by eapply ts_uuid_key_time.
  - eapply newest_spec; [|apply mail_filed; auto]. cbn. intros. by eapply ts_uuid_key_time.
  - eapply newest_spec; [|apply mail_filed; auto]. cbn. intros. by eapply ts_uuid_key_time.
Qed.

(** Mail is never overwritten by other mail: saving one adds its row, and rows
    of mails with another time or id stay. *)
Theorem mail_is_kept s (m m' : MailMessage) :
  in_u 64 (ml_timestamp_ms m) -> in_u 64 (ml_timestamp_ms m') ->
  db_good s -> m' ∈ contents (db_view (app_db s) "mail:inbox") ->
  (ml_timestamp_ms m, ml_id m) ≠ (ml_timestamp_ms m', ml_id m') ->
  exists s', save_mail_inbox m s = (s', Ok tt)
    /\ m ∈ contents (db_view (app_db s') "mail:inbox") /\ m' ∈ contents (db_view (app_db s') "mail:inbox").
Proof.
  intros Hm Hm' Hs Hin Hne.
  destruct (put_row_ok (ts_uuid_key (ml_timestamp_ms m) (ml_id m)) m (db_view (app_db s) "mail:inbox"))
    as (t' & b & Hp & Hb & Hv).
  eexists. split; [by apply upd_tree_ok|]. cbn [app_db]. rewrite db_put_view, decide_True by done.
  split; apply elem_of_contents; rewrite Hv.
  - exists (ts_uuid_key (ml_timestamp_ms m) (ml_id m)), b. by rewrite lookup_insert_eq.
  - apply elem_of_contents in Hin as (k & b' & Hk & Hd). exists k, b'. split; [|done].
    rewrite lookup_insert_ne; [done|]. intros E.
    destruct (mail_filed s "mail:inbox" Hs (or_introl eq_refl) k b' Hk) as (m2 & Hd2 & Ek & _).
    assert (m2 = m') as -> by congruence. rewrite Ek in E.
    apply ts_uuid_key_inj in E as [? ?]; [|done|done]. congruence.
Qed.

(** A direct chat message is lost when another one carries the same
    millisecond: the chat tree is keyed by the time stamp alone, unlike mail and
    group chat. *)
Theorem chat_same_millisecond_overwrites s peer (m1 m2 : ChatMessage) :
  ch_timestamp_ms m1 = ch_timestamp_ms m2 ->
  let s2 := (save_chat peer m2 (save_chat peer m1 s).1).1 in
  (save_chat peer m1 s).2 = Ok tt /\ (save_chat peer m2 (save_chat peer m1 s).1).2 = Ok tt
  /\ get_row (ts_key (ch_timestamp_ms m1)) (db_view (app_db s2) (chat_tree peer)) = Ok (Some m2)
  /\ dom (view s2 (chat_tree peer)) = {[ts_key (ch_timestamp_ms m1)]} ∪ dom (view s (chat_tree peer)).
Proof.
  intros E. unfold save_chat.
  destruct (put_row_ok (ts_key (ch_timestamp_ms m1)) m1 (db_view (app_db s) (chat_tree peer)))
    as (t1 & b1 & Hp1 & Hb1 & Hv1).
  rewrite (upd_tree_ok _ _ _ _ Hp1). cbn [fst snd]. set (s1 := mkApp _ _).
  assert (db_view (app_db s1) (chat_tree peer) = t1) as E1.
  { cbn [s1 app_db]. by rewrite db_put_view, decide_True. }
  destruct (put_row_ok (ts_key (ch_timestamp_ms m2)) m2 (db_view (app_db s1) (chat_tree peer)))
    as (t2 & b2 & Hp2 & Hb2 & Hv2).
  rewrite (upd_tree_ok _ _ _ _ Hp2). cbn [fst snd app_db]. rewrite db_put_view, decide_True by done.
  split_and!; [done|done| |].
  - unfold get_row. rewrite tree_get_view, Hv2, E, lookup_insert_eq. cbn. by rewrite Hb2.
  - rewrite Hv2, E1, Hv1, <- E, !dom_insert_L. set_solver.
Qed.
End reach.
