(* ===== verification/AppStorageProps.v ===== *)
(** * Pruning, contacts, invites and mini-app values

    The remaining properties of the application database. *)

From S2P Require Import Prelude External Text Instances Host E2E AtRest AppStorage AppStorageTheorems.

Open Scope Z_scope.

Lemma StronglySorted_filter {A} (R : relation A) (Q : A -> Prop) `{!forall x, Decision (Q x)} l :
  StronglySorted R l -> StronglySorted R (filter Q l).
Proof.
  induction 1 as [|x l Hl IH Hx]; [constructor|]. rewrite filter_cons.
  destruct (decide (Q x)); [|done]. constructor; [done|].
  apply Forall_forall. intros y Hy. apply list_elem_of_filter in Hy as [_ Hy].
  by apply (proj1 (Forall_forall _ _) Hx).
Qed.

Section prune.
Context `{D : Sled} {DL : SledLaws D} {DO : SledOrder D} `{DB : !SledDb} {DBL : SledDbLaws DB}.
Context `{B : AppCodecs} {BL : AppCodecLaws B} `{P : E2EPrims}.
Implicit Types (s : AppStorage) (t : Tree).

Abbreviation view s n := (tree_view (db_view (app_db s) n)).

Definition expired (now : Z) (b : list byte) : bool :=
  match de (A := BulletinPost) b with Ok p => bool_decide (bp_expires_at_ms p < now) | Err _ => false end.

Lemma expired_keys_spec now t k :
  k ∈ expired_keys now t <-> exists b, tree_view t !! k = Some b /\ expired now b = true.
Proof.
  unfold expired_keys. destruct (tree_iter_view t) as (rows & -> & Hp). rewrite list_elem_of_omap.
  unfold expired. split.
  - intros ([k' b] & Hin & H). rewrite Hp in Hin. apply elem_of_map_to_list in Hin. cbn in H.
    destruct (de b) as [p|] eqn:E; [|done]. destruct (decide _) as [Hx|] in H; [|done].
    injection H as ->. exists b. rewrite E. split; [done|]. by apply bool_decide_eq_true.
  - intros (b & Hk & H). exists (k, b). rewrite Hp. split; [by apply elem_of_map_to_list|]. cbn.
    destruct (de b) as [p|]; [|done]. apply bool_decide_eq_true in H. by rewrite decide_True.
Qed.

Definition is_bulletin (n : string) : bool := utf8_valid (as_bytes n) && starts_with "bulletin:" n.

(** what one tree loses *)
Definition doomed_keys (now : Z) s (n : string) : list string :=
  if is_bulletin n then expired_keys now (db_view (app_db s) n) else [].

Lemma prune_step now n names removed s :
  exists s1, prune_trees now (n :: names) removed s
    = prune_trees now names (removed + Z.of_nat (length (doomed_keys now s n))) s1
    /\ at_rest_key s1 = at_rest_key s
    /\ (forall n', n' ≠ n -> db_view (app_db s1) n' = db_view (app_db s) n')
    /\ forall k, view s1 n !! k = if decide (k ∈ doomed_keys now s n) then None else view s n !! k.
Proof.
  cbn [prune_trees]. unfold doomed_keys, is_bulletin, from_utf8.
  assert (forall k, view s n !! k = if decide (k ∈ ([] : list string)) then None else view s n !! k) as Hid.
  { intros k. rewrite decide_False; [done|apply not_elem_of_nil]. }
  destruct (utf8_valid (as_bytes n)); cbn [andb];
    [|exists s; split_and!; try done; cbn; by rewrite Z.add_0_r].
  rewrite of_as_bytes. destruct (starts_with "bulletin:" n); cbn [negb];
    [|exists s; split_and!; try done; cbn; by rewrite Z.add_0_r].
  erewrite ST_bind_Ok; [|reflexivity]. rewrite (ST_bind_lift _ _ _ _ (db_open_view _ _)).
  destruct (remove_from_ok n (expired_keys now (db_view (app_db s) n)) s) as (t' & Hr & Hv).
  rewrite (ST_bind_Ok _ _ _ _ _ Hr). eexists. split; [reflexivity|]. cbn [app_db at_rest_key].
  split_and!; [done| |].
  - intros n' Hn. by rewrite db_put_view, decide_False by done.
  - intros k. by rewrite db_put_view, decide_True, Hv.
Qed.

Lemma prune_trees_spec now names removed s :
  NoDup names ->
  exists s', prune_trees now names removed s
    = (s', Ok (removed + sumZ (fun n => Z.of_nat (length (doomed_keys now s n))) names))
    /\ at_rest_key s' = at_rest_key s
    /\ forall n k, view s' n !! k =
         if decide (n ∈ names /\ k ∈ doomed_keys now s n) then None else view s n !! k.
Proof.
  intros Hnd. revert removed s. induction Hnd as [|n names Hn Hnd IH]; intros removed s.
  { exists s. split_and!; [cbn; by rewrite Z.add_0_r|done|]. intros n k.
    rewrite decide_False; [done|]. by intros [?%not_elem_of_nil _]. }
  destruct (prune_step now n names removed s) as (s1 & -> & Hk1 & Hoth & Hv1).
  destruct (IH (removed + Z.of_nat (length (doomed_keys now s n))) s1) as (s' & -> & Hk' & Hv').
  assert (forall n', n' ≠ n -> doomed_keys now s1 n' = doomed_keys now s n') as Hd.
  { intros n' Hn'. unfold doomed_keys. by rewrite Hoth. }
  exists s'. split_and!; [|congruence|].
  - do 2 f_equal. cbn [sumZ foldr]. rewrite <- Z.add_assoc. do 2 f_equal.
    apply sumZ_ext. intros n' Hin. rewrite Hd; [done|]. by intros ->.
  - intros n' k. rewrite Hv'. destruct (decide (n' = n)) as [->|Hne].
    + rewrite decide_False by (by intros [? _]). rewrite Hv1.
      destruct (decide (k ∈ doomed_keys now s n)).
      * rewrite decide_True; [done|]. split; [left|done].
      * rewrite decide_False; [done|]. by intros [_ ?].
    + rewrite Hd, Hoth by done. destruct (decide (n' ∈ names /\ _)) as [[Hin ?]|Hno].
      * rewrite decide_True; [done|]. split; [by right|done].
      * rewrite decide_False; [done|]. intros [[?|?]%elem_of_cons ?]; [done|]. by apply Hno.
Qed.

Lemma utf8_bulletin sc : utf8_valid (as_bytes sc) = true -> is_bulletin (bulletin_tree sc) = true.
Proof.
  intros Hu. unfold is_bulletin, bulletin_tree. rewrite as_bytes_app. apply andb_true_iff. split.
  - exact Hu.
  - apply starts_with_true. by exists sc.
Qed.

(** the posts of a scope, from the rows of its tree in key order *)
Lemma listed_posts rows :
  (forall kv, kv ∈ rows -> exists p : BulletinPost, de kv.2 = Ok p) ->
  decode_rows rows = Ok (omap (fun kv => of_res (de (A := BulletinPost) kv.2)) rows).
Proof.
  intros H. destruct (rows_decode rows H) as [l Hl].
  by rewrite (decodes_omap _ _ Hl), (decode_rows_Forall2 _ _ Hl).
Qed.

Lemma filter_pruned now (rows : list (string * list byte)) :
  filter (fun p => now <= bp_expires_at_ms p)
    (omap (fun kv => of_res (de (A := BulletinPost) kv.2)) (filter (fun kv => expired now kv.2 = false) rows))
  = filter (fun p => now <= bp_expires_at_ms p) (omap (fun kv => of_res (de (A := BulletinPost) kv.2)) rows).
Proof.
  induction rows as [|[k b] rows IH]; [done|]. rewrite filter_cons. cbn [snd].
  destruct (decide (expired now b = false)) as [Hx|Hx]; cbn [omap list_omap snd].
  - destruct (of_res (de b)) as [p|]; [|done]. by rewrite !filter_cons, IH.
  - unfold expired in Hx. destruct (de b) as [p|]; cbn [of_res]; [|done].
    rewrite filter_cons, decide_False; [done|]. intros Hle. apply Hx. apply bool_decide_eq_false. lia.
Qed.

(** Key order determines the iteration: a tree with part of the rows iterates
    over that part in the same order. *)
Lemma iter_filtered now t t' rows rows' :
  (forall k, tree_view t' !! k = match tree_view t !! k with
                                 | Some b => if expired now b then None else Some b
                                 | None => None end) ->
  tree_iter t = Ok rows -> tree_iter t' = Ok rows' ->
  rows' = filter (fun kv => expired now kv.2 = false) rows.
Proof.
  intros Hv Hi Hi'. pose proof (tree_iter_sorted _ _ Hi) as Hs. pose proof (tree_iter_sorted _ _ Hi') as Hs'.
  destruct (tree_iter_view t) as (r & Hr & Hp). assert (r = rows) as -> by congruence.
  destruct (tree_iter_view t') as (r & Hr' & Hp'). assert (r = rows') as -> by congruence.
  assert (forall kv, kv ∈ rows' <-> kv ∈ rows /\ expired now kv.2 = false) as Hin.
  { intros [k b]. rewrite Hp, Hp', !elem_of_map_to_list, Hv. cbn.
    destruct (tree_view t !! k) as [b'|]; [|by split; [|intros [? _]]].
    destruct (expired now b') eqn:E; split; [done| | |]; [intros [[= ->] H']; congruence| |by intros [[= ->] _]].
    by intros [= ->]. }
  eapply (StronglySorted_unique_strong row_le); [|done| |].
  - intros [k b] [k' b'] H1 H2 Hle Hge. assert (k = k') as <- by (by apply (anti_symm key_le)).
    apply Hin in H1 as [H1 _]. apply list_elem_of_filter in H2 as [_ H2].
    rewrite Hp in H1, H2. apply elem_of_map_to_list in H1, H2. congruence.
  - by apply StronglySorted_filter.
  - apply NoDup_Permutation.
    + rewrite Hp'. apply NoDup_map_to_list.
    + apply NoDup_filter. rewrite Hp. apply NoDup_map_to_list.
    + intros kv. rewrite Hin, list_elem_of_filter. tauto.
Qed.

Lemma bulletin_rows s sc kv :
  db_good s -> kv ∈ map_to_list (view s (bulletin_tree sc)) -> exists p : BulletinPost, de kv.2 = Ok p.
Proof.
  intros Hs Hin. destruct kv as [k b]. apply elem_of_map_to_list in Hin.
  destruct (Hs _ _ _ Hin) as (_ & _ & Hb & _). destruct (Hb sc eq_refl) as (p & Hp & _). eauto.
Qed.

Lemma bulletins_eq s sc now rows :
  db_good s -> tree_iter (db_view (app_db s) (bulletin_tree sc)) = Ok rows ->
  (bulletins_for_scope sc now s).2
  = Ok (sort_by (key_desc bp_timestamp_ms) (filter (fun p => now <= bp_expires_at_ms p)
          (omap (fun kv => of_res (de (A := BulletinPost) kv.2)) rows))).
Proof.
  intros Hs Hi. unfold bulletins_for_scope. rewrite with_tree_eq. cbn [snd]. rewrite Hi. cbn [mbind Res_bind].
  rewrite listed_posts; [done|]. intros kv Hin.
  destruct (tree_iter_view (db_view (app_db s) (bulletin_tree sc))) as (r & Hr & Hp).
  assert (r = rows) as -> by congruence. rewrite Hp in Hin. by eapply bulletin_rows.
Qed.

Lemma view_bulletin_nonempty s sc k b :
  db_good s -> view s (bulletin_tree sc) !! k = Some b ->
  bulletin_tree sc ∈ db_tree_names (app_db s) /\ is_bulletin (bulletin_tree sc) = true.
Proof.
  intros Hs Hk. split.
  - apply db_names_complete. intros E. by rewrite E, lookup_empty in Hk.
  - destruct (Hs _ _ _ Hk) as (_ & _ & Hb & _). destruct (Hb sc eq_refl) as (p & _ & _ & _ & Hu).
    by apply utf8_bulletin.
Qed.

(** Pruning is exact and invisible: on any database the calls can build it
    succeeds and reports the number of rows removed; of every bulletin tree it
    removes exactly the expired posts, every other tree is untouched, and what
    a reader of any scope is shown stays the same, in the same order. *)
Theorem prune_exact s (now : Z) :
  db_good s ->
  exists s', prune_expired_bulletins now s
      = (s', Ok (sumZ (fun n => Z.of_nat (length (doomed_keys now s n))) (db_tree_names (app_db s))))
  /\ (forall sc k, view s' (bulletin_tree sc) !! k = match view s (bulletin_tree sc) !! k with
                     | Some b => if expired now b then None else Some b
                     | None => None end)
  /\ (forall n k, is_bulletin n = false -> view s' n !! k = view s n !! k)
  /\ (forall sc, (bulletins_for_scope sc now s').2 = (bulletins_for_scope sc now s).2).
Proof.
  intros Hs. destruct (prune_trees_spec now (db_tree_names (app_db s)) 0 s (db_names_nodup _))
    as (s' & Hr & Hk & Hv).
  assert (forall sc k, view s' (bulletin_tree sc) !! k = match view s (bulletin_tree sc) !! k with
                     | Some b => if expired now b then None else Some b
                     | None => None end) as Hb.
  { intros sc k. rewrite Hv. destruct (view s (bulletin_tree sc) !! k) as [b|] eqn:E.
    - destruct (view_bulletin_nonempty s sc k b Hs E) as [Hin Hu]. unfold doomed_keys. rewrite Hu.
      destruct (expired now b) eqn:Ex.
      + rewrite decide_True; [done|]. split; [done|]. apply expired_keys_spec. eauto.
      + rewrite decide_False; [done|]. rewrite expired_keys_spec. intros [_ (b' & Hk' & Ex')]. congruence.
    - by destruct (decide _). }
  exists s'. split_and!; [exact Hr|exact Hb| |].
  - intros n k Hn. rewrite Hv. unfold doomed_keys. rewrite Hn, decide_False; [done|].
    by intros [_ ?%not_elem_of_nil].
  - intros sc. assert (db_good s') as Hs'.
    { intros n k b. rewrite Hv. destruct (decide _); [done|apply Hs]. }
    destruct (tree_iter_view (db_view (app_db s) (bulletin_tree sc))) as (rows & Hi & _).
    destruct (tree_iter_view (db_view (app_db s') (bulletin_tree sc))) as (rows' & Hi' & _).
    rewrite (bulletins_eq s' sc now rows'), (bulletins_eq s sc now rows) by done.
    rewrite (iter_filtered now _ _ _ _ (Hb sc) Hi Hi'). by rewrite filter_pruned.
Qed.
End prune.

(** ** Contacts *)

Section contacts.
Context `{D : Sled} {DL : SledLaws D} {DO : SledOrder D} `{DB : !SledDb} {DBL : SledDbLaws DB}.
Context `{B : AppCodecs} {BL : AppCodecLaws B} `{P : E2EPrims}.
Implicit Types s : AppStorage.

Abbreviation view s n := (tree_view (db_view (app_db s) n)).

(** the contact list as a map *)
Definition contacts_of s : gmap string Contact := typed (db_view (app_db s) "contacts:data").

Lemma contacts_ok s : db_good s -> tree_ok (A := Contact) (db_view (app_db s) "contacts:data").
Proof.
  intros Hs k b Hk. destruct (Hs _ _ _ Hk) as (_ & _ & _ & _ & Hc & _).
  destruct (Hc eq_refl) as (c & Hd & _). eauto.
Qed.

Lemma contacts_keyed s k c : db_good s -> contacts_of s !! k = Some c -> ct_peer_id c = k.
Proof.
  intros Hs. unfold contacts_of, typed. rewrite lookup_omap.
  destruct (view s "contacts:data" !! k) as [b|] eqn:E; [|done]. cbn.
  destruct (Hs _ _ _ E) as (_ & _ & _ & _ & Hc & _). destruct (Hc eq_refl) as (c' & Hd & Hk).
  rewrite Hd. cbn. by intros [= <-].
Qed.

Lemma contact_by_id_eq s p : db_good s -> contact_by_id p s = (s, Ok (contacts_of s !! p)).
Proof.
  intros Hs. unfold contact_by_id. rewrite with_tree_eq. f_equal. unfold get_row.
  pose proof (typed_get (A := Contact) _ p (contacts_ok s Hs)) as H. fold (contacts_of s) in H.
  destruct (contacts_of s !! p) as [c|]; [destruct H as (b & -> & Hd); cbn; by rewrite Hd|by rewrite H].
Qed.

Lemma save_contact_eq s c :
  db_good s -> exists s', save_contact c s = (s', Ok tt) /\ contacts_of s' = <[ct_peer_id c := c]> (contacts_of s)
    /\ (forall n, n ≠ "contacts:data"%string -> db_view (app_db s') n = db_view (app_db s) n) /\ db_good s'.
Proof.
  intros Hs. unfold save_contact.
  destruct (put_row_ok (ct_peer_id c) c (db_view (app_db s) "contacts:data")) as (t' & b & Hp & Hd & Hv).
  eexists. split; [by apply upd_tree_ok|]. split_and!.
  - unfold contacts_of. cbn [app_db]. rewrite db_put_view, decide_True by done. unfold typed. rewrite Hv.
    apply omap_insert_Some. by rewrite Hd.
  - intros n Hn. cbn [app_db]. by rewrite db_put_view, decide_False by congruence.
  - pose proof (run_op_keeps (OSaveContact c) I s Hs) as H. cbn [run_op] in H. unfold save_contact in H.
    by rewrite (upd_tree_ok _ _ _ _ Hp) in H.
Qed.

(** the contact that [upsert_contact] stores *)
Definition upserted (old : option Contact) (peer name : string) (st : ContactStatus) (now : Z) : Contact :=
  match old with
  | Some c => mkContact peer (if decide (name = ""%string) then ct_display_name c else name) (ct_added_at_ms c) st
  | None => mkContact peer name now st
  end.

Lemma upsert_eq s (peer name : string) (st : ContactStatus) (now : Z) :
  db_good s ->
  let c := upserted (contacts_of s !! peer) peer name st now in
  exists s1, upsert_contact peer name st now s = (s1, Ok c)
    /\ contacts_of s1 = <[peer := c]> (contacts_of s)
    /\ (forall n, n ≠ "contacts:data"%string -> db_view (app_db s1) n = db_view (app_db s) n) /\ db_good s1.
Proof.
  intros Hs c. unfold upsert_contact. rewrite (ST_bind_Ok _ _ _ _ _ (contact_by_id_eq s peer Hs)).
  assert (match contacts_of s !! peer with
          | Some existing => mkContact (ct_peer_id existing)
              (if decide (name = ""%string) then ct_display_name existing else name) (ct_added_at_ms existing) st
          | None => contact_new peer name st now end = c) as ->.
  { unfold c, upserted. destruct (contacts_of s !! peer) as [x|] eqn:E; [|done].
    by rewrite (contacts_keyed s peer x Hs E). }
  destruct (save_contact_eq s c Hs) as (s1 & Hsv & Hc & Ho & Hg). exists s1.
  rewrite (ST_bind_Ok _ _ _ _ _ Hsv). split_and!; [done| |done|done]. rewrite Hc.
  f_equal. unfold c, upserted. by destruct (contacts_of s !! peer).
Qed.

(** Contacts form a map by peer id: [upsert_contact] sets exactly the entry of
    that peer, keeping the time it was added and, for an empty name, the name
    it had; [contact_by_id] reads the map; [delete_contact] removes the entry. *)
Theorem contacts_are_a_map s (peer name : string) (st : ContactStatus) (now : Z) :
  db_good s ->
  let c := upserted (contacts_of s !! peer) peer name st now in
  exists s1 s2,
    upsert_contact peer name st now s = (s1, Ok c)
    /\ contacts_of s1 = <[peer := c]> (contacts_of s)
    /\ (forall q, contact_by_id q s1 = (s1, Ok (<[peer := c]> (contacts_of s) !! q)))
    /\ delete_contact peer s1 = (s2, Ok tt) /\ contacts_of s2 = delete peer (contacts_of s).
Proof.
  intros Hs c. destruct (upsert_eq s peer name st now Hs) as (s1 & Hu & Hc1 & _ & Hg1). fold c in Hu, Hc1.
  destruct (typed_remove (A := Contact) (db_view (app_db s1) "contacts:data") peer) as (t' & Ht & Hty & _).
  exists s1. eexists. split_and!; [done|done| | |].
  - intros q. by rewrite contact_by_id_eq, Hc1.
  - unfold delete_contact. by apply upd_tree_ok.
  - unfold contacts_of at 1. cbn [app_db]. rewrite db_put_view, decide_True by done. rewrite Hty.
    fold (contacts_of s1). by rewrite Hc1, delete_insert_eq.
Qed.
End contacts.

(** ** Invites *)

Section invites.
Context `{C : Crypto} `{CL : !CryptoLaws C} `{J : Json} `{JL : !JsonLaws J}.

Lemma invite_key_ok v (key : list byte) :
  jas_str (jget v "key") = Some (hex_encode key) -> length key = 32%nat -> invite_key v = Ok key.
Proof.
  intros Hv Hl. unfold invite_key. rewrite Hv, hex_decode_encode. unfold to_key.
  by rewrite decide_True.
Qed.

(** Invites round trip: importing an exported scope or group invite gives the
    same scope or id, name and 32-byte key, with an empty member list and the
    time of the import. *)
Theorem invites_roundtrip (k : ScopeKey) (g : Group) (now : Z) :
  length (sk_key k) = 32%nat -> length (gr_key g) = 32%nat ->
  scope_from_invite (scope_export_invite k) now = Ok (mkScopeKey (sk_scope k) (sk_display_name k) (sk_key k) now)
  /\ group_from_invite (group_export_invite g) now = Ok (mkGroup (gr_id g) (gr_name g) (gr_key g) [] now)
  /\ (exists e, scope_from_invite (group_export_invite g) now = Err e).
Proof.
  intros Hk Hg. unfold scope_from_invite, scope_export_invite, group_from_invite, group_export_invite.
  rewrite !json_from_to. cbn [mbind Res_bind]. split_and!.
  - rewrite decide_False by (by intros H; apply H). by rewrite (invite_key_ok _ (sk_key k)).
  - by rewrite (invite_key_ok _ (gr_key g)).
  - rewrite decide_True; [by eexists|]. done.
Qed.
End invites.

(** ** Mini-app values *)

Lemma lead3_3 a b c : utf8_3 a b c = lead3 a b && is_cont c.
Proof. done. Qed.

Lemma lead4_4 a b c d : utf8_4 a b c d = lead4 a b && is_cont c && is_cont d.
Proof. done. Qed.

(** [from_utf8_lossy] is the identity on valid UTF-8. *)
Lemma utf8_lossy_valid l : utf8_valid l = true -> utf8_lossy l = l.
Proof.
  induction l as [l IH] using (induction_ltof1 _ (@length _)). unfold ltof in IH.
  destruct l as [|a r]; [done|]. cbn [utf8_valid utf8_lossy].
  destruct (byte_in 0 127 a); [intros H; f_equal; apply IH; [cbn; lia|done]|].
  destruct r as [|b r]; [done|]. destruct (utf8_2 a b).
  { intros H. do 2 f_equal. apply IH; [cbn; lia|done]. }
  destruct r as [|c r]; [done|]. rewrite lead3_3.
  destruct (lead3 a b) eqn:E3; cbn [andb orb negb].
  - destruct (is_cont c) eqn:Ec; cbn [negb andb].
    + intros H. do 3 f_equal. apply IH; [cbn; lia|done].
    + destruct r as [|d r]; [done|]. by rewrite lead4_4, Ec, andb_false_r.
  - destruct r as [|d r]; [done|]. rewrite lead4_4. destruct (lead4 a b), (is_cont c), (is_cont d); try done.
    cbn [andb negb]. intros H. do 4 f_equal. apply IH; [cbn; lia|done].
Qed.

Section kv.
Context `{D : Sled} {DL : SledLaws D} {DO : SledOrder D} `{DB : !SledDb} {DBL : SledDbLaws DB}.
Context `{B : AppCodecs} `{P : E2EPrims} {PL : AeadLaws P}.
Hypothesis hkdf_ok : forall ikm info, exists k, hkdf ikm info = Ok k.
Implicit Types s : AppStorage.

Abbreviation kv s := (tree_view (db_view (app_db s) "miniapp_storage")).

Lemma encode_decode_value s key value nonce :
  utf8_valid (as_bytes value) = true -> length nonce = NONCE_LEN ->
  exists b, encode_miniapp_value key value nonce s = Ok b /\ decode_miniapp_value key b s = Ok value.
Proof.
  intros Hu Hn. unfold encode_miniapp_value, decode_miniapp_value.
  destruct (at_rest_key s) as [m|].
  - unfold encrypt_value, derive_record_key.
    destruct (hkdf_ok m (as_bytes ("mycelium-miniapp-kv:" +:+ key))) as [k Hk]. rewrite Hk. cbn [mbind Res_bind].
    destruct (aead_encrypt_total k nonce (as_bytes value)) as [ct Hc]. rewrite Hc. cbn [mbind Res_bind].
    eexists. split; [reflexivity|]. unfold decrypt_value, derive_record_key. rewrite take_app_length, drop_app_length.
    rewrite decide_False by (by intros H; apply H). rewrite length_app, (aead_tag _ _ _ _ Hc), Hn.
    rewrite (proj2 (Nat.ltb_ge _ _)) by lia. rewrite Hk. cbn [mbind Res_bind].
    rewrite <- Hn, take_app_length, drop_app_length, (aead_decrypt_encrypt _ _ _ _ Hc).
    unfold from_utf8. rewrite Hu. by rewrite of_as_bytes.
  - eexists. split; [reflexivity|]. unfold from_utf8_lossy. by rewrite utf8_lossy_valid, of_as_bytes.
Qed.

(** Mini-app values round trip, encrypted at rest or not: a stored value is
    read back, a deleted key is absent, and neither call touches another key. *)
Theorem miniapp_value_roundtrip s (key value : string) (nonce : list byte) :
  utf8_valid (as_bytes value) = true -> length nonce = NONCE_LEN ->
  exists s1 s2,
    miniapp_set key value nonce s = (s1, Ok tt) /\ miniapp_get key s1 = (s1, Ok (Some value))
    /\ miniapp_delete key s1 = (s2, Ok tt) /\ miniapp_get key s2 = (s2, Ok None)
    /\ forall k, k ≠ key -> kv s1 !! k = kv s !! k /\ kv s2 !! k = kv s !! k.
Proof.
  intros Hu Hn. destruct (encode_decode_value s key value nonce Hu Hn) as (b & He & Hd).
  destruct (tree_insert_view (db_view (app_db s) "miniapp_storage") key b) as (t1 & Hi & Hv1).
  set (s1 := mkApp (db_put (app_db s) "miniapp_storage" t1) (at_rest_key s)).
  assert (db_view (app_db s1) "miniapp_storage" = t1) as E1 by (cbn [s1 app_db]; by rewrite db_put_view, decide_True).
  destruct (tree_remove_view t1 key) as (t2 & Hr & Hv2).
  set (s2 := mkApp (db_put (app_db s1) "miniapp_storage" t2) (at_rest_key s)).
  assert (db_view (app_db s2) "miniapp_storage" = t2) as E2 by (cbn [s2 app_db]; by rewrite db_put_view, decide_True).
  exists s1, s2. split_and!.
  - unfold miniapp_set. erewrite ST_bind_Ok; [|reflexivity]. apply upd_tree_ok. by rewrite He.
  - unfold miniapp_get. erewrite ST_bind_Ok; [|reflexivity]. rewrite with_tree_eq, E1, tree_get_view, Hv1, lookup_insert_eq.
    cbn [mbind Res_bind]. change (decode_miniapp_value key b s1) with (decode_miniapp_value key b s). by rewrite Hd.
  - unfold miniapp_delete. apply (upd_tree_ok _ _ s1). by rewrite E1.
  - unfold miniapp_get. erewrite ST_bind_Ok; [|reflexivity]. by rewrite with_tree_eq, E2, tree_get_view, Hv2, lookup_delete_eq.
  - intros k Hk. rewrite E1, E2, Hv2, Hv1. split; [by rewrite lookup_insert_ne|].
    rewrite lookup_delete_ne by done. by rewrite lookup_insert_ne.
Qed.

(** Values of different apps: the prefix of an app id without a colon is a
    prefix of no other such app's keys. *)
Definition colon : Ascii.ascii := Ascii.ascii_of_nat 58.

Lemma app_prefix_inj a b k :
  has_char colon a = false -> has_char colon b = false ->
  starts_with (app_prefix a) (app_prefix b +:+ k) = true -> a = b.
Proof.
  intros Ha Hb [r Hr]%starts_with_true. unfold app_prefix in Hr. rewrite !str_append_assoc in Hr.
  apply (inj (String.append "app:")) in Hr. apply (f_equal (split_once colon)) in Hr.
  change (":" +:+ k)%string with (String colon k) in Hr. change (":" +:+ r)%string with (String colon r) in Hr.
  rewrite !split_once_app in Hr by done. congruence.
Qed.

Lemma clear_spec s a :
  exists s', miniapp_clear_all_for_app a s = (s', Ok tt)
    /\ forall k, kv s' !! k = if starts_with (app_prefix a) k then None else kv s !! k.
Proof.
  destruct (tree_iter_view (db_view (app_db s) "miniapp_storage")) as (rows & Hi & Hp).
  set (keys := (filter (fun kv => starts_with (app_prefix a) kv.1 = true) rows).*1).
  destruct (remove_from_ok "miniapp_storage" keys s) as (t' & Hr & Hv).
  eexists. split.
  - unfold miniapp_clear_all_for_app. rewrite (ST_bind_Ok _ _ s s keys); [exact Hr|].
    rewrite with_tree_eq. unfold scan_prefix. by rewrite Hi.
  - intros k. cbn [app_db]. rewrite db_put_view, decide_True, Hv by done.
    assert (k ∈ keys <-> starts_with (app_prefix a) k = true /\ is_Some (kv s !! k)) as Hk.
    { unfold keys. rewrite list_elem_of_fmap. split.
      - intros ([k' b] & -> & Hin). apply list_elem_of_filter in Hin as [Hsw Hin].
        rewrite Hp in Hin. apply elem_of_map_to_list in Hin. eauto.
      - intros [Hsw [b Hb]]. exists (k, b). split; [done|]. apply list_elem_of_filter. split; [done|].
        rewrite Hp. by apply elem_of_map_to_list. }
    destruct (decide (k ∈ keys)) as [Hin|Hin].
    + apply Hk in Hin as [-> _]. done.
    + destruct (starts_with (app_prefix a) k); [|done]. destruct (kv s !! k) eqn:E; [|done].
      destruct Hin. apply Hk. eauto.
Qed.

(** Isolation of mini-app storage: for two app ids without a colon, clearing
    one app removes all of its values and none of the other's, and listing one
    app's prefix shows no key of the other. *)
Theorem apps_isolated s (a b : string) :
  has_char colon a = false -> has_char colon b = false -> a ≠ b ->
  (exists s', miniapp_clear_all_for_app a s = (s', Ok tt)
    /\ (forall k, kv s' !! (app_prefix a +:+ k)%string = None)
    /\ (forall k, kv s' !! (app_prefix b +:+ k)%string = kv s !! (app_prefix b +:+ k)%string))
  /\ (exists l, (miniapp_list (app_prefix a) s).2 = Ok l
    /\ forall k, utf8_valid (as_bytes (app_prefix b +:+ k)) = true ->
        Forall (fun kv => utf8_valid (as_bytes kv.1) = true) (map_to_list (kv s)) ->
        (app_prefix b +:+ k)%string ∉ l).
Proof.
  intros Ha Hb Hne. split.
  - destruct (clear_spec s a) as (s' & Hc & Hv). exists s'. split_and!; [done| |].
    + intros k. rewrite Hv. replace (starts_with _ _) with true; [done|].
      symmetry. apply starts_with_true. by exists k.
    + intros k. rewrite Hv. destruct (starts_with (app_prefix a) _) eqn:E; [|done].
      by apply app_prefix_inj in E.
  - unfold miniapp_list. rewrite with_tree_eq. cbn [snd]. unfold scan_prefix.
    destruct (tree_iter_view (db_view (app_db s) "miniapp_storage")) as (rows & -> & Hp). cbn [mbind Res_bind].
    eexists. split; [reflexivity|]. intros k Hk Hall Hin. rewrite elem_of_sort_by in Hin.
    apply list_elem_of_fmap in Hin as ([k' v'] & Ek & Hin). apply list_elem_of_filter in Hin as [Hsw Hin].
    rewrite Hp in Hin. pose proof (proj1 (Forall_forall _ _) Hall _ Hin) as Hu. cbn [fst] in Ek, Hu, Hsw.
    unfold from_utf8_lossy in Ek. rewrite utf8_lossy_valid, of_as_bytes in Ek by done. subst k'.
    by apply app_prefix_inj in Hsw.
Qed.

(** App ids are not checked for colons: the data of an app whose id extends
    another's with a colon lies in that app's key space, and is deleted with
    it. *)
Theorem colon_ids_share_storage s (a x k : string) :
  (app_prefix (a +:+ ":" +:+ x) +:+ k = app_prefix a +:+ (x +:+ ":" +:+ k))%string
  /\ exists s', miniapp_clear_all_for_app a s = (s', Ok tt)
      /\ kv s' !! (app_prefix (a +:+ ":" +:+ x) +:+ k)%string = None.
Proof.
  assert (app_prefix (a +:+ ":" +:+ x) +:+ k = app_prefix a +:+ (x +:+ ":" +:+ k))%string as E
    by (unfold app_prefix; by rewrite !str_append_assoc).
  split; [done|]. destruct (clear_spec s a) as (s' & Hc & Hv). exists s'. split; [done|].
  rewrite Hv, E. replace (starts_with _ _) with true; [done|].
  symmetry. apply starts_with_true. by eexists.
Qed.
End kv.

(** ** Every row of every tree *)

Section typed_rows.
Context `{D : Sled} {DL : SledLaws D} {DO : SledOrder D} `{DB : !SledDb} {DBL : SledDbLaws DB}.
Context `{B : AppCodecs} {BL : AppCodecLaws B} `{P : E2EPrims} {PL : AeadLaws P}.
Hypothesis hkdf_ok : forall ikm info, exists k, hkdf ikm info = Ok k.
Implicit Types s : AppStorage.

Abbreviation view s n := (tree_view (db_view (app_db s) n)).

(** a row of tree [n] of [s]: filed under the key of the value it holds, and the
    value of a mini-app can be read back under its key *)
Definition row_good s (n k : string) (b : list byte) : Prop :=
  row_filed n k b
  /\ (n = "miniapp_storage"%string ->
      exists value, decode_miniapp_value k b s = Ok value /\ utf8_valid (as_bytes value) = true).

(** what the Rust types guarantee of a mini-app value and of its nonce *)
Definition kv_typed (o : StoreOp) : Prop :=
  match o with
  | OKvSet _ value nonce => utf8_valid (as_bytes value) = true /\ length nonce = NONCE_LEN
  | _ => True
  end.

(** the values of the mini-apps and the mails marked as read, as the calls alone
    determine them *)
Definition kv_spec (o : StoreOp) (m : gmap string string) : gmap string string :=
  match o with
  | OKvSet k v _ => <[k := v]> m
  | OKvDelete k => delete k m
  | OKvClear a => filter (fun kv => starts_with (app_prefix a) kv.1 = false) m
  | _ => m
  end.
Definition kv_after (ops : list StoreOp) : gmap string string := foldl (fun m o => kv_spec o m) ∅ ops.
Definition marked_by (o : StoreOp) : option string := match o with OMarkRead id => Some id | _ => None end.
Definition marked (ops : list StoreOp) : list string := omap marked_by ops.

(** the tree of the mini-apps holds exactly the values of [m] *)
Definition kv_holds s (m : gmap string string) : Prop :=
  forall k, match m !! k with
            | Some v => utf8_valid (as_bytes v) = true
                /\ exists b, view s "miniapp_storage" !! k = Some b /\ decode_miniapp_value k b s = Ok v
            | None => view s "miniapp_storage" !! k = None
            end.

(** [m] leaves the rows of tree [n] and the storage key as they are *)
Definition spares {A} (n : string) (m : ST AppStorage A) : Prop :=
  forall s, view (m s).1 n = view s n /\ at_rest_key (m s).1 = at_rest_key s.

Lemma spares_upd n n' f : n' ≠ n -> spares n (upd_tree n' f).
Proof.
  intros Hn s. unfold upd_tree. erewrite ST_bind_Ok; [|reflexivity].
  rewrite (ST_bind_lift _ _ _ _ (db_open_view _ _)). unfold mbind, ST_bind, st_lift.
  destruct (f (db_view (app_db s) n')); [|done]. cbn [fst st_put app_db at_rest_key].
  by rewrite db_put_view, decide_False.
Qed.

Lemma spares_read {A X} n n' (f : Tree -> anyhow A) (g : A -> ST AppStorage X) :
  (forall a, spares n (g a)) -> spares n (a ← with_tree n' f; g a).
Proof.
  intros Hg s. unfold mbind, ST_bind. rewrite with_tree_eq. destruct (f _) as [a|e]; [apply Hg|done].
Qed.

Lemma spares_then {A X} n (m : ST AppStorage A) (h : A -> X) :
  spares n m -> spares n (a ← m; mret (h a)).
Proof. intros Hm s. specialize (Hm s). unfold mbind, ST_bind. by destruct (m s) as [s' [a|e]]. Qed.

Lemma spares_prune n now : is_bulletin n = false -> spares n (prune_expired_bulletins now).
Proof.
  intros Hn s.
  destruct (prune_trees_spec now (db_tree_names (app_db s)) 0 s (db_names_nodup _)) as (s' & Hr & Hk & Hv).
  unfold prune_expired_bulletins. erewrite ST_bind_Ok; [|reflexivity]. rewrite Hr. split; [|done].
  apply map_eq. intros k. rewrite Hv. unfold doomed_keys. rewrite Hn, decide_False; [done|].
  by intros [_ ?%not_elem_of_nil].
Qed.

Definition is_kv (o : StoreOp) : bool :=
  match o with OKvSet _ _ _ | OKvDelete _ | OKvClear _ => true | _ => false end.

(** The trees of the mini-apps and of the read marks are written by their own
    calls only. *)
Lemma spares_kv o : is_kv o = false -> spares "miniapp_storage" (run_op o).
Proof.
  destruct o; try done; intros _; cbn [run_op]; try by apply spares_upd.
  - apply spares_read. intros c. by apply spares_then, spares_upd.
  - by apply spares_prune.
  - apply spares_read. intros [g|]; [by apply spares_upd|done].
Qed.

Lemma spares_marks o : marked_by o = None -> spares "mail:read" (run_op o).
Proof.
  destruct o; try done; intros _; cbn [run_op]; try by apply spares_upd.
  - apply spares_read. intros c. by apply spares_then, spares_upd.
  - by apply spares_prune.
  - apply spares_read. intros [g|]; [by apply spares_upd|done].
  - intros s. unfold miniapp_set. erewrite ST_bind_Ok; [|reflexivity]. by apply spares_upd.
  - apply spares_read. intros keys s. destruct (remove_from_ok "miniapp_storage" keys s) as (t' & -> & _).
    cbn [fst app_db at_rest_key]. by rewrite db_put_view, decide_False.
Qed.

Lemma decode_same_key s s' k b :
  at_rest_key s' = at_rest_key s -> decode_miniapp_value k b s' = decode_miniapp_value k b s.
Proof. intros E. unfold decode_miniapp_value. by rewrite E. Qed.

Lemma kv_frame s s' m :
  view s' "miniapp_storage" = view s "miniapp_storage" -> at_rest_key s' = at_rest_key s ->
  kv_holds s m -> kv_holds s' m.
Proof.
  intros Hv Hk Hm k. specialize (Hm k). rewrite Hv. destruct (m !! k) as [v|]; [|done].
  by setoid_rewrite (decode_same_key s s' k _ Hk).
Qed.

Lemma kv_set s m k v nonce :
  utf8_valid (as_bytes v) = true -> length nonce = NONCE_LEN ->
  kv_holds s m -> kv_holds (miniapp_set k v nonce s).1 (<[k := v]> m).
Proof.
  intros Hu Hn Hm. destruct (encode_decode_value hkdf_ok s k v nonce Hu Hn) as (b & He & Hd).
  destruct (tree_insert_view (db_view (app_db s) "miniapp_storage") k b) as (t1 & Hi & Hv).
  assert (miniapp_set k v nonce s = (mkApp (db_put (app_db s) "miniapp_storage" t1) (at_rest_key s), Ok tt)) as ->.
  { unfold miniapp_set. erewrite ST_bind_Ok; [|reflexivity]. apply upd_tree_ok. by rewrite He. }
  intros k'. cbn [fst app_db]. rewrite db_put_view, decide_True, Hv by done.
  destruct (decide (k' = k)) as [->|Hne].
  - rewrite !lookup_insert_eq. split; [done|]. eauto.
  - rewrite !lookup_insert_ne by done. exact (Hm k').
Qed.

Lemma kv_delete s m k : kv_holds s m -> kv_holds (miniapp_delete k s).1 (delete k m).
Proof.
  intros Hm. destruct (tree_remove_view (db_view (app_db s) "miniapp_storage") k) as (t1 & Hi & Hv).
  unfold miniapp_delete. rewrite (upd_tree_ok _ _ s t1) by done.
  intros k'. cbn [fst app_db]. rewrite db_put_view, decide_True, Hv by done.
  destruct (decide (k' = k)) as [->|Hne].
  - by rewrite !lookup_delete_eq.
  - rewrite !lookup_delete_ne by done. exact (Hm k').
Qed.

Lemma kv_clear s m a :
  kv_holds s m ->
  kv_holds (miniapp_clear_all_for_app a s).1 (filter (fun kv => starts_with (app_prefix a) kv.1 = false) m).
Proof.
  intros Hm. destruct (clear_spec s a) as (s' & Hc & Hv). rewrite Hc. cbn [fst].
  assert (at_rest_key s' = at_rest_key s) as Hk.
  { unfold miniapp_clear_all_for_app in Hc. unfold mbind, ST_bind in Hc. rewrite with_tree_eq in Hc.
    destruct (remove_from_ok "miniapp_storage"
      (match scan_prefix (app_prefix a) (db_view (app_db s) "miniapp_storage") with Ok rows => rows.*1 | Err _ => [] end) s)
      as (t' & Hr & _). rewrite Hr in Hc. by injection Hc as <-. }
  intros k. rewrite Hv. specialize (Hm k). rewrite map_lookup_filter.
  destruct (starts_with (app_prefix a) k) eqn:E.
  - destruct (m !! k); [|done]. cbn. by case_guard; [congruence|].
  - destruct (m !! k) as [v|]; [|done]. cbn. case_guard; [|done]. cbn.
    by setoid_rewrite (decode_same_key s s' k _ Hk).
Qed.

Lemma kv_step o s m : kv_typed o -> kv_holds s m -> kv_holds (run_op o s).1 (kv_spec o m).
Proof.
  intros Ht Hm. destruct (is_kv o) eqn:E.
  - destruct o; try done; cbn [run_op kv_spec].
    + destruct Ht. by apply kv_set.
    + by apply kv_delete.
    + by apply kv_clear.
  - destruct (spares_kv o E s) as [Hv Hk]. replace (kv_spec o m) with m by (by destruct o).
    by eapply kv_frame.
Qed.

Lemma mark_step o s id :
  is_Some (view (run_op o s).1 "mail:read" !! id)
  <-> marked_by o = Some id \/ is_Some (view s "mail:read" !! id).
Proof.
  destruct (marked_by o) as [id'|] eqn:E.
  - destruct o; try done. injection E as ->. cbn [run_op]. unfold mark_read.
    destruct (tree_insert_view (db_view (app_db s) "mail:read") id' [x01]) as (t1 & Hi & Hv).
    rewrite (upd_tree_ok _ _ s t1) by done. cbn [fst app_db]. rewrite db_put_view, decide_True, Hv by done.
    rewrite lookup_insert_is_Some'. split; (intros [?|?]; [left; congruence|by right]).
  - rewrite (proj1 (spares_marks o E s)). naive_solver.
Qed.

Lemma run_ops_hold ops s m :
  Forall kv_typed ops -> kv_holds s m -> kv_holds (run_ops ops s) (foldl (fun m o => kv_spec o m) m ops).
Proof.
  intros Ht. revert s m. induction Ht as [|o ops Ho Ht IH]; intros s m Hm; [done|].
  cbn. apply IH. by apply kv_step.
Qed.

Lemma run_ops_marks ops s id :
  is_Some (view (run_ops ops s) "mail:read" !! id) <-> id ∈ marked ops \/ is_Some (view s "mail:read" !! id).
Proof.
  revert s. induction ops as [|o ops IH]; intros s; cbn [run_ops foldl marked omap list_omap].
  { rewrite elem_of_nil. tauto. }
  fold (run_ops ops (run_op o s).1). rewrite IH, mark_step. fold (marked ops).
  destruct (marked_by o); [rewrite elem_of_cons|]; naive_solver.
Qed.

(** C22. The stored types: after any sequence of storage calls on a new database,
    failing ones included, every row of every tree decodes to a value of the
    tree's type and is filed under that value's own key; the values of the
    mini-apps are read back as the sequence of set, delete and clear calls left
    them, encrypted at rest or not, and exactly the mails marked as read count as
    read. *)
Theorem storage_rows_typed (ops : list StoreOp) (key : option (list byte)) :
  Forall op_typed ops -> Forall kv_typed ops ->
  let s := run_ops ops (mkApp db_new key) in
  (forall n k b, view s n !! k = Some b -> row_good s n k b)
  /\ (forall k, miniapp_get k s = (s, Ok (kv_after ops !! k)))
  /\ (forall id, is_read id s = (s, Ok (bool_decide (id ∈ marked ops)))).
Proof.
  intros Ht Hkt s.
  assert (kv_holds s (kv_after ops)) as Hm.
  { apply run_ops_hold; [done|]. intros k. rewrite lookup_empty. cbn [app_db].
    by rewrite db_view_new, tree_view_new, lookup_empty. }
  split_and!.
  - intros n k b Hb. split; [exact (run_ops_good ops _ Ht (db_good_new key) _ _ _ Hb)|]. intros ->.
    specialize (Hm k). rewrite Hb in Hm. destruct (kv_after ops !! k) as [v|]; [|done].
    destruct Hm as (Hu & b' & [= <-] & Hd). eauto.
  - intros k. unfold miniapp_get. erewrite ST_bind_Ok; [|reflexivity]. rewrite with_tree_eq, tree_get_view.
    specialize (Hm k). destruct (kv_after ops !! k) as [v|].
    + destruct Hm as (_ & b & -> & Hd). cbn [mbind Res_bind]. by rewrite Hd.
    + by rewrite Hm.
  - intros id. unfold is_read. rewrite with_tree_eq, tree_get_view. cbn [mbind Res_bind]. do 2 f_equal.
    apply bool_decide_ext. unfold s. rewrite run_ops_marks. cbn [app_db].
    rewrite db_view_new, tree_view_new, lookup_empty.
    split; [by intros [?|[? [=]]]|by left].
Qed.
End typed_rows.
