(* ===== verification/Proximity.v ===== *)
(** * Nearby people

    [mycelium-app/src/proximity]: presence signals, the bounded store of nearby
    signals, match state, the bounded inbox and the match score.  A method that
    looks at the clock takes one reading as an argument. *)

From S2P Require Import Prelude Text.

Open Scope Z_scope.

Definition PROXIMITY_SCOPE : string := "mycelium/proximity/v1".

Record PresenceProfile := mkProfile {
  pf_display_name : option string;
  pf_bio : option string;
  pf_age : option Z;
  pf_gender : option string;
  pf_looking_for : option string;
  pf_interests : list string;
  pf_photo_base64 : option string;
}.

Definition profile_default : PresenceProfile := mkProfile None None None None None [] None.

Record PresenceSignal := mkSignal {
  ps_ephemeral_id : string;
  ps_enc_pubkey_hex : string;
  ps_profile : PresenceProfile;
  ps_created_at_ms : Z;
  ps_ttl_secs : Z;
}.

Record ProximityDirectMessage := mkProxDirect {
  pd_target_enc_pubkey_hex : string;
  pd_sender_enc_pubkey_hex : string;
  pd_encrypted_payload : list byte;
  pd_created_at_ms : Z;
}.

Record ProximityMatchIntent := mkIntent {
  pi_from_enc_pubkey_hex : string;
  pi_created_at_ms : Z;
  pi_ttl_secs : Z;
}.

(** [s.chars().count()] and [s.chars().take(n)] on UTF-8 text: every character
    has one byte that is not a continuation byte *)
Definition chars_count (s : string) : nat := length (filter (fun b => is_cont b = false) (as_bytes s)).

Fixpoint take_chars_bytes (n : nat) (l : list byte) : list byte :=
  match l with
  | [] => []
  | b :: r =>
      if is_cont b then b :: take_chars_bytes n r
      else match n with O => [] | S n => b :: take_chars_bytes n r end
  end.
Definition take_chars (n : nat) (s : string) : string := of_bytes (take_chars_bytes n (as_bytes s)).

Definition profile_validate (p : PresenceProfile) : anyhow unit :=
  if match pf_bio p with Some bio => (120 <? chars_count bio)%nat | None => false end
  then Err "bio must be at most 120 characters"%string else
  if match pf_photo_base64 p with Some photo => 68000 <? Z.of_nat (String.length photo) | None => false end
  then Err "photo_base64 exceeds 50KB limit"%string else Ok tt.

Definition signal_new (enc_pubkey_hex : string) (p : PresenceProfile) (ttl_secs now : Z) (uuid : string)
    : PresenceSignal := mkSignal uuid enc_pubkey_hex p now ttl_secs.

Definition aged_out (now created ttl_secs : Z) : bool := ttl_secs * 1000 <? now -sat created.

Definition signal_is_expired (now : Z) (s : PresenceSignal) : bool := aged_out now (ps_created_at_ms s) (ps_ttl_secs s).

Definition intent_new (from : string) (now : Z) : ProximityMatchIntent := mkIntent from now 300.
Definition intent_is_expired (now : Z) (i : ProximityMatchIntent) : bool := aged_out now (pi_created_at_ms i) (pi_ttl_secs i).

(** ** [ProximityStore] *)

Record ProximityStore := mkProxStore { px_signals : gmap string PresenceSignal; px_max_size : nat }.

Definition prox_store_new : ProximityStore := mkProxStore ∅ 500.

(** [values().min_by_key(created_at_ms)] *)
Fixpoint oldest_signal (l : list PresenceSignal) : option PresenceSignal :=
  match l with
  | [] => None
  | s :: l => match oldest_signal l with
              | Some o => if decide (ps_created_at_ms o < ps_created_at_ms s) then Some o else Some s
              | None => Some s
              end
  end.

Definition signal_values (st : ProximityStore) : list PresenceSignal := (map_to_list (px_signals st)).*2.

Definition prox_insert (signal : PresenceSignal) (st : ProximityStore) : ProximityStore :=
  let signals :=
    if decide (px_max_size st <= size (px_signals st))%nat then
      match oldest_signal (signal_values st) with
      | Some o => delete (ps_ephemeral_id o) (px_signals st)
      | None => px_signals st
      end
    else px_signals st in
  mkProxStore (<[ps_ephemeral_id signal := signal]> signals) (px_max_size st).

Definition active_signals (now : Z) (st : ProximityStore) : list PresenceSignal :=
  sort_by (key_desc ps_created_at_ms) (filter (fun s => signal_is_expired now s = false) (signal_values st)).

Definition prox_prune (now : Z) (st : ProximityStore) : ProximityStore * nat :=
  let kept := filter (fun kv => signal_is_expired now kv.2 = false) (px_signals st) in
  (mkProxStore kept (px_max_size st), (size (px_signals st) - size kept)%nat).

Definition prox_count (now : Z) (st : ProximityStore) : nat :=
  length (filter (fun s => signal_is_expired now s = false) (signal_values st)).

Definition prox_clear (st : ProximityStore) : ProximityStore := mkProxStore ∅ (px_max_size st).

(** ** [ProximityMatchState] *)

Record ProximityMatchState := mkMatches { mt_outgoing : gset string; mt_incoming : gset string }.
Definition matches_default : ProximityMatchState := mkMatches ∅ ∅.
Definition record_outgoing (k : string) (m : ProximityMatchState) : ProximityMatchState :=
  mkMatches ({[k]} ∪ mt_outgoing m) (mt_incoming m).
Definition record_incoming (k : string) (m : ProximityMatchState) : ProximityMatchState :=
  mkMatches (mt_outgoing m) ({[k]} ∪ mt_incoming m).
Definition interest_sent (m : ProximityMatchState) (k : string) : bool := bool_decide (k ∈ mt_outgoing m).
Definition interest_received (m : ProximityMatchState) (k : string) : bool := bool_decide (k ∈ mt_incoming m).
Definition is_mutual (m : ProximityMatchState) (k : string) : bool := interest_sent m k && interest_received m k.
Definition matches_clear (_ : ProximityMatchState) : ProximityMatchState := mkMatches ∅ ∅.

(** ** [ProximityInbox] *)

Record ProximityReceivedMessage := mkProxMsg {
  pr_from_enc_pubkey_hex : string;
  pr_body : string;
  pr_received_at_ms : Z;
}.

Record ProximityInbox := mkProxInbox { pb_messages : list ProximityReceivedMessage; pb_max_size : nat }.
Definition prox_inbox_new : ProximityInbox := mkProxInbox [] 200.

Definition inbox_push (m : ProximityReceivedMessage) (b : ProximityInbox) : ProximityInbox :=
  let l := if decide (pb_max_size b <= length (pb_messages b))%nat then tail (pb_messages b) else pb_messages b in
  mkProxInbox (l ++ [m]) (pb_max_size b).

Definition inbox_since (since_ms : Z) (b : ProximityInbox) : list ProximityReceivedMessage :=
  filter (fun m => since_ms < pr_received_at_ms m) (pb_messages b).
Definition inbox_all (b : ProximityInbox) : list ProximityReceivedMessage := pb_messages b.
Definition inbox_clear (b : ProximityInbox) : ProximityInbox := mkProxInbox [] (pb_max_size b).

(** ** [ProximityMatcher] *)

Record ProximityMatcher := mkMatcher { my_looking_for : option string; my_interests : list string }.
Record MatchScore := mkScore { ms_score : Z; ms_common_interests : list string }.

Definition score (m : ProximityMatcher) (other : PresenceSignal) : MatchScore :=
  let common := filter (fun i => i ∈ pf_interests (ps_profile other)) (my_interests m) in
  let s := wrap 32 (wrap 32 (Z.of_nat (length common)) * 10) in
  let s := if pf_display_name (ps_profile other) is Some _ then wadd 32 s 5 else s in
  let s := if pf_bio (ps_profile other) is Some _ then wadd 32 s 5 else s in
  let s := if pf_photo_base64 (ps_profile other) is Some _ then wadd 32 s 10 else s in
  mkScore s common.

Record ProximityNearbyEntry := mkNearby {
  ne_signal : PresenceSignal;
  ne_interest_sent : bool;
  ne_interest_received : bool;
  ne_is_mutual : bool;
}.

(** ** Properties *)

Lemma oldest_signal_spec l :
  match oldest_signal l with
  | Some o => o ∈ l /\ forall s, s ∈ l -> ps_created_at_ms o <= ps_created_at_ms s
  | None => l = []
  end.
Proof.
  induction l as [|s l IH]; [done|]. cbn [oldest_signal]. destruct (oldest_signal l) as [o|].
  - destruct IH as [Ho Hmin]. destruct (decide (ps_created_at_ms o < ps_created_at_ms s)) as [Hd|Hd].
    + split; [by right|]. intros x [->|Hx]%elem_of_cons; [lia|by apply Hmin].
    + split; [left|]. intros x [->|Hx]%elem_of_cons; [lia|]. specialize (Hmin x Hx). lia.
  - subst. split; [left|]. intros x [->|Hx]%elem_of_cons; [lia|by apply not_elem_of_nil in Hx].
Qed.

Lemma map_size_insert_le {A} (m : gmap string A) k a : (size (<[k := a]> m) <= S (size m))%nat.
Proof. rewrite map_size_insert. destruct (m !! k); cbn; lia. Qed.

(** signals are filed under their own id, at most [max_size] of them *)
Definition prox_inv (st : ProximityStore) : Prop :=
  (0 < px_max_size st)%nat /\ (size (px_signals st) <= px_max_size st)%nat
  /\ forall k s, px_signals st !! k = Some s -> ps_ephemeral_id s = k.

Lemma elem_of_signal_values st s : s ∈ signal_values st <-> exists k, px_signals st !! k = Some s.
Proof.
  unfold signal_values. rewrite list_elem_of_fmap. split.
  - intros ([k s'] & -> & Hin). apply elem_of_map_to_list in Hin. eauto.
  - intros [k Hk]. exists (k, s). split; [done|]. by apply elem_of_map_to_list.
Qed.

(** what remains when room is made *)
Lemma room_spec st :
  prox_inv st -> (px_max_size st <= size (px_signals st))%nat ->
  exists o, oldest_signal (signal_values st) = Some o /\ px_signals st !! ps_ephemeral_id o = Some o
    /\ S (size (delete (ps_ephemeral_id o) (px_signals st))) = size (px_signals st)
    /\ forall k s, px_signals st !! k = Some s -> ps_created_at_ms o <= ps_created_at_ms s.
Proof.
  intros (Hpos & Hle & Hid) Hfull. pose proof (oldest_signal_spec (signal_values st)) as H.
  destruct (oldest_signal (signal_values st)) as [o|].
  - destruct H as [Hin Hmin]. apply elem_of_signal_values in Hin as [k Hk].
    assert (ps_ephemeral_id o = k) as E by eauto. exists o. rewrite E. split_and!; try done.
    + assert (size (px_signals st) ≠ 0%nat) by lia.
      rewrite map_size_delete_Some by (by eexists). lia.
    + intros k' s Hs. apply Hmin. apply elem_of_signal_values. eauto.
  - assert (size (px_signals st) = 0%nat) as Hz; [|lia].
    rewrite map_size_empty_iff. apply map_eq. intros k. rewrite lookup_empty.
    destruct (px_signals st !! k) as [s|] eqn:E; [|done].
    assert (s ∈ signal_values st) as Hin by (apply elem_of_signal_values; eauto).
    rewrite H in Hin. by apply not_elem_of_nil in Hin.
Qed.

(** The store of nearby people is bounded: an insertion keeps at most
    [max_size] signals, makes the new one present, and drops at most one other,
    only when the store is full and then one that no stored signal is older
    than; pruning keeps exactly the unexpired ones and reports how many went. *)
Theorem proximity_store_bounded (st : ProximityStore) (x : PresenceSignal) (now : Z) :
  prox_inv st ->
  let st' := prox_insert x st in
  prox_inv st' /\ px_signals st' !! ps_ephemeral_id x = Some x
  /\ (forall k s, px_signals st !! k = Some s -> k ≠ ps_ephemeral_id x -> px_signals st' !! k ≠ Some s ->
       (px_max_size st <= size (px_signals st))%nat
       /\ (forall k' s', px_signals st !! k' = Some s' -> ps_created_at_ms s <= ps_created_at_ms s')
       /\ forall k' s', px_signals st !! k' = Some s' -> k' ≠ k -> k' ≠ ps_ephemeral_id x -> px_signals st' !! k' = Some s')
  /\ prox_inv (prox_prune now st).1
  /\ (forall k s, px_signals (prox_prune now st).1 !! k = Some s <->
        px_signals st !! k = Some s /\ signal_is_expired now s = false)
  /\ ((prox_prune now st).2 + size (px_signals (prox_prune now st).1) = size (px_signals st))%nat.
Proof.
  intros Hinv. pose proof Hinv as (Hpos & Hle & Hid). cbn zeta.
  assert (size (filter (fun kv : string * PresenceSignal => signal_is_expired now kv.2 = false) (px_signals st))
          <= size (px_signals st))%nat as Hsz by apply map_size_filter.
  assert (forall k s, px_signals (prox_prune now st).1 !! k = Some s <->
        px_signals st !! k = Some s /\ signal_is_expired now s = false) as Hpr.
  { intros k s. cbn. by rewrite map_lookup_filter_Some. }
  assert (prox_inv (prox_prune now st).1) as Hpi.
  { split_and!; cbn; [done|lia|]. intros k s H. apply (Hpr k s) in H as [H _]. eauto. }
  unfold prox_insert. destruct (decide (px_max_size st <= size (px_signals st))%nat) as [Hfull|Hroom].
  - destruct (room_spec st Hinv Hfull) as (o & -> & Ho & Hs & Hmin). split_and!.
    + split_and!; cbn [px_signals px_max_size]; [done| |].
      * etransitivity; [apply map_size_insert_le|]. lia.
      * intros k s [[<- <-]|[_ H]]%lookup_insert_Some; [done|].
        apply lookup_delete_Some in H as [_ H]. eauto.
    + apply lookup_insert_eq.
    + intros k s Hk Hne Hgone. cbn [px_signals] in *.
      assert (k = ps_ephemeral_id o) as ->.
      { destruct (decide (k = ps_ephemeral_id o)); [done|]. destruct Hgone.
        by rewrite lookup_insert_ne, lookup_delete_ne. }
      assert (s = o) as -> by congruence. split_and!; [done|done|].
      intros k' s' Hk' H1 H2. by rewrite lookup_insert_ne, lookup_delete_ne.
    + done.
    + done.
    + cbn. lia.
  - split_and!.
    + split_and!; cbn [px_signals px_max_size]; [done| |].
      * etransitivity; [apply map_size_insert_le|]. lia.
      * intros k s [[<- <-]|[_ H]]%lookup_insert_Some; [done|]. eauto.
    + apply lookup_insert_eq.
    + intros k s Hk Hne Hgone. destruct Hgone. cbn [px_signals]. by rewrite lookup_insert_ne.
    + done.
    + done.
    + cbn. lia.
Qed.

(** The inbox never holds more than its limit and always ends with the newest
    message; it drops only from the front. *)
Lemma inbox_push_bounded (m : ProximityReceivedMessage) (b : ProximityInbox) :
  (0 < pb_max_size b)%nat -> (length (pb_messages b) <= pb_max_size b)%nat ->
  let b' := inbox_push m b in
  (length (pb_messages b') <= pb_max_size b')%nat /\ pb_max_size b' = pb_max_size b
  /\ exists k, pb_messages b' = k ++ [m] /\ k `suffix_of` pb_messages b.
Proof.
  intros Hpos Hle. unfold inbox_push. destruct (decide _) as [Hf|Hf]; cbn.
  - destruct (pb_messages b) as [|x l] eqn:E; [cbn in Hf; lia|]. cbn in *. rewrite length_app. cbn.
    split_and!; [lia|done|]. exists l. split; [done|]. by exists [x].
  - rewrite length_app. cbn. split_and!; [lia|done|]. by exists (pb_messages b).
Qed.

(** The nearby list shows unexpired signals only, newest first. *)
Lemma active_signals_spec now st :
  StronglySorted (key_desc ps_created_at_ms) (active_signals now st)
  /\ forall s, s ∈ active_signals now st <-> (exists k, px_signals st !! k = Some s) /\ signal_is_expired now s = false.
Proof.
  split; [apply sort_by_sorted; apply _|]. intros s. unfold active_signals.
  rewrite elem_of_sort_by, list_elem_of_filter, elem_of_signal_values. tauto.
Qed.
