(* ===== verification/MiniApp.v ===== *)
(** * Mini-apps: bundles, listings, revocation, reputation, installation

    [mycelium-app/src/miniapp]: [manifest.rs], [bundle.rs], [bundle_scan.rs],
    [bundle_signature.rs], [reproducible_build.rs], [store.rs],
    [bundled_listings.rs], [revocation.rs], [reputation.rs], [prefs.rs],
    [policy.rs] and [install_policy.rs].  The zip reader, Unicode lower-casing
    and the shipped assets are parameters; clock readings are arguments.  The
    store is one sled database. *)

From S2P Require Import Prelude External Text Instances Host Wire AppStorage Proximity.

Open Scope Z_scope.

(** ** Data *)

Record ReproducibleBuild := mkRepro {
  rb_recipe_url : option string;
  rb_recipe_digest_hex : option string;
  rb_attested_bundle_hash : option string;
  rb_sdk_version : option string;
}.

Inductive Permission :=
| Messaging | MessagingBroadcast | Identity | Payments | Storage
| BulletinRead | BulletinWrite | PeerDiscovery | Camera.
Global Instance Permission_eq_dec : EqDecision Permission.
Proof. solve_decision. Defined.

Record MiniAppManifest := mkManifest {
  mf_id : string;
  mf_name : string;
  mf_description : string;
  mf_version : string;
  mf_developer : string;
  mf_developer_peer_id : option string;
  mf_entry : string;
  mf_icon_base64 : option string;
  mf_permissions : list Permission;
  mf_min_mycelium_version : string;
  mf_accepts_payments : bool;
  mf_payment_address : option string;
  mf_categories : list string;
  mf_runtime : string;
  mf_bulletin_scopes : list string;
  mf_reproducible_build : option ReproducibleBuild;
}.

Inductive AppSource := SrcPeer (p : string) | SrcUrl (u : string).

Record AppStoreListing := mkListing {
  ls_manifest : MiniAppManifest;
  ls_bundle_hash : string;
  ls_sources : list AppSource;
  ls_published_at_ms : Z;
  ls_updated_at_ms : Z;
  ls_signature : list byte;
}.

Record BundleSignatureFile := mkSigFile { sf_bundle_hash : string; sf_signature : string }.

Record RevocationGossip := mkRevocation {
  rv_app_id : string;
  rv_reason : string;
  rv_revoked_at_ms : Z;
  rv_curator_peer_id : string;
  rv_signature : list byte;
}.

Record RevocationSnapshot := mkRevSnap { rs_revoked_app_ids : list string; rs_updated_at_ms : Z }.
Definition rev_default : RevocationSnapshot := mkRevSnap [] 0.

Record AppReputation := mkAppRep { rep_score : Z; rep_updated_at_ms : Z }.
Definition SCORE_DEFAULT : Z := 50.
Definition SCORE_FORCE_SAFE : Z := 40.
Definition SCORE_SUGGEST_SAFE : Z := 70.
Definition app_rep_default : AppReputation := mkAppRep SCORE_DEFAULT 0.

Record AppPrefs := mkPrefs { pr_safe_mode : bool }.

Inductive InstallTrust := VerifiedListing | SideloadAcknowledged.
Inductive InstallTrustLevel := LVerifiedListing | LMatchingListingHash | LSideloadOnly | LHashMismatch.

Record MiniAppBundle := mkBundle { bu_manifest : MiniAppManifest; bu_files : gmap string (list byte) }.

(** ** Text helpers *)

Definition dot : Ascii.ascii := Ascii.ascii_of_nat 46.
Definition slash : Ascii.ascii := Ascii.ascii_of_nat 47.
Definition backslash : Ascii.ascii := Ascii.ascii_of_nat 92.
Definition dquote : string := String (Ascii.ascii_of_nat 34) EmptyString.

(** [s.split(needle)] for a nonempty needle: leftmost, non-overlapping *)
Fixpoint split_str_go (fuel : nat) (needle cur s : string) : list string :=
  match fuel with
  | O => [cur]
  | S fuel =>
      match strip_prefix needle s with
      | Some rest => cur :: split_str_go fuel needle "" rest
      | None => match s with
                | EmptyString => [cur]
                | String a s => split_str_go fuel needle (cur +:+ String a EmptyString) s
                end
      end
  end.
Definition split_str (needle s : string) : list string := split_str_go (S (String.length s)) needle "" s.

Definition trim_start (s : string) : string := of_bytes (trim_start_bytes (as_bytes s)).

(** ASCII case and hexadecimal digits *)
Definition ascii_lower (b : byte) : byte := if byte_in 65 90 b then byte_of_Z (Z_of_byte b + 32) else b.
Definition eq_ignore_ascii_case (a b : string) : bool :=
  bool_decide (ascii_lower <$> as_bytes a = ascii_lower <$> as_bytes b).
Definition is_hexdigit (b : byte) : bool := byte_in 48 57 b || byte_in 65 70 b || byte_in 97 102 b.
Definition is_hex64 (s : string) : bool := (String.length s =? 64)%nat && forallb is_hexdigit (as_bytes s).

(** [str::to_lowercase] needs the Unicode tables; on ASCII it is [ascii_lower]. *)
Class Lowercase := to_lowercase : string -> string.
Class LowercaseLaws (L : Lowercase) : Prop :=
  to_lowercase_ascii : forall s, forallb (byte_in 0 127) (as_bytes s) = true ->
    to_lowercase s = of_bytes (ascii_lower <$> as_bytes s).

(** ** The zip reader: entries by index, each of which can fail *)
Record ZipEntry := mkZip { ze_name : string; ze_is_dir : bool; ze_data : anyhow (list byte) }.
Class Zip := zip_archive : list byte -> anyhow (list (anyhow ZipEntry)).

Class MiniCodecs := {
  serde_manifest :: Serde MiniAppManifest;
  serde_sources :: Serde (list AppSource);
  serde_listing :: Serde AppStoreListing;
  serde_sigfile :: Serde BundleSignatureFile;
  serde_revsnap :: Serde RevocationSnapshot;
  serde_rep :: Serde AppReputation;
  serde_prefs :: Serde AppPrefs;
}.

Class MiniCodecLaws (SC : MiniCodecs) : Prop := {
  serde_manifest_laws :: SerdeLaws serde_manifest;
  serde_listing_laws :: SerdeLaws serde_listing;
  serde_revsnap_laws :: SerdeLaws serde_revsnap;
  serde_rep_laws :: SerdeLaws serde_rep;
  serde_prefs_laws :: SerdeLaws serde_prefs;
  to_json_sources_total : forall l : list AppSource, exists b, to_json l = Ok b;
}.

(** ** Manifests *)

Definition repro_validate (r : ReproducibleBuild) : anyhow unit :=
  if match rb_attested_bundle_hash r with Some h => negb (is_hex64 h) | None => false end
  then Err "attested_bundle_hash must be 64 hex chars (BLAKE3)"%string else
  if match rb_recipe_digest_hex r with Some d => negb (is_hex64 d) | None => false end
  then Err "recipe_digest_hex must be 64 hex chars (BLAKE3)"%string else Ok tt.

Definition attests_bundle_hash (r : ReproducibleBuild) (hash : string) : bool :=
  match rb_attested_bundle_hash r with Some h => eq_ignore_ascii_case h hash | None => false end.

Definition manifest_validate (m : MiniAppManifest) : anyhow unit :=
  if decide (mf_id m = ""%string) then Err "app id must be reverse-domain format (e.g. com.example.app)"%string else
  if negb (has_char dot (mf_id m)) then Err "app id must be reverse-domain format (e.g. com.example.app)"%string else
  if decide (mf_name m = ""%string) then Err "name is required"%string else
  if (120 <? chars_count (mf_description m))%nat then Err "description must be at most 120 characters"%string else
  if decide (mf_entry m = ""%string) then Err "entry point is required"%string else
  if decide (mf_runtime m ≠ "webview"%string) then Err "runtime is not supported"%string else
  match mf_reproducible_build m with Some rb => repro_validate rb | None => Ok tt end.

Definition reproducible_attests_hash (m : MiniAppManifest) (hash : string) : bool :=
  match mf_reproducible_build m with Some rb => attests_bundle_hash rb hash | None => false end.

Definition allows_bulletin_scope (m : MiniAppManifest) (scope : string) : bool :=
  match mf_bulletin_scopes m with
  | [] => true
  | l => bool_decide (scope ∈ l)
  end.

(** ** Bundles *)

(** [name.split(['/', '\\'])] *)
Definition path_segments (name : string) : list string :=
  split_on slash name ≫= split_on backslash.

Definition is_safe_bundle_path (name : string) : bool :=
  if decide (name = ""%string) then false else
  if starts_with "/" name || starts_with (String backslash EmptyString) name then false else
  if str_contains ".." name then false else
  negb (bool_decide (".."%string ∈ path_segments name)).

Section bundles.
Context `{C : Crypto} `{SC : MiniCodecs} `{ZP : Zip} `{L : Lowercase}.

Fixpoint load_entries (entries : list (anyhow ZipEntry)) (files : gmap string (list byte))
    : anyhow (gmap string (list byte)) :=
  match entries with
  | [] => Ok files
  | e :: entries =>
      f ← e;
      if ze_is_dir f then load_entries entries files else
      if negb (is_safe_bundle_path (ze_name f))
      then Err ("invalid file path in bundle: " +:+ ze_name f)%string else
      buf ← ze_data f;
      load_entries entries (<[ze_name f := buf]> files)
  end.

Definition load_from_bytes (data : list byte) : anyhow MiniAppBundle :=
  zip ← zip_archive data;
  files ← load_entries zip ∅;
  match files !! "mycelium-app.json"%string with
  | None => Err "missing mycelium-app.json"%string
  | Some mb =>
      m ← from_json mb;
      _ ← manifest_validate m;
      Ok (mkBundle m files)
  end.

Definition bundle_get_file (b : MiniAppBundle) (path : string) : option (list byte) := bu_files b !! path.

Definition entry_html (b : MiniAppBundle) : anyhow string :=
  match bundle_get_file b (mf_entry (bu_manifest b)) with
  | None => Err ("entry point not found: " +:+ mf_entry (bu_manifest b))%string
  | Some bytes => match from_utf8 bytes with
                  | Some s => Ok s
                  | None => Err "entry point is not valid UTF-8"%string
                  end
  end.

Definition total_size (b : MiniAppBundle) : Z := msum (fun v => Z.of_nat (length v)) (bu_files b).

(** ** Static scan *)

Definition MAX_BUNDLE_FILES : nat := 128.
Definition MAX_COMPRESSION_RATIO : Z := 32.
Definition MIN_BYTES_FOR_RATIO_CHECK : Z := 512 * 1024.
Definition ALLOWED_EXTENSIONS : list string :=
  ["html"; "htm"; "css"; "js"; "json"; "png"; "jpg"; "jpeg"; "gif"; "svg"; "webp"; "ico"; "txt";
   "woff"; "woff2"; "ttf"; "eot"; "map"; "md"]%string.

Definition html_has_inline_script (html : string) : bool :=
  existsb (fun chunk => let t := trim_start chunk in
             negb (starts_with "src=" t) && negb (starts_with "src " t))
    (drop 1 (split_str "<script" (to_lowercase html))).

Definition validate_path_extension (path : string) : anyhow unit :=
  let lower := to_lowercase path in
  if str_contains ".." lower then Err ("invalid path: " +:+ path)%string else
  match list.last (split_on dot lower) with
  | Some ext =>
      if decide (ext = ""%string) then Err ("file without allowed extension: " +:+ path)%string else
      if has_char slash ext then Err ("file without allowed extension: " +:+ path)%string else
      if decide (ext ∉ ALLOWED_EXTENSIONS) then Err ("disallowed file type in bundle: " +:+ path)%string else Ok tt
  | None => Err ("file without allowed extension: " +:+ path)%string
  end.

Definition sniff_polyglot (path : string) (data : list byte) : anyhow unit :=
  if decide (take 2 data = as_bytes "MZ") then Err ("executable content detected in " +:+ path)%string else
  if decide (take 5 data = as_bytes "%PDF-") then Err ("PDF content not allowed in bundle: " +:+ path)%string else
  if decide (take 4 data = [x7f; x45; x4c; x46]) then Err ("ELF binary not allowed in bundle: " +:+ path)%string else
  Ok tt.

Definition FORBIDDEN_SCHEMES : list string := ["javascript:"; "vbscript:"; "data:text/html"; "file://"]%string.
Definition FORBIDDEN_FILE_TOKENS : list string :=
  [dquote +:+ "file:"; "'file:"; "(file:"; " href=" +:+ dquote +:+ "file:"; " src=" +:+ dquote +:+ "file:"]%string.

Definition validate_html_content (html label : string) : anyhow unit :=
  let lower := to_lowercase html in
  if existsb (fun needle => str_contains needle lower) FORBIDDEN_SCHEMES
  then Err (label +:+ " contains forbidden URL scheme")%string else
  if existsb (fun token => str_contains token lower) FORBIDDEN_FILE_TOKENS
  then Err (label +:+ " contains forbidden URL scheme (file:)")%string else
  if str_contains "<base" lower then Err (label +:+ " must not contain <base> (navigation escape risk)")%string else
  if str_contains "<meta" lower && str_contains "http-equiv" lower && str_contains "refresh" lower
  then Err (label +:+ " must not use meta refresh")%string else Ok tt.

Definition validate_html_asset (path : string) (data : list byte) : anyhow unit :=
  match from_utf8 data with
  | None => Err (path +:+ " is not valid UTF-8 HTML")%string
  | Some html => validate_html_content html path
  end.

Definition validate_entry_html (m : MiniAppManifest) (b : MiniAppBundle) : anyhow unit :=
  match bundle_get_file b (mf_entry m) with
  | None => Err ("entry point not found: " +:+ mf_entry m)%string
  | Some bytes =>
      match from_utf8 bytes with
      | None => Err ("entry " +:+ mf_entry m +:+ " is not valid UTF-8")%string
      | Some html =>
          _ ← validate_html_content html (mf_entry m);
          if html_has_inline_script html
          then Err ("entry " +:+ mf_entry m +:+ " contains inline <script>; use external .js with nonce (SD-040)")%string
          else Ok tt
      end
  end.

Definition scan_file (path : string) (data : list byte) : anyhow unit :=
  if decide (path = "mycelium-app.json"%string) then Ok tt else
  _ ← validate_path_extension path;
  _ ← sniff_polyglot path data;
  if ends_with ".html" path || ends_with ".htm" path then validate_html_asset path data else Ok tt.

Fixpoint scan_files (files : list (string * list byte)) : anyhow unit :=
  match files with
  | [] => Ok tt
  | (path, data) :: files => _ ← scan_file path data; scan_files files
  end.

Definition scan_bundle (b : MiniAppBundle) (archive_bytes : list byte) : anyhow unit :=
  if (MAX_BUNDLE_FILES <? size (bu_files b))%nat then Err "bundle has too many files"%string else
  let uncompressed := total_size b in
  let compressed := Z.max (Z.of_nat (length archive_bytes)) 1 in
  if (MIN_BYTES_FOR_RATIO_CHECK <=? uncompressed)
     && (Z.min (compressed * MAX_COMPRESSION_RATIO) (umax 64) <? uncompressed)
  then Err "bundle compression ratio suspicious"%string else
  _ ← scan_files (map_to_list (bu_files b));
  validate_entry_html (bu_manifest b) b.

(** ** Hashes and signatures *)

Definition bundle_hash_hex (bytes : list byte) : string := hex_encode (blake3 bytes).

Definition BUNDLE_SIG_FILE : string := "mycelium-bundle.sig.json".

(** path, NUL, length, contents *)
Definition hash_entry (name : string) (buf : list byte) : list byte :=
  as_bytes name ++ [x00] ++ le_bytes 8 (Z.of_nat (length buf)) ++ buf.

Fixpoint signed_entries (entries : list (anyhow ZipEntry)) : anyhow (list (string * list byte)) :=
  match entries with
  | [] => Ok []
  | e :: entries =>
      f ← e;
      if decide (ze_name f = BUNDLE_SIG_FILE) then signed_entries entries else
      buf ← ze_data f;
      rest ← signed_entries entries;
      Ok ((ze_name f, buf) :: rest)
  end.

Definition bundle_hash_for_signature (bundle_bytes : list byte) : anyhow string :=
  archive ← zip_archive bundle_bytes;
  entries ← signed_entries archive;
  Ok (hex_encode (blake3 (concat ((fun e => hash_entry e.1 e.2) <$> sort_by row_le entries)))).

Definition sigfile_sign (bundle_bytes : list byte) (kp : Keypair) : anyhow BundleSignatureFile :=
  h ← bundle_hash_for_signature bundle_bytes;
  match kp_sign kp (as_bytes h) with
  | Ok sig => Ok (mkSigFile h (hex_encode sig))
  | Err e => Err ("ed25519 sign bundle hash: " +:+ e)%string
  end.

Definition sigfile_verify (f : BundleSignatureFile) (bundle_bytes : list byte) (m : MiniAppManifest) : anyhow bool :=
  if decide (sf_signature f = ""%string) then Ok false else
  match bundle_hash_for_signature bundle_bytes with
  | Err _ => Ok false
  | Ok expected_hash =>
      if decide (sf_bundle_hash f ≠ expected_hash) then Ok false else
      match mf_developer_peer_id m with
      | None => Ok false
      | Some ps =>
          match peer_parse ps with
          | None => Err "invalid developer_peer_id"%string
          | Some peer_id =>
              match inline_key peer_id with
              | None => Ok false
              | Some pk =>
                  match hex_decode (trim (sf_signature f)) with
                  | None => Err "hex"%string
                  | Some sig => Ok (pk_verify pk (as_bytes (sf_bundle_hash f)) sig)
                  end
              end
          end
      end
  end.

Definition verify_bundle_developer_signature (b : MiniAppBundle) (bundle_bytes : list byte) : anyhow bool :=
  match bundle_get_file b BUNDLE_SIG_FILE with
  | None => Ok false
  | Some sb => f ← from_json sb; sigfile_verify f bundle_bytes (bu_manifest b)
  end.

Definition without_repro (m : MiniAppManifest) : MiniAppManifest :=
  mkManifest (mf_id m) (mf_name m) (mf_description m) (mf_version m) (mf_developer m) (mf_developer_peer_id m)
    (mf_entry m) (mf_icon_base64 m) (mf_permissions m) (mf_min_mycelium_version m) (mf_accepts_payments m)
    (mf_payment_address m) (mf_categories m) (mf_runtime m) (mf_bulletin_scopes m) None.

Definition content_attestation_hash (b : MiniAppBundle) : anyhow string :=
  manifest_bytes ← to_json (without_repro (bu_manifest b));
  let files := sort_by row_le (filter (fun kv => kv.1 ≠ "mycelium-app.json"%string) (map_to_list (bu_files b))) in
  Ok (hex_encode (blake3 (as_bytes "mycelium-miniapp-content-v1" ++ [x00]
        ++ le_bytes 8 (Z.of_nat (length manifest_bytes)) ++ manifest_bytes
        ++ concat ((fun e => hash_entry e.1 e.2) <$> files)))).

(** ** Listings *)

Definition listing_signable_bytes (l : AppStoreListing) : anyhow (list byte) :=
  manifest_json ← to_json (ls_manifest l);
  sources ← to_json (ls_sources l);
  Ok (manifest_json ++ as_bytes (ls_bundle_hash l) ++ le_bytes 8 (ls_published_at_ms l)
      ++ le_bytes 8 (ls_updated_at_ms l) ++ sources).

Definition set_ls_signature (sig : list byte) (l : AppStoreListing) : AppStoreListing :=
  mkListing (ls_manifest l) (ls_bundle_hash l) (ls_sources l) (ls_published_at_ms l) (ls_updated_at_ms l) sig.

Definition listing_new_signed (m : MiniAppManifest) (bundle_bytes : list byte) (sources : list AppSource)
    (kp : Keypair) (now : Z) : anyhow AppStoreListing :=
  let l := mkListing m (bundle_hash_hex bundle_bytes) sources now now [] in
  bytes ← listing_signable_bytes l;
  match kp_sign kp bytes with
  | Ok sig => Ok (set_ls_signature sig l)
  | Err e => Err ("signing failed: " +:+ e)%string
  end.

Definition listing_verify_signature (l : AppStoreListing) : anyhow bool :=
  match ls_signature l with
  | [] => Ok false
  | sig =>
      match mf_developer_peer_id (ls_manifest l) with
      | None => Ok false
      | Some ps =>
          match peer_parse ps with
          | None => Err "invalid peer_id in manifest"%string
          | Some peer_id =>
              bytes ← listing_signable_bytes l;
              match inline_key peer_id with
              | None => Ok false
              | Some pk => Ok (pk_verify pk bytes sig)
              end
          end
      end
  end.

Definition listing_from_manifest_and_bundle (m : MiniAppManifest) (bundle_bytes : list byte)
    (sources : list AppSource) (kp : Keypair) (now : Z) : anyhow AppStoreListing :=
  listing_new_signed m bundle_bytes sources kp now.

(** ** Revocations *)

Definition revocation_signable_bytes (r : RevocationGossip) : list byte :=
  as_bytes (rv_app_id r) ++ as_bytes (rv_reason r) ++ le_bytes 8 (rv_revoked_at_ms r) ++ as_bytes (rv_curator_peer_id r).

Definition revocation_new_signed (app_id reason curator : string) (kp : Keypair) (now : Z) : anyhow RevocationGossip :=
  let r := mkRevocation app_id reason now curator [] in
  sig ← kp_sign kp (revocation_signable_bytes r);
  Ok (mkRevocation app_id reason now curator sig).

Definition revocation_verify_signature (r : RevocationGossip) : anyhow bool :=
  match peer_parse (rv_curator_peer_id r) with
  | None => Err "invalid curator_peer_id"%string
  | Some peer_id =>
      match inline_key peer_id with
      | None => Ok false
      | Some pk => Ok (pk_verify pk (revocation_signable_bytes r) (rv_signature r))
      end
  end.

Definition snapshot_is_revoked (s : RevocationSnapshot) (app_id : string) : bool :=
  bool_decide (app_id ∈ rs_revoked_app_ids s).
End bundles.

Definition forced_safe_mode (s : Z) : bool := s <? SCORE_FORCE_SAFE.
Definition suggest_safe_mode (s : Z) : bool := (SCORE_FORCE_SAFE <=? s) && (s <? SCORE_SUGGEST_SAFE).

Definition version_parts (v : string) : Z * Z * Z :=
  let nums := (fun s => default 0 (parse_uint 64 s)) <$> split_on dot v in
  (default 0 (nums !! 0%nat), default 0 (nums !! 1%nat), default 0 (nums !! 2%nat)).

(** [parts(incoming) < parts(installed)] *)
Definition is_downgrade (installed incoming : string) : bool :=
  let '(a, b, c) := version_parts incoming in
  let '(x, y, z) := version_parts installed in
  (a <? x) || ((a =? x) && ((b <? y) || ((b =? y) && (c <? z)))).
