(* ===== verification/MiniAppStore.v ===== *)
(** * The mini-app store

    The operations of [AppStore] ([store.rs], [install_policy.rs],
    [bundled_listings.rs]) and of the modules that share its database
    ([revocation.rs], [reputation.rs], [prefs.rs], [policy.rs]). *)

From S2P Require Import Prelude External Text Instances Host Wire AppStorage Proximity MiniApp.

Open Scope Z_scope.

Section app_store.
Context `{C : Crypto} `{D : Sled} `{DB : !SledDb} `{SC : MiniCodecs} `{ZP : Zip} `{L : Lowercase}.

Abbreviation db_op := (ST Db).

Definition read_tree {A} (name : string) (f : Tree -> anyhow A) : db_op A :=
  d ← st_get;
  t ← st_lift (db_open_tree d name);
  st_lift (f t).

Definition write_tree (name : string) (f : Tree -> anyhow Tree) : db_op unit :=
  d ← st_get;
  t ← st_lift (db_open_tree d name);
  t' ← st_lift (f t);
  st_put (db_put d name t').

(** a JSON row, and its replacement *)
Definition get_json {A} `{Serde A} (key : string) (t : Tree) : anyhow (option A) :=
  o ← tree_get t key;
  match o with Some b => a ← from_json b; Ok (Some a) | None => Ok None end.

Definition put_json {A} `{Serde A} (key : string) (a : A) (t : Tree) : anyhow Tree :=
  b ← to_json a;
  tree_insert t key b.

(** every row of a tree that parses *)
Definition json_rows {A} `{Serde A} (t : Tree) : anyhow (list A) :=
  match tree_iter t with
  | Ok rows => Ok (omap (fun kv : string * list byte => of_res (from_json kv.2)) rows)
  | Err e => Err e
  end.

(** ** [revocation.rs] *)

Definition load_revocations : db_op RevocationSnapshot :=
  o ← read_tree "miniapp_revocations" (get_json "snapshot");
  mret (default rev_default o).

Definition save_revocations (s : RevocationSnapshot) : db_op unit :=
  write_tree "miniapp_revocations" (put_json "snapshot" s).

Definition push_id (id : string) (ids : list string) : list string :=
  if decide (id ∈ ids) then ids else ids ++ [id].

Definition revoke_app (app_id : string) (now : Z) : db_op unit :=
  snap ← load_revocations;
  save_revocations (mkRevSnap (push_id app_id (rs_revoked_app_ids snap)) now).

Definition is_app_revoked (app_id : string) : db_op bool :=
  snap ← load_revocations;
  mret (snapshot_is_revoked snap app_id).

Definition merge_ids (bundled ids : list string) : list string := foldl (fun acc id => push_id id acc) ids bundled.

(** [bundled] is the parsed asset *)
Definition merge_bundled_defaults (bundled : anyhow RevocationSnapshot) (now : Z) : db_op nat :=
  b ← st_lift bundled;
  if decide (rs_revoked_app_ids b = []) then mret 0%nat else
  snap ← load_revocations;
  let ids := merge_ids (rs_revoked_app_ids b) (rs_revoked_app_ids snap) in
  let added := (length ids - length (rs_revoked_app_ids snap))%nat in
  if decide (added = 0%nat) then mret 0%nat else
  _ ← save_revocations (mkRevSnap ids now);
  mret added.

(** ** [reputation.rs] *)

Definition rep_load (app_id : string) : db_op AppReputation :=
  o ← read_tree "miniapp_reputation" (get_json app_id);
  mret (default app_rep_default o).

Definition rep_save (app_id : string) (r : AppReputation) : db_op unit :=
  write_tree "miniapp_reputation" (put_json app_id r).

Definition apply_delta (app_id : string) (delta now : Z) : db_op AppReputation :=
  rep ← rep_load app_id;
  let r := mkAppRep (Z.max 0 (Z.min 100 (rep_score rep + delta))) now in
  _ ← rep_save app_id r;
  mret r.

Definition trust_delta (t : InstallTrustLevel) : Z :=
  match t with
  | LVerifiedListing => 20
  | LMatchingListingHash => 5
  | LSideloadOnly => -15
  | LHashMismatch => -25
  end.

Definition record_install_trust (app_id : string) (t : InstallTrustLevel) (now : Z) : db_op unit :=
  _ ← apply_delta app_id (trust_delta t) now; mret tt.
Definition record_user_report (app_id : string) (now : Z) : db_op AppReputation := apply_delta app_id (-30) now.
Definition record_revocation_hit (app_id : string) (now : Z) : db_op AppReputation := apply_delta app_id (-100) now.
Definition record_bridge_anomaly (app_id : string) (now : Z) : db_op unit := _ ← apply_delta app_id (-25) now; mret tt.

Definition ingest_gossip_revocation (entry : RevocationGossip) (now : Z) : db_op bool :=
  ok ← st_lift (revocation_verify_signature entry);
  if negb ok then mret false else
  _ ← revoke_app (rv_app_id entry) now;
  _ ← record_revocation_hit (rv_app_id entry) now;
  mret true.

(** ** [prefs.rs] *)

Definition prefs_load (app_id : string) : db_op AppPrefs :=
  o ← read_tree "miniapp_prefs" (get_json app_id);
  mret (default (mkPrefs false) o).

Definition set_safe_mode (app_id : string) (enabled : bool) : db_op unit :=
  _ ← prefs_load app_id;
  write_tree "miniapp_prefs" (put_json app_id (mkPrefs enabled)).

Definition effective_safe_mode (app_id : string) : db_op bool :=
  prefs ← prefs_load app_id;
  if pr_safe_mode prefs then mret true else
  rep ← rep_load app_id;
  mret (forced_safe_mode (rep_score rep)).

(** ** [store.rs] *)

Definition files_tree (app_id : string) : string := ("app_files:" +:+ app_id)%string.

Fixpoint insert_files (files : list (string * list byte)) (t : Tree) : Tree * anyhow unit :=
  match files with
  | [] => (t, Ok tt)
  | (path, data) :: files =>
      match tree_insert t path data with
      | Ok t' => insert_files files t'
      | Err e => (t, Err e)
      end
  end.

Definition store_install (bundle_bytes : list byte) : db_op MiniAppManifest :=
  bundle ← st_lift (load_from_bytes bundle_bytes);
  if 10 * 1024 * 1024 <? total_size bundle then st_err "app bundle exceeds 10 MB limit" else
  let manifest := bu_manifest bundle in
  _ ← write_tree "installed_apps" (put_json (mf_id manifest) manifest);
  d ← st_get;
  t ← st_lift (db_open_tree d (files_tree (mf_id manifest)));
  let '(t', r) := insert_files (map_to_list (bu_files bundle)) t in
  _ ← st_put (db_put d (files_tree (mf_id manifest)) t');
  _ ← st_lift r;
  mret manifest.

(** [drop_tree] removes every row *)
Definition uninstall (app_id : string) : db_op unit :=
  _ ← write_tree "installed_apps" (fun t => tree_remove t app_id);
  st_modify (fun d => db_put d (files_tree app_id) tree_new).

Definition installed_apps : db_op (list MiniAppManifest) :=
  read_tree "installed_apps" json_rows.

Definition store_get_file (app_id path : string) : db_op (option (list byte)) :=
  read_tree (files_tree app_id) (fun t => tree_get t path).

Definition get_manifest (app_id : string) : db_op (option MiniAppManifest) :=
  read_tree "installed_apps" (get_json app_id).

Definition cache_listing (l : AppStoreListing) : db_op unit :=
  write_tree "app_listings" (put_json (mf_id (ls_manifest l)) l).

Definition browse_listings : db_op (list AppStoreListing) :=
  read_tree "app_listings" (fun t =>
    ls ← json_rows t;
    Ok (sort_by (key_desc ls_updated_at_ms) ls)).

Definition has_id (app_id : string) (l : AppStoreListing) : Prop := mf_id (ls_manifest l) = app_id.
Global Instance has_id_dec app_id l : Decision (has_id app_id l).
Proof. unfold has_id. apply _. Defined.

Definition find_listing (app_id : string) : db_op (option AppStoreListing) :=
  ls ← browse_listings;
  mret (snd <$> list_find (has_id app_id) ls).

(** ** [policy.rs] *)

Record MiniAppPolicy := mkMiniPolicy {
  mp_app_id : string;
  mp_reputation_score : Z;
  mp_safe_mode_active : bool;
  mp_safe_mode_forced : bool;
  mp_safe_mode_suggested : bool;
  mp_user_safe_mode : bool;
  mp_revoked : bool;
  mp_strict_csp_eligible : bool;
}.

(** the HTML of the installed entry page, if all of it is readable *)
Definition installed_entry_html (app_id : string) (d : Db) : option string :=
  match (get_manifest app_id d).2 with
  | Ok (Some m) => match (store_get_file app_id (mf_entry m) d).2 with
                   | Ok (Some bytes) => from_utf8 bytes
                   | _ => None
                   end
  | _ => None
  end.

Definition policy_load_with_store (app_id : string) (with_store : bool) : db_op MiniAppPolicy :=
  rep ← rep_load app_id;
  prefs ← prefs_load app_id;
  let user_safe := pr_safe_mode prefs in
  let forced := forced_safe_mode (rep_score rep) in
  let suggested := suggest_safe_mode (rep_score rep) in
  revoked ← is_app_revoked app_id;
  d ← st_get;
  let strict := match (if with_store then installed_entry_html app_id d else None) with
                | Some html => negb (html_has_inline_script html)
                | None => false
                end in
  mret (mkMiniPolicy app_id (rep_score rep) (user_safe || forced) forced
          (suggested && negb user_safe && negb forced) user_safe revoked strict).

(** ** [install_policy.rs] *)

Record InstallPreview := mkPreview {
  ip_manifest : MiniAppManifest;
  ip_bundle_hash : string;
  ip_trust_level : InstallTrustLevel;
  ip_listing_signature_ok : bool;
  ip_installed_version : option string;
  ip_is_downgrade : bool;
  ip_has_inline_script : bool;
  ip_strict_csp_eligible : bool;
  ip_bundle_signature_ok : bool;
  ip_reproducible_attested : bool;
}.

Definition entry_has_inline_script (m : MiniAppManifest) (b : MiniAppBundle) : bool :=
  match bundle_get_file b (mf_entry m) with
  | None => false
  | Some bytes => match from_utf8 bytes with
                  | None => false
                  | Some html => html_has_inline_script html
                  end
  end.

(** the trust level of a hash against a cached listing *)
Definition trust_of (listing : option AppStoreListing) (hash : string) : bool * InstallTrustLevel :=
  match listing with
  | None => (false, LSideloadOnly)
  | Some l =>
      if decide (ls_bundle_hash l = hash) then
        let ok := match listing_verify_signature l with Ok b => b | Err _ => false end in
        (ok, if ok then LVerifiedListing else LMatchingListingHash)
      else (false, LHashMismatch)
  end.

Definition preview_install (bundle_bytes : list byte) : db_op InstallPreview :=
  bundle ← st_lift (load_from_bytes bundle_bytes);
  _ ← st_lift (scan_bundle bundle bundle_bytes);
  let manifest := bu_manifest bundle in
  revoked ← is_app_revoked (mf_id manifest);
  if (revoked : bool) then st_err ("app id is revoked: " +:+ mf_id manifest)%string else
  if 10 * 1024 * 1024 <? total_size bundle then st_err "app bundle exceeds 10 MB limit" else
  let hash := bundle_hash_hex bundle_bytes in
  let has_inline_script := entry_has_inline_script manifest bundle in
  installed ← get_manifest (mf_id manifest);
  let installed_version := mf_version <$> installed in
  listing ← find_listing (mf_id manifest);
  let '(sig_ok, level) := trust_of listing hash in
  let down := match installed_version with Some v => is_downgrade v (mf_version manifest) | None => false end in
  content_hash ← st_lift (content_attestation_hash bundle);
  bundle_sig_ok ← st_lift (verify_bundle_developer_signature bundle bundle_bytes);
  mret (mkPreview manifest hash level sig_ok installed_version down has_inline_script
          (negb has_inline_script) bundle_sig_ok (reproducible_attests_hash manifest content_hash)).

(** the table of trust requested against trust found *)
Definition trust_gate (trust : InstallTrust) (p : InstallPreview) : anyhow unit :=
  match trust, ip_trust_level p with
  | VerifiedListing, LVerifiedListing => Ok tt
  | VerifiedListing, LMatchingListingHash =>
      Err ("listing signature invalid for " +:+ mf_id (ip_manifest p) +:+ "; install blocked in verified mode")%string
  | VerifiedListing, _ => Err "bundle not verified against signed listing"%string
  | SideloadAcknowledged, LHashMismatch => Err "bundle hash does not match cached store listing"%string
  | SideloadAcknowledged, LVerifiedListing => Ok tt
  | SideloadAcknowledged, LMatchingListingHash => Ok tt
  | SideloadAcknowledged, LSideloadOnly =>
      if ip_bundle_signature_ok p then Ok tt
      else Err "sideload requires valid mycelium-bundle.sig.json signed by developer_peer_id (SD-041)"%string
  end.

Definition install_verified (bundle_bytes : list byte) (trust : InstallTrust) (allow_downgrade : bool) (now : Z)
    : db_op MiniAppManifest :=
  preview ← preview_install bundle_bytes;
  _ ← st_lift (trust_gate trust preview);
  if ip_is_downgrade preview && negb allow_downgrade && bool_decide (is_Some (ip_installed_version preview))
  then st_err "downgrade blocked" else
  manifest ← store_install bundle_bytes;
  _ ← st_ignore (record_install_trust (mf_id manifest) (ip_trust_level preview) now);
  mret manifest.

(** ** [bundled_listings.rs] *)

Fixpoint merge_listings (bundled : list AppStoreListing) (merged : nat) : db_op nat :=
  match bundled with
  | [] => mret merged
  | l :: bundled =>
      ok ← st_lift (listing_verify_signature l);
      if negb ok then merge_listings bundled merged else
      ls ← browse_listings;
      let existing := snd <$> list_find (has_id (mf_id (ls_manifest l))) ls in
      if match existing with Some e => ls_updated_at_ms e <=? ls_updated_at_ms l | None => true end then
        _ ← cache_listing l;
        merge_listings bundled (S merged)
      else merge_listings bundled merged
  end.

Definition merge_bundled_listings (bundled : anyhow (list AppStoreListing)) : db_op nat :=
  ls ← st_lift bundled;
  merge_listings ls 0.

(** [AppStore::open] after the database is open: the two merges, whose errors
    are only logged *)
Definition store_open (revs : anyhow RevocationSnapshot) (listings : anyhow (list AppStoreListing)) (now : Z)
    : db_op unit :=
  _ ← st_ignore (merge_bundled_defaults revs now);
  st_ignore (merge_bundled_listings listings).

Definition install_official_bundle (bundle : option (list byte)) (app_id : string) (now : Z) : db_op MiniAppManifest :=
  match bundle with
  | None => st_err ("no bundled bytes for " +:+ app_id)%string
  | Some bytes => install_verified bytes VerifiedListing false now
  end.
End app_store.
