(* ===== verification/MiniAppTheorems.v ===== *)
(** * Properties of the mini-app store

    What a successful installation implies, that a revocation is final, the
    range of reputation scores, and the agreement of the two safe-mode views. *)

From S2P Require Import Prelude External Text Instances Host Wire AppStorage Proximity MiniApp MiniAppStore.

Open Scope Z_scope.

Section store_lemmas.
Context `{C : Crypto} `{D : Sled} {DL : SledLaws D} `{DB : !SledDb} {DBL : SledDbLaws DB}.
Context `{SC : MiniCodecs} {SL : MiniCodecLaws SC} `{ZP : Zip} `{L : Lowercase}.
Implicit Types d : Db.

Abbreviation view d n := (tree_view (db_view d n)).

Lemma read_tree_eq {A} n (f : Tree -> anyhow A) d : read_tree n f d = (d, f (db_view d n)).
Proof.
  unfold read_tree. erewrite ST_bind_Ok; [|reflexivity].
  by rewrite (ST_bind_lift _ _ _ _ (db_open_view _ _)).
Qed.

Lemma write_tree_ok n f d t' :
  f (db_view d n) = Ok t' -> write_tree n f d = (db_put d n t', Ok tt).
Proof.
  intros Hf. unfold write_tree. erewrite ST_bind_Ok; [|reflexivity].
  rewrite (ST_bind_lift _ _ _ _ (db_open_view _ _)). by rewrite (ST_bind_lift _ _ _ _ Hf).
Qed.

(** [write_tree] touches one tree, and only when it succeeds *)
Lemma write_tree_inv n f d d' r :
  write_tree n f d = (d', r) -> d' = d \/ exists t', f (db_view d n) = Ok t' /\ d' = db_put d n t'.
Proof.
  unfold write_tree. erewrite ST_bind_Ok; [|reflexivity].
  rewrite (ST_bind_lift _ _ _ _ (db_open_view _ _)). unfold mbind, ST_bind, st_lift.
  destruct (f (db_view d n)) as [t'|e]; cbn; intros [= <- _]; eauto.
Qed.

Lemma put_json_ok {A} `{Sa : Serde A} {La : SerdeLaws Sa} key (a : A) t :
  exists t' b, put_json key a t = Ok t' /\ from_json b = Ok a /\ tree_view t' = <[key := b]> (tree_view t).
Proof.
  unfold put_json. destruct (to_json_total a) as [b Hb]. rewrite Hb. cbn [mbind Res_bind].
  destruct (tree_insert_view t key b) as (t' & Hi & Hv). exists t', b.
  split_and!; [done|by apply from_to_json|done].
Qed.

Lemma get_json_view {A} `{Sa : Serde A} key t b (a : A) :
  tree_view t !! key = Some b -> from_json b = Ok a -> get_json key t = Ok (Some a).
Proof. intros Hb Ha. unfold get_json. rewrite tree_get_view, Hb. cbn. by rewrite Ha. Qed.

Lemma get_json_none {A} `{Sa : Serde A} key t :
  tree_view t !! key = None -> get_json (A := A) key t = Ok None.
Proof. intros Hb. unfold get_json. by rewrite tree_get_view, Hb. Qed.

(** A JSON row written is the row read. *)
Lemma write_json {A} `{Sa : Serde A} {La : SerdeLaws Sa} n key (a : A) d :
  exists d', write_tree n (put_json key a) d = (d', Ok tt)
    /\ get_json key (db_view d' n) = Ok (Some a)
    /\ (forall k, k ≠ key -> view d' n !! k = view d n !! k)
    /\ (forall n', n' ≠ n -> db_view d' n' = db_view d n').
Proof.
  destruct (put_json_ok key a (db_view d n)) as (t' & b & Hp & Hb & Hv). exists (db_put d n t').
  split_and!; [by apply write_tree_ok| | |].
  - rewrite db_put_view, decide_True by done. apply (get_json_view _ _ b); [|done].
    by rewrite Hv, lookup_insert_eq.
  - intros k Hk. by rewrite db_put_view, decide_True, Hv, lookup_insert_ne by done.
  - intros n' Hn. by rewrite db_put_view, decide_False.
Qed.

(** An operation that only writes the tree [n]. *)
Definition only {A} (n : string) (m : ST Db A) : Prop :=
  forall d n', n' ≠ n -> db_view (m d).1 n' = db_view d n'.

Lemma only_bind {A B} n (m : ST Db A) (f : A -> ST Db B) : only n m -> (forall a, only n (f a)) -> only n (m ≫= f).
Proof.
  intros Hm Hf d n' Hn. unfold mbind, ST_bind. pose proof (Hm d n' Hn) as H.
  destruct (m d) as [d1 [a|e]]; [|done]. cbn in H. by rewrite Hf.
Qed.

Lemma only_read {A} n n' (f : Tree -> anyhow A) : only n (read_tree n' f).
Proof. intros d x Hx. by rewrite read_tree_eq. Qed.

Lemma only_write n f : only n (write_tree n f).
Proof.
  intros d n' Hn. destruct (write_tree n f d) as [d' r] eqn:E. cbn.
  destruct (write_tree_inv _ _ _ _ _ E) as [->|(t' & _ & ->)]; [done|].
  by rewrite db_put_view, decide_False by congruence.
Qed.

Lemma only_ret {A} n (a : A) : only n (mret a).
Proof. done. Qed.

Lemma only_delta n app delta now : n = "miniapp_reputation"%string -> only n (apply_delta app delta now).
Proof.
  intros ->. unfold apply_delta, rep_load, rep_save.
  repeat first [apply only_read | apply only_write | apply only_ret | apply only_bind | intros ?].
Qed.

Lemma only_trust app t now : only "miniapp_reputation" (record_install_trust app t now).
Proof. unfold record_install_trust. apply only_bind; [by apply only_delta|intros; apply only_ret]. Qed.

(** ** Reading back *)

Lemma get_manifest_eq app d : get_manifest app d = (d, get_json app (db_view d "installed_apps")).
Proof. apply read_tree_eq. Qed.

Lemma load_revocations_eq d :
  load_revocations d = (d, o ← get_json (A := RevocationSnapshot) "snapshot" (db_view d "miniapp_revocations");
                           Ok (default rev_default o)).
Proof.
  unfold load_revocations, mbind, ST_bind. rewrite read_tree_eq.
  by destruct (get_json "snapshot" (db_view d "miniapp_revocations")).
Qed.

Lemma is_app_revoked_eq app d :
  is_app_revoked app d = (d, o ← get_json (A := RevocationSnapshot) "snapshot" (db_view d "miniapp_revocations");
                             Ok (snapshot_is_revoked (default rev_default o) app)).
Proof.
  unfold is_app_revoked. unfold mbind at 1, ST_bind at 1. rewrite load_revocations_eq.
  by destruct (get_json "snapshot" (db_view d "miniapp_revocations")).
Qed.

Lemma find_listing_pure app d d' o : find_listing app d = (d', Ok o) -> d' = d.
Proof.
  unfold find_listing, browse_listings. intros (d1 & l & H & [= <- _])%ST_bind_inv.
  rewrite read_tree_eq in H. by injection H as <- _.
Qed.

Lemma find_listing_id app d l : find_listing app d = (d, Ok (Some l)) -> mf_id (ls_manifest l) = app.
Proof.
  unfold find_listing. intros (d1 & ls & _ & [= _ H])%ST_bind_inv.
  destruct (list_find (has_id app) ls) as [[i l']|] eqn:E; [|done]. injection H as <-.
  by apply list_find_Some in E as (_ & ? & _).
Qed.

(** ** Previews *)

(** everything a preview establishes *)
Lemma preview_inv bytes d d' p :
  preview_install bytes d = (d', Ok p) ->
  d' = d /\ exists b listing installed,
    load_from_bytes bytes = Ok b /\ ip_manifest p = bu_manifest b /\ scan_bundle b bytes = Ok tt
    /\ total_size b <= 10 * 1024 * 1024
    /\ is_app_revoked (mf_id (bu_manifest b)) d = (d, Ok false)
    /\ get_manifest (mf_id (bu_manifest b)) d = (d, Ok installed)
    /\ find_listing (mf_id (bu_manifest b)) d = (d, Ok listing)
    /\ ip_trust_level p = (trust_of listing (bundle_hash_hex bytes)).2
    /\ verify_bundle_developer_signature b bytes = Ok (ip_bundle_signature_ok p)
    /\ ip_installed_version p = mf_version <$> installed
    /\ ip_is_downgrade p = match installed with
                           | Some m0 => is_downgrade (mf_version m0) (mf_version (bu_manifest b))
                           | None => false end.
Proof.
  unfold preview_install. intros (d1 & b & [= <- Hb] & H)%ST_bind_inv.
  apply ST_bind_inv in H as (d1 & [] & [= <- Hs] & H).
  apply ST_bind_inv in H as (d1 & rev & Hr & H).
  assert (d1 = d) as -> by (rewrite is_app_revoked_eq in Hr; by injection Hr as <- _).
  destruct rev; [done|]. destruct (10 * 1024 * 1024 <? total_size b) eqn:Ez; [done|].
  apply ST_bind_inv in H as (d1 & inst & Hi & H).
  assert (d1 = d) as -> by (rewrite get_manifest_eq in Hi; by injection Hi as <- _).
  apply ST_bind_inv in H as (d1 & lst & Hl & H). apply find_listing_pure in Hl as E1. subst d1.
  destruct (trust_of lst (bundle_hash_hex bytes)) as [sig_ok level] eqn:Et.
  apply ST_bind_inv in H as (d1 & ch & [= <- _] & H). apply ST_bind_inv in H as (d1 & bs & [= <- Hbs] & H).
  injection H as <- <-. split; [done|]. exists b, lst, inst. cbn. rewrite Et.
  split_and!; try done; [by apply Z.ltb_ge in Ez|by destruct inst].
Qed.

(** a preview reads *)
Lemma preview_pure bytes d d' r : preview_install bytes d = (d', r) -> d' = d.
Proof.
  assert (keeps (eq d) (preview_install bytes)) as H; [|intros E; specialize (H d eq_refl); by rewrite E in H].
  assert (forall A n (f : Tree -> anyhow A), keeps (eq d) (read_tree n f)) as Hr by (intros A n f x <-; by rewrite read_tree_eq).
  unfold preview_install, is_app_revoked, load_revocations, get_manifest, find_listing, browse_listings.
  keeps_auto; by apply Hr.
Qed.

Lemma insert_files_spec files t :
  NoDup files.*1 ->
  exists t', insert_files files t = (t', Ok tt)
    /\ (forall p x, (p, x) ∈ files -> tree_view t' !! p = Some x)
    /\ (forall p, p ∉ files.*1 -> tree_view t' !! p = tree_view t !! p).
Proof.
  revert t. induction files as [|[p x] files IH]; intros t Hnd; cbn [insert_files].
  { exists t. split_and!; [done| |done]. by intros ? ? ?%not_elem_of_nil. }
  cbn in Hnd. apply NoDup_cons in Hnd as [Hp Hnd].
  destruct (tree_insert_view t p x) as (t1 & -> & Hv). destruct (IH t1 Hnd) as (t' & -> & Hin & Hout).
  exists t'. split_and!; [done| |].
  - intros q y [[= -> ->]|Hq]%elem_of_cons; [|by apply Hin].
    rewrite Hout, Hv by done. apply lookup_insert_eq.
  - intros q Hq. cbn in Hq. apply not_elem_of_cons in Hq as [Hne Hq]. rewrite Hout, Hv by done.
    by rewrite lookup_insert_ne.
Qed.

Lemma files_tree_other id n : n ∈ ["installed_apps"; "app_listings"; "miniapp_revocations"; "miniapp_reputation"; "miniapp_prefs"]%string ->
  n ≠ files_tree id.
Proof. intros H E. subst n. unfold files_tree in H. cbn in H. rewrite !elem_of_cons, elem_of_nil in H.
  repeat destruct H as [H|H]; done.
Qed.

(** What [install] writes: the manifest, the files, and nothing else. *)
Lemma store_install_spec bytes b d :
  load_from_bytes bytes = Ok b -> total_size b <= 10 * 1024 * 1024 ->
  exists d', store_install bytes d = (d', Ok (bu_manifest b))
    /\ get_manifest (mf_id (bu_manifest b)) d' = (d', Ok (Some (bu_manifest b)))
    /\ (forall p x, bu_files b !! p = Some x -> store_get_file (mf_id (bu_manifest b)) p d' = (d', Ok (Some x)))
    /\ (forall p, bu_files b !! p = None ->
          (store_get_file (mf_id (bu_manifest b)) p d').2 = (store_get_file (mf_id (bu_manifest b)) p d).2)
    /\ (forall n, n ≠ "installed_apps"%string -> n ≠ files_tree (mf_id (bu_manifest b)) -> db_view d' n = db_view d n).
Proof.
  intros Hb Hz. set (m := bu_manifest b). set (ft := files_tree (mf_id m)).
  assert ("installed_apps"%string ≠ ft) as Hft by (apply files_tree_other; left).
  destruct (write_json "installed_apps" (mf_id m) m d) as (d1 & Hw & Hg & _ & Hoth).
  destruct (insert_files_spec (map_to_list (bu_files b)) (db_view d1 ft)) as (t' & Hi & Hin & Hout);
    [apply NoDup_fst_map_to_list|].
  exists (db_put d1 ft t'). split_and!.
  - unfold store_install. rewrite (ST_bind_lift _ _ _ _ Hb).
    rewrite (proj2 (Z.ltb_ge _ _) Hz). fold m. rewrite (ST_bind_Ok _ _ _ _ _ Hw).
    erewrite ST_bind_Ok; [|reflexivity]. rewrite (ST_bind_lift _ _ _ _ (db_open_view _ _)). fold ft. by rewrite Hi.
  - rewrite get_manifest_eq, db_put_view, decide_False by congruence. by rewrite Hg.
  - intros p x Hp. unfold store_get_file. rewrite read_tree_eq. fold m ft.
    rewrite db_put_view, decide_True, tree_get_view by done. rewrite (Hin p x); [done|].
    by apply elem_of_map_to_list.
  - intros p Hp. unfold store_get_file. rewrite !read_tree_eq. fold m ft. cbn [snd].
    rewrite db_put_view, decide_True, !tree_get_view by done.
    rewrite Hout; [by rewrite Hoth by congruence|].
    intros ((? & x) & -> & Hx%elem_of_map_to_list)%list_elem_of_fmap. cbn in Hp. by rewrite Hp in Hx.
  - intros n Hn1 Hn2. rewrite db_put_view, decide_False by congruence. by apply Hoth.
Qed.

(** ** Installation *)

(** The trust a successful installation rests on: a cached listing of the same
    id and hash, signed when verified mode is asked for; otherwise, and only
    when no listing is cached, the developer's signature in the bundle. *)
Definition backed (trust : InstallTrust) (b : MiniAppBundle) (bytes : list byte) (listing : option AppStoreListing) : Prop :=
  match trust, listing with
  | VerifiedListing, Some l => ls_bundle_hash l = bundle_hash_hex bytes /\ listing_verify_signature l = Ok true
  | VerifiedListing, None => False
  | SideloadAcknowledged, Some l => ls_bundle_hash l = bundle_hash_hex bytes
  | SideloadAcknowledged, None => verify_bundle_developer_signature b bytes = Ok true
  end.

Lemma trust_gate_backed trust p b bytes listing :
  trust_gate trust p = Ok tt -> ip_trust_level p = (trust_of listing (bundle_hash_hex bytes)).2 ->
  verify_bundle_developer_signature b bytes = Ok (ip_bundle_signature_ok p) ->
  backed trust b bytes listing.
Proof.
  unfold trust_gate, trust_of. intros Hg Hl Hs. destruct listing as [l|]; cbn in *.
  - destruct (decide (ls_bundle_hash l = bundle_hash_hex bytes)) as [E|E]; cbn in Hl.
    + destruct trust; cbn; [|done]. split; [done|].
      destruct (listing_verify_signature l) as [[]|]; rewrite Hl in Hg; done.
    + rewrite Hl in Hg. by destruct trust.
  - rewrite Hl in Hg. destruct trust; cbn; [done|]. by destruct (ip_bundle_signature_ok p).
Qed.

(** C23. [mf_id] of an installed bundle, its files and the version it replaces *)
Theorem install_verified_sound bytes trust allow now d d' m :
  install_verified bytes trust allow now d = (d', Ok m) ->
  exists b listing,
    load_from_bytes bytes = Ok b /\ m = bu_manifest b
    /\ scan_bundle b bytes = Ok tt /\ is_app_revoked (mf_id m) d = (d, Ok false)
    /\ find_listing (mf_id m) d = (d, Ok listing) /\ backed trust b bytes listing
    /\ (allow = false -> forall m0, get_manifest (mf_id m) d = (d, Ok (Some m0)) ->
          is_downgrade (mf_version m0) (mf_version m) = false)
    /\ get_manifest (mf_id m) d' = (d', Ok (Some m))
    /\ (forall p x, bu_files b !! p = Some x -> store_get_file (mf_id m) p d' = (d', Ok (Some x))).
Proof.
  unfold install_verified. intros (d1 & p & Hp & H)%ST_bind_inv.
  apply preview_inv in Hp as (-> & b & lst & inst & Hb & Hm & Hs & Hz & Hr & Hi & Hl & Htl & Hsig & Hv & Hdg).
  apply ST_bind_inv in H as (d1 & [] & [= <- Hg] & H).
  destruct (ip_is_downgrade p && negb allow && bool_decide (is_Some (ip_installed_version p))) eqn:Ed; [done|].
  destruct (store_install_spec _ _ d Hb Hz) as (d1 & Hst & Hgm & Hf & _ & _).
  rewrite (ST_bind_Ok _ _ _ _ _ Hst) in H. erewrite ST_bind_Ok in H by reflexivity. injection H as <- <-.
  pose proof (only_trust (mf_id (bu_manifest b)) (ip_trust_level p) now d1) as Hk.
  exists b, lst. split_and!; try done.
  - by eapply trust_gate_backed.
  - intros -> m0 E. rewrite E in Hi. injection Hi as <-. cbn in Hv. cbv iota beta in Hdg. rewrite <- Hdg.
    rewrite Hv, bool_decide_eq_true_2 in Ed by done. by destruct (ip_is_downgrade p).
  - rewrite get_manifest_eq in Hgm |- *. cbn. rewrite Hk by done. by injection Hgm as ->.
  - intros q x Hq. specialize (Hf q x Hq). unfold store_get_file in Hf |- *. rewrite read_tree_eq in Hf |- *.
    cbn. rewrite Hk by (apply not_eq_sym, files_tree_other; set_solver). by injection Hf as ->.
Qed.

(** ** The operations and the trees they touch *)

(** a property of one tree *)
Definition local (n : string) (I : Db -> Prop) : Prop := forall d d', db_view d' n = db_view d n -> I d -> I d'.

Lemma keeps_other {A} n' n I (m : ST Db A) : local n I -> n' ≠ n -> only n' m -> keeps I m.
Proof. intros Hl Hn Ho d Hd. apply (Hl d); [|done]. apply Ho. congruence. Qed.

Lemma only_ignore {A} n (m : ST Db A) : only n m -> only n (st_ignore m).
Proof. intros Hm d n' Hn. by apply Hm. Qed.

Lemma only_prefs app b : only "miniapp_prefs" (set_safe_mode app b).
Proof.
  unfold set_safe_mode, prefs_load.
  repeat first [apply only_read | apply only_write | apply only_ret | apply only_bind | intros ?].
Qed.

Lemma only_revoke app now : only "miniapp_revocations" (revoke_app app now).
Proof.
  unfold revoke_app, load_revocations, save_revocations.
  repeat first [apply only_read | apply only_write | apply only_ret | apply only_bind | intros ?].
Qed.

Lemma only_defaults b now : only "miniapp_revocations" (merge_bundled_defaults b now).
Proof.
  unfold merge_bundled_defaults, load_revocations, save_revocations. apply only_bind; [done|intros s0].
  case_decide; [done|].
  apply only_bind; [apply only_bind; [apply only_read|done]|]. intros s. cbv zeta. case_decide; [done|].
  apply only_bind; [apply only_write|done].
Qed.

Lemma only_merge ls k : only "app_listings" (merge_listings ls k).
Proof.
  revert k. induction ls as [|l ls IH]; intros k; cbn [merge_listings]; [done|].
  apply only_bind; [done|intros ok]. destruct ok; cbn [negb]; [|apply IH].
  apply only_bind; [apply only_read|intros a]. cbv zeta. case_match; [|apply IH].
  apply only_bind; [apply only_write|intros ?]. apply IH.
Qed.

Lemma keeps_store_install n I bytes :
  local n I -> "installed_apps"%string ≠ n -> (forall id, files_tree id ≠ n) -> keeps I (store_install bytes).
Proof.
  intros Hl Hn1 Hn2. apply keeps_bind; [apply keeps_lift|intros b]. case_match; [apply keeps_err|].
  apply keeps_bind; [by eapply keeps_other; [..|apply only_write]|intros _].
  apply keeps_bind_eq; [apply keeps_get|]. intros d ? ? Hd [= <- <-] _.
  rewrite (ST_bind_lift _ _ _ _ (db_open_view _ _)).
  destruct (insert_files _ _) as [t' r]. erewrite ST_bind_Ok; [|reflexivity].
  assert (I (db_put d (files_tree (mf_id (bu_manifest b))) t')) as Hp.
  { apply (Hl d); [|done]. rewrite db_put_view, decide_False; [done|]. intros E. by apply (Hn2 (mf_id (bu_manifest b))). }
  by destruct r.
Qed.

Lemma keeps_uninstall n I id :
  local n I -> "installed_apps"%string ≠ n -> (forall id, files_tree id ≠ n) -> keeps I (uninstall id).
Proof.
  intros Hl Hn1 Hn2. apply keeps_bind; [by eapply keeps_other; [..|apply only_write]|intros _].
  apply keeps_modify. intros d Hd. apply (Hl d); [|done]. rewrite db_put_view, decide_False; [done|].
  intros E. by apply (Hn2 id).
Qed.

Lemma keeps_install_verified n I bytes trust allow now :
  local n I -> "installed_apps"%string ≠ n -> (forall id, files_tree id ≠ n) ->
  (forall app t, keeps I (record_install_trust app t now)) -> keeps I (install_verified bytes trust allow now).
Proof.
  intros Hl Hn1 Hn2 Hr. unfold install_verified. apply keeps_bind_eq.
  - intros d Hd. destruct (preview_install bytes d) as [d1 r] eqn:E.
    enough (d1 = d) as -> by done. by eapply preview_pure.
  - intros d d1 p _ _ Hd. revert d1 Hd. apply keeps_bind; [apply keeps_lift|intros _].
    case_match; [apply keeps_err|]. apply keeps_bind; [by eapply keeps_store_install|intros m].
    apply keeps_bind; [apply keeps_ignore, Hr|intros; apply keeps_ret].
Qed.

(** ** Revocation is final *)

Definition revoked (app : string) (d : Db) : Prop := is_app_revoked app d = (d, Ok true).

Lemma revoked_view app d d' :
  db_view d' "miniapp_revocations" = db_view d "miniapp_revocations" -> revoked app d -> revoked app d'.
Proof. unfold revoked. rewrite !is_app_revoked_eq. intros ->. intros [= ->]. done. Qed.

Lemma save_revocations_spec s d :
  exists d', save_revocations s d = (d', Ok tt)
    /\ (forall app, is_app_revoked app d' = (d', Ok (snapshot_is_revoked s app))).
Proof.
  destruct (write_json "miniapp_revocations" "snapshot" s d) as (d' & Hw & Hg & _). exists d'.
  split; [done|]. intros app. rewrite is_app_revoked_eq, Hg. done.
Qed.

Lemma revoked_load app d d1 s :
  revoked app d -> load_revocations d = (d1, Ok s) -> d1 = d /\ snapshot_is_revoked s app = true.
Proof.
  unfold revoked. rewrite is_app_revoked_eq, load_revocations_eq.
  destruct (get_json "snapshot" _) as [o|]; cbn; [|done]. by intros [= H] [= <- <-].
Qed.

(** replacing the snapshot by a larger one *)
Lemma keeps_save_larger app s d :
  snapshot_is_revoked s app = true -> revoked app (save_revocations s d).1.
Proof.
  intros Hs. destruct (save_revocations_spec s d) as (d' & -> & H). cbn. unfold revoked. by rewrite H, Hs.
Qed.

Lemma push_id_incl id ids x : x ∈ ids -> x ∈ push_id id ids.
Proof. unfold push_id. case_decide; set_solver. Qed.

Lemma push_id_in id ids : id ∈ push_id id ids.
Proof. unfold push_id. case_decide; set_solver. Qed.

Lemma merge_ids_incl bundled ids x : x ∈ ids -> x ∈ merge_ids bundled ids.
Proof. revert ids. induction bundled as [|b l IH]; intros ids H; [done|]. apply IH, push_id_incl, H. Qed.

Lemma keeps_revoke app id now : keeps (revoked app) (revoke_app id now).
Proof.
  apply keeps_bind_eq; [intros d Hd; by rewrite load_revocations_eq|].
  intros d d1 s Hd Hl _. destruct (revoked_load _ _ _ _ Hd Hl) as [-> Hs].
  apply keeps_save_larger. unfold snapshot_is_revoked in *.
  apply bool_decide_eq_true in Hs. apply bool_decide_eq_true_2. by apply push_id_incl.
Qed.

Lemma keeps_merge_defaults app b now : keeps (revoked app) (merge_bundled_defaults b now).
Proof.
  apply keeps_bind; [apply keeps_lift|intros s0]. case_decide; [apply keeps_ret|].
  apply keeps_bind_eq; [intros d Hd; by rewrite load_revocations_eq|].
  intros d d1 s Hd Hl _. destruct (revoked_load _ _ _ _ Hd Hl) as [-> Hs].
  cbv zeta. case_decide; [done|]. unfold mbind, ST_bind.
  pose proof (keeps_save_larger app (mkRevSnap (merge_ids (rs_revoked_app_ids s0) (rs_revoked_app_ids s)) now) d) as Hk.
  destruct (save_revocations _ d) as [d2 []]; apply Hk; unfold snapshot_is_revoked in *;
    apply bool_decide_eq_true in Hs; apply bool_decide_eq_true_2; by apply merge_ids_incl.
Qed.

(** ** Histories of the store *)

(** one operation on the store, from the screens, the mesh or a running app *)
Inductive store_step : Db -> Db -> Prop :=
| step_open revs listings now d : store_step d (store_open revs listings now d).1
| step_install bytes trust allow now d : store_step d (install_verified bytes trust allow now d).1
| step_raw_install bytes d : store_step d (store_install bytes d).1
| step_uninstall id d : store_step d (uninstall id d).1
| step_cache l d : store_step d (cache_listing l d).1
| step_revoke id now d : store_step d (revoke_app id now d).1
| step_gossip e now d : store_step d (ingest_gossip_revocation e now d).1
| step_safe_mode id b d : store_step d (set_safe_mode id b d).1
| step_report id now d : store_step d (record_user_report id now d).1
| step_anomaly id now d : store_step d (record_bridge_anomaly id now d).1.

(** An invariant of one tree, kept by the operations on that tree. *)
Lemma store_step_local n I :
  local n I -> "installed_apps"%string ≠ n -> "app_listings"%string ≠ n -> (forall id b, keeps I (set_safe_mode id b)) ->
  (forall id, files_tree id ≠ n) ->
  (forall id delta now, keeps I (apply_delta id delta now)) -> (forall id now, keeps I (revoke_app id now)) ->
  (forall b now, keeps I (merge_bundled_defaults b now)) ->
  forall d d', store_step d d' -> I d -> I d'.
Proof.
  intros Hl Hn1 Hn2 Hn3 Hn4 Hdelta Hrev Hdef d d' Hs.
  assert (forall app t now, keeps I (record_install_trust app t now)) as Htrust.
  { intros. unfold record_install_trust. by apply keeps_bind; [|intros; apply keeps_ret]. }
  destruct Hs; match goal with |- I _ -> I (?m _).1 => enough (keeps I m) as Hk by (apply Hk) end.
  - apply keeps_bind; [by apply keeps_ignore|intros _]. apply keeps_ignore, keeps_bind; [apply keeps_lift|intros ls].
    by eapply keeps_other; [..|apply only_merge].
  - by eapply keeps_install_verified.
  - by eapply keeps_store_install.
  - by eapply keeps_uninstall.
  - by eapply keeps_other; [..|apply only_write].
  - apply Hrev.
  - apply keeps_bind; [apply keeps_lift|intros ok]. destruct ok; cbn [negb]; [|apply keeps_ret].
    apply keeps_bind; [apply Hrev|intros _]. apply keeps_bind; [apply Hdelta|intros; apply keeps_ret].
  - apply Hn3.
  - apply Hdelta.
  - apply keeps_bind; [apply Hdelta|intros; apply keeps_ret].
Qed.

Lemma revoked_local app : local "miniapp_revocations" (revoked app).
Proof. intros d d'. apply revoked_view. Qed.

Lemma store_step_revoked app d d' : store_step d d' -> revoked app d -> revoked app d'.
Proof.
  apply (store_step_local "miniapp_revocations"); try done.
  - apply revoked_local.
  - intros. by eapply keeps_other; [apply revoked_local| |apply only_prefs].
  - intros. eapply keeps_other; [apply revoked_local| |by apply only_delta]. done.
  - intros. apply keeps_revoke.
  - intros. apply keeps_merge_defaults.
Qed.

(** C24. Once an app id is revoked, whatever happens to the store afterwards, no
    bundle with that id passes installation again, in either trust mode. *)
Theorem revocation_is_final app d d' :
  revoked app d -> rtc store_step d d' ->
  revoked app d'
  /\ forall bytes b trust allow now, load_from_bytes bytes = Ok b -> mf_id (bu_manifest b) = app ->
       exists e, install_verified bytes trust allow now d' = (d', Err e).
Proof.
  intros Hr Hs. assert (revoked app d') as Hr'.
  { induction Hs as [|d1 d2 d3 H1 _ IH]; [done|]. apply IH. by eapply store_step_revoked. }
  split; [done|]. intros bytes b trust allow now Hb <-.
  destruct (preview_install bytes d') as [d2 [p|e]] eqn:Ep.
  - apply preview_inv in Ep as (_ & b' & _ & _ & Hb' & _ & _ & _ & Hf & _). rewrite Hb in Hb'. injection Hb' as <-.
    unfold revoked in Hr'. by rewrite Hf in Hr'.
  - exists e. apply preview_pure in Ep as E. subst d2. by apply ST_bind_Err.
Qed.

(** ** Reputation *)

Definition rep_in_range (d : Db) : Prop :=
  forall app r, get_json app (db_view d "miniapp_reputation") = Ok (Some r) -> 0 <= rep_score r <= 100.

Lemma get_json_ext {A} `{Sa : Serde A} key t t' :
  tree_view t !! key = tree_view t' !! key -> get_json (A := A) key t = get_json key t'.
Proof. intros H. unfold get_json. by rewrite !tree_get_view, H. Qed.

Lemma keeps_delta_range app delta now : keeps rep_in_range (apply_delta app delta now).
Proof.
  unfold apply_delta. apply keeps_bind; [by intros d Hd; unfold rep_load, mbind, ST_bind; rewrite read_tree_eq; case_match|].
  intros r0. apply keeps_bind; [|intros; apply keeps_ret].
  intros d Hd. unfold rep_save.
  destruct (write_json "miniapp_reputation" app (mkAppRep (Z.max 0 (Z.min 100 (rep_score r0 + delta))) now) d)
    as (d' & -> & Hg & Ho & _). cbn [fst]. intros a r Hr.
  destruct (decide (a = app)) as [->|Hne].
  - rewrite Hg in Hr. injection Hr as <-. cbn. lia.
  - apply (Hd a). rewrite <- Hr. symmetry. by apply get_json_ext, Ho.
Qed.

Lemma rep_local : local "miniapp_reputation" rep_in_range.
Proof. intros x y E H a r. rewrite E. apply H. Qed.

(** Every stored reputation is a score between 0 and 100: true of a new store
    and kept by every operation, whatever the deltas. *)
Theorem reputation_in_range d d' : rep_in_range d -> rtc store_step d d' -> rep_in_range d'.
Proof.
  intros Hd Hs. induction Hs as [|d1 d2 d3 H1 _ IH]; [done|]. apply IH.
  pose proof rep_local as Hl. revert H1 Hd. apply (store_step_local "miniapp_reputation"); try done.
  - intros. by eapply keeps_other; [..|apply only_prefs].
  - apply keeps_delta_range.
  - intros. by eapply keeps_other; [..|apply only_revoke].
  - intros. by eapply keeps_other; [..|apply only_defaults].
Qed.

Lemma rep_in_range_new : rep_in_range db_new.
Proof. intros app r. rewrite db_view_new, get_json_none; [done|]. by rewrite tree_view_new. Qed.

(** ** Preferences *)

(** every row of the preferences parses *)
Definition prefs_parse (d : Db) : Prop :=
  forall app, exists o : option AppPrefs, get_json app (db_view d "miniapp_prefs") = Ok o.

Lemma prefs_parse_new : prefs_parse db_new.
Proof. intros app. exists None. rewrite db_view_new. apply get_json_none. by rewrite tree_view_new. Qed.

Lemma prefs_local : local "miniapp_prefs" prefs_parse.
Proof. intros x y E H a. rewrite E. apply H. Qed.

Lemma keeps_prefs_parse id b : keeps prefs_parse (set_safe_mode id b).
Proof.
  apply keeps_bind; [by intros d Hd; unfold prefs_load, mbind, ST_bind; rewrite read_tree_eq; case_match|]. intros _ d Hd.
  destruct (write_json "miniapp_prefs" id (mkPrefs b) d) as (d' & -> & Hg & Ho & _). cbn [fst]. intros a.
  destruct (decide (a = id)) as [->|Hne]; [by eexists|]. destruct (Hd a) as [o Ha]. exists o. rewrite <- Ha. by apply get_json_ext, Ho.
Qed.

Lemma prefs_stay_parsed d d' : prefs_parse d -> rtc store_step d d' -> prefs_parse d'.
Proof.
  intros Hd Hs. induction Hs as [|d1 d2 d3 H1 _ IH]; [done|]. apply IH.
  pose proof prefs_local as Hl. revert H1 Hd. apply (store_step_local "miniapp_prefs"); try done.
  - intros. apply keeps_prefs_parse.
  - intros. by eapply keeps_other; [..|by apply only_delta].
  - intros. by eapply keeps_other; [..|apply only_revoke].
  - intros. by eapply keeps_other; [..|apply only_defaults].
Qed.

Lemma prefs_load_ok app d : prefs_parse d -> is_ok (prefs_load app d).2 = true.
Proof. intros H. destruct (H app) as [o E]. unfold prefs_load, mbind, ST_bind. by rewrite read_tree_eq, E. Qed.

(** ** Two views of safe mode *)

(** C25. [policy.rs] reports safe mode, forced or chosen, and revocation from its
    own reading of the rows; it always agrees with what [prefs.rs] enforces on
    bridge calls and with the check of [preview_install]. *)
Theorem policy_agrees_with_enforcement app with_store d d' p :
  policy_load_with_store app with_store d = (d', Ok p) ->
  d' = d /\ effective_safe_mode app d = (d, Ok (mp_safe_mode_active p))
  /\ is_app_revoked app d = (d, Ok (mp_revoked p))
  /\ mp_safe_mode_active p = mp_user_safe_mode p || mp_safe_mode_forced p
  /\ (mp_safe_mode_suggested p = true -> mp_safe_mode_active p = false /\ 40 <= mp_reputation_score p < 70).
Proof.
  assert (forall A n (f : Tree -> anyhow A) x y a, read_tree n f x = (y, Ok a) -> y = x) as Hr.
  { intros A n f x y a H. rewrite read_tree_eq in H. by injection H as <- _. }
  unfold policy_load_with_store. intros (d1 & rep & Hrep & H)%ST_bind_inv.
  assert (d1 = d) as ->. { apply ST_bind_inv in Hrep as (x & o & Hx & [= <- _]). by eapply Hr. }
  apply ST_bind_inv in H as (d1 & prefs & Hp & H).
  assert (d1 = d) as ->. { apply ST_bind_inv in Hp as (x & o & Hx & [= <- _]). by eapply Hr. }
  apply ST_bind_inv in H as (d1 & rev & Hv & H).
  assert (d1 = d) as ->. { rewrite is_app_revoked_eq in Hv. by injection Hv as <- _. }
  apply ST_bind_inv in H as (d1 & d2 & [= <- <-] & [= <- <-]). cbn. split_and!; try done.
  - unfold effective_safe_mode. rewrite (ST_bind_Ok _ _ _ _ _ Hp). destruct (pr_safe_mode prefs); [done|].
    by rewrite (ST_bind_Ok _ _ _ _ _ Hrep).
  - unfold suggest_safe_mode, forced_safe_mode, SCORE_FORCE_SAFE, SCORE_SUGGEST_SAFE.
    rewrite !andb_true_iff, !negb_true_iff. intros [[[H1 H2] H3] H4]. split; [by rewrite H3, H4|lia].
Qed.

(** ** What the code does not check *)

(** The files of an older version that the new one no longer ships are still
    served after an upgrade: [install] writes over the old files. *)
Theorem upgrade_keeps_old_files bytes b d d' m path :
  store_install bytes d = (d', Ok m) -> load_from_bytes bytes = Ok b -> bu_files b !! path = None ->
  (store_get_file (mf_id m) path d').2 = (store_get_file (mf_id m) path d).2.
Proof.
  intros Hi Hb Hp. assert (total_size b <= 10 * 1024 * 1024) as Hz.
  { unfold store_install in Hi. rewrite (ST_bind_lift _ _ _ _ Hb) in Hi.
    destruct (10 * 1024 * 1024 <? total_size b) eqn:E; [done|]. by apply Z.ltb_ge. }
  destruct (store_install_spec _ _ d Hb Hz) as (d1 & Hs & _ & _ & Ho & _).
  rewrite Hs in Hi. injection Hi as <- <-. by apply Ho.
Qed.

Lemma revoke_app_revokes id now d s :
  load_revocations d = (d, Ok s) -> exists d', revoke_app id now d = (d', Ok tt) /\ revoked id d'.
Proof.
  intros Hl. unfold revoke_app. rewrite (ST_bind_Ok _ _ _ _ _ Hl).
  destruct (save_revocations_spec (mkRevSnap (push_id id (rs_revoked_app_ids s)) now) d) as (d' & -> & H).
  exists d'. split; [done|]. unfold revoked. rewrite H. unfold snapshot_is_revoked.
  by rewrite bool_decide_eq_true_2 by apply push_id_in.
Qed.

(** The signature on a revocation only has to match the key of the curator it
    names, and any key may name itself: one gossip message of any peer revokes
    any app id on every store that hears it. *)
Theorem anyone_can_revoke {CL : CryptoLaws C} (kp : Keypair) app reason t now d s :
  load_revocations d = (d, Ok s) ->
  exists r, revocation_new_signed app reason (peer_string (pk_peer_id (kp_public kp))) kp t = Ok r
    /\ revoked app (ingest_gossip_revocation r now d).1.
Proof.
  intros Hl. set (who := peer_string (pk_peer_id (kp_public kp))).
  destruct (kp_sign_total kp (revocation_signable_bytes (mkRevocation app reason t who []))) as [sig Hs].
  exists (mkRevocation app reason t who sig). unfold revocation_new_signed. rewrite Hs. split; [done|].
  assert (revocation_verify_signature (mkRevocation app reason t who sig) = Ok true) as Hv.
  { unfold revocation_verify_signature. cbn [rv_curator_peer_id rv_signature]. unfold who.
    rewrite peer_parse_string, inline_key_pk. f_equal. by apply (kp_sign_verify kp). }
  unfold ingest_gossip_revocation. rewrite (ST_bind_lift _ _ _ _ Hv). cbn [negb rv_app_id].
  destruct (revoke_app_revokes app now d s Hl) as (d1 & Hr & H1). rewrite (ST_bind_Ok _ _ _ _ _ Hr).
  unfold record_revocation_hit. unfold mbind, ST_bind.
  assert (keeps (revoked app) (apply_delta app (-100) now)) as Hk
    by (eapply keeps_other; [apply revoked_local| |by apply only_delta]; done).
  specialize (Hk d1 H1).
  by destruct (apply_delta app (-100) now d1) as [d2 []].
Qed.
End store_lemmas.
