(* ===== verification/AppNodeData.v ===== *)
(** * The application node: state

    [mycelium-app/src/envelope.rs] (the application message) and the fields of
    [AppNode] in [node.rs].  The commands accepted by the run loop, the
    broadcast channels and the notifications are the lists of what was sent, in
    order; the peer keys and the peer list are the views [NodeHandle] shares
    with the run loop; the coin node and the app store are optional, and shared
    with the bridge. *)

From S2P Require Import Prelude External Text Instances Transaction Policy Ledger CoinNode Wire.
From S2P Require Import E2E AtRest Bootstrap NodeData Host AppStorage Proximity MiniApp MiniAppStore.

Open Scope Z_scope.

Inductive AppId := IdChat | IdBulletin | IdMail | IdCoin | IdAppStore | IdMiniAppRevocation.

Inductive AppPayload :=
| Chat (m : ChatMessage)
| Bulletin (p : BulletinPost)
| Mail (m : MailMessage)
| Coin (inner : list byte)
| Listing (l : AppStoreListing)
| Revocation (r : RevocationGossip).

Record AppMessage := mkAppMsg { am_app_id : AppId; am_payload : AppPayload }.

Record ChatIncoming := mkIncoming { ci_from_peer : string; ci_message : ChatMessage }.

(** the calls of [NotificationSink] *)
Inductive Notification :=
| OnChatReceived (from preview : string)
| OnMailReceived (from subject : string)
| OnBulletinPosted (scope title : string)
| OnContactRequest (peer_id display_name : string).

Inductive ChatSendResult := SentEncrypted | SentPlaintext.

(** the codecs of what travels between application nodes *)
Class MeshCodecs := {
  bin_app :: Bincode AppMessage;
  bin_signal :: Bincode PresenceSignal;
  bin_prox :: Bincode ProximityDirectMessage;
  bin_intent :: Bincode ProximityMatchIntent;
}.

Class MeshCodecLaws (B : MeshCodecs) : Prop := {
  bin_app_laws :: BincodeLaws bin_app;
  bin_prox_laws :: BincodeLaws bin_prox;
}.

(** What the node takes from its host: the [n]-th clock reading, fresh uuid and
    draw of random bytes, and whether the command channel takes a command. *)
Class AppHost := {
  app_clock : nat -> Z;
  app_uuid : nat -> string;
  app_random : nat -> list byte;
  handle_send : list NodeCommand -> NodeCommand -> anyhow unit;
}.

(** the fields set once *)
Record AppConf := mkAppConf {
  ac_local_peer_id : string;
  ac_enc_keypair : EncryptionKeypair;
  ac_coin : CoinConfig;
}.

Section app_node_state.
Context `{C : Crypto} `{D : Sled} `{DB : !SledDb} `{CH : !CoinHost}.

Record AppNode := mkAppNode {
  an_commands : list NodeCommand;
  an_peer_keys : gmap string (list byte);
  an_peers : list string;
  an_display_name : string;
  an_chat : list ChatIncoming;
  an_bulletin : list BulletinPost;
  an_mail : list MailMessage;
  an_appstore : list AppStoreListing;
  an_notes : list Notification;
  an_storage : AppStorage;
  an_coin : option CoinState;
  an_app_store : option Db;
  an_px_store : ProximityStore;
  an_px_matches : ProximityMatchState;
  an_px_inbox : ProximityInbox;
  an_px_active : bool;
  an_my_presence : option PresenceSignal;
  an_my_profile : PresenceProfile;
  an_ticks : nat;
}.

Definition set_an_commands (v : list NodeCommand) (s : AppNode) : AppNode :=
  mkAppNode v (an_peer_keys s) (an_peers s) (an_display_name s) (an_chat s) (an_bulletin s) (an_mail s)
    (an_appstore s) (an_notes s) (an_storage s) (an_coin s) (an_app_store s) (an_px_store s) (an_px_matches s)
    (an_px_inbox s) (an_px_active s) (an_my_presence s) (an_my_profile s) (an_ticks s).
Definition set_an_display_name (v : string) (s : AppNode) : AppNode :=
  mkAppNode (an_commands s) (an_peer_keys s) (an_peers s) v (an_chat s) (an_bulletin s) (an_mail s) (an_appstore
    s) (an_notes s) (an_storage s) (an_coin s) (an_app_store s) (an_px_store s) (an_px_matches s) (an_px_inbox
    s) (an_px_active s) (an_my_presence s) (an_my_profile s) (an_ticks s).
Definition set_an_chat (v : list ChatIncoming) (s : AppNode) : AppNode :=
  mkAppNode (an_commands s) (an_peer_keys s) (an_peers s) (an_display_name s) v (an_bulletin s) (an_mail s)
    (an_appstore s) (an_notes s) (an_storage s) (an_coin s) (an_app_store s) (an_px_store s) (an_px_matches s)
    (an_px_inbox s) (an_px_active s) (an_my_presence s) (an_my_profile s) (an_ticks s).
Definition set_an_bulletin (v : list BulletinPost) (s : AppNode) : AppNode :=
  mkAppNode (an_commands s) (an_peer_keys s) (an_peers s) (an_display_name s) (an_chat s) v (an_mail s)
    (an_appstore s) (an_notes s) (an_storage s) (an_coin s) (an_app_store s) (an_px_store s) (an_px_matches s)
    (an_px_inbox s) (an_px_active s) (an_my_presence s) (an_my_profile s) (an_ticks s).
Definition set_an_mail (v : list MailMessage) (s : AppNode) : AppNode :=
  mkAppNode (an_commands s) (an_peer_keys s) (an_peers s) (an_display_name s) (an_chat s) (an_bulletin s) v
    (an_appstore s) (an_notes s) (an_storage s) (an_coin s) (an_app_store s) (an_px_store s) (an_px_matches s)
    (an_px_inbox s) (an_px_active s) (an_my_presence s) (an_my_profile s) (an_ticks s).
Definition set_an_appstore (v : list AppStoreListing) (s : AppNode) : AppNode :=
  mkAppNode (an_commands s) (an_peer_keys s) (an_peers s) (an_display_name s) (an_chat s) (an_bulletin s)
    (an_mail s) v (an_notes s) (an_storage s) (an_coin s) (an_app_store s) (an_px_store s) (an_px_matches s)
    (an_px_inbox s) (an_px_active s) (an_my_presence s) (an_my_profile s) (an_ticks s).
Definition set_an_notes (v : list Notification) (s : AppNode) : AppNode :=
  mkAppNode (an_commands s) (an_peer_keys s) (an_peers s) (an_display_name s) (an_chat s) (an_bulletin s)
    (an_mail s) (an_appstore s) v (an_storage s) (an_coin s) (an_app_store s) (an_px_store s) (an_px_matches s)
    (an_px_inbox s) (an_px_active s) (an_my_presence s) (an_my_profile s) (an_ticks s).
Definition set_an_storage (v : AppStorage) (s : AppNode) : AppNode :=
  mkAppNode (an_commands s) (an_peer_keys s) (an_peers s) (an_display_name s) (an_chat s) (an_bulletin s)
    (an_mail s) (an_appstore s) (an_notes s) v (an_coin s) (an_app_store s) (an_px_store s) (an_px_matches s)
    (an_px_inbox s) (an_px_active s) (an_my_presence s) (an_my_profile s) (an_ticks s).
Definition set_an_coin (v : option CoinState) (s : AppNode) : AppNode :=
  mkAppNode (an_commands s) (an_peer_keys s) (an_peers s) (an_display_name s) (an_chat s) (an_bulletin s)
    (an_mail s) (an_appstore s) (an_notes s) (an_storage s) v (an_app_store s) (an_px_store s) (an_px_matches s)
    (an_px_inbox s) (an_px_active s) (an_my_presence s) (an_my_profile s) (an_ticks s).
Definition set_an_app_store (v : option Db) (s : AppNode) : AppNode :=
  mkAppNode (an_commands s) (an_peer_keys s) (an_peers s) (an_display_name s) (an_chat s) (an_bulletin s)
    (an_mail s) (an_appstore s) (an_notes s) (an_storage s) (an_coin s) v (an_px_store s) (an_px_matches s)
    (an_px_inbox s) (an_px_active s) (an_my_presence s) (an_my_profile s) (an_ticks s).
Definition set_an_px_store (v : ProximityStore) (s : AppNode) : AppNode :=
  mkAppNode (an_commands s) (an_peer_keys s) (an_peers s) (an_display_name s) (an_chat s) (an_bulletin s)
    (an_mail s) (an_appstore s) (an_notes s) (an_storage s) (an_coin s) (an_app_store s) v (an_px_matches s)
    (an_px_inbox s) (an_px_active s) (an_my_presence s) (an_my_profile s) (an_ticks s).
Definition set_an_px_matches (v : ProximityMatchState) (s : AppNode) : AppNode :=
  mkAppNode (an_commands s) (an_peer_keys s) (an_peers s) (an_display_name s) (an_chat s) (an_bulletin s)
    (an_mail s) (an_appstore s) (an_notes s) (an_storage s) (an_coin s) (an_app_store s) (an_px_store s) v
    (an_px_inbox s) (an_px_active s) (an_my_presence s) (an_my_profile s) (an_ticks s).
Definition set_an_px_inbox (v : ProximityInbox) (s : AppNode) : AppNode :=
  mkAppNode (an_commands s) (an_peer_keys s) (an_peers s) (an_display_name s) (an_chat s) (an_bulletin s)
    (an_mail s) (an_appstore s) (an_notes s) (an_storage s) (an_coin s) (an_app_store s) (an_px_store s)
    (an_px_matches s) v (an_px_active s) (an_my_presence s) (an_my_profile s) (an_ticks s).
Definition set_an_px_active (v : bool) (s : AppNode) : AppNode :=
  mkAppNode (an_commands s) (an_peer_keys s) (an_peers s) (an_display_name s) (an_chat s) (an_bulletin s)
    (an_mail s) (an_appstore s) (an_notes s) (an_storage s) (an_coin s) (an_app_store s) (an_px_store s)
    (an_px_matches s) (an_px_inbox s) v (an_my_presence s) (an_my_profile s) (an_ticks s).
Definition set_an_my_presence (v : option PresenceSignal) (s : AppNode) : AppNode :=
  mkAppNode (an_commands s) (an_peer_keys s) (an_peers s) (an_display_name s) (an_chat s) (an_bulletin s)
    (an_mail s) (an_appstore s) (an_notes s) (an_storage s) (an_coin s) (an_app_store s) (an_px_store s)
    (an_px_matches s) (an_px_inbox s) (an_px_active s) v (an_my_profile s) (an_ticks s).
Definition set_an_my_profile (v : PresenceProfile) (s : AppNode) : AppNode :=
  mkAppNode (an_commands s) (an_peer_keys s) (an_peers s) (an_display_name s) (an_chat s) (an_bulletin s)
    (an_mail s) (an_appstore s) (an_notes s) (an_storage s) (an_coin s) (an_app_store s) (an_px_store s)
    (an_px_matches s) (an_px_inbox s) (an_px_active s) (an_my_presence s) v (an_ticks s).
Definition set_an_ticks (v : nat) (s : AppNode) : AppNode :=
  mkAppNode (an_commands s) (an_peer_keys s) (an_peers s) (an_display_name s) (an_chat s) (an_bulletin s)
    (an_mail s) (an_appstore s) (an_notes s) (an_storage s) (an_coin s) (an_app_store s) (an_px_store s)
    (an_px_matches s) (an_px_inbox s) (an_px_active s) (an_my_presence s) (an_my_profile s) v.

(** [AppNode::new] *)
Definition app_node_new (keys : gmap string (list byte)) (known : list string) (name : string) (storage : AppStorage)
    (coin : option CoinState) (apps : option Db) : AppNode :=
  mkAppNode [] keys known name [] [] [] [] [] storage coin apps prox_store_new matches_default prox_inbox_new
    false None profile_default 0.
End app_node_state.
