(* ===== verification/AppNode.v ===== *)
(** * The application node: operations

    [mycelium-app/src/node.rs]: what the node does with each delivered message
    and each call of a screen or a mini-app, on the state of [AppNodeData.v].
    An error the code only logs is [st_ignore]; each reading of the clock, uuid
    and draw of random bytes takes the next value of the host. *)

From S2P Require Import Prelude External Text Instances Transaction Policy Ledger CoinNode Wire.
From S2P Require Import E2E AtRest Bootstrap NodeData Host AppStorage Proximity MiniApp MiniAppStore AppNodeData.

Open Scope Z_scope.

Section app_node.
Context `{C : Crypto} `{D : Sled} `{DB : !SledDb} `{P : E2EPrims} `{J : Json} `{BW : Bincode WireMessage}.
Context `{BT : Bincode Transaction} `{BA : Bincode AccountState} `{BV : Bincode VelocityWindow}.
Context `{BP : Bincode CoinPayload} `{CH : !CoinHost}.
Context `{SC : MiniCodecs} `{B : AppCodecs} `{MC : MeshCodecs} `{AH : AppHost}.
Variable cfg : AppConf.

Abbreviation app := (ST AppNode).

(** ** Access to the parts *)

Definition a_now : app Z := fun s => (set_an_ticks (S (an_ticks s)) s, Ok (app_clock (an_ticks s))).
Definition a_uuid : app string := fun s => (set_an_ticks (S (an_ticks s)) s, Ok (app_uuid (an_ticks s))).
Definition a_random (n : nat) : app (list byte) := fun s =>
  (set_an_ticks (S (an_ticks s)) s, Ok (take n (app_random (an_ticks s) ++ replicate n x00))).

Definition on_storage {A} (m : ST AppStorage A) : app A := fun s =>
  let '(st, r) := m (an_storage s) in (set_an_storage st s, r).

(** [if let Some(coin) = &self.coin] *)
Definition on_coin {A} (m : ST CoinState A) (none : A) : app A := fun s =>
  match an_coin s with
  | None => (s, Ok none)
  | Some c => let '(c', r) := m c in (set_an_coin (Some c') s, r)
  end.

Definition on_app_store {A} (m : ST Db A) (none : A) : app A := fun s =>
  match an_app_store s with
  | None => (s, Ok none)
  | Some d => let '(d', r) := m d in (set_an_app_store (Some d') s, r)
  end.

Definition notify (n : Notification) : app unit := st_modify (fun s => set_an_notes (an_notes s ++ [n]) s).
Definition chat_tx (from : string) (m : ChatMessage) : app unit :=
  st_modify (fun s => set_an_chat (an_chat s ++ [mkIncoming from m]) s).
Definition bulletin_tx (p : BulletinPost) : app unit := st_modify (fun s => set_an_bulletin (an_bulletin s ++ [p]) s).
Definition mail_tx (m : MailMessage) : app unit := st_modify (fun s => set_an_mail (an_mail s ++ [m]) s).
Definition appstore_tx (l : AppStoreListing) : app unit :=
  st_modify (fun s => set_an_appstore (an_appstore s ++ [l]) s).

(** [NodeHandle]: the command channel and the views of the run loop *)
Definition send (c : NodeCommand) : app unit := fun s =>
  match handle_send (an_commands s) c with
  | Ok _ => (set_an_commands (an_commands s ++ [c]) s, Ok tt)
  | Err e => (s, Err e)
  end.
Definition has_enc_key_for (peer : string) : app bool := st_gets (fun s => bool_decide (is_Some (an_peer_keys s !! peer))).
Definition peer_x25519_public (peer : string) : app (option (list byte)) := st_gets (fun s => an_peer_keys s !! peer).
Definition known_peers : app (list string) := st_gets (fun s => filter (fun p => is_relay_peer p = false) (an_peers s)).
Definition local_enc_pubkey_hex : string := public_hex (ac_enc_keypair cfg).

Definition on_px_store (f : ProximityStore -> ProximityStore) : app unit :=
  st_modify (fun s => set_an_px_store (f (an_px_store s)) s).
Definition on_px_matches (f : ProximityMatchState -> ProximityMatchState) : app unit :=
  st_modify (fun s => set_an_px_matches (f (an_px_matches s)) s).
Definition on_px_inbox (f : ProximityInbox -> ProximityInbox) : app unit :=
  st_modify (fun s => set_an_px_inbox (f (an_px_inbox s)) s).

Definition preview (body : string) : string := take_chars 40 body.

(** ** Messages from the mesh *)

Definition dispatch_group (msg : DirectMessage) : app unit :=
  match de (A := WireMessage) (payload (dm_envelope msg)) with
  | Ok (EncryptedGroup group_id encrypted) =>
      let from := from_peer (dm_envelope msg) in
      r ← st_attempt (on_storage (group_by_id group_id));
      match r with
      | Ok (Some group) =>
          match decrypt_group encrypted (gr_key group) with
          | Ok plain =>
              match de (A := AppMessage) plain with
              | Ok am =>
                  match am_payload am with
                  | Chat m =>
                      _ ← st_ignore (on_storage (save_group_chat group_id m));
                      _ ← st_ignore (on_storage (group_record_peer_seen group_id from));
                      _ ← notify (OnChatReceived from (preview (ch_body m)));
                      chat_tx from m
                  | _ => mret tt
                  end
              | Err _ => mret tt
              end
          | Err _ => mret tt
          end
      | _ => mret tt
      end
  | _ => mret tt
  end.

Definition handle_proximity_payload (bytes : list byte) : app unit :=
  active ← st_gets an_px_active;
  if negb active then mret tt else
  match de (A := ProximityDirectMessage) bytes with
  | Ok msg =>
      if decide (pd_target_enc_pubkey_hex msg ≠ local_enc_pubkey_hex) then mret tt else
      matches ← st_gets an_px_matches;
      if negb (is_mutual matches (pd_sender_enc_pubkey_hex msg)) then mret tt else
      match decrypt_with (pd_encrypted_payload msg) (ac_enc_keypair cfg) with
      | Ok plain =>
          let text := from_utf8_lossy plain in
          now ← a_now;
          _ ← on_px_inbox (inbox_push (mkProxMsg (pd_sender_enc_pubkey_hex msg) text now));
          notify (OnChatReceived "proximity" text)
      | Err _ => mret tt
      end
  | Err _ =>
  match de (A := PresenceSignal) bytes with
  | Ok signal =>
      now ← a_now;
      if signal_is_expired now signal then mret tt else
      if decide (ps_enc_pubkey_hex signal = local_enc_pubkey_hex) then mret tt else
      on_px_store (prox_insert signal)
  | Err _ =>
  match de (A := ProximityMatchIntent) bytes with
  | Ok intent =>
      now ← a_now;
      if intent_is_expired now intent then mret tt else
      if decide (pi_from_enc_pubkey_hex intent = local_enc_pubkey_hex) then mret tt else
      on_px_matches (record_incoming (pi_from_enc_pubkey_hex intent))
  | Err _ => mret tt
  end end end.

(** the post of a decoded message, if it is one *)
Definition as_post (bytes : list byte) : anyhow (option BulletinPost) :=
  m ← de (A := AppMessage) bytes;
  Ok (match am_payload m with Bulletin post => Some post | _ => None end).

(** A payload that decrypts to something other than a post falls through to the
    plain decoding of the whole payload. *)
Definition handle_bulletin_payload (raw : list byte) (scope : string) : app (option BulletinPost) :=
  if decide (take 5 raw = ENC_PREFIX) then
    k ← on_storage (get_scope_key scope);
    match k with
    | None => mret None
    | Some sk =>
        match decrypt_group (drop 5 raw) (sk_key sk) with
        | Err _ => mret None
        | Ok plaintext =>
            o ← st_lift (as_post plaintext);
            match o with Some post => mret (Some post) | None => st_lift (as_post raw) end
        end
    end
  else st_lift (as_post raw).

(** [body.strip_prefix("\[bulletin:").and_then(|s| s.strip_suffix('\]'))] *)
Definition bulletin_scope (body : string) : option string :=
  match strip_prefix "[bulletin:" body with Some s => strip_suffix "]" s | None => None end.

Definition deliver_bulletin (post : BulletinPost) : app unit :=
  _ ← st_ignore (on_storage (save_bulletin post));
  _ ← notify (OnBulletinPosted (bp_scope post) (bp_title post));
  bulletin_tx post.

Definition dispatch_bulletin (raw : list byte) (scope : string) : app unit :=
  r ← st_attempt (handle_bulletin_payload raw scope);
  match r with
  | Ok (Some post) => deliver_bulletin post
  | _ => mret tt
  end.

(** whether the sender is an accepted contact; an unknown sender becomes a
    pending contact *)
Definition contact_gate (peer : string) (m : ChatMessage) : app bool :=
  r ← st_attempt (on_storage (contact_by_id peer));
  match r with
  | Ok (Some c) =>
      match ct_status c with
      | AppStorage.Accepted => mret true
      | AppStorage.Pending => _ ← notify (OnContactRequest peer (ct_display_name c)); mret false
      end
  | Ok None =>
      let name := if decide (ch_from_display_name m = ""%string) then take_chars 12 peer else ch_from_display_name m in
      now ← a_now;
      _ ← st_ignore (on_storage (upsert_contact peer name AppStorage.Pending now));
      _ ← notify (OnContactRequest peer name);
      mret false
  | Err _ => mret false
  end.

Definition dispatch_chat (peer : string) (m : ChatMessage) : app unit :=
  if decide (peer = ac_local_peer_id cfg) then mret tt else
  accepted ← contact_gate peer m;
  _ ← st_ignore (on_storage (save_chat peer m));
  if (accepted : bool) then
    _ ← notify (OnChatReceived peer (preview (ch_body m)));
    chat_tx peer m
  else mret tt.

Definition dispatch_mail (m : MailMessage) : app unit :=
  _ ← st_ignore (on_storage (save_mail_inbox m));
  _ ← notify (OnMailReceived (ml_from_display_name m) (ml_subject m));
  mail_tx m.

Definition dispatch_coin (inner : list byte) (from : string) : app unit :=
  match de (A := CoinPayload) inner with
  | Ok p => st_ignore (on_coin (handle_incoming (ac_coin cfg) p from) tt)
  | Err _ => mret tt
  end.

Definition dispatch_revocation (entry : RevocationGossip) : app unit :=
  now ← a_now;
  st_ignore (on_app_store (ingest_gossip_revocation entry now) false).

(** the listing is announced only when there is a store that cached it *)
Definition dispatch_listing (l : AppStoreListing) : app unit :=
  match listing_verify_signature l with
  | Ok true =>
      store ← st_gets an_app_store;
      match store with
      | None => mret tt
      | Some _ =>
          r ← st_attempt (on_app_store (cache_listing l) tt);
          match r with Ok _ => appstore_tx l | Err _ => mret tt end
      end
  | _ => mret tt
  end.

Definition dispatch_payload (p : AppPayload) (from : string) : app unit :=
  match p with
  | Chat m => dispatch_chat from m
  | Bulletin post => deliver_bulletin post
  | Mail m => dispatch_mail m
  | Coin inner => dispatch_coin inner from
  | Revocation entry => dispatch_revocation entry
  | Listing l => dispatch_listing l
  end.

Definition dispatch_incoming (msg : DirectMessage) : app unit :=
  if decide (dm_body msg = "[mycelium:group]"%string) then dispatch_group msg else
  if decide (dm_body msg = "[proximity]"%string) then handle_proximity_payload (payload (dm_envelope msg)) else
  match bulletin_scope (dm_body msg) with
  | Some scope => dispatch_bulletin (payload (dm_envelope msg)) scope
  | None =>
      match de (A := AppMessage) (payload (dm_envelope msg)) with
      | Ok am => dispatch_payload (am_payload am) (from_peer (dm_envelope msg))
      | Err _ => mret tt
      end
  end.

(** ** Chat *)

Definition enc_key_not_yet_exchanged : string :=
  "enc_key_not_yet_exchanged: message not sent. Connect to the peer first and wait for key exchange.".

Definition new_chat (body : string) : app ChatMessage :=
  name ← st_gets an_display_name;
  id ← a_uuid;
  now ← a_now;
  mret (mkChat id name body now None).

Definition broadcast_chat (scope body : string) : app unit :=
  chat ← new_chat body;
  p ← st_lift (ser (mkAppMsg IdChat (Chat chat)));
  send (BroadcastPayload scope body p).

Definition ensure_contact_accepted_for_send (peer_id display_name : string) : app unit :=
  name ← (if decide (display_name = ""%string) then
            o ← on_storage (contact_by_id peer_id);
            mret (match o with Some c => ct_display_name c | None => take_chars 12 peer_id end)
          else mret display_name);
  now ← a_now;
  _ ← on_storage (upsert_contact peer_id name AppStorage.Accepted now);
  mret tt.

(** [wrap_inner] panics on an author of more than 512 bytes; a peer id has 52. *)
Definition send_chat_encrypted (to body : string) : app unit :=
  _ ← ensure_contact_accepted_for_send to "";
  chat ← new_chat body;
  plaintext ← st_lift (ser (mkAppMsg IdChat (Chat chat)));
  wrapped ← st_lift (match wrap_inner (ac_local_peer_id cfg) plaintext with
                     | Some w => Ok w | None => Err "author too long"%string end);
  k ← peer_x25519_public to;
  match k with
  | Some pk =>
      eph ← a_random 32;
      nonce ← a_random 12;
      encrypted ← st_lift (encrypt_for eph nonce wrapped pk);
      _ ← send (SendWire to (EncryptedDirect (mkED to local_enc_pubkey_hex encrypted None 0 8)));
      on_storage (save_chat to chat)
  | None => st_err enc_key_not_yet_exchanged
  end.

Definition send_chat (to : option string) (body : string) : app ChatSendResult :=
  match to with
  | None => _ ← broadcast_chat "mycelium/chat" body; mret SentPlaintext
  | Some to =>
      _ ← ensure_contact_accepted_for_send to "";
      known ← has_enc_key_for to;
      if (known : bool) then _ ← send_chat_encrypted to body; mret SentEncrypted
      else st_err enc_key_not_yet_exchanged
  end.

Definition send_group_message (group : Group) (body : string) : app unit :=
  _ ← st_ignore (on_storage (group_record_peer_seen (gr_id group) (ac_local_peer_id cfg)));
  chat ← new_chat body;
  _ ← on_storage (save_group_chat (gr_id group) chat);
  plaintext ← st_lift (ser (mkAppMsg IdChat (Chat chat)));
  nonce ← a_random 12;
  encrypted ← st_lift (encrypt_group nonce plaintext (gr_key group));
  p ← st_lift (ser (EncryptedGroup (gr_id group) encrypted));
  _ ← st_ignore (send (SubscribeScope "mycelium/group/*"));
  send (BroadcastPayload ("mycelium/group/" +:+ gr_id group) "[group message]" p).

(** ** Bulletins and scope keys *)

(** [now + ttl_secs * 1000] on [u64], in a release build *)
Definition post_expiry (now ttl_secs : Z) : Z := now +64 wrap 64 (ttl_secs * 1000).

Definition post_bulletin (scope title body : string) (ttl_secs : Z) : app unit :=
  _ ← st_ignore (send (SubscribeBulletinScope scope));
  name ← st_gets an_display_name;
  now ← a_now;
  id ← a_uuid;
  let post := mkPost id name title body scope now (post_expiry now ttl_secs) in
  _ ← on_storage (save_bulletin post);
  plaintext ← st_lift (ser (mkAppMsg IdBulletin (Bulletin post)));
  k ← on_storage (get_scope_key scope);
  p ← match k with
      | Some sk =>
          nonce ← a_random 12;
          encrypted ← st_lift (encrypt_group nonce plaintext (sk_key sk));
          mret (ENC_PREFIX ++ encrypted)
      | None => mret plaintext
      end;
  send (BroadcastPayload scope ("[bulletin:" +:+ scope +:+ "]") p).

Definition list_scope_keys : app (list ScopeKey) := on_storage all_scope_keys.

Definition create_scope_key (scope name : string) : app ScopeKey :=
  key ← a_random 32;
  now ← a_now;
  let sk := scope_key_new scope name key now in
  _ ← on_storage (save_scope_key sk);
  _ ← st_ignore (send (SubscribeBulletinScope scope));
  mret sk.

Definition add_scope_key_from_invite (invite : string) : app ScopeKey :=
  now ← a_now;
  sk ← st_lift (scope_from_invite invite now);
  _ ← on_storage (save_scope_key sk);
  _ ← st_ignore (send (SubscribeBulletinScope (sk_scope sk)));
  mret sk.

Definition export_scope_key (scope : string) : app string :=
  k ← on_storage (get_scope_key scope);
  match k with
  | None => st_err "scope key not found"
  | Some sk => mret (scope_export_invite sk)
  end.

Definition app_delete_scope_key (scope : string) : app unit :=
  _ ← on_storage (delete_scope_key scope);
  st_ignore (send (UnsubscribeBulletinScope scope)).

Definition scope_is_encrypted (scope : string) : app bool :=
  k ← on_storage (get_scope_key scope);
  mret (bool_decide (is_Some k)).

(** ** Mail *)

Definition send_mail (to subject body : string) (attachments : list Attachment) : app unit :=
  name ← st_gets an_display_name;
  id ← a_uuid;
  now ← a_now;
  let mail := mkMail id (ac_local_peer_id cfg) name to subject body now attachments in
  _ ← on_storage (save_mail_sent mail);
  p ← st_lift (ser (mkAppMsg IdMail (Mail mail)));
  send (SendDirectPayload to ("mail:" +:+ subject) p).

Definition set_display_name (name : string) : app unit := st_modify (set_an_display_name name).

(** ** Proximity *)

Definition broadcast_presence (p : list byte) : app unit := send (BroadcastPayload PROXIMITY_SCOPE "[proximity]" p).

Definition new_signal (profile : PresenceProfile) (ttl_secs : Z) : app PresenceSignal :=
  now ← a_now;
  id ← a_uuid;
  mret (signal_new local_enc_pubkey_hex profile ttl_secs now id).

Definition start_proximity (profile : PresenceProfile) (ttl_secs : Z) : app unit :=
  _ ← st_lift (profile_validate profile);
  signal ← new_signal profile ttl_secs;
  p ← st_lift (ser signal);
  _ ← st_modify (fun s => set_an_px_active true (set_an_my_profile profile (set_an_my_presence (Some signal) s)));
  _ ← send (SubscribeScope PROXIMITY_SCOPE);
  broadcast_presence p.

(** one round of the task [start_proximity] spawns, after its sleep; [false]
    ends the loop *)
Definition refresh_presence : app bool :=
  active ← st_gets an_px_active;
  if negb active then mret false else
  profile ← st_gets an_my_profile;
  mine ← st_gets an_my_presence;
  refreshed ← new_signal profile (match mine with Some p => ps_ttl_secs p | None => 300 end);
  match ser refreshed with
  | Ok p =>
      _ ← st_modify (set_an_my_presence (Some refreshed));
      _ ← st_ignore (broadcast_presence p);
      mret true
  | Err _ => mret true
  end.

Definition stop_proximity : app unit :=
  _ ← st_modify (fun s => set_an_my_presence None (set_an_px_active false s));
  _ ← on_px_store prox_clear;
  _ ← on_px_matches matches_clear;
  _ ← on_px_inbox inbox_clear;
  st_ignore (send (UnsubscribeScope PROXIMITY_SCOPE)).

Definition nearby_entry (matches : ProximityMatchState) (sig : PresenceSignal) : ProximityNearbyEntry :=
  let enc := ps_enc_pubkey_hex sig in
  mkNearby sig (interest_sent matches enc) (interest_received matches enc) (is_mutual matches enc).

Definition nearby_profiles : app (list ProximityNearbyEntry) :=
  now ← a_now;
  _ ← on_px_store (fun st => (prox_prune now st).1);
  profile ← st_gets an_my_profile;
  matches ← st_gets an_px_matches;
  store ← st_gets an_px_store;
  now' ← a_now;
  let matcher := mkMatcher (pf_looking_for profile) (pf_interests profile) in
  let scored := (fun sig => (ms_score (score matcher sig), nearby_entry matches sig)) <$> active_signals now' store in
  mret ((sort_by (key_desc fst) scored).*2).

Definition express_proximity_interest (enc : string) : app bool :=
  now ← a_now;
  store ← st_gets an_px_store;
  if negb (existsb (fun sig => bool_decide (ps_enc_pubkey_hex sig = enc)) (active_signals now store))
  then st_err "profile not currently nearby" else
  _ ← on_px_matches (record_outgoing enc);
  now' ← a_now;
  p ← st_lift (ser (intent_new local_enc_pubkey_hex now'));
  _ ← send (BroadcastPayload PROXIMITY_SCOPE "[proximity]" p);
  matches ← st_gets an_px_matches;
  mret (is_mutual matches enc).

Definition proximity_messages (since_ms : Z) : app (list ProximityReceivedMessage) :=
  b ← st_gets an_px_inbox;
  mret (if decide (since_ms = 0) then inbox_all b else inbox_since since_ms b).

Definition send_proximity_message (enc message : string) : app unit :=
  matches ← st_gets an_px_matches;
  if negb (is_mutual matches enc) then st_err "mutual match required before messaging" else
  recipient ← st_lift (parse_x25519_public_hex enc);
  eph ← a_random 32;
  nonce ← a_random 12;
  encrypted ← st_lift (encrypt_for eph nonce (as_bytes message) recipient);
  now ← a_now;
  p ← st_lift (ser (mkProxDirect enc local_enc_pubkey_hex encrypted now));
  send (BroadcastPayload PROXIMITY_SCOPE "[proximity]" p).

(** ** Contacts, histories *)

Definition add_contact (peer_id display_name : string) (accepted : bool) : app Contact :=
  now ← a_now;
  on_storage (upsert_contact peer_id (if decide (display_name = ""%string) then peer_id else display_name)
    (if accepted then AppStorage.Accepted else AppStorage.Pending) now).

Definition accept_contact (peer_id : string) : app Contact :=
  o ← on_storage (contact_by_id peer_id);
  now ← a_now;
  on_storage (upsert_contact peer_id (match o with Some c => ct_display_name c | None => peer_id end) AppStorage.Accepted now).

Definition reject_contact (peer_id : string) : app unit := on_storage (delete_contact peer_id).
Definition remove_contact (peer_id : string) : app unit := on_storage (delete_contact peer_id).
Definition list_contacts : app (list Contact) := on_storage all_contacts.
Definition list_accepted_contacts : app (list Contact) := on_storage (contacts_with_status AppStorage.Accepted).
Definition list_pending_contacts : app (list Contact) := on_storage (contacts_with_status AppStorage.Pending).
Definition app_bulletins_for_scope (scope : string) : app (list BulletinPost) :=
  now ← a_now; on_storage (bulletins_for_scope scope now).

(** ** Publishing *)

Definition publish_app_listing (l : AppStoreListing) : app unit :=
  ok ← st_lift (listing_verify_signature l);
  if negb ok then st_err "listing has invalid signature – sign with developer key first" else
  p ← st_lift (ser (mkAppMsg IdAppStore (Listing l)));
  send (BroadcastPayload "mycelium/appstore/v1" ("[app:" +:+ mf_id (ls_manifest l) +:+ "]") p).

Definition publish_app_revocation (entry : RevocationGossip) : app unit :=
  ok ← st_lift (revocation_verify_signature entry);
  if negb ok then st_err "revocation has invalid signature" else
  p ← st_lift (ser (mkAppMsg IdMiniAppRevocation (Revocation entry)));
  _ ← send (BroadcastPayload "mycelium/appstore/revocations/v1" ("[revoke:" +:+ rv_app_id entry +:+ "]") p);
  now ← a_now;
  st_ignore (on_app_store (ingest_gossip_revocation entry now) false).
End app_node.
