(* ===== verification/AppNodeInv.v ===== *)
(** * The application node: invariants

    What every call and every mesh message keeps: the ledger of the coin node
    stays reachable, every row of the application database keeps its type,
    proximity messages come from mutual matches only and stopped proximity
    holds nothing, and reputations stay in range. *)

From S2P Require Import Prelude External Text Instances Transaction Policy Ledger LedgerTheorems CoinNode CoinNodeTheorems Wire E2E.
From S2P Require Import AtRest Bootstrap NodeData Host AppStorage AppStorageTheorems AppStorageProps Proximity MiniApp MiniAppStore MiniAppTheorems AppNodeData AppNode.

Open Scope Z_scope.

(** what the Rust types guarantee of a decoded message *)
Definition app_typed (m : AppMessage) : Prop :=
  match am_payload m with
  | Chat c => in_u 64 (ch_timestamp_ms c)
  | Bulletin p => in_u 64 (bp_expires_at_ms p) /\ utf8_valid (as_bytes (bp_scope p)) = true
  | Mail m => in_u 64 (ml_timestamp_ms m)
  | _ => True
  end.

Create HintDb app.

Section app_inv.
Context `{C : Crypto} `{D : Sled} {DL : SledLaws D} {DO : SledOrder D} `{DB : !SledDb} {DBL : SledDbLaws DB}.
Context `{P : E2EPrims} `{J : Json} `{BW : Bincode WireMessage}.
Context `{BT : Bincode Transaction} `{BTL : !BincodeLaws BT}.
Context `{BA : Bincode AccountState} `{BAL : !BincodeLaws BA}.
Context `{BV : Bincode VelocityWindow} `{BVL : !BincodeLaws BV}.
Context `{BP : Bincode CoinPayload} `{CH : !CoinHost}.
Context `{SC : MiniCodecs} {SL : MiniCodecLaws SC} `{ZP : Zip} `{L : Lowercase}.
Context `{B : AppCodecs} {BL : AppCodecLaws B} `{MC : MeshCodecs} `{AH : AppHost}.
Variable cfg : AppConf.

(** clock readings are [u64], and decoded values have their Rust types *)
Record HostTyped : Prop := {
  clock_typed : forall k, in_u 64 (app_clock k);
  coin_clock_typed : CoinNodeTheorems.host_ok;
  decoded_app : forall b (m : AppMessage), de b = Ok m -> app_typed m;
  decoded_coin : forall b (p : CoinPayload), de b = Ok p -> payload_wf p;
}.

Definition coin_ok (n : Z) (s : AppNode) : Prop := forall c, an_coin s = Some c -> node_ok n c.

Definition px_ok (s : AppNode) : Prop :=
  (forall m, m ∈ pb_messages (an_px_inbox s) -> is_mutual (an_px_matches s) (pr_from_enc_pubkey_hex m) = true)
  /\ (an_px_active s = false ->
        px_signals (an_px_store s) = ∅ /\ an_px_matches s = matches_default /\ pb_messages (an_px_inbox s) = [])
  /\ prox_inv (an_px_store s)
  /\ (length (pb_messages (an_px_inbox s)) <= pb_max_size (an_px_inbox s))%nat /\ (0 < pb_max_size (an_px_inbox s))%nat.

Definition apps_ok (s : AppNode) : Prop := forall d, an_app_store s = Some d -> rep_in_range d.

Definition app_ok (n : Z) (s : AppNode) : Prop :=
  coin_ok n s /\ px_ok s /\ db_good (an_storage s) /\ apps_ok s.

(** a node that was just opened over good databases *)
Lemma px_new keys known name st coin apps : px_ok (app_node_new keys known name st coin apps).
Proof.
  unfold px_ok. cbn. split_and!; try done; try lia; [intros m Hm; by apply elem_of_nil in Hm|].
  split_and!; cbn; [lia|rewrite map_size_empty; lia|]. intros k x. by rewrite lookup_empty.
Qed.

Lemma app_new_ok n keys known name st coin apps :
  (forall c, coin = Some c -> node_ok n c) -> db_good st -> (forall d, apps = Some d -> rep_in_range d) ->
  app_ok n (app_node_new keys known name st coin apps).
Proof. intros Hc Hd Ha. split_and!; [done|apply px_new|done|done]. Qed.

(** ** Primitives *)

Lemma app_same {A} n (m : ST AppNode A) (Q : A -> Prop) :
  (forall s, an_coin (m s).1 = an_coin s /\ an_px_inbox (m s).1 = an_px_inbox s
     /\ an_px_matches (m s).1 = an_px_matches s /\ an_px_active (m s).1 = an_px_active s
     /\ an_px_store (m s).1 = an_px_store s /\ an_storage (m s).1 = an_storage s
     /\ an_app_store (m s).1 = an_app_store s) ->
  (forall s a, app_ok n s -> (m s).2 = Ok a -> Q a) -> triple (app_ok n) m Q.
Proof.
  intros Hm HQ s s' r Hs E. specialize (Hm s). split; [|intros a ->; apply (HQ s); [done|by rewrite E]].
  rewrite E in Hm. cbn in Hm. destruct Hm as (H1 & H2 & H3 & H4 & H5 & H6 & H7).
  unfold app_ok, coin_ok, px_ok, apps_ok in *. by rewrite H1, H2, H3, H4, H5, H6, H7.
Qed.

Lemma t_now n : HostTyped -> triple (app_ok n) a_now (in_u 64).
Proof. intros H. apply app_same; [done|]. intros s a _ [= <-]. apply (clock_typed H). Qed.
Lemma t_uuid n : triple (app_ok n) a_uuid (fun _ => True).
Proof. by apply app_same. Qed.
Lemma t_random n k : triple (app_ok n) (a_random k) (fun _ => True).
Proof. by apply app_same. Qed.
Lemma t_notify n x : triple (app_ok n) (notify x) (fun _ => True).
Proof. by apply app_same. Qed.
Lemma t_chat_tx n f m : triple (app_ok n) (chat_tx f m) (fun _ => True).
Proof. by apply app_same. Qed.
Lemma t_bulletin_tx n p : triple (app_ok n) (bulletin_tx p) (fun _ => True).
Proof. by apply app_same. Qed.
Lemma t_mail_tx n m : triple (app_ok n) (mail_tx m) (fun _ => True).
Proof. by apply app_same. Qed.
Lemma t_appstore_tx n l : triple (app_ok n) (appstore_tx l) (fun _ => True).
Proof. by apply app_same. Qed.
Lemma t_send n c : triple (app_ok n) (send c) (fun _ => True).
Proof. apply app_same; [|done]. intros s. unfold send. by destruct (handle_send _ _). Qed.
Lemma t_gets {A} n (f : AppNode -> A) : triple (app_ok n) (st_gets f) (fun _ => True).
Proof. by apply app_same. Qed.
Lemma t_name n x : triple (app_ok n) (set_display_name x) (fun _ => True).
Proof. by apply app_same. Qed.

Lemma t_lift {A} n (r : anyhow A) : triple (app_ok n) (st_lift r) (fun _ => True).
Proof. by apply triple_lift. Qed.
Lemma t_ret {A} n (a : A) : triple (app_ok n) (mret a) (fun _ => True).
Proof. by apply triple_ret. Qed.

Lemma t_ignore {A} n (m : ST AppNode A) Q : triple (app_ok n) m Q -> triple (app_ok n) (st_ignore m) (fun _ => True).
Proof. intros Hm s s' r Hs [= <- <-]. split; [|done]. by apply (Hm s (m s).1 (m s).2 Hs), surjective_pairing. Qed.

Lemma t_attempt {A} n (m : ST AppNode A) Q :
  triple (app_ok n) m Q -> triple (app_ok n) (st_attempt m) (fun r => forall a, r = Ok a -> Q a).
Proof.
  intros Hm s s' r Hs [= <- <-]. destruct (Hm s (m s).1 (m s).2 Hs (surjective_pairing _)) as [H1 H2].
  split; [done|]. by intros a [= <-].
Qed.

Lemma t_storage {A} n (m : ST AppStorage A) : keeps db_good m -> triple (app_ok n) (on_storage m) (fun _ => True).
Proof.
  intros Hm s s' r (Hc & Hp & Hd & Ha). unfold on_storage. specialize (Hm _ Hd).
  destruct (m (an_storage s)) as [st x]. by intros [= <- <-].
Qed.

Lemma t_coin {A} n (m : ST CoinState A) x Q :
  triple (node_ok n) m Q -> triple (app_ok n) (on_coin m x) (fun _ => True).
Proof.
  intros Hm s s' r (Hc & Hp & Hd & Ha). unfold on_coin. destruct (an_coin s) as [c|] eqn:E.
  - destruct (m c) as [c' r'] eqn:Em. destruct (Hm _ _ _ (Hc c E) Em) as [Hk _]. intros [= <- <-].
    split; [|done]. split; [|done]. by intros ? [= <-].
  - by intros [= <- <-].
Qed.

Lemma t_apps {A} n (m : ST Db A) x : keeps rep_in_range m -> triple (app_ok n) (on_app_store m x) (fun _ => True).
Proof.
  intros Hm s s' r (Hc & Hp & Hd & Ha). unfold on_app_store. destruct (an_app_store s) as [d|] eqn:E.
  - specialize (Hm d (Ha d E)). destruct (m d) as [d' r']. intros [= <- <-].
    split; [|done]. split_and!; try done. by intros ? [= <-].
  - by intros [= <- <-].
Qed.

(** an operation on the proximity fields *)
Lemma t_px n (f : AppNode -> AppNode) :
  (forall s, an_coin (f s) = an_coin s /\ an_storage (f s) = an_storage s /\ an_app_store (f s) = an_app_store s) ->
  (forall s, px_ok s -> px_ok (f s)) -> triple (app_ok n) (st_modify f) (fun _ => True).
Proof.
  intros Hf Hp s s' r (Hc & Hpx & Hd & Ha) [= <- <-]. split; [|done].
  destruct (Hf s) as (H1 & H2 & H3). unfold app_ok, coin_ok, apps_ok. rewrite H1, H2, H3. eauto.
Qed.
End app_inv.

#[export] Hint Resolve t_uuid t_random t_notify t_chat_tx t_bulletin_tx t_mail_tx t_appstore_tx t_send t_gets t_name t_lift t_ret
  t_ignore triple_err : app.

(** walks through a handler *)
Ltac app_step :=
  match goal with
  | |- triple _ (if decide _ then _ else _) _ => case_decide
  | |- triple _ (match ?x with _ => _ end) _ => destruct x eqn:?
  | |- triple _ (_ ≫= _) _ => eapply triple_bind; [solve [eauto with app]|intros ? ?]
  | |- triple _ _ _ => solve [eauto with app]
  end.
Ltac app_auto := repeat (cbv zeta; app_step).

(** ** Every call *)

Inductive AppCall :=
| CDispatch (msg : DirectMessage)
| CSendChat (to : option string) (body : string)
| CSendChatEncrypted (to body : string)
| CBroadcastChat (scope body : string)
| CSendGroup (group : Group) (body : string)
| CPost (scope title body : string) (ttl_secs : Z)
| CCreateScopeKey (scope name : string)
| CAddScopeKey (invite : string)
| CDeleteScopeKey (scope : string)
| CSendMail (to subject body : string) (attachments : list Attachment)
| CSetName (name : string)
| CStartProximity (profile : PresenceProfile) (ttl_secs : Z)
| CRefresh
| CStopProximity
| CNearby
| CExpress (enc : string)
| CSendProximity (enc message : string)
| CAddContact (peer name : string) (accepted : bool)
| CAcceptContact (peer : string)
| CRemoveContact (peer : string)
| CMarkRead (id : string)
| CPublishListing (l : AppStoreListing)
| CPublishRevocation (r : RevocationGossip).

(** text arguments are Rust strings *)
Definition call_typed (c : AppCall) : Prop :=
  match c with
  | CPost scope _ _ _ => utf8_valid (as_bytes scope) = true
  | _ => True
  end.

Section app_calls.
Context `{C : Crypto} `{D : Sled} {DL : SledLaws D} {DO : SledOrder D} `{DB : !SledDb} {DBL : SledDbLaws DB}.
Context `{P : E2EPrims} `{J : Json} `{BW : Bincode WireMessage}.
Context `{BT : Bincode Transaction} `{BTL : !BincodeLaws BT}.
Context `{BA : Bincode AccountState} `{BAL : !BincodeLaws BA}.
Context `{BV : Bincode VelocityWindow} `{BVL : !BincodeLaws BV}.
Context `{BP : Bincode CoinPayload} `{CH : !CoinHost}.
Context `{SC : MiniCodecs} {SL : MiniCodecLaws SC} `{ZP : Zip} `{L : Lowercase}.
Context `{B : AppCodecs} {BL : AppCodecLaws B} `{MC : MeshCodecs} `{AH : AppHost}.
Variable cfg : AppConf.

Definition run_call (c : AppCall) : ST AppNode unit :=
  match c with
  | CDispatch msg => dispatch_incoming cfg msg
  | CSendChat to body => st_ignore (send_chat cfg to body)
  | CSendChatEncrypted to body => send_chat_encrypted cfg to body
  | CBroadcastChat scope body => broadcast_chat scope body
  | CSendGroup g body => send_group_message cfg g body
  | CPost scope title body ttl => post_bulletin scope title body ttl
  | CCreateScopeKey scope name => st_ignore (create_scope_key scope name)
  | CAddScopeKey invite => st_ignore (add_scope_key_from_invite invite)
  | CDeleteScopeKey scope => app_delete_scope_key scope
  | CSendMail to subject body atts => send_mail cfg to subject body atts
  | CSetName name => set_display_name name
  | CStartProximity profile ttl => start_proximity cfg profile ttl
  | CRefresh => st_ignore (refresh_presence cfg)
  | CStopProximity => stop_proximity
  | CNearby => st_ignore nearby_profiles
  | CExpress enc => st_ignore (express_proximity_interest cfg enc)
  | CSendProximity enc message => send_proximity_message cfg enc message
  | CAddContact peer name acc => st_ignore (add_contact peer name acc)
  | CAcceptContact peer => st_ignore (accept_contact peer)
  | CRemoveContact peer => remove_contact peer
  | CMarkRead id => on_storage (mark_read id)
  | CPublishListing l => publish_app_listing l
  | CPublishRevocation r => publish_app_revocation r
  end.

(** the node after a sequence of calls, failing ones included *)
Definition run_calls (cs : list AppCall) (s : AppNode) : AppNode := foldl (fun s c => (run_call c s).1) s cs.

Context (HT : HostTyped).
Variable n : Z.

Lemma t_op o : op_typed o -> triple (app_ok n) (on_storage (run_op o)) (fun _ => True).
Proof. intros Ho. by apply t_storage, run_op_keeps. Qed.
Lemma t_read {A} k (f : Tree -> anyhow A) : triple (app_ok n) (on_storage (with_tree k f)) (fun _ => True).
Proof. apply t_storage, with_tree_keeps. Qed.
Lemma t_upsert p name st now : triple (app_ok n) (on_storage (upsert_contact p name st now)) (fun _ => True).
Proof. apply t_storage. exact (run_op_keeps (OUpsertContact p name st now) I). Qed.
Lemma t_clock : triple (app_ok n) a_now (in_u 64).
Proof. by apply t_now. Qed.
Lemma t_new_chat body : triple (app_ok n) (new_chat body) (fun c => in_u 64 (ch_timestamp_ms c)).
Proof.
  eapply triple_bind; [apply t_gets|intros ? _]. eapply triple_bind; [apply t_uuid|intros ? _].
  eapply triple_bind; [apply t_clock|intros now Hnow]. by apply triple_ret.
Qed.
Lemma t_save_chat p c : in_u 64 (ch_timestamp_ms c) -> triple (app_ok n) (on_storage (save_chat p c)) (fun _ => True).
Proof. intros. by apply (t_op (OSaveChat p c)). Qed.
Lemma t_save_group g c : in_u 64 (ch_timestamp_ms c) -> triple (app_ok n) (on_storage (save_group_chat g c)) (fun _ => True).
Proof. intros. by apply (t_op (OSaveGroupChat g c)). Qed.
Lemma t_save_post p :
  in_u 64 (bp_expires_at_ms p) -> utf8_valid (as_bytes (bp_scope p)) = true ->
  triple (app_ok n) (on_storage (save_bulletin p)) (fun _ => True).
Proof. intros. by apply (t_op (OSaveBulletin p)). Qed.
Lemma t_save_inbox m : in_u 64 (ml_timestamp_ms m) -> triple (app_ok n) (on_storage (save_mail_inbox m)) (fun _ => True).
Proof. intros. by apply (t_op (OSaveInbox m)). Qed.
Lemma t_save_sent m : in_u 64 (ml_timestamp_ms m) -> triple (app_ok n) (on_storage (save_mail_sent m)) (fun _ => True).
Proof. intros. by apply (t_op (OSaveSent m)). Qed.
Lemma t_seen g p : triple (app_ok n) (on_storage (group_record_peer_seen g p)) (fun _ => True).
Proof. by apply (t_op (OPeerSeen g p)). Qed.
Lemma t_save_key k : triple (app_ok n) (on_storage (save_scope_key k)) (fun _ => True).
Proof. by apply (t_op (OSaveScopeKey k)). Qed.
Lemma t_delete_key k : triple (app_ok n) (on_storage (delete_scope_key k)) (fun _ => True).
Proof. by apply (t_op (ODeleteScopeKey k)). Qed.
Lemma t_delete_contact p : triple (app_ok n) (on_storage (delete_contact p)) (fun _ => True).
Proof. by apply (t_op (ODeleteContact p)). Qed.
Lemma t_mark_read p : triple (app_ok n) (on_storage (mark_read p)) (fun _ => True).
Proof. by apply (t_op (OMarkRead p)). Qed.
Lemma t_ingest e now x : triple (app_ok n) (on_app_store (ingest_gossip_revocation e now) x) (fun _ => True).
Proof.
  apply t_apps. pose proof rep_local as Hl.
  apply keeps_bind; [apply keeps_lift|intros ok]. destruct ok; cbn [negb]; [|apply keeps_ret].
  apply keeps_bind; [by eapply keeps_other; [..|apply only_revoke]|intros _].
  apply keeps_bind; [apply keeps_delta_range|intros; apply keeps_ret].
Qed.
Lemma t_cache l x : triple (app_ok n) (on_app_store (cache_listing l) x) (fun _ => True).
Proof.
  apply t_apps. pose proof rep_local as Hl.
  by eapply keeps_other; [..|apply only_write].
Qed.

#[local] Hint Resolve t_op t_read t_upsert t_clock t_new_chat t_save_chat t_save_group t_save_post t_save_inbox t_save_sent t_seen
  t_save_key t_delete_key t_delete_contact t_mark_read t_ingest t_cache : app.

(** ** Proximity *)

Lemma is_mutual_true M k : is_mutual M k = true <-> k ∈ mt_outgoing M /\ k ∈ mt_incoming M.
Proof. unfold is_mutual, interest_sent, interest_received. by rewrite andb_true_iff, !bool_decide_eq_true. Qed.

Lemma px_push s k text now :
  px_ok s -> an_px_active s = true -> is_mutual (an_px_matches s) k = true ->
  px_ok (set_an_px_inbox (inbox_push (mkProxMsg k text now) (an_px_inbox s)) s).
Proof.
  intros (Hm & Hoff & Hst & Hlen & Hpos) Ha Hk.
  destruct (inbox_push_bounded (mkProxMsg k text now) (an_px_inbox s) Hpos Hlen) as (Hl & He & old & Eo & Hsuf).
  split_and!; cbn [an_px_inbox an_px_matches an_px_active an_px_store set_an_px_inbox]; try done; try congruence.
  intros m. rewrite Eo, elem_of_app, list_elem_of_singleton. intros [Hin| ->]; [|done].
  apply Hm. destruct Hsuf as [pre Ep]. rewrite Ep, elem_of_app. by right.
Qed.

Lemma px_insert s sig :
  px_ok s -> an_px_active s = true -> px_ok (set_an_px_store (prox_insert sig (an_px_store s)) s).
Proof.
  intros (Hm & Hoff & Hst & Hlen & Hpos) Ha. split_and!; cbn [an_px_inbox an_px_matches an_px_active an_px_store set_an_px_store]; try done; try congruence.
  by apply (proximity_store_bounded _ sig 0).
Qed.

(** match states only grow *)
Lemma px_grow s M :
  px_ok s -> an_px_active s = true -> (forall k, is_mutual (an_px_matches s) k = true -> is_mutual M k = true) ->
  px_ok (set_an_px_matches M s).
Proof.
  intros (Hm & Hoff & Hst & Hlen & Hpos) Ha Hg. split_and!; cbn [an_px_inbox an_px_matches an_px_active an_px_store set_an_px_matches]; try done; try congruence.
  intros m Hin. by apply Hg, Hm.
Qed.

Lemma app_px s s1 :
  app_ok n s -> an_coin s1 = an_coin s -> an_storage s1 = an_storage s -> an_app_store s1 = an_app_store s -> px_ok s1 ->
  app_ok n s1.
Proof. intros (Hc & _ & Hd & Ha) H1 H2 H3 Hp. unfold app_ok, coin_ok, apps_ok. by rewrite H1, H2, H3. Qed.

Lemma a_now_bind {A} (f : Z -> ST AppNode A) s : (a_now ≫= f) s = f (app_clock (an_ticks s)) (set_an_ticks (S (an_ticks s)) s).
Proof. done. Qed.

Lemma gets_bind {A X} (g : AppNode -> X) (f : X -> ST AppNode A) s : (st_gets g ≫= f) s = f (g s) s.
Proof. done. Qed.

Lemma modify_bind {A} (g : AppNode -> AppNode) (f : unit -> ST AppNode A) s : (st_modify g ≫= f) s = f tt (g s).
Proof. done. Qed.

Lemma triple_at {A} (m : ST AppNode A) Q s' s r :
  app_ok n s -> triple (app_ok n) m Q -> m s = (s', r) -> app_ok n s' /\ forall a, r = Ok a -> Q a.
Proof. intros Hs Hm. by apply Hm. Qed.

Lemma t_proximity bytes : triple (app_ok n) (handle_proximity_payload cfg bytes) (fun _ => True).
Proof.
  intros s s' r Hs. pose proof Hs as (_ & Hp & _). unfold handle_proximity_payload. rewrite gets_bind.
  destruct (an_px_active s) eqn:Ea; cbn [negb]; [|by intros [= <- <-]].
  destruct (de (A := ProximityDirectMessage) bytes) as [msg|].
  { case_decide; [by intros [= <- <-]|]. rewrite gets_bind.
    destruct (is_mutual _ _) eqn:Em; cbn [negb]; [|by intros [= <- <-]].
    destruct (decrypt_with _ _) as [plain|]; [|by intros [= <- <-]]. cbv zeta. rewrite a_now_bind.
    intros [= <- <-]. split; [|done]. eapply app_px; try done. cbn [an_px_inbox].
    by apply (px_push (set_an_ticks (S (an_ticks s)) s)). }
  destruct (de (A := PresenceSignal) bytes) as [sig|].
  { rewrite a_now_bind. destruct (signal_is_expired _ _); [by intros [= <- <-]|].
    case_decide; [by intros [= <- <-]|]. intros [= <- <-]. split; [|done]. eapply app_px; try done.
    by apply (px_insert (set_an_ticks (S (an_ticks s)) s)). }
  destruct (de (A := ProximityMatchIntent) bytes) as [i|]; [|by intros [= <- <-]].
  rewrite a_now_bind. destruct (intent_is_expired _ _); [by intros [= <- <-]|].
  case_decide; [by intros [= <- <-]|]. intros [= <- <-]. split; [|done]. eapply app_px; try done.
  apply (px_grow (set_an_ticks (S (an_ticks s)) s)); [done..|].
  intros k. rewrite !is_mutual_true. cbn. set_solver.
Qed.

Lemma t_express enc : triple (app_ok n) (express_proximity_interest cfg enc) (fun _ => True).
Proof.
  intros s s' r Hs. unfold express_proximity_interest. rewrite a_now_bind, gets_bind.
  destruct (existsb _ _) eqn:Ev; cbn [negb]; [|by intros [= <- <-]].
  assert (an_px_active s = true) as Ha.
  { destruct (an_px_active s) eqn:Ea; [done|]. destruct Hs as (_ & (_ & Hoff & _) & _).
    destruct (Hoff Ea) as (E & _ & _). apply existsb_exists in Ev as (sig & Hin & _).
    apply list_elem_of_In, active_signals_spec in Hin as [[k Hk] _]. cbn in Hk. by rewrite E in Hk. }
  set (s1 := set_an_px_matches (record_outgoing enc (an_px_matches s)) (set_an_ticks (S (an_ticks s)) s)).
  assert (app_ok n s1) as H1.
  { eapply app_px; [exact Hs|done..|]. apply (px_grow (set_an_ticks (S (an_ticks s)) s)); [apply Hs|done|].
    intros k. rewrite !is_mutual_true. cbn. set_solver. }
  unfold on_px_matches. rewrite modify_bind. eapply triple_at; [exact H1|]. app_auto.
Qed.

Lemma t_start profile ttl : triple (app_ok n) (start_proximity cfg profile ttl) (fun _ => True).
Proof.
  unfold start_proximity, new_signal, broadcast_presence. eapply triple_bind; [apply t_lift|intros _ _].
  eapply triple_bind; [app_auto|intros sig _]. eapply triple_bind; [apply t_lift|intros p _].
  eapply triple_bind; [|intros; app_auto].
  apply t_px; [done|]. intros s (Hm & Hoff & Hst & Hlen & Hpos). by split_and!.
Qed.

Lemma t_stop : triple (app_ok n) stop_proximity (fun _ => True).
Proof.
  intros s s' r Hs. unfold stop_proximity, on_px_store, on_px_matches, on_px_inbox. rewrite !modify_bind.
  eapply triple_at; [|app_auto]. eapply app_px; [exact Hs|done..|].
  destruct Hs as (_ & (Hm & Hoff & (Hp & Hle & Hid) & Hlen & Hpos) & _). split_and!; cbn; try done.
  - by intros m ?%not_elem_of_nil.
  - split_and!; cbn; [done|rewrite map_size_empty; lia|]. intros k x. by rewrite lookup_empty.
  - lia.
Qed.

Lemma t_nearby : triple (app_ok n) nearby_profiles (fun _ => True).
Proof.
  unfold nearby_profiles. eapply triple_bind; [apply t_clock|intros now _]. eapply triple_bind; [|intros; app_auto].
  apply t_px; [done|]. intros s (Hm & Hoff & Hst & Hlen & Hpos). split_and!; cbn; try done.
  - intros Ha. destruct (Hoff Ha) as (-> & H1 & H2). by rewrite map_filter_empty.
  - by apply (proximity_store_bounded _ (signal_new "" profile_default 0 0 "") now).
Qed.
#[local] Hint Resolve t_proximity t_express t_start t_stop t_nearby : app.

(** ** Dispatch *)

Lemma t_dispatch_group msg : triple (app_ok n) (dispatch_group msg) (fun _ => True).
Proof.
  unfold dispatch_group. destruct (de (payload (dm_envelope msg))) as [[]|]; try apply t_ret.
  eapply triple_bind; [apply (t_attempt _ _ (fun _ => True)); apply t_read|intros r _].
  destruct r as [[g|]|]; try apply t_ret. destruct (decrypt_group _ _) as [plain|]; [|apply t_ret].
  destruct (de (A := AppMessage) plain) as [am|] eqn:Ed; [|apply t_ret]. pose proof (decoded_app HT _ _ Ed) as Ht.
  unfold app_typed in Ht. destruct (am_payload am); try apply t_ret. app_auto.
Qed.

Lemma as_post_typed b p :
  as_post b = Ok (Some p) -> in_u 64 (bp_expires_at_ms p) /\ utf8_valid (as_bytes (bp_scope p)) = true.
Proof.
  unfold as_post. destruct (de (A := AppMessage) b) as [am|] eqn:Ed; [|done]. cbn [mbind Res_bind].
  pose proof (decoded_app HT _ _ Ed) as Ht. unfold app_typed in Ht.
  destruct (am_payload am); [done| |done..]. by intros [= <-].
Qed.

Lemma t_deliver p :
  in_u 64 (bp_expires_at_ms p) -> utf8_valid (as_bytes (bp_scope p)) = true ->
  triple (app_ok n) (deliver_bulletin p) (fun _ => True).
Proof. intros. unfold deliver_bulletin. app_auto. Qed.

Lemma t_bulletin_payload raw scope :
  triple (app_ok n) (handle_bulletin_payload raw scope)
    (fun o => forall p, o = Some p -> in_u 64 (bp_expires_at_ms p) /\ utf8_valid (as_bytes (bp_scope p)) = true).
Proof.
  assert (forall b, triple (app_ok n) (st_lift (as_post b))
    (fun o => forall p, o = Some p -> in_u 64 (bp_expires_at_ms p) /\ utf8_valid (as_bytes (bp_scope p)) = true)) as Hl.
  { intros b. apply triple_lift. intros o Ho p ->. by eapply as_post_typed. }
  unfold handle_bulletin_payload. case_decide; [|apply Hl].
  eapply triple_bind; [apply t_read|intros k _]. destruct k as [sk|]; [|by apply triple_ret].
  destruct (decrypt_group _ _) as [pt|]; [|by apply triple_ret].
  eapply triple_bind; [apply Hl|intros o Ho]. destruct o as [p|]; [by apply triple_ret|apply Hl].
Qed.

Lemma t_contact_gate peer m : triple (app_ok n) (contact_gate peer m) (fun _ => True).
Proof.
  unfold contact_gate. eapply triple_bind; [apply (t_attempt _ _ (fun _ => True)); apply t_read|intros r _].
  app_auto.
Qed.

Lemma t_dispatch_payload p from :
  app_typed (mkAppMsg IdChat p) -> triple (app_ok n) (dispatch_payload cfg p from) (fun _ => True).
Proof.
  destruct p; cbn; intros Ht.
  - unfold dispatch_chat. case_decide; [apply t_ret|]. eapply triple_bind; [apply t_contact_gate|intros acc _]. app_auto.
  - destruct Ht. by apply t_deliver.
  - unfold dispatch_mail. app_auto.
  - unfold dispatch_coin. destruct (de (A := CoinPayload) inner) as [p|] eqn:Ed; [|apply t_ret].
    eapply t_ignore, t_coin, handle_incoming_ok; [apply (coin_clock_typed HT)|by eapply (decoded_coin HT)].
  - unfold dispatch_listing. destruct (listing_verify_signature l) as [[]|]; try apply t_ret.
    eapply triple_bind; [apply t_gets|intros st _]. destruct st; [|apply t_ret].
    eapply triple_bind; [eapply t_attempt, t_cache|intros x _]. app_auto.
  - unfold dispatch_revocation. app_auto.
Qed.

Lemma t_dispatch msg : triple (app_ok n) (dispatch_incoming cfg msg) (fun _ => True).
Proof.
  unfold dispatch_incoming. case_decide; [apply t_dispatch_group|]. case_decide; [apply t_proximity|].
  destruct (bulletin_scope _) as [sc|].
  - eapply triple_bind; [eapply t_attempt, t_bulletin_payload|intros x Hx]. destruct x as [[p|]|]; try apply t_ret.
    apply t_deliver; by eapply Hx.
  - destruct (de (A := AppMessage) _) as [am|] eqn:Ed; [|apply t_ret].
    apply t_dispatch_payload. apply (decoded_app HT) in Ed. by destruct am as [i p].
Qed.
#[local] Hint Resolve t_dispatch : app.

Lemma t_ensure to name : triple (app_ok n) (ensure_contact_accepted_for_send to name) (fun _ => True).
Proof.
  unfold ensure_contact_accepted_for_send. eapply (triple_bind _ _ _ (fun _ => True)); [|intros; app_auto].
  case_decide; [|apply t_ret]. eapply triple_bind; [apply t_read|intros; app_auto].
Qed.
#[local] Hint Resolve t_ensure : app.

Lemma t_send_encrypted to body : triple (app_ok n) (send_chat_encrypted cfg to body) (fun _ => True).
Proof.
  unfold send_chat_encrypted, peer_x25519_public. eapply triple_bind; [apply t_ensure|intros _ _].
  eapply triple_bind; [apply t_new_chat|intros chat Hc]. app_auto.
Qed.
#[local] Hint Resolve t_send_encrypted : app.

Lemma t_broadcast scope body : triple (app_ok n) (broadcast_chat scope body) (fun _ => True).
Proof. unfold broadcast_chat. app_auto. Qed.
#[local] Hint Resolve t_broadcast : app.

Lemma post_expiry_range now ttl : in_u 64 (post_expiry now ttl).
Proof. unfold post_expiry, wadd. by apply wrap_in_u. Qed.

Lemma t_post scope title body ttl :
  utf8_valid (as_bytes scope) = true -> triple (app_ok n) (post_bulletin scope title body ttl) (fun _ => True).
Proof.
  intros Hu. unfold post_bulletin. eapply triple_bind; [eapply t_ignore, t_send|intros _ _].
  eapply triple_bind; [apply t_gets|intros name _]. eapply triple_bind; [apply t_clock|intros now Hnow].
  eapply triple_bind; [apply t_uuid|intros id _]. cbv zeta.
  eapply triple_bind; [by apply t_save_post; [apply post_expiry_range|]|intros _ _].
  eapply triple_bind; [apply t_lift|intros pt _]. eapply triple_bind; [apply t_read|intros k _].
  eapply (triple_bind _ _ _ (fun _ => True)); [|intros; app_auto].
  destruct k; app_auto.
Qed.

Lemma t_call c : call_typed c -> triple (app_ok n) (run_call c) (fun _ => True).
Proof.
  intros Hc. destruct c; cbn [run_call call_typed] in *; try solve [eauto with app].
  - eapply t_ignore. unfold send_chat, has_enc_key_for. destruct to; app_auto.
  - unfold send_group_message. eapply triple_bind; [eapply t_ignore, t_seen|intros _ _].
    eapply triple_bind; [apply t_new_chat|intros chat Hch]. app_auto.
  - by apply t_post.
  - eapply t_ignore. unfold create_scope_key. app_auto.
  - eapply t_ignore. unfold add_scope_key_from_invite. app_auto.
  - unfold app_delete_scope_key. app_auto.
  - unfold send_mail. eapply triple_bind; [apply t_gets|intros name _]. eapply triple_bind; [apply t_uuid|intros id _].
    eapply triple_bind; [apply t_clock|intros now Hnow]. cbv zeta. app_auto.
  - eapply (t_ignore _ _ (fun _ => True)). unfold refresh_presence, new_signal, broadcast_presence.
    eapply triple_bind; [apply t_gets|intros act _]. destruct act; cbn [negb]; [|apply t_ret].
    eapply triple_bind; [apply t_gets|intros pf _]. eapply triple_bind; [apply t_gets|intros mine _].
    eapply (triple_bind _ _ _ (fun _ => True)); [app_auto|intros sig _]. destruct (ser sig); [|apply t_ret].
    eapply triple_bind; [by apply (app_same n _ (fun _ => True))|intros _ _]. app_auto.
  - unfold send_proximity_message. app_auto.
  - eapply t_ignore. unfold add_contact. app_auto.
  - eapply (t_ignore _ _ (fun _ => True)). unfold accept_contact. eapply triple_bind; [apply t_read|intros o _]. app_auto.
  - unfold publish_app_listing. app_auto.
  - unfold publish_app_revocation. app_auto.
Qed.

Lemma run_calls_ok cs s : Forall call_typed cs -> app_ok n s -> app_ok n (run_calls cs s).
Proof.
  intros Ht. revert s. induction Ht as [|c cs Hc Ht IH]; intros s Hs; [done|]. cbn. apply IH.
  by apply (t_call c Hc s (run_call c s).1 (run_call c s).2 Hs), surjective_pairing.
Qed.
End app_calls.
