(* ===== verification/AppNodeTheorems.v ===== *)
(** * Properties of the application node

    The invariant over all calls, end-to-end chat, the contact gate, bulletins,
    and what the node accepts that it should not. *)

From S2P Require Import Prelude External Text Instances Transaction Policy Ledger LedgerTheorems CoinNode CoinNodeTheorems Wire E2E.
From S2P Require Import AtRest Bootstrap NodeData Host AppStorage AppStorageTheorems AppStorageProps Proximity MiniApp MiniAppStore MiniAppTheorems AppNodeData AppNode AppNodeInv.

Open Scope Z_scope.

Section app_theorems.
Context `{C : Crypto} `{D : Sled} {DL : SledLaws D} {DO : SledOrder D} `{DB : !SledDb} {DBL : SledDbLaws DB}.
Context `{P : E2EPrims} {PL : E2ELaws P} `{J : Json} `{BW : Bincode WireMessage}.
Context `{BT : Bincode Transaction} `{BTL : !BincodeLaws BT}.
Context `{BA : Bincode AccountState} `{BAL : !BincodeLaws BA}.
Context `{BV : Bincode VelocityWindow} `{BVL : !BincodeLaws BV}.
Context `{BP : Bincode CoinPayload} `{CH : !CoinHost}.
Context `{SC : MiniCodecs} {SL : MiniCodecLaws SC} `{ZP : Zip} `{L : Lowercase}.
Context `{B : AppCodecs} {BL : AppCodecLaws B} `{MC : MeshCodecs} {ML : MeshCodecLaws MC} `{AH : AppHost}.

(** C18. The application invariant: starting from a new node over a reachable ledger
    and a new store, after any sequence of mesh messages and calls, failing
    ones included, the ledger is reachable with the same issue, every row of
    the application database has its type and key, every proximity message held
    came from a mutual match, nothing is held while proximity is off, at most
    500 signals and 200 messages are held, and all reputations are in 0..100. *)
Theorem app_node_invariant cfg n cs keys known name key (coin : CoinState) :
  HostTyped -> reach n (cn_ledger coin) -> Forall call_typed cs ->
  app_ok n (run_calls cfg cs (app_node_new keys known name (mkApp db_new key) (Some coin) (Some db_new))).
Proof.
  intros HT Hr Hc. apply run_calls_ok; [done..|].
  apply app_new_ok; [by intros c [= <-]|apply db_good_new|intros d [= <-]; apply rep_in_range_new].
Qed.

(** ** Running storage calls *)

Lemma on_storage_eq {A} (m : ST AppStorage A) s st r :
  m (an_storage s) = (st, r) -> on_storage m s = (set_an_storage st s, r).
Proof. intros E. unfold on_storage. by rewrite E. Qed.

Lemma attempt_eq {A} (m : ST AppNode A) s s' r : m s = (s', r) -> st_attempt m s = (s', Ok r).
Proof. intros E. unfold st_attempt. by rewrite E. Qed.

Lemma ignore_eq {A} (m : ST AppNode A) s s' r : m s = (s', r) -> st_ignore m s = (s', Ok tt).
Proof. intros E. unfold st_ignore. by rewrite E. Qed.

(** the chat message held by a peer's history under a time stamp *)
Definition chat_at (st : AppStorage) (peer : string) (ts : Z) : option ChatMessage :=
  match get_row (ts_key ts) (db_view (app_db st) (chat_tree peer)) with Ok o => o | Err _ => None end.

Lemma save_chat_eq st peer (m : ChatMessage) :
  exists st', save_chat peer m st = (st', Ok tt) /\ chat_at st' peer (ch_timestamp_ms m) = Some m
    /\ (forall n, n ≠ chat_tree peer -> db_view (app_db st') n = db_view (app_db st) n).
Proof.
  destruct (put_row_ok (ts_key (ch_timestamp_ms m)) m (db_view (app_db st) (chat_tree peer))) as (t' & b & Hp & Hd & Hv).
  eexists. split; [by apply upd_tree_ok|]. split.
  - unfold chat_at. cbn [app_db]. rewrite db_put_view, decide_True by done.
    unfold get_row. rewrite tree_get_view, Hv, lookup_insert_eq. cbn. by rewrite Hd.
  - intros n Hn. cbn [app_db]. by rewrite db_put_view, decide_False by congruence.
Qed.

Lemma contacts_of_other st st' :
  db_view (app_db st') "contacts:data" = db_view (app_db st) "contacts:data" -> contacts_of st' = contacts_of st.
Proof. intros E. unfold contacts_of. by rewrite E. Qed.

(** ** The contact gate *)

Definition is_accepted (st : AppStorage) (peer : string) : bool :=
  match contacts_of st !! peer with Some c => bool_decide (ct_status c = AppStorage.Accepted) | None => false end.

(** what the gate does: nothing for an accepted sender; otherwise a contact
    request, and a pending contact for an unknown sender *)
Lemma contact_gate_eq peer m s :
  db_good (an_storage s) ->
  exists s' note, contact_gate peer m s = (s', Ok (is_accepted (an_storage s) peer))
    /\ an_chat s' = an_chat s /\ db_good (an_storage s')
    /\ an_notes s' = an_notes s ++ (if is_accepted (an_storage s) peer then [] else [OnContactRequest peer note])
    /\ (forall n, n ≠ "contacts:data"%string -> db_view (app_db (an_storage s')) n = db_view (app_db (an_storage s)) n)
    /\ (is_accepted (an_storage s) peer = false ->
          exists c, contacts_of (an_storage s') !! peer = Some c /\ ct_status c = AppStorage.Pending).
Proof.
  intros Hs. unfold contact_gate, is_accepted.
  rewrite (ST_bind_Ok _ _ _ _ _ (attempt_eq _ _ _ _ (on_storage_eq _ _ _ _ (contact_by_id_eq _ peer Hs)))).
  destruct (contacts_of (an_storage s) !! peer) as [c|] eqn:Ec; cbn match.
  - destruct (ct_status c) eqn:Est.
    + rewrite bool_decide_eq_false_2 by congruence. eexists _, (ct_display_name c). split; [reflexivity|]. cbn.
      split_and!; try done. intros _. exists c. split; [by rewrite <- Ec|done].
    + rewrite bool_decide_eq_true_2 by done. eexists _, ""%string. split; [reflexivity|]. cbn.
      rewrite app_nil_r. by split_and!.
  - set (name := if decide (ch_from_display_name m = ""%string) then take_chars 12 peer else ch_from_display_name m).
    rewrite a_now_bind. cbn beta.
    destruct (upsert_eq (an_storage s) peer name AppStorage.Pending (app_clock (an_ticks s)) Hs) as (st1 & Hu & Hc1 & Ho & Hg).
    erewrite ST_bind_Ok; [|eapply ignore_eq, on_storage_eq; exact Hu]. eexists _, name. split; [reflexivity|].
    cbn. split_and!; try done. intros _. rewrite Hc1, Ec, lookup_insert_eq. eexists. by split.
Qed.

(** the outcome of a chat message from [peer] *)
Definition chat_outcome (peer : string) (m : ChatMessage) (s s' : AppNode) : Prop :=
  chat_at (an_storage s') peer (ch_timestamp_ms m) = Some m
  /\ if is_accepted (an_storage s) peer
     then an_chat s' = an_chat s ++ [mkIncoming peer m]
          /\ an_notes s' = an_notes s ++ [OnChatReceived peer (preview (ch_body m))]
     else an_chat s' = an_chat s
          /\ (exists name, an_notes s' = an_notes s ++ [OnContactRequest peer name])
          /\ exists c, contacts_of (an_storage s') !! peer = Some c /\ ct_status c = AppStorage.Pending.

Lemma dispatch_chat_spec cfg peer m s :
  db_good (an_storage s) -> peer ≠ ac_local_peer_id cfg ->
  exists s', dispatch_chat cfg peer m s = (s', Ok tt) /\ chat_outcome peer m s s'.
Proof.
  intros Hs Hl. unfold dispatch_chat. rewrite decide_False by done.
  destruct (contact_gate_eq peer m s Hs) as (s1 & note & Hg & Hch & Hg1 & Hn & Ho & Hp).
  rewrite (ST_bind_Ok _ _ _ _ _ Hg). destruct (save_chat_eq (an_storage s1) peer m) as (st2 & Hsv & Hat & Hot).
  erewrite ST_bind_Ok; [|eapply ignore_eq, on_storage_eq; exact Hsv].
  assert (contacts_of st2 = contacts_of (an_storage s1)) as Hc2 by (by apply contacts_of_other, Hot).
  unfold chat_outcome. destruct (is_accepted (an_storage s) peer) eqn:Ea.
  - eexists. split; [reflexivity|]. cbn. rewrite Hch, Hn, app_nil_r. by split_and!.
  - eexists. split; [reflexivity|]. cbn. rewrite Hch, Hn, Hc2.
    destruct (Hp eq_refl) as (c & Hc & Hst). split_and!; [done|done|by exists note|by exists c].
Qed.

Lemma dispatch_encrypted cfg msg m i s :
  de (payload (dm_envelope msg)) = Ok (mkAppMsg i (Chat m)) -> dm_body msg = "[encrypted]"%string ->
  dispatch_incoming cfg msg s = dispatch_chat cfg (from_peer (dm_envelope msg)) m s.
Proof.
  intros Hd Hb. unfold dispatch_incoming. rewrite Hb, Hd, !decide_False by done.
  by change (bulletin_scope "[encrypted]") with (@None string).
Qed.

(** Chat from the mesh: a node's own message is ignored; every other one is
    stored in the sender's history.  It reaches the user as a chat only if the
    sender is an accepted contact; otherwise the user sees a contact request
    and the sender is on file as pending. *)
Theorem chat_waits_for_acceptance cfg msg (m : ChatMessage) i s :
  de (payload (dm_envelope msg)) = Ok (mkAppMsg i (Chat m)) -> dm_body msg = "[encrypted]"%string ->
  db_good (an_storage s) ->
  let peer := from_peer (dm_envelope msg) in
  (peer = ac_local_peer_id cfg -> dispatch_incoming cfg msg s = (s, Ok tt))
  /\ (peer ≠ ac_local_peer_id cfg -> exists s', dispatch_incoming cfg msg s = (s', Ok tt) /\ chat_outcome peer m s s').
Proof.
  intros Hd Hb Hs peer. rewrite (dispatch_encrypted _ _ _ _ _ Hd Hb). fold peer. split.
  - intros Hl. unfold dispatch_chat. by rewrite decide_True.
  - intros Hl. by apply dispatch_chat_spec.
Qed.

(** ** Operations that send nothing *)

Definition quiet {A} (m : ST AppNode A) : Prop := forall s,
  an_commands (m s).1 = an_commands s /\ an_peer_keys (m s).1 = an_peer_keys s
  /\ an_display_name (m s).1 = an_display_name s.

Lemma app_quiet_bind {A X} (m : ST AppNode A) (f : A -> ST AppNode X) : quiet m -> (forall a, quiet (f a)) -> quiet (m ≫= f).
Proof.
  intros Hm Hf s. unfold mbind, ST_bind. specialize (Hm s). destruct (m s) as [s1 [a|e]]; [|done].
  cbn in Hm. destruct Hm as (H1 & H2 & H3). specialize (Hf a s1). by rewrite H1, H2, H3 in Hf.
Qed.

Lemma quiet_storage {A} (m : ST AppStorage A) : quiet (on_storage m).
Proof. intros s. unfold on_storage. by destruct (m _). Qed.

Lemma quiet_ensure to name : quiet (ensure_contact_accepted_for_send to name).
Proof.
  unfold ensure_contact_accepted_for_send. apply app_quiet_bind.
  - case_decide; [|done]. by apply app_quiet_bind; [apply quiet_storage|].
  - intros n. apply app_quiet_bind; [done|intros now]. by apply app_quiet_bind; [apply quiet_storage|].
Qed.

Lemma quiet_new_chat body s s' chat :
  new_chat body s = (s', Ok chat) ->
  an_commands s' = an_commands s /\ an_peer_keys s' = an_peer_keys s /\ an_storage s' = an_storage s
  /\ ch_body chat = body /\ ch_from_display_name chat = an_display_name s /\ ch_reply_to chat = None.
Proof. intros [= <- <-]. by split_and!. Qed.

(** the frame a successful [send_chat_encrypted] hands to the run loop *)
Lemma send_chat_encrypted_inv cfg to body s s' :
  send_chat_encrypted cfg to body s = (s', Ok tt) ->
  exists pk eph nonce chat app w enc,
    an_peer_keys s !! to = Some pk /\ ch_body chat = body /\ ch_from_display_name chat = an_display_name s
    /\ ser (mkAppMsg IdChat (Chat chat)) = Ok app /\ wrap_inner (ac_local_peer_id cfg) app = Some w
    /\ encrypt_for eph nonce w pk = Ok enc
    /\ an_commands s' = an_commands s ++ [SendWire to (EncryptedDirect (mkED to (local_enc_pubkey_hex cfg) enc None 0 8))]
    /\ chat_at (an_storage s') to (ch_timestamp_ms chat) = Some chat.
Proof.
  unfold send_chat_encrypted. intros (s1 & [] & He & H)%ST_bind_inv. pose proof (quiet_ensure to "" s) as (Q1 & Q2 & Q3).
  rewrite He in Q1, Q2, Q3. cbn in Q1, Q2, Q3. apply ST_bind_inv in H as (s2 & chat & Hc & H).
  apply quiet_new_chat in Hc as (R1 & R2 & _ & R3 & R4 & _).
  apply ST_bind_inv in H as (s3 & app & [= <- Happ] & H). apply ST_bind_inv in H as (s3 & w & [= <- Hw] & H).
  destruct (wrap_inner (ac_local_peer_id cfg) app) as [w'|] eqn:Ew; [|done]. injection Hw as <-.
  apply ST_bind_inv in H as (s3 & k & [= <- Hk] & H). rewrite R2, Q2 in Hk.
  destruct k as [pk|]; [|done]. unfold a_random at 1 in H. apply ST_bind_inv in H as (s3 & eph & [= E3 Ee] & H).
  apply ST_bind_inv in H as (s4 & nonce & [= E4 En] & H). apply ST_bind_inv in H as (s5 & enc & [= <- Henc] & H).
  apply ST_bind_inv in H as (s6 & [] & Hsend & H). unfold send in Hsend.
  destruct (handle_send _ _); [|done]. injection Hsend as <-.
  destruct (save_chat_eq (an_storage s4) to chat) as (st' & Hsv & Hat & _).
  rewrite (on_storage_eq _ _ st' (Ok tt)) in H by (exact Hsv). injection H as <-.
  exists pk, eph, nonce, chat, app, w', enc. split_and!; try done; [by rewrite R4|].
  cbn. rewrite <- E4, <- E3. cbn. by rewrite R1, Q1.
Qed.

(** every command an operation gives the run loop satisfies [Q] *)
Definition sends {A} (Q : NodeCommand -> Prop) (m : ST AppNode A) : Prop := forall s,
  exists new, an_commands (m s).1 = an_commands s ++ new /\ Forall Q new.

Lemma sends_bind {A X} Q (m : ST AppNode A) (f : A -> ST AppNode X) :
  sends Q m -> (forall a, sends Q (f a)) -> sends Q (m ≫= f).
Proof.
  intros Hm Hf s. unfold mbind, ST_bind. destruct (Hm s) as (l1 & E1 & H1). destruct (m s) as [s1 [a|e]]; [|by exists l1].
  destruct (Hf a s1) as (l2 & E2 & H2). exists (l1 ++ l2). cbn in E1. by rewrite E2, E1, app_assoc, Forall_app.
Qed.

Lemma sends_quiet {A} Q (m : ST AppNode A) : quiet m -> sends Q m.
Proof. intros Hm s. exists []. split; [|done]. rewrite app_nil_r. apply Hm. Qed.

Lemma sends_send (Q : NodeCommand -> Prop) c : Q c -> sends Q (send c).
Proof.
  intros Hc s. unfold send. destruct (handle_send _ _); [exists [c]; by rewrite Forall_singleton|].
  exists []. by rewrite app_nil_r.
Qed.

Definition encrypted_to (to : string) (c : NodeCommand) : Prop :=
  exists f, c = SendWire to (EncryptedDirect f) /\ ed_to_peer f = to.

Lemma sends_chat_encrypted cfg to body : sends (encrypted_to to) (send_chat_encrypted cfg to body).
Proof.
  unfold send_chat_encrypted. apply sends_bind; [apply sends_quiet, quiet_ensure|intros _].
  repeat (apply sends_bind; [by apply sends_quiet|intros ?]). case_match; [|by apply sends_quiet].
  repeat (apply sends_bind; [by apply sends_quiet|intros ?]).
  apply sends_bind; [apply sends_send; eexists; by split|intros _]. apply sends_quiet, quiet_storage.
Qed.

(** the contact of a peer after a message to it was written: accepted, with the
    name and the time it had *)
Definition accepted_contact (old : option Contact) (to : string) (now : Z) : Contact :=
  match old with
  | Some c => mkContact to (ct_display_name c) (ct_added_at_ms c) AppStorage.Accepted
  | None => mkContact to (take_chars 12 to) now AppStorage.Accepted
  end.

(** only the contact of [to] changed, and one clock reading passed *)
Definition contact_accepted (to : string) (s s' : AppNode) : Prop :=
  exists st', s' = set_an_ticks (S (an_ticks s)) (set_an_storage st' s)
    /\ contacts_of st' = <[to := accepted_contact (contacts_of (an_storage s) !! to) to (app_clock (an_ticks s))]>
                            (contacts_of (an_storage s))
    /\ forall n, n ≠ "contacts:data"%string -> db_view (app_db st') n = db_view (app_db (an_storage s)) n.

Lemma ensure_eq to s :
  db_good (an_storage s) ->
  exists s', ensure_contact_accepted_for_send to "" s = (s', Ok tt) /\ contact_accepted to s s'.
Proof.
  intros Hs. unfold ensure_contact_accepted_for_send. rewrite decide_True by done.
  erewrite ST_bind_Ok; [|erewrite ST_bind_Ok; [reflexivity|eapply on_storage_eq; by apply contact_by_id_eq]].
  rewrite a_now_bind. set (nm := match contacts_of _ !! to with Some c => _ | None => _ end).
  destruct (upsert_eq (an_storage s) to nm AppStorage.Accepted (app_clock (an_ticks s)) Hs) as (st1 & Hu & Hc & Ho & _).
  erewrite ST_bind_Ok; [|eapply on_storage_eq; exact Hu]. eexists. split; [reflexivity|]. exists st1.
  split_and!; [by destruct s| |exact Ho]. rewrite Hc. f_equal. unfold upserted, accepted_contact, nm.
  destruct (contacts_of (an_storage s) !! to) as [c|]; [|done]. by case_decide.
Qed.

(** C20. Direct chat is never sent in the clear (SD-081): whatever happens, the only
    commands a direct [send_chat] gives the run loop are encrypted frames to
    that peer, exactly one when it succeeds.  Without the peer's key the caller
    gets the error that says so, nothing is sent and no chat is filed; all that
    remains of the call is the contact of the peer, which the call marks as
    accepted before it looks for the key. *)
Theorem direct_chat_never_plaintext cfg to body s s' r :
  db_good (an_storage s) -> send_chat cfg (Some to) body s = (s', r) ->
  (exists new, an_commands s' = an_commands s ++ new /\ Forall (encrypted_to to) new
     /\ (forall x, r = Ok x -> x = SentEncrypted /\ length new = 1%nat))
  /\ (an_peer_keys s !! to = None ->
        r = Err enc_key_not_yet_exchanged /\ contact_accepted to s s' /\ an_commands s' = an_commands s).
Proof.
  intros Hs. unfold send_chat. destruct (ensure_eq to s Hs) as (s1 & He & Ho). rewrite (ST_bind_Ok _ _ _ _ _ He).
  pose proof (quiet_ensure to "" s) as (Q1 & Q2 & _). rewrite He in Q1, Q2. cbn in Q1, Q2.
  unfold has_enc_key_for. rewrite gets_bind, Q2. destruct (an_peer_keys s !! to) as [pk|] eqn:Ek.
  - rewrite bool_decide_eq_true_2 by done. pose proof (sends_chat_encrypted cfg to body s1) as (new & En & Hn).
    destruct (send_chat_encrypted cfg to body s1) as [s2 [[]|e]] eqn:E.
    + rewrite (ST_bind_Ok _ _ _ _ _ E). intros [= <- <-]. split; [|done].
      pose proof (send_chat_encrypted_inv _ _ _ _ _ E) as (? & ? & ? & ? & ? & ? & ? & _ & _ & _ & _ & _ & _ & Ec & _).
      cbn in En. rewrite Ec in En. apply app_inv_head in En. subst new. eexists. split; [by rewrite Ec, Q1|].
      split; [done|]. by intros ? [= <-].
    + rewrite (ST_bind_Err _ _ _ _ _ E). intros [= <- <-]. split; [|done]. exists new. cbn in En. by rewrite En, Q1.
  - rewrite bool_decide_eq_false_2 by (by intros []). intros [= <- <-]. split.
    + exists []. rewrite app_nil_r. split_and!; [done..|]. by intros ? [=].
    + intros _. by split_and!.
Qed.

(** ** Bulletins *)

Lemma bulletin_scope_tag scope : bulletin_scope ("[bulletin:" +:+ scope +:+ "]") = Some scope.
Proof. unfold bulletin_scope. rewrite strip_prefix_app. apply strip_suffix_Some. by rewrite as_bytes_app. Qed.

Lemma dispatch_tagged cfg e scope s :
  dispatch_incoming cfg (mkDM e ("[bulletin:" +:+ scope +:+ "]")) s = dispatch_bulletin (payload e) scope s.
Proof. unfold dispatch_incoming. cbn [dm_body dm_envelope]. by rewrite !decide_False, bulletin_scope_tag by done. Qed.

(** the node holds [sk] for the scope, or none *)
Definition scope_key_is (scope : string) (sk : option ScopeKey) (st : AppStorage) : Prop :=
  get_scope_key scope st = (st, Ok sk).

Lemma set_storage_id s : set_an_storage (an_storage s) s = s.
Proof. by destruct s. Qed.

Lemma read_scope_key scope sk s : scope_key_is scope sk (an_storage s) -> on_storage (get_scope_key scope) s = (s, Ok sk).
Proof. intros H. rewrite (on_storage_eq _ _ _ _ H). by rewrite set_storage_id. Qed.

(** the node showed exactly this post *)
Definition shown (post : BulletinPost) (s s' : AppNode) : Prop :=
  an_bulletin s' = an_bulletin s ++ [post]
  /\ an_notes s' = an_notes s ++ [OnBulletinPosted (bp_scope post) (bp_title post)].

Lemma deliver_shows post s : exists s', deliver_bulletin post s = (s', Ok tt) /\ shown post s s'.
Proof.
  unfold deliver_bulletin. destruct (on_storage (save_bulletin post) s) as [s1 r] eqn:E.
  rewrite (ST_bind_Ok _ _ _ _ _ (ignore_eq _ _ _ _ E)). eexists. split; [reflexivity|].
  unfold on_storage in E. destruct (save_bulletin post (an_storage s)). injection E as <- <-. by split.
Qed.

Lemma dispatch_bulletin_shows raw scope post s :
  handle_bulletin_payload raw scope s = (s, Ok (Some post)) ->
  exists s', dispatch_bulletin raw scope s = (s', Ok tt) /\ shown post s s'.
Proof.
  intros H. unfold dispatch_bulletin. rewrite (ST_bind_Ok _ _ _ _ _ (attempt_eq _ _ _ _ H)). apply deliver_shows.
Qed.

Lemma save_bulletin_eq st (p : BulletinPost) :
  exists st', save_bulletin p st = (st', Ok tt)
    /\ forall n, n ≠ bulletin_tree (bp_scope p) -> db_view (app_db st') n = db_view (app_db st) n.
Proof.
  destruct (put_row_ok (bulletin_key p) p (db_view (app_db st) (bulletin_tree (bp_scope p)))) as (t' & b & Hp & _ & _).
  eexists. split; [by apply upd_tree_ok|]. intros n Hn. cbn [app_db]. by rewrite db_put_view, decide_False by congruence.
Qed.

Lemma scope_key_same scope sk st st' :
  db_view (app_db st') "scope_keys" = db_view (app_db st) "scope_keys" -> scope_key_is scope sk st -> scope_key_is scope sk st'.
Proof. intros E. unfold scope_key_is, get_scope_key. rewrite !with_tree_eq, E. by intros [= ->]. Qed.

(** what [post_bulletin] gives the run loop when the scope has a key *)
Lemma post_bulletin_inv scope title body ttl s s' sk :
  post_bulletin scope title body ttl s = (s', Ok tt) -> scope_key_is scope (Some sk) (an_storage s) ->
  exists pre post plain nonce enc, (pre = [] \/ pre = [SubscribeBulletinScope scope])
    /\ bp_scope post = scope /\ bp_title post = title /\ bp_body post = body
    /\ ser (mkAppMsg IdBulletin (Bulletin post)) = Ok plain /\ encrypt_group nonce plain (sk_key sk) = Ok enc
    /\ an_commands s' = an_commands s ++ pre ++ [BroadcastPayload scope ("[bulletin:" +:+ scope +:+ "]") (ENC_PREFIX ++ enc)].
Proof.
  unfold post_bulletin. intros (s1 & [] & H1 & H)%ST_bind_inv Hk.
  assert (an_storage s1 = an_storage s /\ exists pre, (pre = [] \/ pre = [SubscribeBulletinScope scope])
    /\ an_commands s1 = an_commands s ++ pre) as (Es & pre & Hpre & E1).
  { unfold st_ignore, send in H1. destruct (handle_send _ _); injection H1 as <-; (split; [done|]).
    - exists [SubscribeBulletinScope scope]. split; [by right|done].
    - exists []. split; [by left|by rewrite app_nil_r]. }
  rewrite gets_bind, a_now_bind in H. apply ST_bind_inv in H as (s2 & id & [= <- <-] & H). cbv zeta in H.
  set (post := mkPost _ _ _ _ _ _ _) in H.
  destruct (save_bulletin_eq (an_storage s1) post) as (st2 & Hsv & Ho).
  erewrite ST_bind_Ok in H by (apply on_storage_eq; exact Hsv).
  apply ST_bind_inv in H as (s3 & plain & [= <- Hpl] & H).
  erewrite ST_bind_Ok in H; [|apply read_scope_key, (scope_key_same _ (Some sk) (an_storage s1)); [by apply Ho|by rewrite Es]].
  cbn match in H. apply ST_bind_inv in H as (s4 & p & Hp & H).
  apply ST_bind_inv in Hp as (s5 & nonce & [= <- <-] & Hp). apply ST_bind_inv in Hp as (s5 & enc & [= <- Henc] & [= <- <-]).
  unfold send in H. destruct (handle_send _ _); [|done]. injection H as <-.
  eexists pre, post, plain, _, enc. split_and!; try done. cbn. by rewrite E1, <- app_assoc.
Qed.

(** C21. Encrypted scopes: a post to a scope whose key the author holds leaves the
    node only as ciphertext behind [enc1:], the one other command being the
    subscription to the scope; every node with the key shows exactly that post, a
    node without it shows nothing and keeps its state. *)
Theorem encrypted_scope_post_roundtrip scope title body ttl s s' sk :
  post_bulletin scope title body ttl s = (s', Ok tt) -> scope_key_is scope (Some sk) (an_storage s) ->
  exists pre post plain nonce enc, let p := ENC_PREFIX ++ enc in
  (pre = [] \/ pre = [SubscribeBulletinScope scope])
  /\ bp_scope post = scope /\ bp_title post = title /\ bp_body post = body
  /\ ser (mkAppMsg IdBulletin (Bulletin post)) = Ok plain /\ encrypt_group nonce plain (sk_key sk) = Ok enc
  /\ an_commands s' = an_commands s ++ pre ++ [BroadcastPayload scope ("[bulletin:" +:+ scope +:+ "]") p]
  /\ forall cfgB e sB sk', payload e = p ->
       (scope_key_is scope (Some sk') (an_storage sB) -> sk_key sk' = sk_key sk ->
          exists sB', dispatch_incoming cfgB (mkDM e ("[bulletin:" +:+ scope +:+ "]")) sB = (sB', Ok tt) /\ shown post sB sB')
       /\ (scope_key_is scope None (an_storage sB) ->
          dispatch_incoming cfgB (mkDM e ("[bulletin:" +:+ scope +:+ "]")) sB = (sB, Ok tt)).
Proof.
  intros Hp Hk. destruct (post_bulletin_inv _ _ _ _ _ _ _ Hp Hk)
    as (pre & post & plain & nonce & enc & H0 & H1 & H2 & H3 & Hs & He & Hc).
  exists pre, post, plain, nonce, enc. cbv zeta. split_and!; try done.
  intros cfgB e sB sk' Hpe. rewrite dispatch_tagged, Hpe. split.
  - intros HkB Hkey. apply dispatch_bulletin_shows. unfold handle_bulletin_payload. rewrite decide_True by done.
    rewrite (ST_bind_Ok _ _ _ _ _ (read_scope_key _ _ _ HkB)). change (drop 5 (ENC_PREFIX ++ enc)) with enc.
    assert (as_post plain = Ok (Some post)) as Hap by (unfold as_post; by rewrite (de_ser _ _ Hs)).
    by rewrite Hkey, (encrypt_decrypt_group _ _ _ _ He), (ST_bind_lift _ _ _ _ Hap).
  - intros HkB. unfold dispatch_bulletin.
    erewrite ST_bind_Ok; [|apply attempt_eq; unfold handle_bulletin_payload; rewrite decide_True by done;
      rewrite (ST_bind_Ok _ _ _ _ _ (read_scope_key _ _ _ HkB)); reflexivity]. done.
Qed.

(** An encrypted scope accepts plain posts: whatever key a node holds, a plain
    post that names the scope is shown and filed under it, even when the tag it
    arrives with is of another scope. *)
Theorem plain_post_enters_encrypted_scope cfg (post : BulletinPost) i e tag s sk :
  scope_key_is (bp_scope post) (Some sk) (an_storage s) ->
  de (payload e) = Ok (mkAppMsg i (Bulletin post)) -> take 5 (payload e) ≠ ENC_PREFIX ->
  exists s', dispatch_incoming cfg (mkDM e ("[bulletin:" +:+ tag +:+ "]")) s = (s', Ok tt) /\ shown post s s'
    /\ get_row (bulletin_key post) (db_view (app_db (an_storage s')) (bulletin_tree (bp_scope post))) = Ok (Some post).
Proof.
  intros _ Hd He. rewrite dispatch_tagged. unfold dispatch_bulletin.
  assert (handle_bulletin_payload (payload e) tag s = (s, Ok (Some post))) as Hh.
  { unfold handle_bulletin_payload. rewrite decide_False by done. unfold as_post. by rewrite Hd. }
  rewrite (ST_bind_Ok _ _ _ _ _ (attempt_eq _ _ _ _ Hh)). unfold deliver_bulletin.
  destruct (put_row_ok (bulletin_key post) post (db_view (app_db (an_storage s)) (bulletin_tree (bp_scope post))))
    as (t' & b & Hp & Hdb & Hv).
  erewrite ST_bind_Ok; [|eapply ignore_eq, on_storage_eq, upd_tree_ok; exact Hp]. eexists. split; [reflexivity|].
  split; [by split|]. cbn [an_storage app_db]. cbn. rewrite db_put_view, decide_True by done.
  unfold get_row. rewrite tree_get_view, Hv, lookup_insert_eq. cbn. by rewrite Hdb.
Qed.

(** [expires_at_ms] wraps: a time to live near the top of [u64], which a
    mini-app may ask for, expires 384 ms after the post. *)
Lemma post_expiry_wraps now : in_u 64 (now + 384) -> post_expiry now 18446744073709552 = now + 384.
Proof. intros H. unfold post_expiry. change (wrap 64 (18446744073709552 * 1000)) with 384. by apply wadd_small. Qed.

(** ** Listings *)

(** Any developer can replace a listing: one gossiped listing, signed by the
    developer key it names itself, replaces whatever listing is cached for that
    app id, whoever signed it and however new it is; a bundle of the new
    developer then passes as verified and the old one as mismatched. *)
Theorem listing_replaced_by_anyone {CL : CryptoLaws C} (kp : Keypair) (m : MiniAppManifest) (evil : list byte) sources t s d :
  mf_developer_peer_id m = Some (peer_string (pk_peer_id (kp_public kp))) -> an_app_store s = Some d ->
  (forall sig, kp_sign kp sig ≠ Ok []) ->
  exists l s' d', listing_new_signed m evil sources kp t = Ok l
    /\ dispatch_listing l s = (s', Ok tt) /\ an_app_store s' = Some d'
    /\ get_json (mf_id m) (db_view d' "app_listings") = Ok (Some l)
    /\ (trust_of (Some l) (bundle_hash_hex evil)).2 = LVerifiedListing
    /\ (forall good, bundle_hash_hex good ≠ bundle_hash_hex evil -> (trust_of (Some l) (bundle_hash_hex good)).2 = LHashMismatch).
Proof.
  intros Hdev Hd Hne. unfold listing_new_signed, listing_signable_bytes. cbn [ls_manifest ls_sources ls_bundle_hash ls_published_at_ms ls_updated_at_ms].
  destruct (to_json_total m) as [mj Hmj]. destruct (to_json_sources_total sources) as [sj Hsj]. rewrite Hmj, Hsj. cbn [mbind Res_bind].
  destruct (kp_sign_total kp (mj ++ as_bytes (bundle_hash_hex evil) ++ le_bytes 8 t ++ le_bytes 8 t ++ sj)) as [sig Hsig].
  rewrite Hsig. set (l := set_ls_signature _ _). exists l.
  assert (listing_verify_signature l = Ok true) as Hv.
  { unfold listing_verify_signature, l. cbn [ls_signature set_ls_signature ls_manifest]. destruct sig as [|b sig]; [by destruct (Hne _ Hsig)|].
    rewrite Hdev, peer_parse_string. unfold listing_signable_bytes. cbn [ls_manifest ls_sources ls_bundle_hash ls_published_at_ms ls_updated_at_ms set_ls_signature].
    rewrite Hmj, Hsj. cbn [mbind Res_bind]. rewrite inline_key_pk. f_equal. by apply (kp_sign_verify kp). }
  destruct (write_json "app_listings" (mf_id m) l d) as (d' & Hw & Hg & _).
  assert (st_attempt (on_app_store (cache_listing l) tt) s = (set_an_app_store (Some d') s, Ok (Ok tt))) as Ha.
  { apply attempt_eq. unfold on_app_store, cache_listing. rewrite Hd. change (mf_id (ls_manifest l)) with (mf_id m). by rewrite Hw. }
  eexists _, d'. split_and!; [done|..].
  - unfold dispatch_listing. rewrite Hv, gets_bind, Hd, (ST_bind_Ok _ _ _ _ _ Ha). reflexivity.
  - done.
  - done.
  - unfold trust_of. by rewrite decide_True, Hv by done.
  - intros good Hgood. unfold trust_of. by rewrite decide_False by (intros E; by apply Hgood).
Qed.
End app_theorems.
