(* ===== verification/AppMesh.v ===== *)
(** * Applications over the mesh

    The application node ([AppNode.v]) composed with the mesh node ([Node.v]):
    what one user's call becomes at another user's node. *)

From S2P Require Import Prelude External Text Instances Transaction Policy Ledger LedgerTheorems CoinNode CoinNodeTheorems Bootstrap.
From S2P Require Import Wire E2E AtRest Bloom IngestGuard Security Storage Forwarding NodeData Node NodeTheorems NodeWalk NodeSecurity Host.
From S2P Require Import AppStorage AppStorageTheorems AppStorageProps Proximity MiniApp MiniAppStore MiniAppTheorems AppNodeData AppNode AppNodeInv AppNodeTheorems.

Open Scope Z_scope.

Section mesh.
Context `{C : Crypto} `{D : Sled} {DL : SledLaws D} {DO : SledOrder D} `{DB : !SledDb} {DBL : SledDbLaws DB}.
Context `{P : E2EPrims} {PL : E2ELaws P} `{J : Json} `{BW : Bincode WireMessage}.
Context `{BT : Bincode Transaction} `{BTL : !BincodeLaws BT}.
Context `{BA : Bincode AccountState} `{BAL : !BincodeLaws BA}.
Context `{BV : Bincode VelocityWindow} `{BVL : !BincodeLaws BV}.
Context `{BP : Bincode CoinPayload} `{CH : !CoinHost}.
Context `{SC : MiniCodecs} {SL : MiniCodecLaws SC} `{ZP : Zip} `{L : Lowercase}.
Context `{B : AppCodecs} {BL : AppCodecLaws B} `{MC : MeshCodecs} {ML : MeshCodecLaws MC} `{AH : AppHost}.
Context `{T : MeshTransport} `{M : MessageStore} `{NH : !NodeHost} `{HI : IdHash} `{F : FileSys}.

(** what the recipient's mesh node hands to its application *)
Lemma encrypted_direct_delivers ncfg from f plain author app nB :
  ed_to_peer f = local_peer_id ncfg -> decrypt_with (encrypted_payload f) (enc_keypair ncfg) = Ok plain ->
  unwrap_inner plain from = (author, app) ->
  exists nB' e, handle_encrypted_direct ncfg from f nB = (nB', Ok tt)
    /\ incoming nB' = incoming nB ++ [mkDM e "[encrypted]"] /\ from_peer e = author /\ payload e = app.
Proof.
  intros Ht Hd Hu. unfold handle_encrypted_direct. rewrite decide_True by done. rewrite (ST_bind_lift _ _ _ _ Hd), Hu.
  destruct (parse_x25519_public_hex (sender_enc_pubkey f)); eexists _, _; split; reflexivity || by split_and!.
Qed.

(** a signed frame for this node, from a peer that is not throttled, passes the
    checks of the run loop and is decrypted *)
Lemma signed_frame_delivers {CL : CryptoLaws C} ncfg kp from sig f plain author app nB :
  from = peer_string (pk_peer_id (kp_public kp)) ->
  verify_encrypted_direct (EncryptedDirect (with_mesh_signature sig f)) (pk_peer_id (kp_public kp)) = true ->
  throttled_now from nB = false ->
  ed_to_peer f = local_peer_id ncfg -> decrypt_with (encrypted_payload f) (enc_keypair ncfg) = Ok plain ->
  unwrap_inner plain from = (author, app) ->
  exists nB' e, node_step ncfg (InEvent (DirectReceived from (EncryptedDirect (with_mesh_signature sig f)))) nB = (nB', Ok tt)
    /\ incoming nB' = incoming nB ++ [mkDM e "[encrypted]"] /\ from_peer e = author /\ payload e = app.
Proof.
  intros -> Hv Ht Hto Hd Hu. set (from := peer_string _) in *. cbn [node_step handle_transport_event].
  destruct (incoming_open ncfg from (EncryptedDirect (with_mesh_signature sig f)) nB Ht) as (s1 & E1 & ->).
  rewrite (signed_frame_passes kp sig f Hv).
  destruct (throttle_split from nB) as (s1' & E1' & (_ & _ & _ & _ & Hi & _) & _). rewrite E1' in E1. injection E1 as -> _.
  rewrite <- Hi. by apply (encrypted_direct_delivers ncfg from (with_mesh_signature sig f) plain).
Qed.

(** C19. End to end, between neighbours: a direct message accepted by [send_chat] is one
    command with an encrypted frame; the sender's mesh node signs the frame with its
    key and hands it to the transport; when it reaches the recipient's run loop from
    that peer, and the peer is not throttled there, it passes the signature check,
    is decrypted and delivered under the sender's name, and the recipient's
    application shows the chat, with the text that was typed, if the sender is an
    accepted contact, and files a contact request otherwise. *)
Theorem chat_end_to_end {CL : CryptoLaws C} {HA : NodeHost} (cfgA cfgB : AppConf) (ncfgA ncfg : NodeConf) (kp : Keypair) to body sA sA' secret :
  let from := ac_local_peer_id cfgA in
  send_chat cfgA (Some to) body sA = (sA', Ok SentEncrypted) ->
  an_peer_keys sA !! to = Some (enc_public (enc_from_secret secret)) ->
  keypair ncfgA = Some kp -> from = peer_string (pk_peer_id (kp_public kp)) ->
  local_peer_id ncfg = to -> ac_local_peer_id cfgB = to -> enc_keypair ncfg = enc_from_secret secret ->
  from ≠ to -> from ≠ ""%string -> utf8_valid (as_bytes from) = true ->
  exists f w chat,
    an_commands sA' = an_commands sA ++ [SendWire to (EncryptedDirect f)]
    /\ ch_body chat = body /\ ch_from_display_name chat = an_display_name sA
    /\ (forall nA n r, net_send_direct to w (net nA) = (n, r) ->
          handle_command (H := HA) ncfgA (SendWire to (EncryptedDirect f)) nA = (set_net n nA, r))
    /\ forall nB sB, throttled_now (NH := NH) from nB = false -> db_good (an_storage sB) ->
         exists nB' sB' m, node_step (H := NH) ncfg (InEvent (DirectReceived from w)) nB = (nB', Ok tt)
           /\ incoming nB' = incoming nB ++ [m]
           /\ dispatch_incoming cfgB m sB = (sB', Ok tt)
           /\ chat_outcome from chat sB sB'.
Proof.
  intros from Hsend Hk Hkp Hfrom Hl HlB Henck Hne Hne' Hu. unfold send_chat in Hsend.
  apply ST_bind_inv in Hsend as (s1 & [] & He & H). pose proof (quiet_ensure to "" sA) as (Q1 & Q2 & Q3).
  rewrite He in Q1, Q2, Q3. cbn in Q1, Q2, Q3. unfold has_enc_key_for in H. rewrite gets_bind, Q2, Hk in H.
  rewrite bool_decide_eq_true_2 in H by done. apply ST_bind_inv in H as (s2 & [] & Hs & [= <-]).
  destruct (send_chat_encrypted_inv _ _ _ _ _ Hs)
    as (pk & eph & nonce & chat & app & w & enc & Hpk & Hb & Hn & Happ & Hw & Henc & Hcmd & _).
  rewrite Q2, Hk in Hpk. injection Hpk as <-.
  set (f := mkED to (local_enc_pubkey_hex cfgA) enc None 0 8).
  destruct (sign_ed_spec kp f) as (sig & Esig & Esign & Hver).
  exists f, (EncryptedDirect (with_mesh_signature sig f)), chat. split_and!; [by rewrite Hcmd, Q1|done|by rewrite Hn| |].
  { intros nA n r Hnet. cbn [handle_command]. rewrite Hkp. rewrite (ST_bind_lift _ _ _ _ Esign).
    unfold send_direct, on_net. by rewrite Hnet. }
  intros nB sB Ht HsB.
  assert (decrypt_with (encrypted_payload f) (enc_keypair ncfg) = Ok w) as Hdec.
  { rewrite Henck. by eapply (encrypt_decrypt_direct eph nonce w enc []). }
  assert (unwrap_inner w from = (from, app)) as Hun.
  { destruct (decide (length (as_bytes from) <= MAX_AUTHOR_BYTES)%nat) as [Hlen|Hlen].
    - destruct (proj1 (wrap_unwrap_roundtrip from app [] from) Hlen Hu Hne') as (w' & Hw' & ?). unfold from in *. congruence.
    - unfold wrap_inner in Hw. by rewrite decide_False in Hw. }
  destruct (signed_frame_delivers ncfg kp from sig f w from app nB Hfrom) as (nB' & e & Hh & Hi & Hf & Hpl);
    [by rewrite Hver; apply kp_sign_verify|done|by rewrite Hl|done|done|].
  assert (de (payload e) = Ok (mkAppMsg IdChat (Chat chat))) as Hde by (rewrite Hpl; by apply de_ser).
  destruct (dispatch_chat_spec cfgB from chat sB HsB) as (sB' & Hd & Ho); [by rewrite HlB|].
  exists nB', sB', (mkDM e "[encrypted]"). split_and!; [done|done| |done].
  rewrite (dispatch_encrypted cfgB (mkDM e "[encrypted]") chat IdChat sB Hde eq_refl). cbn. by rewrite Hf.
Qed.

(** ** Broadcasts to announced peers *)

(** every queued message satisfies [Q], and the network was not used *)
Definition queued (Q : PendingMessage -> Prop) (n0 : Net) (s : NodeRunner) : Prop := Forall Q (pending s) /\ net s = n0.

Lemma queued_now Q n0 : keeps (queued Q n0) now_ms.
Proof. by intros s Hs. Qed.
Lemma queued_ingest Q n0 m v : keeps (queued Q n0) (node_ingest m v).
Proof.
  unfold node_ingest. do 3 (apply keeps_bind; [apply queued_now|intros ?]). intros s Hs. unfold prim.
  by destruct (ingest _ _ _ _ _ _) as [[? ?] ?].
Qed.
Lemma queued_evict Q n0 ncfg : keeps (queued Q n0) (evict_one ncfg).
Proof.
  unfold evict_one, evict_expired. apply keeps_bind; [apply keeps_bind; [apply queued_now|intros now]|intros _].
  - apply keeps_modify. intros s [Hq Hn]. split; [|done]. cbn. apply Forall_forall.
    intros x [_ Hx]%list_elem_of_filter. by apply (proj1 (Forall_forall _ _) Hq).
  - apply keeps_modify. intros s [Hq Hn]. case_decide; [done|]. case_match; (split; [|done]); cbn.
    + unfold remove_at. apply Forall_app. split; [by apply Forall_take|by apply Forall_drop].
    + by apply Forall_tail.
Qed.
Lemma queued_enqueue (Q : PendingMessage -> Prop) n0 ncfg to m :
  Q (mkPending to m) -> keeps (queued Q n0) (enqueue ncfg to m).
Proof.
  intros HQ. unfold enqueue. apply keeps_bind; [apply queued_now|intros now]. destruct (is_expired m now); [apply keeps_ret|].
  apply keeps_bind; [apply keeps_get|intros s]. apply keeps_bind; [case_decide; [apply queued_evict|apply keeps_ret]|intros _].
  apply keeps_bind; [apply keeps_get|intros s']. case_decide.
  - apply keeps_bind; [by intros x Hx|intros; apply keeps_err].
  - apply keeps_bind; [|by intros _ x Hx]. apply keeps_modify. intros x [Hq Hn]. split; [|done]. cbn.
    by rewrite Forall_app, Forall_singleton.
Qed.

Lemma env_sign_payload kp e : payload (env_sign kp e).1 = payload e.
Proof. unfold env_sign. by destruct (kp_sign _ _). Qed.

Lemma queued_broadcast (Q : PendingMessage -> Prop) n0 ncfg body p targets :
  (forall to e, payload e = p -> Q (mkPending to (mkDM e body))) -> keeps (queued Q n0) (broadcast_to ncfg targets body p).
Proof.
  intros HQ. induction targets as [|to targets IH]; [apply keeps_ret|]. cbn [broadcast_to].
  apply keeps_bind; [apply queued_now|intros now]. cbv zeta.
  apply keeps_bind; [apply queued_ingest|intros _]. apply keeps_bind; [|by intros _].
  apply queued_enqueue, HQ. unfold sign_local. destruct (keypair ncfg); [|done]. by rewrite env_sign_payload.
Qed.

Definition group_scope (g : Group) : string := ("mycelium/group/" +:+ gr_id g)%string.

Lemma send_group_message_inv cfg g body s s' :
  send_group_message cfg g body s = (s', Ok tt) ->
  exists pre enc p, ser (EncryptedGroup (gr_id g) enc) = Ok p
    /\ an_commands s' = an_commands s ++ pre ++ [BroadcastPayload (group_scope g) "[group message]" p].
Proof.
  unfold send_group_message. intros (s1 & [] & H1 & H)%ST_bind_inv.
  assert (an_commands s1 = an_commands s) as E1.
  { pose proof (quiet_storage (group_record_peer_seen (gr_id g) (ac_local_peer_id cfg)) s) as (Q & _).
    unfold st_ignore in H1. injection H1 as <-. exact Q. }
  apply ST_bind_inv in H as (s2 & chat & Hc & H). apply quiet_new_chat in Hc as (E2 & _).
  apply ST_bind_inv in H as (s3 & [] & H3 & H).
  pose proof (quiet_storage (save_group_chat (gr_id g) chat) s2) as (E3 & _). rewrite H3 in E3. cbn in E3.
  apply ST_bind_inv in H as (s4 & pt & [= <- _] & H). apply ST_bind_inv in H as (s4 & nonce & [= <- _] & H).
  apply ST_bind_inv in H as (s5 & enc & [= <- _] & H). apply ST_bind_inv in H as (s5 & p & [= <- Hp] & H).
  apply ST_bind_inv in H as (s6 & [] & H6 & H).
  pose proof (sends_send (fun _ => True) (SubscribeScope "mycelium/group/*") I (set_an_ticks (S (an_ticks s3)) s3)) as (pre & E6 & _).
  unfold st_ignore in H6. injection H6 as E5. rewrite E5 in E6. unfold send in H.
  destruct (handle_send _ _); [|done]. injection H as <-. exists pre, enc, p. split; [done|]. cbn.
  rewrite E6. cbn. by rewrite E3, E2, E1, <- app_assoc.
Qed.

Lemma dispatch_group_message cfg e p err s :
  payload e = p -> de (A := AppMessage) p = Err err -> dispatch_incoming cfg (mkDM e "[group message]") s = (s, Ok tt).
Proof.
  intros Hp Hd. unfold dispatch_incoming. cbn [dm_body dm_envelope]. rewrite !decide_False by done.
  change (bulletin_scope "[group message]") with (@None string). by rewrite Hp, Hd.
Qed.

(** Group chat does not reach connected peers: when some peer has announced a
    scope that covers the group, the run loop sends the frame to the announced
    peers as data tagged [group message], not by gossip, and the application at
    the other end recognises only the tag [mycelium:group]: the message is
    dropped, although the frame is right. *)
Theorem group_message_lost_between_peers cfgA g body sA sA' :
  (forall gid enc p, ser (EncryptedGroup gid enc) = Ok p -> exists e, de (A := AppMessage) p = Err e) ->
  send_group_message cfgA g body sA = (sA', Ok tt) ->
  exists pre p, an_commands sA' = an_commands sA ++ pre ++ [BroadcastPayload (group_scope g) "[group message]" p]
  /\ forall ncfg n, targets_for_scope (group_scope g) n ≠ [] -> pending n = [] ->
       let n' := (handle_command ncfg (BroadcastPayload (group_scope g) "[group message]" p) n).1 in
       net n' = net n
       /\ forall x, x ∈ pending n' -> forall cfgB sB, dispatch_incoming cfgB (pm_message x) sB = (sB, Ok tt).
Proof.
  intros Htag Hs. destruct (send_group_message_inv _ _ _ _ _ Hs) as (pre & enc & p & Hp & Hc).
  destruct (Htag _ _ _ Hp) as [err Herr]. exists pre, p. split; [done|]. intros ncfg n Ht Hpend. cbv zeta.
  cbn [handle_command]. unfold broadcast_scoped. erewrite ST_bind_Ok; [|reflexivity]. rewrite decide_False by done.
  pose proof (queued_broadcast (fun x => forall cfgB sB, dispatch_incoming cfgB (pm_message x) sB = (sB, Ok tt))
    (net n) ncfg "[group message]" p (targets_for_scope (group_scope g) n)) as Hq.
  assert (forall (to : string) e, payload e = p -> forall cfgB sB,
    dispatch_incoming cfgB (mkDM e "[group message]") sB = (sB, Ok tt)) as Hlost.
  { intros _ e He cfgB sB. by eapply dispatch_group_message. }
  destruct (Hq Hlost n) as [Hf Hn]; [by split; [rewrite Hpend|]|].
  split; [done|]. intros x Hx. by apply (proj1 (Forall_forall _ _) Hf).
Qed.

(** ** Gossip *)

(** the messages an operation hands to the application all satisfy [Q] *)
Definition delivers {A} (Q : DirectMessage -> Prop) (m : ST NodeRunner A) : Prop := forall s,
  exists new, incoming (m s).1 = incoming s ++ new /\ Forall Q new.

Lemma delivers_bind {A X} Q (m : ST NodeRunner A) (f : A -> ST NodeRunner X) :
  delivers Q m -> (forall a, delivers Q (f a)) -> delivers Q (m ≫= f).
Proof.
  intros Hm Hf s. unfold mbind, ST_bind. destruct (Hm s) as (l1 & E1 & H1). destruct (m s) as [s1 [a|e]]; [|by exists l1].
  destruct (Hf a s1) as (l2 & E2 & H2). exists (l1 ++ l2). cbn in E1. by rewrite E2, E1, app_assoc, Forall_app.
Qed.

Lemma delivers_none {A} Q (m : ST NodeRunner A) : (forall s, incoming (m s).1 = incoming s) -> delivers Q m.
Proof. intros Hm s. exists []. split; [|done]. by rewrite app_nil_r. Qed.

Lemma delivers_ingest Q m v : delivers Q (node_ingest m v).
Proof.
  unfold node_ingest. do 3 (apply delivers_bind; [by apply delivers_none|intros ?]). apply delivers_none. intros s.
  unfold prim. by destruct (ingest _ _ _ _ _ _) as [[? ?] ?].
Qed.

Lemma delivers_guard {A} Q (f : IngestGuard -> IngestGuard * A) : delivers Q (on_guard f).
Proof. apply delivers_none. intros s. unfold on_guard. by destruct (f _). Qed.

Lemma delivers_gossip (Q : DirectMessage -> Prop) now from p body :
  (forall e, payload e = p -> Q (mkDM e body)) -> delivers Q (gossip_store now from p body).
Proof.
  intros HQ. unfold gossip_store. apply delivers_bind; [by apply delivers_none|intros created]. cbv zeta.
  apply delivers_bind; [apply delivers_guard|intros r]. destruct r as [|reason]; [|destruct reason; by apply delivers_none].
  apply delivers_bind; [apply delivers_ingest|intros fresh]. destruct fresh; [|by apply delivers_none].
  intros s. exists [mkDM (envelope_new_unsigned from None p created) body]. split; [done|]. apply Forall_singleton. by apply HQ.
Qed.

(** a payload that is no post is dropped under a bulletin tag *)
Lemma dispatch_bulletin_other cfg e scope p am s :
  payload e = p -> take 5 p ≠ ENC_PREFIX -> de (A := AppMessage) p = Ok am ->
  (forall post, am_payload am ≠ Bulletin post) ->
  dispatch_incoming cfg (mkDM e ("[bulletin:" +:+ scope +:+ "]")) s = (s, Ok tt).
Proof.
  intros Hp He Hd Hb. unfold dispatch_incoming. cbn [dm_body dm_envelope]. rewrite !decide_False by done.
  rewrite bulletin_scope_tag, Hp. unfold dispatch_bulletin, handle_bulletin_payload. rewrite decide_False by done.
  assert (as_post p = Ok None) as E.
  { unfold as_post. rewrite Hd. cbn. destruct (am_payload am) eqn:Ea; try done. by destruct (Hb p0). }
  unfold mbind, ST_bind, st_attempt, st_lift. by rewrite E.
Qed.

(** Chat and coin messages do not survive the gossip path: the mesh node tags
    every gossip payload that is not valid UTF-8 as a bulletin of its scope,
    and the application reads a bulletin tag as a post and nothing else.  A
    binary payload of another kind, such as a broadcast chat on the scope
    [mycelium/chat] or a coin payload on [mycelium/coin/v1], is accepted,
    stored, delivered and dropped. *)
Theorem gossiped_payload_lost scope from p am :
  scope = "mycelium/chat"%string \/ scope = "mycelium/coin/v1"%string ->
  utf8_valid p = false -> take 5 p ≠ ENC_PREFIX ->
  de (A := AppMessage) p = Ok am -> (forall post, am_payload am ≠ Bulletin post) ->
  forall n, exists new, incoming (handle_scoped from scope p n).1 = incoming n ++ new
    /\ Forall (fun m => forall cfgB sB, dispatch_incoming cfgB m sB = (sB, Ok tt)) new.
Proof.
  intros Hsc Hu He Hd Hb.
  change (delivers (fun m => forall cfgB sB, dispatch_incoming cfgB m sB = (sB, Ok tt)) (handle_scoped from scope p)).
  unfold handle_scoped. apply delivers_bind; [by apply delivers_none|intros s]. destruct (negb _); [by apply delivers_none|].
  apply delivers_bind; [by apply delivers_none|intros now]. apply delivers_bind; [apply delivers_guard|intros r].
  destruct r as [|reason]; [|destruct reason; by apply delivers_none].
  assert (starts_with "mycelium/group/" scope = false) as -> by (by destruct Hsc as [-> | ->]). cbn [andb].
  rewrite !decide_False by (by destruct Hsc as [-> | ->]). rewrite Hu, orb_true_r.
  apply delivers_gossip. intros e Hp cfgB sB. by eapply dispatch_bulletin_other.
Qed.

Lemma omap_none {A X} (f : A -> option X) l : (forall a, a ∈ l -> f a = None) -> omap f l = [].
Proof.
  induction l as [|a l IH]; intros H; [done|]. cbn. rewrite (H a) by left. apply IH. intros b Hb. apply H. by right.
Qed.

(** the scopes of a new node *)
Definition initial_scopes : gset string := list_to_set (SYSTEM_SCOPES ++ ["mycelium/group/*"%string]).

Definition REVOCATION_SCOPE : string := "mycelium/appstore/revocations/v1".

(** no scope of a new node matches *)
Definition unheard (scope : string) : Prop := forall pattern, pattern ∈ elements initial_scopes -> scope_matches scope pattern = false.

Lemma unheard_intro scope :
  Forall (fun pattern => scope_matches scope pattern = false) (SYSTEM_SCOPES ++ ["mycelium/group/*"%string]) -> unheard scope.
Proof.
  intros H pattern. rewrite elem_of_elements. unfold initial_scopes. rewrite elem_of_list_to_set. revert pattern. by apply Forall_forall.
Qed.

Lemma unheard_existsb scope : unheard scope -> existsb (fun pattern => scope_matches scope pattern) (elements initial_scopes) = false.
Proof.
  intros H. apply not_true_is_false. rewrite existsb_exists. intros (x & Hx & Hm). apply list_elem_of_In in Hx.
  by rewrite (H x Hx) in Hm.
Qed.

(** among nodes with the scopes they start with, what is broadcast on such a
    scope has no target, and a node that receives it as gossip ignores it *)
Lemma unheard_broadcast scope tag p :
  unheard scope ->
  (forall ncfg n, (forall q ps, peer_scopes n !! q = Some ps -> ps = initial_scopes) ->
     handle_command ncfg (BroadcastPayload scope tag p) n = on_net (net_publish_scoped scope p) n)
  /\ forall from n, subscribed_scopes n = initial_scopes -> handle_scoped from scope p n = (n, Ok tt).
Proof.
  intros Hu%unheard_existsb. split.
  - intros ncfg n Hp. cbn [handle_command]. unfold broadcast_scoped. erewrite ST_bind_Ok; [|reflexivity].
    rewrite decide_True; [done|]. unfold targets_for_scope. apply omap_none. intros [q ps] Hin.
    apply elem_of_map_to_list in Hin. cbn. by rewrite (Hp q ps Hin), Hu.
  - intros from n Hn. unfold handle_scoped. erewrite ST_bind_Ok; [|reflexivity]. by rewrite Hn, Hu.
Qed.

(** Revocations are published on a scope no node subscribes to: among nodes
    with the scopes they start with, no peer is a target of the revocation
    scope, so the run loop publishes by gossip, and a node that receives the
    gossip ignores it. *)
Theorem revocation_gossip_unheard r s s' :
  publish_app_revocation r s = (s', Ok tt) ->
  exists p tag, an_commands s' = an_commands s ++ [BroadcastPayload REVOCATION_SCOPE tag p]
  /\ (forall ncfg n, (forall q ps, peer_scopes n !! q = Some ps -> ps = initial_scopes) ->
        handle_command ncfg (BroadcastPayload REVOCATION_SCOPE tag p) n = on_net (net_publish_scoped REVOCATION_SCOPE p) n)
  /\ forall from n, subscribed_scopes n = initial_scopes -> handle_scoped from REVOCATION_SCOPE p n = (n, Ok tt).
Proof.
  unfold publish_app_revocation. intros (s1 & ok & [= <- _] & H)%ST_bind_inv. destruct ok; [|done]. cbn [negb] in H.
  apply ST_bind_inv in H as (s1 & p & [= <- _] & H). apply ST_bind_inv in H as (s1 & [] & Hsend & H).
  unfold send in Hsend. destruct (handle_send _ _); [|done]. injection Hsend as <-. rewrite a_now_bind in H.
  assert (an_commands s' = an_commands s ++ [BroadcastPayload REVOCATION_SCOPE ("[revoke:" +:+ rv_app_id r +:+ "]") p]) as Hc.
  { unfold st_ignore, on_app_store in H. cbn [an_app_store set_an_ticks set_an_commands] in H.
    destruct (an_app_store s); [destruct (ingest_gossip_revocation _ _ _)|]; by injection H as <-. }
  exists p, ("[revoke:" +:+ rv_app_id r +:+ "]")%string. split; [done|].
  apply unheard_broadcast, unheard_intro. repeat constructor; by vm_compute.
Qed.
End mesh.
