(* ===== verification/AppTasks.v ===== *)
(** * The incoming task

    [start_incoming_task] of [mycelium-app/src/node.rs], which feeds the
    application node from the broadcast channel of the run loop
    ([broadcast::channel(512)] in [mycelium-node/src/node.rs]).  A tokio broadcast
    channel keeps the last [cap] messages: a receiver further behind is told that
    it lagged. *)

From S2P Require Import Prelude External Text Instances Transaction Policy Ledger CoinNode Wire E2E Host AppStorage Proximity.
From S2P Require Import MiniApp MiniAppStore NodeData AppNodeData AppNode.

Definition INCOMING_CAPACITY : nat := 512.

(** what [recv] returns when it does not wait *)
Inductive Recv (A : Type) := RItem (a : A) | RLagged | RClosed.
Arguments RItem {A} a.
Arguments RLagged {A}.
Arguments RClosed {A}.

Section channel.
Context {A : Type}.

Record Broadcast := mkBroadcast { bc_cap : nat; bc_sent : list A; bc_closed : bool }.

Definition bc_send (a : A) (c : Broadcast) : Broadcast := mkBroadcast (bc_cap c) (bc_sent c ++ [a]) (bc_closed c).
Definition bc_close (c : Broadcast) : Broadcast := mkBroadcast (bc_cap c) (bc_sent c) true.

(** how far a receiver at [pos] is behind *)
Definition backlog (c : Broadcast) (pos : nat) : nat := (length (bc_sent c) - pos)%nat.

(** [None]: it waits *)
Definition bc_recv (c : Broadcast) (pos : nat) : option (nat * Recv A) :=
  if decide (bc_cap c < backlog c pos)%nat then Some ((length (bc_sent c) - bc_cap c)%nat, RLagged) else
  match bc_sent c !! pos with
  | Some a => Some (S pos, RItem a)
  | None => if bc_closed c then Some (pos, RClosed) else None
  end.
End channel.
Arguments Broadcast : clear implicits.

Section task.
Context `{C : Crypto} `{D : Sled} `{DB : !SledDb} `{P : E2EPrims} `{J : Json} `{BW : Bincode WireMessage}.
Context `{BT : Bincode Transaction} `{BA : Bincode AccountState} `{BV : Bincode VelocityWindow}.
Context `{BP : Bincode CoinPayload} `{CH : !CoinHost}.
Context `{SC : MiniCodecs} `{B : AppCodecs} `{MC : MeshCodecs} `{AH : AppHost}.
Variable cfg : AppConf.

Record IncomingTask := mkTask {
  it_chan : Broadcast DirectMessage;
  it_pos : nat;
  it_alive : bool;
  it_node : AppNode;
}.

Definition start_incoming_task (node : AppNode) : IncomingTask := mkTask (mkBroadcast INCOMING_CAPACITY [] false) 0 true node.

Definition dispatch_one (node : AppNode) (m : DirectMessage) : AppNode := (dispatch_incoming cfg m node).1.

(** one round of the loop *)
Definition task_turn (t : IncomingTask) : IncomingTask :=
  if negb (it_alive t) then t else
  match bc_recv (it_chan t) (it_pos t) with
  | None => t
  | Some (pos, RItem m) => mkTask (it_chan t) pos true (dispatch_one (it_node t) m)
  | Some (pos, _) => mkTask (it_chan t) pos false (it_node t)
  end.

(** the run loop sends, the run loop ends, the task is scheduled *)
Inductive TaskEvent := TSend (m : DirectMessage) | TClose | TTurn.

Definition task_step (t : IncomingTask) (e : TaskEvent) : IncomingTask :=
  match e with
  | TSend m => mkTask (bc_send m (it_chan t)) (it_pos t) (it_alive t) (it_node t)
  | TClose => mkTask (bc_close (it_chan t)) (it_pos t) (it_alive t) (it_node t)
  | TTurn => task_turn t
  end.

Definition run_task (es : list TaskEvent) (t : IncomingTask) : IncomingTask := foldl task_step t es.

(** ** Theorems *)

(** while the task lives, the node is what the messages before its position made
    of it *)
Definition task_inv (a0 : AppNode) (t : IncomingTask) : Prop :=
  bc_cap (it_chan t) = INCOMING_CAPACITY
  /\ exists done, (it_alive t = true -> done = it_pos t) /\ (done <= length (bc_sent (it_chan t)))%nat
       /\ it_node t = foldl dispatch_one a0 (take done (bc_sent (it_chan t))).

Lemma task_step_inv a0 t e : task_inv a0 t -> task_inv a0 (task_step t e).
Proof.
  intros [Hc (n & Ha & Hn & Hd)]. destruct e as [m| |]; cbn [task_step].
  - split; [done|]. exists n. cbn. rewrite length_app. split_and!; [done|lia|]. by rewrite take_app_le.
  - split; [done|]. by exists n.
  - unfold task_turn. destruct (it_alive t) eqn:Al; cbn [negb]; [|split; [done|by exists n; rewrite Al]].
    specialize (Ha eq_refl) as ->. unfold bc_recv. case_decide; [split; [done|by exists (it_pos t)]|].
    destruct (bc_sent (it_chan t) !! it_pos t) as [m|] eqn:Em.
    + split; [done|]. exists (S (it_pos t)). cbn. pose proof (lookup_lt_Some _ _ _ Em). split_and!; [done|lia|].
      by rewrite (take_S_r _ _ _ Em), foldl_app, Hd.
    + destruct (bc_closed _); (split; [done|by exists (it_pos t); rewrite ?Al]).
Qed.

Lemma run_task_inv a0 es : task_inv a0 (run_task es (start_incoming_task a0)).
Proof.
  assert (task_inv a0 (start_incoming_task a0)) as H0 by (split; [done|by exists 0%nat]).
  revert H0. generalize (start_incoming_task a0). induction es as [|e es IH]; intros t Ht; [done|]. by apply IH, task_step_inv.
Qed.

(** turns without new messages work the backlog off *)
Lemma turns_drain (t : IncomingTask) k :
  it_alive t = true -> backlog (it_chan t) (it_pos t) = k -> (k <= bc_cap (it_chan t))%nat ->
  it_node (run_task (replicate k TTurn) t) = foldl dispatch_one (it_node t) (drop (it_pos t) (bc_sent (it_chan t))).
Proof.
  revert t. induction k as [|k IH]; intros t Ha Hk Hc.
  - cbn. unfold backlog in Hk. by rewrite drop_ge by lia.
  - assert (is_Some (bc_sent (it_chan t) !! it_pos t)) as [m Em] by (apply lookup_lt_is_Some; unfold backlog in Hk; lia).
    cbn [replicate]. unfold run_task. cbn [foldl task_step]. unfold task_turn, bc_recv. rewrite Ha. cbn [negb].
    rewrite decide_False, Em by lia. unfold run_task in IH.
    rewrite IH by (unfold backlog in *; cbn; first [done|lia]). cbn. by rewrite (drop_S _ _ _ Em).
Qed.

Lemma dead_stays es t : it_alive t = false -> it_node (run_task es t) = it_node t.
Proof.
  revert t. induction es as [|e es IH]; intros t Ha; [done|]. unfold run_task in *. cbn [foldl]. rewrite IH.
  - destruct e; try done. cbn. unfold task_turn. by rewrite Ha.
  - destruct e; try done. cbn. unfold task_turn. by rewrite Ha.
Qed.

(** C37. The incoming task delivers in order, once, until it lags: under any
    schedule of messages and turns the application node is what dispatching a
    prefix of the messages, in order, made of it; while the task lives and is at
    most 512 messages behind, as many turns as it is behind dispatch all of them;
    and if it is scheduled when more than 512 behind, it ends for good: whatever
    comes afterwards, no message reaches the application any more. *)
Theorem incoming_task_delivers (es : list TaskEvent) (a0 : AppNode) :
  let t := run_task es (start_incoming_task a0) in
  let sent := bc_sent (it_chan t) in
  let behind := backlog (it_chan t) (it_pos t) in
  (exists k, (k <= length sent)%nat /\ it_node t = foldl dispatch_one a0 (take k sent))
  /\ (it_alive t = true -> (behind <= INCOMING_CAPACITY)%nat ->
        it_node (run_task (replicate behind TTurn) t) = foldl dispatch_one a0 sent)
  /\ (it_alive t = true -> (INCOMING_CAPACITY < behind)%nat ->
        forall later, it_node (run_task (TTurn :: later) t) = it_node t).
Proof.
  cbv zeta. destruct (run_task_inv a0 es) as [Hc (n & Ha & Hn & Hd)]. set (t := run_task es _) in *. split_and!.
  - by exists n.
  - intros Al Hb. rewrite turns_drain by (rewrite ?Hc; done). rewrite Hd. specialize (Ha Al) as ->.
    by rewrite <- foldl_app, take_drop.
  - intros Al Hb later. change (run_task (TTurn :: later) t) with (run_task later (task_turn t)).
    assert (task_turn t = mkTask (it_chan t) (length (bc_sent (it_chan t)) - bc_cap (it_chan t)) false (it_node t)) as ->.
    { unfold task_turn, bc_recv. rewrite Al. cbn [negb]. by rewrite decide_True by lia. }
    by rewrite dead_stays.
Qed.
End task.
