(* ===== verification/FrontInv.v ===== *)
(** * What the front ends rely on

    Every operation of the application node keeps the invariant of
    [AppNodeInv.v], stated once per operation as a hint: the bindings, the
    desktop, the HTTP API and the command line are compositions of them.  The
    amount issued may grow (the faucet), so the invariant is [app_good]. *)

From S2P Require Import Prelude External Text Instances Transaction Policy Ledger LedgerView LedgerTheorems CoinNode CoinNodeTheorems.
From S2P Require Import Wire E2E AtRest Bootstrap NodeData Host AppStorage AppStorageTheorems AppStorageProps.
From S2P Require Import Proximity MiniApp MiniAppStore MiniAppTheorems AppNodeData AppNode AppNodeInv.

Open Scope Z_scope.

Create HintDb front.

Lemma keeps_attempt_iff {S A} (I : S -> Prop) (m : ST S A) : keeps I (st_ignore m) <-> keeps I m.
Proof. done. Qed.

Lemma triple_keeps {S A} (I : S -> Prop) (m : ST S A) Q : triple I m Q -> keeps I m.
Proof. intros Hm s Hs. by apply (Hm s (m s).1 (m s).2 Hs), surjective_pairing. Qed.

Section front.
Context `{C : Crypto} `{D : Sled} {DL : SledLaws D} {DO : SledOrder D} `{DB : !SledDb} {DBL : SledDbLaws DB}.
Context `{P : E2EPrims} `{J : Json} `{BW : Bincode WireMessage}.
Context `{BT : Bincode Transaction} `{BTL : !BincodeLaws BT}.
Context `{BA : Bincode AccountState} `{BAL : !BincodeLaws BA}.
Context `{BV : Bincode VelocityWindow} `{BVL : !BincodeLaws BV}.
Context `{BP : Bincode CoinPayload} `{CH : !CoinHost}.
Context `{SC : MiniCodecs} {SL : MiniCodecLaws SC} `{ZP : Zip} `{L : Lowercase}.
Context `{B : AppCodecs} {BL : AppCodecLaws B} `{MC : MeshCodecs} `{AH : AppHost}.

Definition app_good (s : AppNode) : Prop := exists n, app_ok n s.

Lemma good_of_ok {A} (m : ST AppNode A) : (forall n, keeps (app_ok n) m) -> keeps app_good m.
Proof. intros Hm s [n Hs]. exists n. by apply Hm. Qed.

Lemma good_same {A} (m : ST AppNode A) :
  (forall s, an_coin (m s).1 = an_coin s /\ an_px_inbox (m s).1 = an_px_inbox s
     /\ an_px_matches (m s).1 = an_px_matches s /\ an_px_active (m s).1 = an_px_active s
     /\ an_px_store (m s).1 = an_px_store s /\ an_storage (m s).1 = an_storage s
     /\ an_app_store (m s).1 = an_app_store s) -> keeps app_good m.
Proof.
  intros Hm. apply good_of_ok. intros n. apply (triple_keeps _ _ (fun _ => True)). by apply app_same.
Qed.

Lemma good_now : keeps app_good a_now.
Proof. by apply good_same. Qed.
Lemma good_uuid : keeps app_good a_uuid.
Proof. by apply good_same. Qed.
Lemma good_random k : keeps app_good (a_random k).
Proof. by apply good_same. Qed.
Lemma good_send c : keeps app_good (send c).
Proof. apply good_same. intros s. unfold send. by destruct (handle_send _ _). Qed.
Lemma good_name x : keeps app_good (set_display_name x).
Proof. by apply good_same. Qed.

(** ** The database *)

Lemma good_storage {A} (m : ST AppStorage A) : keeps db_good m -> keeps app_good (on_storage m).
Proof. intros Hm. apply good_of_ok. intros n. apply (triple_keeps _ _ (fun _ => True)). by apply t_storage. Qed.

Lemma good_op o : op_typed o -> keeps app_good (on_storage (run_op o)).
Proof. intros Ho. by apply good_storage, run_op_keeps. Qed.

Lemma good_read {A} k (f : Tree -> anyhow A) : keeps app_good (on_storage (with_tree k f)).
Proof. apply good_storage, with_tree_keeps. Qed.

Lemma good_contacts_with st : keeps app_good (on_storage (contacts_with_status st)).
Proof. apply good_storage. apply keeps_bind; [apply with_tree_keeps|intros; apply keeps_ret]. Qed.
Lemma good_prune now : keeps app_good (on_storage (prune_expired_bulletins now)).
Proof. apply good_storage. exact (run_op_keeps (OPrune now) I). Qed.
Lemma good_save_group g : keeps app_good (on_storage (save_group g)).
Proof. exact (good_op (OSaveGroup g) I). Qed.
Lemma good_delete_group g : keeps app_good (on_storage (delete_group g)).
Proof. exact (good_op (ODeleteGroup g) I). Qed.
Lemma good_mark_read id : keeps app_good (on_storage (mark_read id)).
Proof. exact (good_op (OMarkRead id) I). Qed.
Lemma good_kv_set k v nonce : keeps app_good (on_storage (miniapp_set k v nonce)).
Proof. exact (good_op (OKvSet k v nonce) I). Qed.
Lemma good_kv_delete k : keeps app_good (on_storage (miniapp_delete k)).
Proof. exact (good_op (OKvDelete k) I). Qed.
Lemma good_kv_clear a : keeps app_good (on_storage (miniapp_clear_all_for_app a)).
Proof. exact (good_op (OKvClear a) I). Qed.
Lemma good_kv_get k : keeps app_good (on_storage (miniapp_get k)).
Proof. apply good_storage. unfold miniapp_get. keeps_auto; eauto using with_tree_keeps. Qed.

(** ** The coin node *)

Lemma good_coin {A} (m : ST CoinState A) x :
  (forall n c, node_ok n c -> exists n', node_ok n' (m c).1) -> keeps app_good (on_coin m x).
Proof.
  intros Hm s [n (Hc & Hp & Hd & Ha)]. unfold on_coin. destruct (an_coin s) as [c|] eqn:E; [|by exists n].
  destruct (Hm n c (Hc c E)) as [n' Hn]. destruct (m c) as [c' r]. exists n'.
  split; [|done]. by intros ? [= <-].
Qed.

Lemma coin_ok_grows n c : node_ok n c -> forall cfg, exists n', node_ok n' (request_faucet_coins cfg c).1.
Proof.
  intros Hc cfg. unfold request_faucet_coins, mbind, ST_bind, st_get, st_lift.
  destruct (account_state _ _) as [acc|]; [|by exists n]. case_decide; [|by exists n].
  unfold on_ledger. destruct (genesis_credit _ _ (cn_ledger c)) as [l r] eqn:E.
  eexists. unfold node_ok. cbn [fst cn_ledger]. eapply reach_genesis; [exact Hc| |exact E].
  unfold in_u. by vm_compute.
Qed.

(** ** The app store *)

Lemma good_apps {A} (m : ST Db A) x : keeps rep_in_range m -> keeps app_good (on_app_store m x).
Proof. intros Hm. apply good_of_ok. intros n. apply (triple_keeps _ _ (fun _ => True)). by apply t_apps. Qed.

Lemma range_step {A} (m : ST Db A) : (forall d, store_step d (m d).1) -> keeps rep_in_range m.
Proof. intros Hm d Hd. eapply reputation_in_range; [exact Hd|]. by apply rtc_once. Qed.

Lemma range_read {A} n (f : Tree -> anyhow A) : keeps rep_in_range (read_tree n f).
Proof. intros d Hd. by rewrite read_tree_eq. Qed.

#[local] Hint Resolve range_read : keeps.

Lemma range_manifest app : keeps rep_in_range (get_manifest app).
Proof. apply range_read. Qed.
Lemma range_safe app : keeps rep_in_range (effective_safe_mode app).
Proof. unfold effective_safe_mode, prefs_load, rep_load. keeps_auto. Qed.
Lemma range_policy app b : keeps rep_in_range (policy_load_with_store app b).
Proof. unfold policy_load_with_store, prefs_load, rep_load, is_app_revoked, load_revocations. keeps_auto. Qed.
Lemma range_preview bytes : keeps rep_in_range (preview_install bytes).
Proof. intros d Hd. destruct (preview_install bytes d) as [d' r] eqn:E. by apply preview_pure in E as ->. Qed.
Lemma range_install bytes t a now : keeps rep_in_range (install_verified bytes t a now).
Proof. apply range_step. constructor. Qed.
Lemma range_uninstall id : keeps rep_in_range (uninstall id).
Proof. apply range_step. constructor. Qed.
Lemma range_prefs id b : keeps rep_in_range (set_safe_mode id b).
Proof. apply range_step. constructor. Qed.
Lemma range_report id now : keeps rep_in_range (record_user_report id now).
Proof. apply range_step. constructor. Qed.
End front.

#[export] Hint Resolve good_now good_uuid good_random good_send good_name good_read good_contacts_with good_prune good_save_group
  good_delete_group good_mark_read good_kv_set good_kv_delete good_kv_clear good_kv_get range_manifest range_safe range_policy
  range_preview range_install range_uninstall range_prefs range_report : front.
#[export] Hint Resolve keeps_ret keeps_get keeps_gets keeps_lift keeps_err : front.

(** ** Every operation of the application node *)
Section front_calls.
Context `{C : Crypto} `{D : Sled} {DL : SledLaws D} {DO : SledOrder D} `{DB : !SledDb} {DBL : SledDbLaws DB}.
Context `{P : E2EPrims} `{J : Json} `{BW : Bincode WireMessage}.
Context `{BT : Bincode Transaction} `{BTL : !BincodeLaws BT}.
Context `{BA : Bincode AccountState} `{BAL : !BincodeLaws BA}.
Context `{BV : Bincode VelocityWindow} `{BVL : !BincodeLaws BV}.
Context `{BP : Bincode CoinPayload} `{CH : !CoinHost}.
Context `{SC : MiniCodecs} {SL : MiniCodecLaws SC} `{ZP : Zip} `{L : Lowercase}.
Context `{B : AppCodecs} {BL : AppCodecLaws B} `{MC : MeshCodecs} `{AH : AppHost}.
Variable cfg : AppConf.
Hypothesis HT : HostTyped.

Lemma good_call c : call_typed c -> keeps app_good (run_call cfg c).
Proof. intros Hc. apply good_of_ok. intros n. apply (triple_keeps _ _ (fun _ => True)). by apply t_call. Qed.

Lemma good_dispatch msg : keeps app_good (dispatch_incoming cfg msg).
Proof. by apply (good_call (CDispatch msg)). Qed.
Lemma good_send_chat to body : keeps app_good (send_chat cfg to body).
Proof. by apply (good_call (CSendChat to body)). Qed.
Lemma good_send_encrypted to body : keeps app_good (send_chat_encrypted cfg to body).
Proof. by apply (good_call (CSendChatEncrypted to body)). Qed.
Lemma good_send_group g body : keeps app_good (send_group_message cfg g body).
Proof. by apply (good_call (CSendGroup g body)). Qed.
Lemma good_post scope title body ttl :
  utf8_valid (as_bytes scope) = true -> keeps app_good (post_bulletin scope title body ttl).
Proof. intros Hu. by apply (good_call (CPost scope title body ttl)). Qed.
Lemma good_create_key scope name : keeps app_good (create_scope_key scope name).
Proof. by apply (good_call (CCreateScopeKey scope name)). Qed.
Lemma good_add_key invite : keeps app_good (add_scope_key_from_invite invite).
Proof. by apply (good_call (CAddScopeKey invite)). Qed.
Lemma good_delete_key scope : keeps app_good (app_delete_scope_key scope).
Proof. by apply (good_call (CDeleteScopeKey scope)). Qed.
Lemma good_mail to subject body atts : keeps app_good (send_mail cfg to subject body atts).
Proof. by apply (good_call (CSendMail to subject body atts)). Qed.
Lemma good_start_px pf ttl : keeps app_good (start_proximity cfg pf ttl).
Proof. by apply (good_call (CStartProximity pf ttl)). Qed.
Lemma good_stop_px : keeps app_good stop_proximity.
Proof. by apply (good_call CStopProximity). Qed.
Lemma good_nearby : keeps app_good nearby_profiles.
Proof. by apply (good_call CNearby). Qed.
Lemma good_express enc : keeps app_good (express_proximity_interest cfg enc).
Proof. by apply (good_call (CExpress enc)). Qed.
Lemma good_send_px enc m : keeps app_good (send_proximity_message cfg enc m).
Proof. by apply (good_call (CSendProximity enc m)). Qed.
Lemma good_add_contact p n a : keeps app_good (add_contact p n a).
Proof. by apply (good_call (CAddContact p n a)). Qed.
Lemma good_accept_contact p : keeps app_good (accept_contact p).
Proof. by apply (good_call (CAcceptContact p)). Qed.
Lemma good_remove_contact p : keeps app_good (remove_contact p).
Proof. by apply (good_call (CRemoveContact p)). Qed.
Lemma good_reject_contact p : keeps app_good (reject_contact p).
Proof. by apply (good_call (CRemoveContact p)). Qed.
Lemma good_publish_listing l : keeps app_good (publish_app_listing l).
Proof. by apply (good_call (CPublishListing l)). Qed.
Lemma good_publish_revocation r : keeps app_good (publish_app_revocation r).
Proof. by apply (good_call (CPublishRevocation r)). Qed.

Lemma good_bulletins scope : keeps app_good (app_bulletins_for_scope scope).
Proof. unfold app_bulletins_for_scope. apply keeps_bind; [apply good_now|intros; apply good_read]. Qed.
Lemma good_export_key scope : keeps app_good (export_scope_key scope).
Proof. unfold export_scope_key. apply keeps_bind; [apply good_read|intros []; auto with front]. Qed.
Lemma good_is_encrypted scope : keeps app_good (scope_is_encrypted scope).
Proof. unfold scope_is_encrypted. apply keeps_bind; [apply good_read|auto with front]. Qed.
Lemma good_messages since : keeps app_good (proximity_messages since).
Proof. unfold proximity_messages. apply keeps_bind; auto with front. Qed.

(** a payment, and the rounds of the hot wallet *)
Lemma good_submit path to amount fee m n c :
  in_u 64 amount -> in_u 64 fee -> node_ok n c ->
  exists n', node_ok n' (submit_transfer_from_identity_path (ac_coin cfg) path to amount fee m c).1.
Proof.
  intros Ha Hf Hc. exists n. revert c Hc. apply (triple_keeps _ _ (fun _ => True)).
  apply submit_ok; [apply (coin_clock_typed HT)|done..].
Qed.

Lemma good_refill hot path n c : node_ok n c -> exists n', node_ok n' (maybe_refill (ac_coin cfg) hot path c).1.
Proof.
  intros Hc. exists n. revert c Hc. change (keeps (node_ok n) (maybe_refill (ac_coin cfg) hot path)).
  unfold maybe_refill, coin_balance, broadcast_coin_payload. apply keeps_bind.
  - apply keeps_bind; [apply keeps_get|intros]. apply keeps_bind; [apply keeps_lift|intros; apply keeps_ret].
  - intros [conf ?]. destruct (cold_wallet_address hot); [|apply keeps_ret]. case_decide; [apply keeps_ret|]. cbv zeta.
    apply keeps_bind; [apply (triple_keeps _ _ (fun _ => True)), triple_load|intros kp]. apply keeps_bind; [by intros ? ?|intros now].
    apply keeps_bind; [by intros ? ?|intros id]. apply keeps_bind; [apply keeps_lift|intros req].
    apply keeps_bind; [|intros; apply keeps_ret]. apply keeps_bind; [apply keeps_lift|intros inner].
    apply (triple_keeps _ _ (fun _ => True)), triple_transport.
Qed.

Lemma good_enforce fuel hot path n c :
  in_u 64 (max_cache_muon hot) -> node_ok n c -> exists n', node_ok n' (enforce_cap (ac_coin cfg) fuel hot path c).1.
Proof.
  intros Hm Hc. exists n. destruct (reach_inv _ _ Hc) as [Hok Hinv].
  unfold enforce_cap. rewrite (ST_bind_Ok _ _ c c _ (coin_balance_run _ c Hok)). cbn beta iota. case_decide as Hgt; [|done].
  destruct (cold_wallet_address hot) as [cold|]; [|done]. erewrite ST_bind_Ok; [|reflexivity]. cbv zeta.
  assert (policy (cn_ledger c) = beta_defaults) as -> by apply (inv_policy _ _ _ Hinv).
  apply (triple_keeps (node_ok n) _ (fun _ => True)); [|done].
  destruct (inv_acct _ _ _ Hinv (local_address (ac_coin cfg))) as [_ Hb Hpe Hcap].
  fold (local_acct (ac_coin cfg) c) in Hb, Hpe, Hcap.
  assert (0 <= balance_muon (local_acct (ac_coin cfg) c) - max_cache_muon hot < 2 ^ 64) as Hex.
  { unfold funds in *. pose proof beta_wf as [? _]. unfold in_u, umax in *. lia. }
  rewrite wsub_small by done. apply return_excess_ok; [apply (coin_clock_typed HT)| |done].
  unfold in_u. vm_compute. intuition congruence.
Qed.
End front_calls.

#[export] Hint Resolve good_dispatch good_send_chat good_send_encrypted good_send_group good_post good_create_key good_add_key
  good_delete_key good_mail good_start_px good_stop_px good_nearby good_express good_send_px good_add_contact good_accept_contact
  good_remove_contact good_reject_contact good_publish_listing good_publish_revocation good_bulletins good_export_key
  good_is_encrypted good_messages : front.

(** ** The coin node is reached by coin messages only *)

Create HintDb coin_part.

Section coin_part.
Context `{C : Crypto} `{D : Sled} `{DB : !SledDb} `{P : E2EPrims} `{J : Json} `{BW : Bincode WireMessage}.
Context `{BT : Bincode Transaction} `{BA : Bincode AccountState} `{BV : Bincode VelocityWindow}.
Context `{BP : Bincode CoinPayload} `{CH : !CoinHost}.
Context `{SC : MiniCodecs} `{B : AppCodecs} `{MC : MeshCodecs} `{AH : AppHost}.
Variable Q : CoinState -> Prop.

(** the coin node, when there is one, has the property *)
Definition coin_part (s : AppNode) : Prop := forall c, an_coin s = Some c -> Q c.

Lemma cp_same {A} (m : ST AppNode A) : (forall s, an_coin (m s).1 = an_coin s) -> keeps coin_part m.
Proof. intros Hm s Hs c. rewrite Hm. apply Hs. Qed.
Lemma cp_storage {A} (m : ST AppStorage A) : keeps coin_part (on_storage m).
Proof. apply cp_same. intros s. unfold on_storage. by destruct (m (an_storage s)). Qed.
Lemma cp_store {A} (m : ST Db A) x : keeps coin_part (on_app_store m x).
Proof. apply cp_same. intros s. unfold on_app_store. destruct (an_app_store s); [|done]. by destruct (m _). Qed.
Lemma cp_send c : keeps coin_part (send c).
Proof. apply cp_same. intros s. unfold send. by destruct (handle_send _ _). Qed.
Lemma cp_modify f : (forall s, an_coin (f s) = an_coin s) -> keeps coin_part (st_modify f).
Proof. intros Hf. by apply cp_same. Qed.
Lemma cp_now : keeps coin_part a_now.
Proof. by apply cp_same. Qed.
Lemma cp_uuid : keeps coin_part a_uuid.
Proof. by apply cp_same. Qed.
Lemma cp_random k : keeps coin_part (a_random k).
Proof. by apply cp_same. Qed.
Lemma cp_coin {A} (m : ST CoinState A) x : keeps Q m -> keeps coin_part (on_coin m x).
Proof.
  intros Hm s Hs. unfold on_coin. destruct (an_coin s) as [c|] eqn:E; [|done]. specialize (Hm c (Hs c E)).
  destruct (m c) as [c' r]. by intros ? [= <-].
Qed.
End coin_part.

#[export] Hint Resolve cp_storage cp_store cp_send cp_now cp_uuid cp_random keeps_ret keeps_get keeps_gets keeps_lift keeps_err : coin_part.

Ltac cp_step :=
  match goal with
  | |- keeps _ (mbind _ _) => apply keeps_bind; [|intros ?]
  | |- keeps _ (st_ignore _) => apply keeps_ignore
  | |- keeps _ (st_attempt _) => apply keeps_attempt
  | |- keeps _ (match ?x with _ => _ end) => destruct x
  | |- keeps _ (st_modify _) => by apply cp_modify
  | |- keeps _ _ => solve [eauto with coin_part]
  end.
Ltac cp_auto := repeat (cbv zeta; cp_step).

Section coin_calls.
Context `{C : Crypto} `{D : Sled} `{DB : !SledDb} `{P : E2EPrims} `{J : Json} `{BW : Bincode WireMessage}.
Context `{BT : Bincode Transaction} `{BA : Bincode AccountState} `{BV : Bincode VelocityWindow}.
Context `{BP : Bincode CoinPayload} `{CH : !CoinHost}.
Context `{SC : MiniCodecs} `{B : AppCodecs} `{MC : MeshCodecs} `{AH : AppHost}.
Variables (cfg : AppConf) (Q : CoinState -> Prop).
Hypothesis Hin : forall p from, keeps Q (handle_incoming (ac_coin cfg) p from).

Lemma cp_call c : keeps (coin_part Q) (run_call cfg c).
Proof.
  pose proof (fun p from => cp_coin Q (handle_incoming (ac_coin cfg) p from) tt (Hin p from)).
  destruct c; cbn [run_call]; unfold dispatch_incoming, dispatch_payload, dispatch_group, dispatch_chat, dispatch_mail, dispatch_coin,
    dispatch_revocation, dispatch_listing, dispatch_bulletin, handle_bulletin_payload, handle_proximity_payload, deliver_bulletin,
    contact_gate, notify, chat_tx, bulletin_tx, mail_tx, appstore_tx, on_px_store, on_px_matches, on_px_inbox, has_enc_key_for,
    peer_x25519_public, send_chat, send_chat_encrypted, ensure_contact_accepted_for_send, new_chat, broadcast_chat,
    send_group_message, post_bulletin, create_scope_key, add_scope_key_from_invite, app_delete_scope_key, send_mail, start_proximity,
    refresh_presence, stop_proximity, express_proximity_interest, send_proximity_message, broadcast_presence, new_signal, add_contact,
    accept_contact, publish_app_listing, publish_app_revocation; cp_auto.
Qed.
End coin_calls.
