(* ===== verification/Api.v ===== *)
(** * The local HTTP API

    [mycelium-app/src/api.rs]: one request per route of [start_api_server], the
    handler it calls, and the reply.  The extractors of axum (path segments, JSON
    bodies) are the arguments of the requests; the shared data of the run loop is
    the view a handler reads. *)

From S2P Require Import Prelude External Text Instances Transaction Policy Ledger LedgerTheorems CoinNode CoinNodeTheorems Wire E2E AtRest Bootstrap NodeData NodeHandle Host AppStorage.
From S2P Require Import AppStorageTheorems AppStorageProps Proximity MiniApp MiniAppStore MiniAppTheorems AppNodeData AppNode AppNodeInv AppNodeTheorems FrontInv.

Open Scope Z_scope.

(** [uuid::Uuid::parse_str], as the text of the parsed identifier *)
Class UuidText := { uuid_parse : string -> anyhow string }.

Inductive ApiRequest :=
| GetStatus
| GetPeers
| GetChat (peer_id : string)
| PostChat (peer_id body : string)
| PostChatBroadcast (body : string)
| GetBulletin (scope : string)
| PostBulletin (scope title body : string) (ttl_secs : Z)
| GetMailInbox
| GetMailSent
| PostMail (peer_id subject body : string) (attachments : option (list Attachment))
| PutMailRead (id : string)
| PutName (display_name : string)
| GetSettings
| PutEnergy (state : string)
| GetStoreStats
| PostStoreGc
| GetPeerReputation (peer_id : string)
| PostPeerAdd (multiaddr : string)
| GetScopes
| PostScopeSubscribe (scope : string)
| DeleteScope (scope : string).

Record StatusResponse := mkStatusResponse {
  sr_peer_id : string;
  sr_display_name : string;
  sr_peers : list string;
  sr_metrics : NodeMetrics;
}.

Record StoreStatsResponse := mkStatsResponse {
  st_count : nat;
  st_oldest_ms : Z;
  st_size_estimate_kb : Z;
}.

Inductive ApiBody :=
| BEmpty
| BStatus (r : StatusResponse)
| BChats (l : list ChatMessage)
| BPosts (l : list BulletinPost)
| BMails (l : list MailMessage)
| BStats (r : StoreStatsResponse)
| BStrings (l : list string)
| BJson (v : JValue).

(** [Result<.., (StatusCode, String)>] *)
Inductive ApiReply :=
| Success (b : ApiBody)
| Failure (code : Z) (msg : string).

Definition INTERNAL_SERVER_ERROR : Z := 500.
Definition BAD_REQUEST : Z := 400.
Definition internal_err (e : string) : ApiReply := Failure INTERNAL_SERVER_ERROR e.

Section api.
Context `{C : Crypto} `{D : Sled} `{DB : !SledDb} `{P : E2EPrims} `{J : Json} `{BW : Bincode WireMessage}.
Context `{BT : Bincode Transaction} `{BA : Bincode AccountState} `{BV : Bincode VelocityWindow}.
Context `{BP : Bincode CoinPayload} `{CH : !CoinHost}.
Context `{SC : MiniCodecs} `{B : AppCodecs} `{MC : MeshCodecs} `{AH : AppHost} `{U : UuidText}.
Variable cfg : AppConf.
Variable view : NodeView.

Abbreviation app := (ST AppNode).

(** [.map(..).map_err(internal_err)] *)
Definition reply_with {A} (f : A -> ApiBody) (m : app A) : app ApiReply :=
  r ← st_attempt m;
  mret (match r with Ok a => Success (f a) | Err e => internal_err e end).
Definition reply_ok {A} (m : app A) : app ApiReply := reply_with (fun _ => BEmpty) m.

Definition get_status : app ApiReply :=
  name ← st_gets an_display_name;
  mret (Success (BStatus (mkStatusResponse (ac_local_peer_id cfg) name [] (nv_metrics view)))).
Definition get_peers : app ApiReply := mret (Success (BJson (JArr []))).
Definition get_chat (peer_id : string) : app ApiReply := reply_with BChats (on_storage (chat_history peer_id 200)).
Definition post_chat (peer_id body : string) : app ApiReply := reply_ok (send_chat cfg (Some peer_id) body).
Definition post_chat_broadcast (body : string) : app ApiReply := reply_ok (send_chat cfg None body).
Definition get_bulletin (scope : string) : app ApiReply := reply_with BPosts (app_bulletins_for_scope scope).
Definition api_post_bulletin (scope title body : string) (ttl_secs : Z) : app ApiReply :=
  reply_ok (post_bulletin scope title body ttl_secs).
Definition get_mail_inbox : app ApiReply := reply_with BMails (on_storage (inbox 200)).
Definition get_mail_sent : app ApiReply := reply_with BMails (on_storage (sent 200)).
Definition post_mail (peer_id subject body : string) (attachments : option (list Attachment)) : app ApiReply :=
  reply_ok (send_mail cfg peer_id subject body (default [] attachments)).
Definition put_mail_read (id : string) : app ApiReply :=
  match uuid_parse id with
  | Err e => mret (internal_err e)
  | Ok uuid => reply_ok (on_storage (mark_read uuid))
  end.
Definition put_name (name : string) : app ApiReply := _ ← set_display_name name; mret (Success BEmpty).
Definition get_settings : app ApiReply :=
  name ← st_gets an_display_name;
  mret (Success (BJson (JObj [("display_name", JStr name); ("energy_state", JStr "active")]%string))).

Definition energy_of (state : string) : option NodeState :=
  if decide (state = "active"%string) then Some Active else
  if decide (state = "intermittent"%string) then Some Intermittent else
  if decide (state = "passive"%string) then Some Passive else None.

Definition put_energy (state : string) : app ApiReply :=
  match energy_of state with
  | None => mret (Failure BAD_REQUEST "invalid energy state")
  | Some s => reply_ok (send (SetEnergyState s))
  end.

(** [.map(|m| m.timestamp_ms).min().unwrap_or(0)] *)
Definition oldest_timestamp (l : list MailMessage) : Z :=
  match ml_timestamp_ms <$> l with
  | [] => 0
  | t :: ts => foldr Z.min t ts
  end.

Definition store_stats_of (inbox_ sent_ : list MailMessage) : StoreStatsResponse :=
  let count := (length inbox_ + length sent_)%nat in
  mkStatsResponse count (oldest_timestamp (inbox_ ++ sent_)) (Z.max (Z.of_nat count * 2) 1).

Definition get_store_stats : app ApiReply :=
  reply_with BStats (i ← on_storage (inbox (Z.to_nat 10000)); s ← on_storage (sent (Z.to_nat 10000)); mret (store_stats_of i s)).

Definition post_store_gc : app ApiReply :=
  now ← a_now;
  reply_with (fun n => BJson (JObj [("deleted", JNum n)]%string)) (on_storage (prune_expired_bulletins now)).

Definition get_peer_reputation (peer_id : string) : app ApiReply :=
  now ← a_now;
  let json (strikes until : Z) (throttled : bool) :=
    JObj [("peer_id", JStr peer_id); ("strikes", JNum strikes); ("throttled", JBool throttled);
          ("throttled_until_ms", JNum until)]%string in
  mret (Success (BJson (match peer_reputation view peer_id with
                        | Some rep => json (strikes rep) (throttled_until_ms rep) (now <? throttled_until_ms rep)
                        | None => json 0 0 false
                        end))).

Definition post_peer_add (multiaddr : string) : app ApiReply := reply_ok (send (AddBootstrapPeer multiaddr)).
Definition get_scopes : app ApiReply := mret (Success (BStrings (handle_scopes view))).
Definition post_scope_subscribe (scope : string) : app ApiReply := reply_ok (send (SubscribeScope scope)).
Definition delete_scope (scope : string) : app ApiReply := reply_ok (send (UnsubscribeScope scope)).

Definition serve (r : ApiRequest) : app ApiReply :=
  match r with
  | GetStatus => get_status
  | GetPeers => get_peers
  | GetChat p => get_chat p
  | PostChat p b => post_chat p b
  | PostChatBroadcast b => post_chat_broadcast b
  | GetBulletin s => get_bulletin s
  | PostBulletin s t b ttl => api_post_bulletin s t b ttl
  | GetMailInbox => get_mail_inbox
  | GetMailSent => get_mail_sent
  | PostMail p s b a => post_mail p s b a
  | PutMailRead id => put_mail_read id
  | PutName n => put_name n
  | GetSettings => get_settings
  | PutEnergy s => put_energy s
  | GetStoreStats => get_store_stats
  | PostStoreGc => post_store_gc
  | GetPeerReputation p => get_peer_reputation p
  | PostPeerAdd a => post_peer_add a
  | GetScopes => get_scopes
  | PostScopeSubscribe s => post_scope_subscribe s
  | DeleteScope s => delete_scope s
  end.
End api.

(** ** The local HTTP API: properties *)


Section api.
Context `{C : Crypto} `{D : Sled} {DL : SledLaws D} {DO : SledOrder D} `{DB : !SledDb} {DBL : SledDbLaws DB}.
Context `{P : E2EPrims} `{J : Json} `{BW : Bincode WireMessage}.
Context `{BT : Bincode Transaction} `{BTL : !BincodeLaws BT}.
Context `{BA : Bincode AccountState} `{BAL : !BincodeLaws BA}.
Context `{BV : Bincode VelocityWindow} `{BVL : !BincodeLaws BV}.
Context `{BP : Bincode CoinPayload} `{CH : !CoinHost}.
Context `{SC : MiniCodecs} {SL : MiniCodecLaws SC} `{ZP : Zip} `{L : Lowercase}.
Context `{B : AppCodecs} {BL : AppCodecLaws B} `{MC : MeshCodecs} `{AH : AppHost} `{UT : UuidText}.
Variable cfg : AppConf.
Hypothesis HT : HostTyped.








(** ** What each route promises, from the stored data *)

Abbreviation rows s n := (db_view (app_db (an_storage s)) n).
Abbreviation view_of st n := (tree_view (db_view (app_db st) n)).











(** ** The handlers keep the promises *)









Lemma oldest_least (l : list MailMessage) (m : MailMessage) : m ∈ l -> oldest_timestamp l <= ml_timestamp_ms m.
Proof.
  intros Hm. unfold oldest_timestamp. assert (ml_timestamp_ms m ∈ ml_timestamp_ms <$> l) as H by by apply list_elem_of_fmap_2.
  destruct (ml_timestamp_ms <$> l) as [|t ts]; [by apply elem_of_nil in H|].
  assert (forall x, x ∈ t :: ts -> foldr Z.min t ts <= x) as Hx; [|by apply Hx].
  clear. induction ts as [|y ts IH]; cbn; intros x.
  - rewrite list_elem_of_singleton. intros ->. lia.
  - rewrite !elem_of_cons. intros [->|[->|Hin]]; [|lia|].
    + specialize (IH t ltac:(by left)). lia.
    + specialize (IH x ltac:(by right)). lia.
Qed.

Lemma oldest_attained (l : list MailMessage) : l ≠ [] -> exists m, m ∈ l /\ oldest_timestamp l = ml_timestamp_ms m.
Proof.
  intros Hl. unfold oldest_timestamp. destruct l as [|m l]; [done|]. cbn [fmap list_fmap]. clear Hl.
  induction l as [|x l IH]; cbn.
  - exists m. split; [by left|done].
  - destruct IH as (y & Hy & E). destruct (Z.min_spec (ml_timestamp_ms x) (foldr Z.min (ml_timestamp_ms m) (ml_timestamp_ms <$> l)))
      as [[_ ->]|[_ ->]].
    + exists x. split; [by right; left|done].
    + exists y. split; [|done]. apply elem_of_cons in Hy as [->|Hy]; [by left|by right; right].
Qed.





(** ** Statistics *)

(** The store statistics are about mail: with at most 10,000 mails in either box
    they give the number of mails in the inbox and the sent box and the time of
    the oldest of them, or 0 when there is none. *)
Theorem store_stats_exact (view : NodeView) (s : AppNode) :
  db_good (an_storage s) ->
  let ins := contents (A := MailMessage) (db_view (app_db (an_storage s)) "mail:inbox") in
  let outs := contents (A := MailMessage) (db_view (app_db (an_storage s)) "mail:sent") in
  (length ins <= Z.to_nat 10000)%nat -> (length outs <= Z.to_nat 10000)%nat ->
  exists r, (serve cfg view GetStoreStats s).2 = Ok (Success (BStats r))
    /\ st_count r = (length ins + length outs)%nat
    /\ (forall m, m ∈ ins ++ outs -> st_oldest_ms r <= ml_timestamp_ms m)
    /\ (ins ++ outs = [] -> st_oldest_ms r = 0)
    /\ (ins ++ outs ≠ [] -> exists m, m ∈ ins ++ outs /\ st_oldest_ms r = ml_timestamp_ms m).
Proof.
  intros Hg ins outs Hi Ho. cbn [serve]. unfold get_store_stats. generalize dependent (Z.to_nat 10000). intros lim Hi Ho.
  assert (forall a b, in_u 64 (ml_timestamp_ms a) -> in_u 64 (ml_timestamp_ms b) ->
    key_le (ts_uuid_key (ml_timestamp_ms a) (ml_id a)) (ts_uuid_key (ml_timestamp_ms b) (ml_id b)) ->
    ml_timestamp_ms a <= ml_timestamp_ms b) as Hkt by (intros; by eapply ts_uuid_key_time).
  destruct (newest_spec (fun m => ts_uuid_key (ml_timestamp_ms m) (ml_id m)) ml_timestamp_ms _
              Hkt lim _ (mail_filed (an_storage s) "mail:inbox" Hg ltac:(by left)))
    as (l1 & E1 & P1 & _). fold ins in P1.
  destruct (newest_spec (fun m => ts_uuid_key (ml_timestamp_ms m) (ml_id m)) ml_timestamp_ms _
              Hkt lim _ (mail_filed (an_storage s) "mail:sent" Hg ltac:(by right)))
    as (l2 & E2 & P2 & _). fold outs in P2.
  rewrite take_ge in E1 by (by rewrite P1). rewrite take_ge in E2 by (by rewrite P2).
  set (r := store_stats_of l1 l2). exists r.
  assert (forall m, m ∈ ins ++ outs <-> m ∈ l1 ++ l2) as Hin by (intros m; by rewrite !elem_of_app, P1, P2).
  split_and!.
  - assert (on_storage (inbox lim) s = (s, Ok l1)) as R1 by (unfold on_storage, inbox; rewrite with_tree_eq, E1; by destruct s).
    assert (on_storage (sent lim) s = (s, Ok l2)) as R2 by (unfold on_storage, sent; rewrite with_tree_eq, E2; by destruct s).
    unfold reply_with. rewrite (ST_bind_Ok _ _ s s (Ok r)); [done|]. unfold st_attempt.
    by rewrite (ST_bind_Ok _ _ _ _ _ R1), (ST_bind_Ok _ _ _ _ _ R2).
  - cbn. by rewrite P1, P2.
  - intros m Hm. apply oldest_least. by apply Hin.
  - intros Hn. apply app_eq_nil in Hn as [Hn1 Hn2]. rewrite Hn1 in P1. rewrite Hn2 in P2.
    apply Permutation_nil_r in P1, P2. by subst r l1 l2.
  - intros Hn. destruct (oldest_attained (l1 ++ l2)) as (m & Hm & E).
    + intros E. apply app_eq_nil in E as [-> ->]. apply Permutation_nil_l in P1, P2. by rewrite <- P1, <- P2 in Hn.
    + exists m. by rewrite Hin.
Qed.
End api.
