(* ===== verification/Bridge.v ===== *)
(** * The mini-app bridge: gates

    [mycelium-app/src/miniapp]: [bridge_session.rs], [bridge_limits.rs],
    [capability_token.rs], [safe_mode.rs], [storage_quota.rs], [csp.rs] and the
    helpers of [bridge_host.rs].  HMAC, base64 and BLAKE3 key derivation are
    parameters; clock readings and fresh uuids are arguments. *)

From S2P Require Import Prelude External Text Host Proximity MiniApp.

Open Scope Z_scope.

(** ** Sessions *)

Definition SESSION_TTL_MS : Z := 3600000.

Record Session := mkSession { se_token : string; se_issued_at_ms : Z }.

Definition issue_session (app_id uuid : string) (now : Z) (t : gmap string Session) : gmap string Session * string :=
  (<[app_id := mkSession uuid now]> t, uuid).

Definition revoke_session (app_id : string) (t : gmap string Session) : gmap string Session := delete app_id t.

Definition validate_session (app_id token : string) (now : Z) (t : gmap string Session) : anyhow unit :=
  match t !! app_id with
  | None => Err "bridge session expired or not issued"%string
  | Some sess =>
      if decide (se_token sess ≠ token) then Err "invalid bridge session token"%string else
      if decide (SESSION_TTL_MS < now -sat se_issued_at_ms sess) then Err "bridge session expired"%string else Ok tt
  end.

(** ** Rate limits: a window start and a count per app *)

Definition check_rate (window : Z) (limit : Z) (app_id : string) (now : Z) (msg : string) (t : gmap string (Z * Z))
    : gmap string (Z * Z) * anyhow unit :=
  let e := default (now, 0) (t !! app_id) in
  let e := if decide (window < now -sat e.1) then (now, 0) else e in
  if decide (limit <= e.2) then (<[app_id := e]> t, Err msg)
  else (<[app_id := (e.1, wadd 32 e.2 1)]> t, Ok tt).

Definition check_bridge_rate (app_id : string) (now : Z) :=
  check_rate 60000 120 app_id now "bridge rate limit exceeded (120/min)".
Definition check_broadcast_rate (app_id : string) (now : Z) :=
  check_rate 3600000 10 app_id now "broadcast rate limit exceeded (10/hour)".

(** ** Capability tokens *)

Class CapPrims := {
  hmac_sha256 : list byte -> list byte -> list byte;
  b64url_encode : list byte -> string;
  b64url_decode : string -> option (list byte);
  blake3_derive_key : string -> list byte -> list byte;
}.

Definition pipe : Ascii.ascii := Ascii.ascii_of_nat 124.

Class CapLaws `{C : Crypto} (K : CapPrims) : Prop := {
  b64url_decode_encode : forall b, b64url_decode (b64url_encode b) = Some b;
  (** hexadecimal text has digits and letters only *)
  hex_no_pipe : forall b, has_char pipe (hex_encode b) = false;
  hex_utf8 : forall b, utf8_valid (as_bytes (hex_encode b)) = true;
}.

Definition DEFAULT_CAP_TTL_MS : Z := 900000.

Definition permission_name (p : Permission) : string :=
  match p with
  | Messaging => "Messaging"
  | MessagingBroadcast => "MessagingBroadcast"
  | Identity => "Identity"
  | Payments => "Payments"
  | Storage => "Storage"
  | BulletinRead => "BulletinRead"
  | BulletinWrite => "BulletinWrite"
  | PeerDiscovery => "PeerDiscovery"
  | Camera => "Camera"
  end.

Definition parse_permission_name (name : string) : option Permission :=
  if decide (name = "Messaging"%string) then Some Messaging else
  if decide (name = "MessagingBroadcast"%string) then Some MessagingBroadcast else
  if decide (name = "Identity"%string) then Some Identity else
  if decide (name = "Payments"%string) then Some Payments else
  if decide (name = "Storage"%string) then Some Storage else
  if decide (name = "BulletinRead"%string) then Some BulletinRead else
  if decide (name = "BulletinWrite"%string) then Some BulletinWrite else
  if decide (name = "PeerDiscovery"%string) then Some PeerDiscovery else
  if decide (name = "Camera"%string) then Some Camera else None.

Definition permission_for_method (method : string) : option Permission :=
  if decide (method = "identity.get"%string) then Some Identity else
  if decide (method = "messaging.send"%string) then Some Messaging else
  if decide (method = "messaging.broadcast"%string) then Some MessagingBroadcast else
  if decide (method ∈ ["payment.request"; "payment.create_qr"; "payment.get_balance"]%string) then Some Payments else
  if decide (method = "util.scan_qr"%string) then Some Camera else
  if decide (method = "bulletin.post"%string) then Some BulletinWrite else
  if decide (method = "peers.nearby"%string) then Some PeerDiscovery else
  if decide (method = "proximity.start"%string) then Some PeerDiscovery else
  if decide (method = "proximity.nearby"%string) then Some PeerDiscovery else
  if decide (method = "proximity.connect"%string) then Some PeerDiscovery else
  if decide (method = "proximity.messages"%string) then Some Messaging else
  if decide (method = "proximity.send_message"%string) then Some Messaging else None.

(** [s.rsplit_once(c)] *)
Fixpoint rsplit_once (c : Ascii.ascii) (s : string) : option (string * string) :=
  match s with
  | EmptyString => None
  | String a r =>
      match rsplit_once c r with
      | Some (p, q) => Some (String a p, q)
      | None => if decide (a = c) then Some (EmptyString, r) else None
      end
  end.

Section capability.
Context `{C : Crypto} `{K : CapPrims}.

Definition mac_key_from_db_path (db_path : string) : list byte :=
  blake3_derive_key "mycelium-miniapp-cap-v1" (as_bytes db_path).

Definition pipe_str : string := String pipe EmptyString.

Definition cap_payload (app_id tag session : string) (expires_at_ms : Z) : string :=
  ("1" +:+ pipe_str +:+ app_id +:+ pipe_str +:+ tag +:+ pipe_str +:+ session +:+ pipe_str +:+ show expires_at_ms)%string.

Definition issue_capability (mac_key : list byte) (app_id : string) (p : Permission) (session : string) (ttl_ms now : Z)
    : string :=
  let payload := cap_payload app_id (permission_name p) session (now +sat ttl_ms) in
  let sig := hmac_sha256 mac_key (as_bytes payload) in
  b64url_encode (as_bytes (payload +:+ pipe_str +:+ hex_encode sig)).

Definition validate_capability (mac_key : list byte) (app_id : string) (p : Permission) (session token : string) (now : Z)
    : anyhow unit :=
  match b64url_decode token with
  | None => Err "invalid capability token encoding"%string
  | Some decoded =>
  match from_utf8 decoded with
  | None => Err "invalid capability token utf8"%string
  | Some decoded =>
  match rsplit_once pipe decoded with
  | None => Err "malformed capability token"%string
  | Some (payload, sig_hex) =>
  match hex_decode sig_hex with
  | None => Err "invalid capability signature"%string
  | Some sig =>
      if decide (hmac_sha256 mac_key (as_bytes payload) ≠ sig) then Err "invalid capability token"%string else
      match split_on pipe payload with
      | [version; app; tag; sess; expiry] =>
          if decide (parse_uint 8 version ≠ Some 1) then Err "unsupported capability version"%string else
          if decide (app ≠ app_id) then Err "capability token app mismatch"%string else
          if decide (tag ≠ permission_name p) then Err "capability token permission mismatch"%string else
          if decide (sess ≠ session) then Err "capability token session mismatch"%string else
          match parse_uint 64 expiry with
          | None => Err "invalid capability expiry"%string
          | Some expires_at_ms => if decide (expires_at_ms < now) then Err "capability token expired"%string else Ok tt
          end
      | _ => Err "malformed capability payload"%string
      end
  end end end end.
End capability.

(** ** Safe mode *)

Definition method_allowed_in_safe_mode (method : string) : bool :=
  bool_decide (method ∈ ["storage.get"; "storage.list"; "bulletin.get"; "util.now"; "app.get_id"; "app.get_version"]%string).

Definition safe_mode_denial_message (method : string) : string := ("blocked in safe mode: " +:+ method)%string.

(** ** Storage quotas *)

Definition MAX_KEY_LEN : nat := 128.
Definition MAX_VALUE_LEN : Z := 32 * 1024.
Definition MAX_KEYS_PER_APP : nat := 256.
Definition MAX_TOTAL_BYTES_PER_APP : Z := 256 * 1024.

Definition nul_char : Ascii.ascii := Ascii.ascii_of_nat 0.

Definition validate_key (key : string) : anyhow unit :=
  if decide (key = ""%string) then Err "storage key must not be empty"%string else
  if (MAX_KEY_LEN <? String.length key)%nat then Err "storage key exceeds 128 bytes"%string else
  if has_char nul_char key then Err "storage key contains invalid characters"%string else Ok tt.

Definition validate_value (value : string) : anyhow unit :=
  if MAX_VALUE_LEN <? Z.of_nat (String.length value) then Err "storage value exceeds 32768 bytes"%string else Ok tt.

(** ** Content security policy *)

Definition script_src_attr (nonce : string) : string := ("'nonce-" +:+ nonce +:+ "'")%string.

Definition meta_tag (nonce : string) : string :=
  ("<meta http-equiv=" +:+ dquote +:+ "Content-Security-Policy" +:+ dquote +:+ " content=" +:+ dquote
   +:+ "default-src 'none'; script-src " +:+ script_src_attr nonce
   +:+ "; style-src 'unsafe-inline'; img-src data:; connect-src 'none'; form-action 'none'; frame-src 'none'; object-src 'none'; base-uri 'none'; wasm-unsafe-eval 'none';"
   +:+ dquote +:+ ">")%string.

(** ** JSON arguments: absent and ill-typed fields are [None] *)

Definition arg_str (args : JValue) (key : string) : option string := jas_str (jget args key).

Definition json_as_u64 (v : JValue) : option Z :=
  match v with JNum z => if decide (in_u 64 z) then Some z else None | _ => None end.

Definition json_u64 (args : JValue) (key : string) : anyhow Z :=
  match json_as_u64 (jget args key) with
  | Some n => Ok n
  | None => Err ("missing or invalid " +:+ key)%string
  end.

Definition opt_str (args : JValue) (key : string) : option string :=
  match arg_str args key with
  | Some s => if decide (s = ""%string) then None else Some s
  | None => None
  end.

(** [u8::try_from] of an integer of either sign *)
Definition json_as_u8 (v : JValue) : option Z :=
  match v with JNum z => if decide (in_u 8 z) then Some z else None | _ => None end.

Definition parse_presence_profile (args : JValue) : PresenceProfile :=
  mkProfile (opt_str args "display_name") (opt_str args "bio") (json_as_u8 (jget args "age")) (opt_str args "gender")
    (opt_str args "looking_for")
    (match jget args "interests" with JArr items => omap jas_str items | _ => [] end)
    (opt_str args "photo_base64").
