(* ===== verification/BridgeHost.v ===== *)
(** * The mini-app bridge: the dispatcher

    [mycelium-app/src/miniapp/bridge_host.rs].  A bridge works on the
    application node, its database, its app store and its coin node, which the
    hosts pass to both, and on the process-wide tables of sessions and rate
    limits.  A call returns the JSON value, or the error text, of the code. *)

From S2P Require Import Prelude External Text Instances Transaction Policy Ledger CoinNode Wire E2E AtRest.
From S2P Require Import Bootstrap Payment NodeData Host AppStorage Proximity MiniApp MiniAppStore AppNodeData AppNode Bridge.

Open Scope Z_scope.

Section bridge_host.
Context `{C : Crypto} `{D : Sled} `{DB : !SledDb} `{P : E2EPrims} `{J : Json} `{BW : Bincode WireMessage}.
Context `{BT : Bincode Transaction} `{BA : Bincode AccountState} `{BV : Bincode VelocityWindow}.
Context `{BP : Bincode CoinPayload} `{CH : !CoinHost}.
Context `{SC : MiniCodecs} `{B : AppCodecs} `{MC : MeshCodecs} `{AH : AppHost} `{K : CapPrims} `{U : UrlEncoding}.
Variable cfg : AppConf.

(** the fields of [BridgeHost] that are not shared objects *)
Record BridgeConf := mkBridge {
  bh_app_id : string;
  bh_permissions : list Permission;
  bh_local_peer_id : string;
  bh_enc_pubkey_hex : string;
  bh_safe_mode : bool;
  bh_cap_mac_key : list byte;
}.
Variable bh : BridgeConf.

Record BridgeState := mkBridgeState {
  br_node : AppNode;
  br_sessions : gmap string Session;
  br_limits : gmap string (Z * Z);
  br_broadcasts : gmap string (Z * Z);
}.

Abbreviation bridge := (ST BridgeState).

Definition on_node {A} (m : ST AppNode A) : bridge A := fun s =>
  let '(n, r) := m (br_node s) in (mkBridgeState n (br_sessions s) (br_limits s) (br_broadcasts s), r).

Definition on_limits (f : gmap string (Z * Z) -> gmap string (Z * Z) * anyhow unit) : bridge unit := fun s =>
  let '(t, r) := f (br_limits s) in (mkBridgeState (br_node s) (br_sessions s) t (br_broadcasts s), r).

Definition on_broadcasts (f : gmap string (Z * Z) -> gmap string (Z * Z) * anyhow unit) : bridge unit := fun s =>
  let '(t, r) := f (br_broadcasts s) in (mkBridgeState (br_node s) (br_sessions s) (br_limits s) t, r).

Definition need {A} (o : option A) (msg : string) : bridge A :=
  match o with Some a => mret a | None => st_err msg end.

(** [{perm:?}] is the constructor's name *)
Definition require_permission (p : Permission) : bridge unit :=
  if decide (p ∈ bh_permissions bh) then mret tt else st_err ("permission denied: " +:+ permission_name p)%string.

Definition require_capability (method : string) (args : JValue) : bridge unit :=
  match permission_for_method method with
  | None => mret tt
  | Some perm =>
      _ ← require_permission perm;
      session ← need (arg_str args "_session") "missing bridge session token";
      cap ← need (arg_str args "_cap") ("missing capability token for " +:+ method);
      now ← on_node a_now;
      st_lift (validate_capability (bh_cap_mac_key bh) (bh_app_id bh) perm session cap now)
  end.

Definition require_not_blocked_by_safe_mode (method : string) : bridge unit :=
  if bh_safe_mode bh && negb (method_allowed_in_safe_mode method) then st_err (safe_mode_denial_message method) else mret tt.

Definition scoped_key (key : string) : string := ("app:" +:+ bh_app_id bh +:+ ":" +:+ key)%string.
Definition scoped_prefix (prefix : string) : string := ("app:" +:+ bh_app_id bh +:+ ":" +:+ prefix)%string.

Definition bridge_manifest : bridge (option MiniAppManifest) := on_node (on_app_store (get_manifest (bh_app_id bh)) None).

Definition require_bulletin_scope (scope : string) : bridge unit :=
  o ← bridge_manifest;
  m ← need o "app not installed";
  if allows_bulletin_scope m scope then mret tt else st_err ("bulletin scope not allowed: " +:+ scope)%string.

(** the loop over the keys: values that cannot be read count nothing *)
Fixpoint sum_values (scoped : string) (keys : list string) (total : Z) (st : AppStorage) : Z :=
  match keys with
  | [] => total
  | k :: keys =>
      if decide (k = scoped) then sum_values scoped keys total st else
      match (miniapp_get k st).2 with
      | Ok (Some v) => sum_values scoped keys (total + Z.of_nat (String.length v)) st
      | _ => sum_values scoped keys total st
      end
  end.

Definition check_storage_quota (scoped : string) (new_value_len : Z) : bridge unit :=
  keys ← on_node (on_storage (miniapp_list (app_prefix (bh_app_id bh))));
  if negb (bool_decide (scoped ∈ keys)) && (MAX_KEYS_PER_APP <=? length keys)%nat
  then st_err "storage key limit exceeded (256)" else
  s ← st_get;
  if MAX_TOTAL_BYTES_PER_APP <? sum_values scoped keys new_value_len (an_storage (br_node s))
  then st_err "storage quota exceeded (262144 bytes per app)" else mret tt.

(** ** Methods *)

Definition jok : JValue := JStr "ok".
Definition jopt (o : option string) : JValue := match o with Some s => JStr s | None => JNull end.
Definition app_body (payload : string) : string := ("[app/" +:+ bh_app_id bh +:+ "] " +:+ payload)%string.

Definition identity_get : bridge JValue :=
  _ ← require_permission Identity;
  name ← on_node (st_gets an_display_name);
  mret (JObj [("peer_id", JStr (bh_local_peer_id bh)); ("display_name", JStr name);
              ("enc_pubkey", JStr (bh_enc_pubkey_hex bh))])%string.

Definition messaging_send (args : JValue) : bridge JValue :=
  _ ← require_permission Messaging;
  to ← need (arg_str args "to_peer") "missing to_peer";
  payload ← need (arg_str args "payload") "missing payload";
  _ ← on_node (send_chat cfg (Some to) (app_body payload));
  mret jok.

Definition messaging_subscribe : bridge JValue := _ ← require_permission Messaging; mret (JStr "subscribed").

Definition messaging_broadcast (args : JValue) : bridge JValue :=
  _ ← require_permission MessagingBroadcast;
  now ← on_node a_now;
  _ ← on_broadcasts (check_broadcast_rate (bh_app_id bh) now);
  payload ← need (arg_str args "payload") "missing payload";
  _ ← on_node (send_chat cfg None (app_body payload));
  mret jok.

Definition payment_request (args : JValue) : bridge JValue :=
  _ ← require_permission Payments;
  amount ← st_lift (json_u64 args "amount_muon");
  mret (JObj [("_bridge_action", JStr "payment_confirmation_required"); ("amount_muon", JNum amount);
              ("memo", jopt (arg_str args "memo"))])%string.

Definition payment_create_qr (args : JValue) : bridge JValue :=
  _ ← require_permission Payments;
  coin ← on_node (st_gets an_coin);
  _ ← need coin "coin not available";
  amount ← st_lift (json_u64 args "amount_muon");
  now ← on_node a_now;
  uuid ← on_node a_uuid;
  let req := pay_new (local_address (ac_coin cfg)) amount (arg_str args "memo") now uuid in
  now' ← on_node a_now;
  if pay_is_expired req now' then st_err "payment request expired" else
  let uri := to_uri req in
  mret (JObj [("uri", JStr uri); ("_bridge_action", JStr "render_qr"); ("_qr_content", JStr uri)])%string.

Definition payment_get_balance : bridge JValue :=
  _ ← require_permission Payments;
  coin ← on_node (st_gets an_coin);
  c ← need coin "coin not available";
  '(confirmed, pending) ← st_lift (coin_balance (ac_coin cfg) c).2;
  mret (JObj [("confirmed_muon", JNum confirmed); ("pending_muon", JNum pending)])%string.

Definition storage_get (args : JValue) : bridge JValue :=
  _ ← require_permission Storage;
  key ← need (arg_str args "key") "missing key";
  v ← on_node (on_storage (miniapp_get (scoped_key key)));
  mret (jopt v).

Definition storage_set (args : JValue) : bridge JValue :=
  _ ← require_permission Storage;
  key ← need (arg_str args "key") "missing key";
  value ← need (arg_str args "value") "missing value";
  _ ← st_lift (validate_key key);
  _ ← st_lift (validate_value value);
  let sk := scoped_key key in
  _ ← check_storage_quota sk (Z.of_nat (String.length value));
  nonce ← on_node (a_random NONCE_LEN);
  _ ← on_node (on_storage (miniapp_set sk value nonce));
  mret jok.

Definition storage_delete (args : JValue) : bridge JValue :=
  _ ← require_permission Storage;
  key ← need (arg_str args "key") "missing key";
  _ ← on_node (on_storage (miniapp_delete (scoped_key key)));
  mret jok.

Definition storage_list (args : JValue) : bridge JValue :=
  _ ← require_permission Storage;
  keys ← on_node (on_storage (miniapp_list (scoped_prefix (default ""%string (arg_str args "prefix")))));
  mret (JArr (JStr <$> omap (strip_prefix (app_prefix (bh_app_id bh))) keys)).

Definition post_json (p : BulletinPost) : JValue :=
  (JObj [("id", JStr (bp_id p)); ("title", JStr (bp_title p)); ("body", JStr (bp_body p));
         ("from_display_name", JStr (bp_from_display_name p)); ("scope", JStr (bp_scope p));
         ("timestamp_ms", JNum (bp_timestamp_ms p)); ("expires_at_ms", JNum (bp_expires_at_ms p))])%string.

Definition bulletin_get (args : JValue) : bridge JValue :=
  _ ← require_permission BulletinRead;
  scope ← need (arg_str args "scope") "missing scope";
  _ ← require_bulletin_scope scope;
  _ ← st_ignore (on_node (send (SubscribeBulletinScope scope)));
  posts ← on_node (app_bulletins_for_scope scope);
  mret (JArr (post_json <$> posts)).

Definition bulletin_post (args : JValue) : bridge JValue :=
  _ ← require_permission BulletinWrite;
  scope ← need (arg_str args "scope") "missing scope";
  _ ← require_bulletin_scope scope;
  title ← need (arg_str args "title") "missing title";
  body ← need (arg_str args "body") "missing body";
  let ttl := default 86400 (json_as_u64 (jget args "ttl_secs")) in
  _ ← on_node (post_bulletin scope title body ttl);
  mret jok.

Definition peers_nearby : bridge JValue :=
  _ ← require_permission PeerDiscovery;
  peers ← on_node known_peers;
  mret (JArr (JStr <$> peers)).

(** [.. as u32] *)
Definition proximity_start (args : JValue) : bridge JValue :=
  _ ← require_permission PeerDiscovery;
  _ ← require_permission Messaging;
  let ttl := wrap 32 (default 300 (json_as_u64 (jget args "ttl_secs"))) in
  _ ← on_node (start_proximity cfg (parse_presence_profile args) ttl);
  mret jok.

Definition proximity_stop : bridge JValue :=
  _ ← require_permission PeerDiscovery;
  _ ← on_node stop_proximity;
  mret jok.

Definition nearby_json (now : Z) (e : ProximityNearbyEntry) : JValue :=
  let s := ne_signal e in
  let pf := ps_profile s in
  (JObj [("ephemeral_id", JStr (ps_ephemeral_id s)); ("enc_pubkey_hex", JStr (ps_enc_pubkey_hex s));
         ("display_name", jopt (pf_display_name pf)); ("bio", jopt (pf_bio pf));
         ("age", match pf_age pf with Some a => JNum a | None => JNull end); ("gender", jopt (pf_gender pf));
         ("looking_for", jopt (pf_looking_for pf)); ("interests", JArr (JStr <$> pf_interests pf));
         ("photo_base64", jopt (pf_photo_base64 pf)); ("seen_at_ms", JNum (ps_created_at_ms s));
         ("has_expired", JBool (signal_is_expired now s)); ("interest_sent", JBool (ne_interest_sent e));
         ("interest_received", JBool (ne_interest_received e)); ("is_mutual", JBool (ne_is_mutual e))])%string.

Fixpoint nearby_list (l : list ProximityNearbyEntry) : bridge (list JValue) :=
  match l with
  | [] => mret []
  | e :: l => now ← on_node a_now; rest ← nearby_list l; mret (nearby_json now e :: rest)
  end.

Definition proximity_nearby : bridge JValue :=
  _ ← require_permission PeerDiscovery;
  profiles ← on_node nearby_profiles;
  items ← nearby_list profiles;
  mret (JArr items).

Definition proximity_connect (args : JValue) : bridge JValue :=
  _ ← require_permission PeerDiscovery;
  enc ← need (arg_str args "enc_pubkey_hex") "missing enc_pubkey_hex";
  mutual ← on_node (express_proximity_interest cfg enc);
  mret (JObj [("is_mutual", JBool mutual)])%string.

Definition message_json (m : ProximityReceivedMessage) : JValue :=
  (JObj [("from_enc_pubkey_hex", JStr (pr_from_enc_pubkey_hex m)); ("body", JStr (pr_body m));
         ("received_at_ms", JNum (pr_received_at_ms m))])%string.

Definition proximity_messages_call (args : JValue) : bridge JValue :=
  _ ← require_permission Messaging;
  msgs ← on_node (proximity_messages (default 0 (json_as_u64 (jget args "since_ms"))));
  mret (JArr (message_json <$> msgs)).

Definition proximity_send (args : JValue) : bridge JValue :=
  _ ← require_permission Messaging;
  enc ← need (arg_str args "enc_pubkey_hex") "missing enc_pubkey_hex";
  message ← need (arg_str args "message") "missing message";
  _ ← on_node (send_proximity_message cfg enc message);
  mret jok.

Definition util_now : bridge JValue := now ← on_node a_now; mret (JNum now).

Definition util_scan_qr : bridge JValue :=
  _ ← require_permission Camera;
  mret (JObj [("_bridge_action", JStr "open_qr_scanner")])%string.

(** [util.alert] and [util.confirm] *)
Definition util_dialog (action : string) (args : JValue) : bridge JValue :=
  message ← need (arg_str args "message") "missing message";
  mret (JObj [("_bridge_action", JStr action); ("message", JStr message)])%string.

Definition app_get_version : bridge JValue :=
  o ← bridge_manifest;
  mret (JStr (match o with Some m => mf_version m | None => ""%string end)).

Definition run_method (method : string) (args : JValue) : bridge JValue :=
  if decide (method = "identity.get"%string) then identity_get else
  if decide (method = "messaging.send"%string) then messaging_send args else
  if decide (method = "messaging.subscribe"%string) then messaging_subscribe else
  if decide (method = "messaging.broadcast"%string) then messaging_broadcast args else
  if decide (method = "payment.request"%string) then payment_request args else
  if decide (method = "payment.create_qr"%string) then payment_create_qr args else
  if decide (method = "payment.get_balance"%string) then payment_get_balance else
  if decide (method = "storage.get"%string) then storage_get args else
  if decide (method = "storage.set"%string) then storage_set args else
  if decide (method = "storage.delete"%string) then storage_delete args else
  if decide (method = "storage.list"%string) then storage_list args else
  if decide (method = "bulletin.get"%string) then bulletin_get args else
  if decide (method = "bulletin.post"%string) then bulletin_post args else
  if decide (method = "peers.nearby"%string) then peers_nearby else
  if decide (method = "proximity.start"%string) then proximity_start args else
  if decide (method = "proximity.stop"%string) then proximity_stop else
  if decide (method = "proximity.nearby"%string) then proximity_nearby else
  if decide (method = "proximity.connect"%string) then proximity_connect args else
  if decide (method = "proximity.messages"%string) then proximity_messages_call args else
  if decide (method = "proximity.send_message"%string) then proximity_send args else
  if decide (method = "util.now"%string) then util_now else
  if decide (method = "util.scan_qr"%string) then util_scan_qr else
  if decide (method = "util.alert"%string) then util_dialog "show_alert" args else
  if decide (method = "util.confirm"%string) then util_dialog "show_confirm" args else
  if decide (method = "app.get_id"%string) then mret (JStr (bh_app_id bh)) else
  if decide (method = "app.get_version"%string) then app_get_version else
  st_err ("unknown bridge method: " +:+ method)%string.

Definition check_session (args : JValue) : bridge unit :=
  tok ← need (arg_str args "_session") "missing bridge session token";
  now ← on_node a_now;
  s ← st_get;
  st_lift (validate_session (bh_app_id bh) tok now (br_sessions s)).

(** over the limit, the app's reputation pays *)
Definition check_limit : bridge unit :=
  now ← on_node a_now;
  r ← st_attempt (on_limits (check_bridge_rate (bh_app_id bh) now));
  match r with
  | Ok _ => mret tt
  | Err e =>
      t ← on_node a_now;
      _ ← st_ignore (on_node (on_app_store (record_bridge_anomaly (bh_app_id bh) t) tt));
      st_err e
  end.

Definition handle (method : string) (args : JValue) : bridge JValue :=
  _ ← check_session args;
  _ ← check_limit;
  _ ← require_not_blocked_by_safe_mode method;
  _ ← require_capability method args;
  run_method method args.
End bridge_host.
