(* ===== verification/BridgeTheorems.v ===== *)
(** * Properties of the mini-app bridge

    Which calls are let through, what a call can touch, capability tokens, rate
    limits and storage quotas. *)

From S2P Require Import Prelude External Text Instances Transaction Policy Ledger LedgerTheorems CoinNode CoinNodeTheorems.
From S2P Require Import Wire E2E AtRest Bootstrap Payment NodeData Host AppStorage AppStorageTheorems AppStorageProps.
From S2P Require Import Proximity MiniApp MiniAppStore MiniAppTheorems AppNodeData AppNode AppNodeInv AppNodeTheorems Bridge BridgeHost.

Open Scope Z_scope.

(** ** Capability tokens *)

Lemma rsplit_once_app c s r : has_char c r = false -> rsplit_once c (s +:+ String c r) = Some (s, r).
Proof.
  intros Hr. assert (rsplit_once c r = None) as Hn.
  { clear s. induction r as [|a r IH]; [done|]. cbn in Hr |- *. apply orb_false_iff in Hr as [Ha Hr].
    rewrite (IH Hr). apply bool_decide_eq_false in Ha. by rewrite decide_False. }
  induction s as [|a s IH].
  - change (EmptyString +:+ String c r)%string with (String c r). cbn. by rewrite Hn, decide_True.
  - change (String a s +:+ String c r)%string with (String a (s +:+ String c r)). cbn [rsplit_once]. by rewrite IH.
Qed.

Lemma rsplit_once_Some c s p q : rsplit_once c s = Some (p, q) -> s = (p +:+ String c q)%string.
Proof.
  revert p q. induction s as [|a s IH]; intros p q; [done|]. cbn [rsplit_once].
  destruct (rsplit_once c s) as [[p' q']|] eqn:E.
  - intros [= <- <-]. by rewrite (IH p' q' eq_refl).
  - case_decide; [|done]. intros [= <- <-]. by subst.
Qed.

Lemma digits_no_pipe z : has_char pipe (show z) = false.
Proof. unfold show. generalize (N.to_uint (Z.to_N z)) as d. by induction d. Qed.

Section capability.
Context `{C : Crypto} {CL : CryptoLaws C} `{K : CapPrims} {KL : CapLaws K}.

Lemma split_payload app tag sess e :
  has_char pipe app = false -> has_char pipe tag = false -> has_char pipe sess = false ->
  split_on pipe (cap_payload app tag sess e) = ["1"; app; tag; sess; show e]%string.
Proof.
  intros Ha Ht Hs. apply (split_on_join pipe ["1"; app; tag; sess; show e]%string); [done|].
  repeat constructor; try done. apply digits_no_pipe.
Qed.

Lemma split_on_nonempty c s : (1 <= length (split_on c s))%nat.
Proof. destruct s as [|a s]; cbn; [lia|]. case_decide; cbn; [lia|]. destruct (split_on c s); cbn; lia. Qed.

(** the number of pieces *)
Lemma split_on_length c s r : length (split_on c (s +:+ String c r)) = (length (split_on c s) + length (split_on c r))%nat.
Proof.
  induction s as [|a s IH].
  - change (EmptyString +:+ String c r)%string with (String c r). cbn. by rewrite decide_True.
  - change (String a s +:+ String c r)%string with (String a (s +:+ String c r)). cbn [split_on].
    case_decide; cbn [length]; [by rewrite IH|].
    pose proof (split_on_nonempty c s). pose proof (split_on_nonempty c (s +:+ String c r)).
    destruct (split_on c s), (split_on c (s +:+ String c r)); cbn in *; lia.
Qed.

Lemma split_on_has c s : has_char c s = true -> (2 <= length (split_on c s))%nat.
Proof.
  induction s as [|a s IH]; [done|]. cbn. intros [Ha|Hs]%orb_true_iff.
  - apply bool_decide_eq_true in Ha. rewrite decide_True by done. cbn. pose proof (split_on_nonempty c s). lia.
  - specialize (IH Hs). case_decide; cbn; [lia|]. destruct (split_on c s); cbn in *; lia.
Qed.

Lemma split_payload_long app tag sess e :
  has_char pipe app = true \/ has_char pipe sess = true -> (5 < length (split_on pipe (cap_payload app tag sess e)))%nat.
Proof.
  intros H. assert (forall x, (pipe_str +:+ x)%string = String pipe x) as Hp by done.
  unfold cap_payload. rewrite !Hp, !split_on_length.
  pose proof (split_on_nonempty pipe app). pose proof (split_on_nonempty pipe tag). pose proof (split_on_nonempty pipe sess).
  pose proof (split_on_nonempty pipe (show e)). pose proof (split_on_nonempty pipe "1").
  destruct H as [H%split_on_has|H%split_on_has]; lia.
Qed.

Lemma digits_utf8 z : utf8_valid (as_bytes (show z)) = true.
Proof. unfold show. generalize (N.to_uint (Z.to_N z)) as d. by induction d. Qed.

Lemma name_no_pipe p : has_char pipe (permission_name p) = false.
Proof. by destruct p. Qed.

(** the text inside a token *)
Definition cap_text (key : list byte) (payload : string) : string :=
  (payload +:+ pipe_str +:+ hex_encode (hmac_sha256 key (as_bytes payload)))%string.

Lemma cap_text_utf8 key app p sess e :
  utf8_valid (as_bytes app) = true -> utf8_valid (as_bytes sess) = true ->
  utf8_valid (as_bytes (cap_text key (cap_payload app (permission_name p) sess e))) = true.
Proof.
  intros Ha Hs. unfold cap_text, cap_payload. rewrite !as_bytes_app.
  repeat apply utf8_valid_app; try done; [by destruct p|apply digits_utf8|apply hex_utf8].
Qed.

Lemma permission_name_inj p p' : permission_name p = permission_name p' -> p = p'.
Proof. by destruct p, p'. Qed.

Lemma validate_inv key app p session tok now :
  validate_capability key app p session tok now = Ok tt ->
  exists text payload sig version expiry e,
    b64url_decode tok = Some (as_bytes text) /\ text = (payload +:+ String pipe sig)%string
    /\ hex_decode sig = Some (hmac_sha256 key (as_bytes payload))
    /\ split_on pipe payload = [version; app; permission_name p; session; expiry]
    /\ parse_uint 8 version = Some 1 /\ parse_uint 64 expiry = Some e /\ now <= e.
Proof.
  unfold validate_capability. destruct (b64url_decode tok) as [bs|]; [|done].
  unfold from_utf8. destruct (utf8_valid bs); [|done]. destruct (rsplit_once pipe (of_bytes bs)) as [[payload sig]|] eqn:Er; [|done].
  destruct (hex_decode sig) as [sg|] eqn:Eh; [|done]. case_decide as Hm; [done|]. subst sg.
  destruct (split_on pipe payload) as [|v [|a [|t [|se [|ex [|]]]]]] eqn:Es; try done.
  case_decide as Hv; [done|]. case_decide as Ha; [done|]. case_decide as Ht; [done|]. case_decide as Hs; [done|].
  subst. destruct (parse_uint 64 ex) as [e|] eqn:Ee; [|done].
  case_decide; [done|]. intros _. apply rsplit_once_Some in Er.
  exists (of_bytes bs), payload, sig, v, ex, e. split_and!; try done; [by rewrite as_of_bytes|lia].
Qed.

Lemma validate_issued key app p session app' p' session' ttl now0 now :
  in_u 64 now0 -> in_u 64 ttl -> utf8_valid (as_bytes app) = true -> utf8_valid (as_bytes session) = true ->
  validate_capability key app' p' session' (issue_capability key app p session ttl now0) now = Ok tt
  <-> app' = app /\ p' = p /\ session' = session /\ now <= now0 +sat ttl
      /\ has_char pipe app = false /\ has_char pipe session = false.
Proof.
  intros Hn Ht Hu1 Hu2. unfold issue_capability, validate_capability. fold (cap_text key (cap_payload app (permission_name p) session (now0 +sat ttl))).
  rewrite b64url_decode_encode. unfold from_utf8. rewrite cap_text_utf8, of_as_bytes by done.
  set (payload := cap_payload app (permission_name p) session (now0 +sat ttl)). unfold cap_text.
  change (pipe_str +:+ ?x)%string with (String pipe x). rewrite rsplit_once_app by apply hex_no_pipe.
  rewrite hex_decode_encode, decide_False by (intros H; by apply H). unfold payload.
  destruct (has_char pipe app || has_char pipe session) eqn:Hpipe.
  { apply orb_true_iff in Hpipe. pose proof (split_payload_long app (permission_name p) session (now0 +sat ttl) Hpipe) as Hl.
    destruct (split_on _ _) as [|? [|? [|? [|? [|? [|]]]]]]; cbn in Hl; try lia.
    split; [done|]. intros (_ & _ & _ & _ & H1 & H2). rewrite H1, H2 in Hpipe. by destruct Hpipe. }
  apply orb_false_iff in Hpipe as [Ha Hs].
  rewrite split_payload by (done || apply name_no_pipe). rewrite decide_False by (intros H; by apply H).
  rewrite parse_show by (unfold sat_add, in_u, umax in *; lia).
  repeat case_decide; split; try done; try (intros (-> & -> & -> & ? & _); done || lia); intros _;
    split_and!; try done; try lia.
  by apply permission_name_inj.
Qed.

(** C28. Capability tokens: a token issued for an app, a permission and a session is
    accepted for exactly these, until it expires and no longer, provided that
    neither the app id nor the session contains [|]; with a [|] in either, which
    app ids may have, the token is never accepted.  And whatever token is
    accepted carries the MAC, under the host's key, of a text that names this
    app, this permission and this session and an expiry that has not passed.
    Ids and sessions are UTF-8, times and lifetimes are 64-bit, as in Rust. *)
Theorem capability_exact key app (p : Permission) session ttl now0 now :
  in_u 64 now0 -> in_u 64 ttl -> utf8_valid (as_bytes app) = true -> utf8_valid (as_bytes session) = true ->
  let tok := issue_capability key app p session ttl now0 in
  (forall app' p' session', validate_capability key app' p' session' tok now = Ok tt <->
     app' = app /\ p' = p /\ session' = session /\ now <= now0 +sat ttl
     /\ has_char pipe app = false /\ has_char pipe session = false)
  /\ (forall tok' app' p' session', validate_capability key app' p' session' tok' now = Ok tt ->
        exists text payload sig version expiry,
          b64url_decode tok' = Some (as_bytes text) /\ text = (payload +:+ String pipe sig)%string
          /\ hex_decode sig = Some (hmac_sha256 key (as_bytes payload))
          /\ split_on pipe payload = [version; app'; permission_name p'; session'; expiry]
          /\ parse_uint 8 version = Some 1 /\ exists e, parse_uint 64 expiry = Some e /\ now <= e).
Proof.
  intros Hn Ht Hu1 Hu2. cbv zeta. split.
  - intros app' p' session'. by apply validate_issued.
  - intros tok' app' p' session' Hv.
    destruct (validate_inv _ _ _ _ _ _ Hv) as (text & payload & sig & v & ex & e & H1 & H2 & H3 & H4 & H5 & H6 & H7).
    exists text, payload, sig, v, ex. eauto 10.
Qed.
End capability.

(** ** Rate limits *)

(** how many of a sequence of calls at the given times are let through *)
Fixpoint let_through (window limit : Z) (app : string) (times : list Z) (t : gmap string (Z * Z)) : Z :=
  match times with
  | [] => 0
  | now :: times =>
      let '(t', r) := check_rate window limit app now "" t in
      (if r is Ok _ then 1 else 0) + let_through window limit app times t'
  end.

Section rate.
Variables (window limit a : Z) (app : string).
Hypothesis Hlimit : 0 <= window /\ 0 < limit < 2 ^ 32.

Lemma check_rate_eq now msg t :
  check_rate window limit app now msg t =
    let e := default (now, 0) (t !! app) in
    let e := if decide (window < now -sat e.1) then (now, 0) else e in
    (<[app := if decide (limit <= e.2) then e else (e.1, wadd 32 e.2 1)]> t,
     if decide (limit <= e.2) then Err msg else Ok tt).
Proof. unfold check_rate. cbv zeta. by case_decide. Qed.

(** inside the span [a, a + window] a window that started in it never ends *)
Lemma one_window times st c t :
  Forall (fun x => a <= x <= a + window) times -> t !! app = Some (st, c) -> a <= st -> 0 <= c ->
  let_through window limit app times t <= Z.max 0 (limit - c).
Proof.
  intros Ht. revert st c t. induction Ht as [|now times Hnow _ IH]; intros st c t Hl Hst Hc; [cbn; lia|].
  cbn [let_through]. rewrite check_rate_eq. cbv zeta. rewrite Hl. cbn [default from_option id fst snd].
  rewrite (decide_False (P := window < _)) by (unfold sat_sub; lia).
  cbn [fst snd]. destruct (decide (limit <= c)) as [Hf|Hf].
  - specialize (IH st c (<[app:=(st, c)]> t)). rewrite lookup_insert_eq in IH.
    specialize (IH eq_refl Hst Hc). lia.
  - specialize (IH st (c + 1) (<[app:=(st, c + 1)]> t)). rewrite lookup_insert_eq in IH.
    specialize (IH eq_refl Hst ltac:(lia)). rewrite wadd_small by (unfold in_u; lia). lia.
Qed.

Lemma two_windows times t :
  Forall (fun x => a <= x <= a + window) times -> (forall st c, t !! app = Some (st, c) -> 0 <= c) ->
  let_through window limit app times t <= 2 * limit.
Proof.
  intros Ht. enough (forall st c, t !! app = Some (st, c) -> 0 <= c ->
    let_through window limit app times t <= Z.max 0 (limit - c) + limit) as H.
  { intros Hc. destruct (t !! app) as [[st c]|] eqn:E.
    - specialize (H st c eq_refl (Hc st c eq_refl)). specialize (Hc st c eq_refl). lia.
    - destruct Ht as [|now times Hnow Ht]; [cbn; lia|]. cbn [let_through]. rewrite check_rate_eq. cbv zeta. rewrite E.
      cbn [default from_option id fst snd]. rewrite (decide_False (P := window < _)) by (unfold sat_sub; lia).
      cbn [fst snd]. rewrite !decide_False by lia.
      pose proof (one_window times now 1 (<[app:=(now, wadd 32 0 1)]> t) Ht) as Hw. rewrite lookup_insert_eq in Hw.
      specialize (Hw eq_refl ltac:(lia) ltac:(lia)). lia. }
  revert t. induction Ht as [|now times Hnow Ht IH]; intros t st c Hl Hc; [cbn; lia|].
  cbn [let_through]. rewrite check_rate_eq. cbv zeta. rewrite Hl. cbn [default from_option id fst snd].
  destruct (decide (window < now -sat st)) as [Hr|Hr]; cbn [fst snd].
  - rewrite !decide_False by lia.
    pose proof (one_window times now 1 (<[app:=(now, wadd 32 0 1)]> t) Ht) as Hw. rewrite lookup_insert_eq in Hw.
    specialize (Hw eq_refl ltac:(lia) ltac:(lia)). lia.
  - destruct (decide (limit <= c)) as [Hf|Hf].
    + specialize (IH (<[app:=(st, c)]> t) st c). rewrite lookup_insert_eq in IH. specialize (IH eq_refl Hc). lia.
    + specialize (IH (<[app:=(st, wadd 32 c 1)]> t) st (c + 1)). rewrite lookup_insert_eq in IH.
      rewrite wadd_small in IH |- * by (unfold in_u; lia). specialize (IH eq_refl ltac:(lia)). lia.
Qed.
End rate.

(** The bridge limit of 120 calls a minute and the broadcast limit of 10 an
    hour are per fixed window: in any span of that length, at most twice the
    limit gets through, whatever the state of the table; and 239 calls can get
    through within one millisecond. *)
Theorem bridge_rate_bounded app a times btimes (t bt : gmap string (Z * Z)) :
  (forall st c, t !! app = Some (st, c) -> 0 <= c) -> (forall st c, bt !! app = Some (st, c) -> 0 <= c) ->
  Forall (fun x => a <= x <= a + 60000) times -> Forall (fun x => a <= x <= a + 3600000) btimes ->
  let_through 60000 120 app times t <= 240 /\ let_through 3600000 10 app btimes bt <= 20
  /\ let_through 60000 120 "com.example.app" (replicate 119 60000 ++ replicate 120 60001)
       {["com.example.app"%string := (0, 1)]} = 239.
Proof.
  intros Ht Hbt Hs Hbs. split_and!.
  - by apply (two_windows 60000 120 a).
  - by apply (two_windows 3600000 10 a).
  - by vm_compute.
Qed.

(** ** Which calls are let through *)

Create HintDb conf.

Section bridge.
Context `{C : Crypto} `{D : Sled} {DL : SledLaws D} {DO : SledOrder D} `{DB : !SledDb} {DBL : SledDbLaws DB}.
Context `{P : E2EPrims} `{J : Json} `{BW : Bincode WireMessage}.
Context `{BT : Bincode Transaction} `{BA : Bincode AccountState} `{BV : Bincode VelocityWindow}.
Context `{BP : Bincode CoinPayload} `{CH : !CoinHost}.
Context `{SC : MiniCodecs} {SL : MiniCodecLaws SC} `{B : AppCodecs} {BL : AppCodecLaws B} `{MC : MeshCodecs} `{AH : AppHost}.
Context `{K : CapPrims} `{U : UrlEncoding}.
Variables (cfg : AppConf) (bh : BridgeConf).

(** the checks of [handle], at its three readings of the clock *)
Definition authorised (method : string) (args : JValue) (s : BridgeState) : Prop :=
  let k := an_ticks (br_node s) in
  exists tok, arg_str args "_session" = Some tok
  /\ validate_session (bh_app_id bh) tok (app_clock k) (br_sessions s) = Ok tt
  /\ (check_bridge_rate (bh_app_id bh) (app_clock (S k)) (br_limits s)).2 = Ok tt
  /\ (bh_safe_mode bh = true -> method_allowed_in_safe_mode method = true)
  /\ forall perm, permission_for_method method = Some perm ->
       perm ∈ bh_permissions bh
       /\ exists cap, arg_str args "_cap" = Some cap
          /\ validate_capability (bh_cap_mac_key bh) (bh_app_id bh) perm tok cap (app_clock (S (S k))) = Ok tt.

(** the app store with at most the reputation of this app changed *)
Definition own_reputation (app_id : string) (o o' : option Db) : Prop :=
  match o, o' with
  | Some d, Some d' =>
      (forall t, t ≠ "miniapp_reputation"%string -> db_view d' t = db_view d t)
      /\ forall app, app ≠ app_id ->
           tree_view (db_view d' "miniapp_reputation") !! app = tree_view (db_view d "miniapp_reputation") !! app
  | None, None => True
  | _, _ => False
  end.

(** nothing happened to the node, but for the clock and the app's reputation *)
Definition inert (app_id : string) (n n' : AppNode) : Prop :=
  exists o k, n' = set_an_app_store o (set_an_ticks k n) /\ own_reputation app_id (an_app_store n) o.

(** nor to the tables of the bridge, but for the count of this app's calls *)
Definition turned_away (s s' : BridgeState) : Prop :=
  inert (bh_app_id bh) (br_node s) (br_node s') /\ br_sessions s' = br_sessions s /\ br_broadcasts s' = br_broadcasts s
  /\ (br_limits s' = br_limits s \/ exists now, br_limits s' = (check_bridge_rate (bh_app_id bh) now (br_limits s)).1).

Lemma own_reputation_refl app o : own_reputation app o o.
Proof. by destruct o. Qed.

Lemma own_reputation_trans app o1 o2 o3 : own_reputation app o1 o2 -> own_reputation app o2 o3 -> own_reputation app o1 o3.
Proof.
  destruct o1, o2, o3; cbn; try done. intros [H1 H2] [H3 H4].
  split; [intros t Ht; by rewrite H3, H1|intros a Ha; by rewrite H4, H2].
Qed.

Lemma inert_ticks app n k : inert app n (set_an_ticks k n).
Proof. exists (an_app_store n), k. split; [by destruct n|apply own_reputation_refl]. Qed.
Lemma bridge_inert_refl app n : inert app n n.
Proof. exists (an_app_store n), (an_ticks n). split; [by destruct n|apply own_reputation_refl]. Qed.
Lemma bridge_inert_trans app n1 n2 n3 : inert app n1 n2 -> inert app n2 n3 -> inert app n1 n3.
Proof.
  intros (d & k & -> & H1) (d' & k' & -> & H2). exists d', k'. split; [by destruct n1|].
  exact (own_reputation_trans _ _ _ _ H1 H2).
Qed.

Lemma anomaly_own now d : own_reputation (bh_app_id bh) (Some d) (Some (record_bridge_anomaly (bh_app_id bh) now d).1).
Proof.
  split.
  - assert (only "miniapp_reputation" (record_bridge_anomaly (bh_app_id bh) now)) as Ho; [|apply Ho].
    unfold record_bridge_anomaly. apply only_bind; [by apply only_delta|intros; apply only_ret].
  - intros app Hne. unfold record_bridge_anomaly, apply_delta, rep_load, rep_save. unfold mbind, ST_bind. rewrite read_tree_eq.
    destruct (get_json _ _) as [o|]; [|done]. unfold mret, ST_ret.
    match goal with |- context [write_tree ?t ?g d] => destruct (write_tree t g d) as [d' r] eqn:E end.
    assert (tree_view (db_view d' "miniapp_reputation") !! app = tree_view (db_view d "miniapp_reputation") !! app) as H; [|by destruct r].
    apply write_tree_inv in E as [->|(t' & Ht & ->)]; [done|]. rewrite db_put_view, decide_True by done.
    match type of Ht with put_json _ ?x ?t = _ => destruct (put_json_ok (bh_app_id bh) x t) as (t2 & b & E & _ & Hv) end.
    rewrite E in Ht. injection Ht as <-. by rewrite Hv, lookup_insert_ne.
Qed.

Lemma node_now_bind {A} (f : Z -> ST BridgeState A) s :
  (on_node a_now ≫= f) s = f (app_clock (an_ticks (br_node s)))
    (mkBridgeState (set_an_ticks (S (an_ticks (br_node s))) (br_node s)) (br_sessions s) (br_limits s) (br_broadcasts s)).
Proof. done. Qed.

Lemma turned_ticks s k :
  turned_away s (mkBridgeState (set_an_ticks k (br_node s)) (br_sessions s) (br_limits s) (br_broadcasts s)).
Proof. split_and!; try done; [apply inert_ticks|by left]. Qed.

Lemma check_session_spec args s :
  (exists tok, arg_str args "_session" = Some tok
     /\ validate_session (bh_app_id bh) tok (app_clock (an_ticks (br_node s))) (br_sessions s) = Ok tt
     /\ check_session bh args s
        = (mkBridgeState (set_an_ticks (S (an_ticks (br_node s))) (br_node s)) (br_sessions s) (br_limits s) (br_broadcasts s), Ok tt))
  \/ exists s' e, check_session bh args s = (s', Err e) /\ turned_away s s'.
Proof.
  unfold check_session. destruct (arg_str args "_session") as [tok|]; cbn [need].
  - erewrite ST_bind_Ok; [|reflexivity]. rewrite node_now_bind. erewrite ST_bind_Ok; [|reflexivity]. cbn [br_sessions].
    unfold st_lift. destruct (validate_session _ _ _ _) as [[]|e] eqn:E.
    + left. by exists tok.
    + right. eexists _, e. split; [reflexivity|]. apply turned_ticks.
  - right. eexists _, _. split; [reflexivity|]. split_and!; try done; [apply bridge_inert_refl|by left].
Qed.

Lemma check_limit_spec s :
  let now := app_clock (an_ticks (br_node s)) in
  ((check_bridge_rate (bh_app_id bh) now (br_limits s)).2 = Ok tt
   /\ check_limit bh s = (mkBridgeState (set_an_ticks (S (an_ticks (br_node s))) (br_node s)) (br_sessions s)
                            (check_bridge_rate (bh_app_id bh) now (br_limits s)).1 (br_broadcasts s), Ok tt))
  \/ exists s' e, check_limit bh s = (s', Err e) /\ turned_away s s'.
Proof.
  cbv zeta. unfold check_limit. rewrite node_now_bind.
  destruct (check_bridge_rate (bh_app_id bh) (app_clock (an_ticks (br_node s))) (br_limits s)) as [t r] eqn:E.
  assert (forall x, br_limits x = br_limits s ->
    st_attempt (on_limits (check_bridge_rate (bh_app_id bh) (app_clock (an_ticks (br_node s))))) x
    = (mkBridgeState (br_node x) (br_sessions x) t (br_broadcasts x), Ok r)) as Ha.
  { intros x Hx. unfold st_attempt, on_limits. by rewrite Hx, E. }
  erewrite ST_bind_Ok; [|by apply Ha]. destruct r as [[]|e]; [by left|right].
  rewrite node_now_bind. erewrite ST_bind_Ok; [|reflexivity]. eexists _, e. split; [reflexivity|].
  unfold on_node, on_app_store. cbn [an_app_store set_an_ticks br_node].
  assert (forall n', inert (bh_app_id bh) (br_node s) n' -> turned_away s (mkBridgeState n' (br_sessions s) t (br_broadcasts s))) as Hw.
  { intros n' Hn. split_and!; try done. right. exists (app_clock (an_ticks (br_node s))). by rewrite E. }
  destruct (an_app_store (br_node s)) as [d|] eqn:Ed; cbn.
  - match goal with |- context [record_bridge_anomaly ?a ?n ?d] => pose proof (anomaly_own n d) as Ho; destruct (record_bridge_anomaly a n d) as [d' r'] end.
    apply Hw. exists (Some d'), (S (S (an_ticks (br_node s)))). rewrite Ed. by split; [destruct (br_node s)|].
  - apply Hw. exists None, (S (S (an_ticks (br_node s)))). rewrite Ed. split; [|done]. rewrite <- Ed. by destruct (br_node s).
Qed.

(** the gates pass only for an authorised call *)
Lemma require_capability_spec method args s :
  (forall perm, permission_for_method method = Some perm -> perm ∈ bh_permissions bh
     /\ exists tok cap, arg_str args "_session" = Some tok /\ arg_str args "_cap" = Some cap
        /\ validate_capability (bh_cap_mac_key bh) (bh_app_id bh) perm tok cap (app_clock (an_ticks (br_node s))) = Ok tt)
  \/ exists k e, require_capability bh method args s
       = (mkBridgeState (set_an_ticks k (br_node s)) (br_sessions s) (br_limits s) (br_broadcasts s), Err e).
Proof.
  assert (s = mkBridgeState (set_an_ticks (an_ticks (br_node s)) (br_node s)) (br_sessions s) (br_limits s) (br_broadcasts s)) as Hi.
  { destruct s as [n ? ? ?]. cbn. by destruct n. }
  unfold require_capability, require_permission. destruct (permission_for_method method) as [perm|]; [|by left].
  destruct (decide (perm ∈ bh_permissions bh)) as [Hp|Hp]; [|right; eexists _, _; by rewrite <- Hi].
  erewrite ST_bind_Ok; [|reflexivity]. destruct (arg_str args "_session") as [tok|]; [|right; eexists _, _; by rewrite <- Hi].
  erewrite ST_bind_Ok; [|reflexivity]. destruct (arg_str args "_cap") as [cap|]; [|right; eexists _, _; by rewrite <- Hi].
  erewrite ST_bind_Ok; [|reflexivity]. rewrite node_now_bind. unfold st_lift.
  destruct (validate_capability _ _ _ _ _ _) as [[]|e] eqn:Ev.
  - left. intros ? [= <-]. split; [done|]. by exists tok, cap.
  - right. by eexists _, e.
Qed.

(** the gates of a call, in order *)
Lemma handle_gate method args s s' r :
  handle cfg bh method args s = (s', r) ->
  authorised method args s \/ ((exists e, r = Err e) /\ turned_away s s').
Proof.
  unfold handle. destruct (check_session_spec args s) as [(tok & Ht & Hv & E1)|(s1 & e & E1 & Hi1)].
  2:{ rewrite (ST_bind_Err _ _ _ _ _ E1). intros [= <- <-]. right. split; [by exists e|done]. }
  rewrite (ST_bind_Ok _ _ _ _ _ E1). set (s1 := mkBridgeState _ _ _ _).
  assert (inert (bh_app_id bh) (br_node s) (br_node s1)) as Hi1 by apply inert_ticks.
  destruct (check_limit_spec s1) as [(Hr & E2)|(s2 & e & E2 & Hi2 & H1 & H2 & H3)].
  2:{ rewrite (ST_bind_Err _ _ _ _ _ E2). intros [= <- <-]. right. split; [by exists e|].
      split_and!; [exact (bridge_inert_trans _ _ _ _ Hi1 Hi2)|done|done|done]. }
  rewrite (ST_bind_Ok _ _ _ _ _ E2). set (s2 := mkBridgeState _ _ _ _).
  assert (forall k, turned_away s (mkBridgeState (set_an_ticks k (br_node s2)) (br_sessions s2) (br_limits s2) (br_broadcasts s2))) as Hi2.
  { intros k. split_and!; try done; [|right; by eexists].
    eapply bridge_inert_trans; [exact Hi1|]. eapply bridge_inert_trans; [|apply inert_ticks]. apply inert_ticks. }
  unfold require_not_blocked_by_safe_mode.
  destruct (bh_safe_mode bh && negb (method_allowed_in_safe_mode method)) eqn:Esm.
  { intros [= <- <-]. right. split; [by eexists|]. specialize (Hi2 (an_ticks (br_node s2))).
    replace s2 with (mkBridgeState (set_an_ticks (an_ticks (br_node s2)) (br_node s2)) (br_sessions s2) (br_limits s2) (br_broadcasts s2)); [done|].
    cbn. by destruct (br_node s). }
  erewrite ST_bind_Ok; [|reflexivity].
  destruct (require_capability_spec method args s2) as [Hc|(k & e & E3)].
  2:{ rewrite (ST_bind_Err _ _ _ _ _ E3). intros [= <- <-]. right. split; [by exists e|apply Hi2]. }
  intros _. left. exists tok. split_and!; try done.
  - intros Hs. rewrite Hs in Esm. by destruct (method_allowed_in_safe_mode method).
  - intros perm Hp. destruct (Hc perm Hp) as (Hin & tok' & cap & Ht' & Hcap & Hval). split; [done|]. exists cap.
    assert (tok' = tok) as -> by congruence. by split.
Qed.

(** C26. Nothing gets past the bridge unauthorised: a call does something only if it
    carries the current session token of its app, is within the rate limit, is
    allowed in safe mode when that is on, and, for every method that needs a
    runtime grant (storage, reading bulletins and the utility methods need
    none), the manifest has the permission and the call carries a valid
    capability token for it.  Any other call returns an error and leaves
    everything as it was, but for the clock, the reputation row of this app and
    the count of its calls: no other row or tree of the app store changes, nor do
    the sessions, the broadcast counts and the counts of other apps. *)
Theorem bridge_calls_authorised method args s s' r :
  handle cfg bh method args s = (s', r) ->
  authorised method args s \/ ((exists e, r = Err e) /\ turned_away s s').
Proof. apply handle_gate. Qed.

(** ** What a call can touch *)

Abbreviation kv st := (tree_view (db_view (app_db st) "miniapp_storage")).

(** same coins, same values of other apps, same store but for reputations *)
Definition confined (n n' : AppNode) : Prop :=
  an_coin n' = an_coin n
  /\ (forall k, starts_with (app_prefix (bh_app_id bh)) k = false -> kv (an_storage n') !! k = kv (an_storage n) !! k)
  /\ match an_app_store n, an_app_store n' with
     | Some d, Some d' => forall t, t ≠ "miniapp_reputation"%string -> db_view d' t = db_view d t
     | None, None => True
     | _, _ => False
     end.

Lemma confined_refl n n' :
  an_coin n' = an_coin n -> an_storage n' = an_storage n -> an_app_store n' = an_app_store n -> confined n n'.
Proof. intros H1 H2 H3. unfold confined. rewrite H1, H2, H3. split_and!; try done. by destruct (an_app_store n). Qed.

Lemma confined_trans n1 n2 n3 : confined n1 n2 -> confined n2 n3 -> confined n1 n3.
Proof.
  intros (A1 & A2 & A3) (B1 & B2 & B3). split_and!; [congruence|intros k Hk; by rewrite B2, A2|].
  destruct (an_app_store n1), (an_app_store n2), (an_app_store n3); try done. intros t Ht. by rewrite B3, A3.
Qed.

Definition nconf {A} (m : ST AppNode A) : Prop := forall n, confined n (m n).1.
Definition bconf {A} (m : ST BridgeState A) : Prop := forall s, confined (br_node s) (br_node (m s).1).

Lemma nconf_bind {A X} (m : ST AppNode A) (f : A -> ST AppNode X) : nconf m -> (forall a, nconf (f a)) -> nconf (m ≫= f).
Proof.
  intros Hm Hf n. unfold mbind, ST_bind. specialize (Hm n). destruct (m n) as [n1 [a|e]]; [|done].
  eapply confined_trans; [exact Hm|apply Hf].
Qed.
Lemma bconf_bind {A X} (m : ST BridgeState A) (f : A -> ST BridgeState X) : bconf m -> (forall a, bconf (f a)) -> bconf (m ≫= f).
Proof.
  intros Hm Hf s. unfold mbind, ST_bind. specialize (Hm s). destruct (m s) as [s1 [a|e]]; [|done].
  eapply confined_trans; [exact Hm|apply Hf].
Qed.

Lemma nconf_ignore {A} (m : ST AppNode A) : nconf m -> nconf (st_ignore m).
Proof. intros Hm n. apply Hm. Qed.
Lemma bconf_ignore {A} (m : ST BridgeState A) : bconf m -> bconf (st_ignore m).
Proof. intros Hm s. apply Hm. Qed.
Lemma bconf_attempt {A} (m : ST BridgeState A) : bconf m -> bconf (st_attempt m).
Proof. intros Hm s. apply Hm. Qed.

Lemma bconf_node {A} (m : ST AppNode A) : nconf m -> bconf (on_node m).
Proof. intros Hm s. unfold on_node. specialize (Hm (br_node s)). by destruct (m (br_node s)). Qed.

(** operations that touch none of the three *)
Lemma nconf_same {A} (m : ST AppNode A) :
  (forall n, an_coin (m n).1 = an_coin n /\ an_storage (m n).1 = an_storage n /\ an_app_store (m n).1 = an_app_store n) -> nconf m.
Proof. intros Hm n. destruct (Hm n) as (H1 & H2 & H3). by apply confined_refl. Qed.
Lemma bconf_same {A} (m : ST BridgeState A) : (forall s, br_node (m s).1 = br_node s) -> bconf m.
Proof. intros Hm s. rewrite Hm. by apply confined_refl. Qed.

Lemma nconf_send c : nconf (send c).
Proof. apply nconf_same. intros n. unfold send. by destruct (handle_send _ _). Qed.

Lemma nconf_storage {A} (m : ST AppStorage A) :
  (forall st k, starts_with (app_prefix (bh_app_id bh)) k = false -> kv (m st).1 !! k = kv st !! k) -> nconf (on_storage m).
Proof.
  intros Hm n. unfold on_storage. specialize (Hm (an_storage n)). destruct (m (an_storage n)) as [st r].
  split_and!; try done. cbn. by destruct (an_app_store n).
Qed.

Lemma nconf_read {A} t (f : Tree -> anyhow A) : nconf (on_storage (with_tree t f)).
Proof. apply nconf_storage. intros st k _. by rewrite with_tree_eq. Qed.

Lemma upd_other t f st k : t ≠ "miniapp_storage"%string -> kv (upd_tree t f st).1 !! k = kv st !! k.
Proof.
  intros Ht. destruct (f (db_view (app_db st) t)) as [t'|e] eqn:E.
  - rewrite (upd_tree_ok _ _ _ _ E). cbn [fst app_db]. by rewrite db_put_view, decide_False by congruence.
  - unfold upd_tree. erewrite ST_bind_Ok; [|reflexivity]. rewrite (ST_bind_lift _ _ _ _ (db_open_view _ _)).
    unfold mbind, ST_bind, st_lift. by rewrite E.
Qed.

Lemma nconf_upd t f : t ≠ "miniapp_storage"%string -> nconf (on_storage (upd_tree t f)).
Proof. intros Ht. apply nconf_storage. intros st k _. by apply upd_other. Qed.

(** writes under the app's own prefix *)
Lemma nconf_own f key :
  starts_with (app_prefix (bh_app_id bh)) key = true ->
  (forall t t', f t = Ok t' -> forall k, k ≠ key -> tree_view t' !! k = tree_view t !! k) ->
  nconf (on_storage (upd_tree "miniapp_storage" f)).
Proof.
  intros Hk Hf. apply nconf_storage. intros st k Hne. destruct (f (db_view (app_db st) "miniapp_storage")) as [t'|e] eqn:E.
  - rewrite (upd_tree_ok _ _ _ _ E). cbn [fst app_db]. rewrite db_put_view, decide_True by done.
    apply (Hf _ _ E). by intros ->; rewrite Hk in Hne.
  - unfold upd_tree. erewrite ST_bind_Ok; [|reflexivity]. rewrite (ST_bind_lift _ _ _ _ (db_open_view _ _)).
    unfold mbind, ST_bind, st_lift. by rewrite E.
Qed.

Lemma nconf_store_read {A} t (f : Tree -> anyhow A) x : nconf (on_app_store (read_tree t f) x).
Proof.
  intros n. unfold on_app_store. destruct (an_app_store n) as [d|] eqn:E; [|by apply confined_refl].
  rewrite read_tree_eq. apply confined_refl; [done|done|]. by rewrite E.
Qed.

Lemma nconf_anomaly app now x : nconf (on_app_store (record_bridge_anomaly app now) x).
Proof.
  intros n. unfold on_app_store. destruct (an_app_store n) as [d|] eqn:E; [|by apply confined_refl].
  assert (only "miniapp_reputation" (record_bridge_anomaly app now)) as Ho.
  { unfold record_bridge_anomaly. apply only_bind; [by apply only_delta|intros; apply only_ret]. }
  specialize (Ho d). destruct (record_bridge_anomaly app now d) as [d' r]. split_and!; try done. cbn. by rewrite E.
Qed.
End bridge.

#[export] Hint Resolve nconf_send nconf_read nconf_store_read nconf_anomaly bconf_node nconf_ignore bconf_ignore bconf_attempt : conf.

(** walks through an operation *)
Ltac conf_step :=
  cbv zeta;
  match goal with
  | |- nconf _ (_ ≫= _) => apply nconf_bind; [|intros ?]
  | |- bconf _ (_ ≫= _) => apply bconf_bind; [|intros ?]
  | |- nconf _ (match ?x with _ => _ end) => destruct x
  | |- bconf _ (match ?x with _ => _ end) => destruct x
  | |- bconf _ (on_node _) => apply bconf_node
  | |- bconf _ (st_ignore _) => apply bconf_ignore
  | |- nconf _ (st_ignore _) => apply nconf_ignore
  | |- nconf _ (on_storage (upd_tree _ _)) => apply nconf_upd; discriminate
  | |- _ => solve [eauto with conf]
  | |- nconf _ _ => solve [apply nconf_same; intros; by split_and!]
  | |- bconf _ _ => solve [apply bconf_same; intros; reflexivity]
  end.
Ltac conf_auto := repeat conf_step.

Section confinement.
Context `{C : Crypto} `{D : Sled} {DL : SledLaws D} {DO : SledOrder D} `{DB : !SledDb} {DBL : SledDbLaws DB}.
Context `{P : E2EPrims} `{J : Json} `{BW : Bincode WireMessage}.
Context `{BT : Bincode Transaction} `{BA : Bincode AccountState} `{BV : Bincode VelocityWindow}.
Context `{BP : Bincode CoinPayload} `{CH : !CoinHost}.
Context `{SC : MiniCodecs} {SL : MiniCodecLaws SC} `{B : AppCodecs} {BL : AppCodecLaws B} `{MC : MeshCodecs} `{AH : AppHost}.
Context `{K : CapPrims} `{U : UrlEncoding}.
Variables (cfg : AppConf) (bh : BridgeConf).

Abbreviation kv st := (tree_view (db_view (app_db st) "miniapp_storage")).

Lemma upsert_other p name st now s k : kv (upsert_contact p name st now s).1 !! k = kv s !! k.
Proof.
  unfold upsert_contact, contact_by_id, save_contact. unfold mbind at 1, ST_bind at 1. rewrite with_tree_eq.
  destruct (get_row p _) as [o|]; [|done]. unfold mbind, ST_bind.
  match goal with |- context [upd_tree ?t ?f ?s] => pose proof (upd_other t f s k) as H; destruct (upd_tree t f s) as [s1 [[]|]] end;
    by apply H.
Qed.

Lemma nconf_upsert p name st now : nconf bh (on_storage (upsert_contact p name st now)).
Proof. apply nconf_storage. intros. apply upsert_other. Qed.

Lemma nconf_ensure to name : nconf bh (ensure_contact_accepted_for_send to name).
Proof. unfold ensure_contact_accepted_for_send, contact_by_id. pose proof nconf_upsert. conf_auto. Qed.

Lemma nconf_send_chat to body : nconf bh (send_chat cfg to body).
Proof.
  pose proof nconf_ensure. unfold send_chat, broadcast_chat, send_chat_encrypted, new_chat, has_enc_key_for, peer_x25519_public, save_chat.
  conf_auto.
Qed.

Lemma nconf_post scope title body ttl : nconf bh (post_bulletin scope title body ttl).
Proof. unfold post_bulletin, save_bulletin, get_scope_key. conf_auto. Qed.

Lemma nconf_proximity :
  (forall p ttl, nconf bh (start_proximity cfg p ttl)) /\ nconf bh stop_proximity /\ nconf bh nearby_profiles
  /\ (forall e, nconf bh (express_proximity_interest cfg e)) /\ (forall e m, nconf bh (send_proximity_message cfg e m))
  /\ (forall t, nconf bh (proximity_messages t)).
Proof.
  unfold start_proximity, stop_proximity, nearby_profiles, express_proximity_interest, send_proximity_message, proximity_messages,
    new_signal, broadcast_presence, on_px_store, on_px_matches, on_px_inbox.
  split_and!; intros; conf_auto.
Qed.

Lemma storage_get_bind {A} (f : AppStorage -> ST AppStorage A) n :
  on_storage (st_get ≫= f) n = on_storage (f (an_storage n)) n.
Proof. done. Qed.

Lemma nconf_kv_write key : starts_with (app_prefix (bh_app_id bh)) key = true ->
  (forall value nonce, nconf bh (on_storage (miniapp_set key value nonce))) /\ nconf bh (on_storage (miniapp_delete key)).
Proof.
  intros Hk. split.
  - intros value nonce. unfold miniapp_set. intros n.
    rewrite storage_get_bind. apply (nconf_own bh _ key); [done|]. intros t t' Ht k Hne.
    destruct (encode_miniapp_value key value nonce (an_storage n)) as [b|]; [|done]. cbn in Ht.
    destruct (tree_insert_view t key b) as (t2 & Hi & Hv). rewrite Hi in Ht. injection Ht as <-.
    rewrite Hv. by apply lookup_insert_ne.
  - apply (nconf_own bh _ key); [done|]. intros t t' Ht k Hne.
    destruct (tree_remove_view t key) as (t2 & Hi & Hv). rewrite Hi in Ht. injection Ht as <-.
    rewrite Hv. by apply lookup_delete_ne.
Qed.

Lemma scoped_key_own key : starts_with (app_prefix (bh_app_id bh)) (scoped_key bh key) = true.
Proof.
  apply starts_with_true. exists key. unfold scoped_key, app_prefix. by rewrite !str_append_assoc.
Qed.

Lemma bconf_need {A} (o : option A) msg : bconf bh (need o msg).
Proof. apply bconf_same. intros s. by destruct o. Qed.
Lemma bconf_permission p : bconf bh (require_permission bh p).
Proof. unfold require_permission. case_decide; by apply bconf_same. Qed.
Lemma bconf_manifest : bconf bh (bridge_manifest bh).
Proof. unfold bridge_manifest, get_manifest. conf_auto. Qed.
Lemma bconf_scope scope : bconf bh (require_bulletin_scope bh scope).
Proof.
  unfold require_bulletin_scope. apply bconf_bind; [apply bconf_manifest|intros o].
  apply bconf_bind; [apply bconf_need|intros m]. conf_auto.
Qed.
Lemma bconf_kv_read key : nconf bh (on_storage (miniapp_get key)).
Proof. intros n. unfold miniapp_get. rewrite storage_get_bind. apply nconf_read. Qed.
Lemma bconf_kv_list prefix : nconf bh (on_storage (miniapp_list prefix)).
Proof. apply nconf_read. Qed.
Lemma bconf_quota key len : bconf bh (check_storage_quota bh key len).
Proof. unfold check_storage_quota. pose proof (bconf_kv_list (app_prefix (bh_app_id bh))). conf_auto. Qed.
Lemma bconf_broadcasts f : bconf bh (on_broadcasts f).
Proof. apply bconf_same. intros s. unfold on_broadcasts. by destruct (f _). Qed.
Lemma bconf_limits f : bconf bh (on_limits f).
Proof. apply bconf_same. intros s. unfold on_limits. by destruct (f _). Qed.
Lemma bconf_nearby l : bconf bh (nearby_list l).
Proof. induction l; cbn [nearby_list]; conf_auto. Qed.
#[local] Hint Resolve bconf_need bconf_permission bconf_manifest bconf_scope bconf_kv_read bconf_kv_list bconf_quota
  bconf_broadcasts bconf_limits bconf_nearby nconf_send_chat nconf_post : conf.

Lemma bconf_method method args : bconf bh (run_method cfg bh method args).
Proof.
  destruct nconf_proximity as (H1 & H2 & H3 & H4 & H5 & H6).
  assert (forall key v n, nconf bh (on_storage (miniapp_set (scoped_key bh key) v n))) as Hset
    by (intros; by apply nconf_kv_write, scoped_key_own).
  assert (forall key, nconf bh (on_storage (miniapp_delete (scoped_key bh key)))) as Hdel
    by (intros; by apply nconf_kv_write, scoped_key_own).
  unfold run_method, app_bulletins_for_scope, bulletins_for_scope, known_peers. repeat (case_decide; [|]).
  all: unfold identity_get, messaging_send, messaging_subscribe, messaging_broadcast, payment_request, payment_create_qr,
    payment_get_balance, storage_get, storage_set, storage_delete, storage_list, bulletin_get, bulletin_post, peers_nearby,
    proximity_start, proximity_stop, proximity_nearby, proximity_connect, proximity_messages_call, proximity_send, util_now,
    util_scan_qr, util_dialog, app_get_version, app_bulletins_for_scope, bulletins_for_scope, known_peers;
    conf_auto.
Qed.

(** C27. A mini-app is confined: whatever it calls, with whatever arguments, tokens
    and permissions, the coin node is as before (payments only ever return a
    request for the user to confirm), no value stored by another app changes,
    and nothing in the app store changes but reputations. *)
Theorem bridge_confined method args s s' r :
  handle cfg bh method args s = (s', r) -> confined bh (br_node s) (br_node s').
Proof.
  intros E. enough (bconf bh (handle cfg bh method args)) as H by (specialize (H s); by rewrite E in H).
  pose proof (bconf_method method args). unfold handle, check_session, check_limit, require_not_blocked_by_safe_mode, require_capability.
  conf_auto.
Qed.
End confinement.

(** ** Storage quotas *)

Section quota.
Context `{C : Crypto} `{D : Sled} {DL : SledLaws D} {DO : SledOrder D} `{DB : !SledDb} {DBL : SledDbLaws DB}.
Context `{P : E2EPrims} {PL : E2ELaws P} {AL : AeadLaws P} `{CH : !CoinHost} `{AH : AppHost}.
Variable bh : BridgeConf.

Abbreviation kv st := (tree_view (db_view (app_db st) "miniapp_storage")).
Abbreviation pfx := (app_prefix (bh_app_id bh)).

(** the keys of the app, and the length of a value as the code reads it *)
Definition own_keys (m : gmap string (list byte)) : list string :=
  (filter (fun kv => starts_with pfx kv.1 = true) (map_to_list m)).*1.
Definition vlen (st : AppStorage) (k : string) : Z :=
  match (miniapp_get k st).2 with Ok (Some v) => Z.of_nat (String.length v) | _ => 0 end.
Definition used_bytes (st : AppStorage) : Z := sumZ (vlen st) (own_keys (kv st)).

Lemma sum_values_eq sk keys total st :
  sum_values sk keys total st = total + sumZ (fun k => if decide (k = sk) then 0 else vlen st k) keys.
Proof.
  revert total. induction keys as [|k keys IH]; intros total; cbn [sum_values sumZ foldr]; [lia|]. fold (sumZ (fun k => if decide (k = sk) then 0 else vlen st k) keys).
  unfold vlen at 1. destruct (decide (k = sk)); [rewrite IH; lia|].
  destruct (miniapp_get k st).2 as [[v|]|]; rewrite IH; lia.
Qed.

Lemma own_keys_insert sk b m :
  starts_with pfx sk = true -> own_keys (<[sk := b]> m) ≡ₚ sk :: own_keys (delete sk m).
Proof.
  intros Hp. unfold own_keys. rewrite <- insert_delete_eq, map_to_list_insert by apply lookup_delete_eq.
  rewrite filter_cons_True by done. done.
Qed.

Lemma own_keys_split sk m :
  starts_with pfx sk = true ->
  own_keys m ≡ₚ (if decide (is_Some (m !! sk)) then [sk] else []) ++ own_keys (delete sk m).
Proof.
  intros Hp. destruct (m !! sk) as [b|] eqn:E.
  - rewrite decide_True by done. rewrite <- (own_keys_insert sk b m Hp), insert_id by done. done.
  - rewrite decide_False by (by intros []). by rewrite delete_id.
Qed.

Lemma own_keys_delete sk m : sk ∉ own_keys (delete sk m).
Proof.
  unfold own_keys. intros ([k b] & -> & Hin)%list_elem_of_fmap. apply list_elem_of_filter in Hin as [_ Hin].
  apply elem_of_map_to_list in Hin. cbn in Hin. by rewrite lookup_delete_eq in Hin.
Qed.

Definition kv_utf8 (st : AppStorage) : Prop := forall k b, kv st !! k = Some b -> utf8_valid (as_bytes k) = true.

Lemma miniapp_list_own st :
  kv_utf8 st -> exists keys, miniapp_list pfx st = (st, Ok keys) /\ keys ≡ₚ own_keys (kv st).
Proof.
  intros Hu. unfold miniapp_list. rewrite with_tree_eq. unfold scan_prefix.
  destruct (tree_iter_view (db_view (app_db st) "miniapp_storage")) as (rows & -> & Hp). cbn [mbind Res_bind].
  eexists. split; [reflexivity|]. rewrite sort_by_perm. unfold own_keys. rewrite <- Hp.
  match goal with |- ?a ≡ₚ ?b => enough (a = b) as -> by done end. apply list_fmap_ext. intros i [k b] Hi. apply list_elem_of_lookup_2, list_elem_of_filter in Hi as [_ Hi].
  rewrite Hp in Hi. apply elem_of_map_to_list in Hi. cbn [fst]. unfold from_utf8_lossy.
  by rewrite utf8_lossy_valid, of_as_bytes by (by eapply Hu).
Qed.

Lemma miniapp_get_eq k st :
  (miniapp_get k st).2 = match kv st !! k with
                         | Some v => x ← decode_miniapp_value k v st; Ok (Some x)
                         | None => Ok None end.
Proof.
  unfold miniapp_get. erewrite ST_bind_Ok; [|reflexivity]. rewrite with_tree_eq. cbn [snd]. by rewrite tree_get_view.
Qed.

Lemma vlen_view st st' k :
  at_rest_key st' = at_rest_key st -> kv st' !! k = kv st !! k -> vlen st' k = vlen st k.
Proof. intros Ha Hk. unfold vlen. rewrite !miniapp_get_eq, Hk. unfold decode_miniapp_value. by rewrite Ha. Qed.

Lemma miniapp_set_eq st sk value nonce :
  utf8_valid (as_bytes value) = true -> length nonce = NONCE_LEN ->
  exists st' b, miniapp_set sk value nonce st = (st', Ok tt) /\ kv st' = <[sk := b]> (kv st)
    /\ at_rest_key st' = at_rest_key st /\ vlen st' sk = Z.of_nat (String.length value).
Proof.
  intros Hu Hn. destruct (encode_decode_value hkdf_total st sk value nonce Hu Hn) as (b & He & Hd).
  destruct (tree_insert_view (db_view (app_db st) "miniapp_storage") sk b) as (t' & Hi & Hv).
  exists (mkApp (db_put (app_db st) "miniapp_storage" t') (at_rest_key st)), b. split_and!; [|..|done|].
  - unfold miniapp_set. erewrite ST_bind_Ok; [|reflexivity]. apply upd_tree_ok. by rewrite He.
  - cbn [app_db]. by rewrite db_put_view, decide_True.
  - unfold vlen. rewrite miniapp_get_eq. cbn [app_db]. rewrite db_put_view, decide_True, Hv, lookup_insert_eq by done.
    change (decode_miniapp_value sk b _) with (decode_miniapp_value sk b st). by rewrite Hd.
Qed.

(** what the quota check establishes *)
Lemma quota_ok st sk len :
  kv_utf8 st -> starts_with pfx sk = true ->
  forall s s', an_storage (br_node s) = st -> check_storage_quota bh sk len s = (s', Ok tt) ->
  an_storage (br_node s') = st
  /\ ((length (own_keys (kv st)) < MAX_KEYS_PER_APP)%nat \/ is_Some (kv st !! sk))
  /\ len + sumZ (vlen st) (own_keys (delete sk (kv st))) <= MAX_TOTAL_BYTES_PER_APP.
Proof.
  intros Hu Hp s s' Hst. unfold check_storage_quota.
  destruct (miniapp_list_own st Hu) as (keys & Hl & Hk).
  assert (on_node (on_storage (miniapp_list pfx)) s = (mkBridgeState (set_an_storage st (br_node s)) (br_sessions s) (br_limits s) (br_broadcasts s), Ok keys)) as E.
  { unfold on_node, on_storage. by rewrite Hst, Hl. }
  rewrite (ST_bind_Ok _ _ _ _ _ E). destruct (_ && _) eqn:Eb; [done|]. erewrite ST_bind_Ok; [|reflexivity].
  destruct (MAX_TOTAL_BYTES_PER_APP <? _) eqn:Et; [done|]. intros [= <-]. split_and!; [done| |].
  - destruct (bool_decide (sk ∈ keys)) eqn:Eik.
    + right. apply bool_decide_eq_true in Eik. rewrite Hk in Eik. unfold own_keys in Eik.
      apply list_elem_of_fmap in Eik as ([k b] & -> & Hin). apply list_elem_of_filter in Hin as [_ Hin].
      apply elem_of_map_to_list in Hin. eauto.
    + left. rewrite <- Hk. cbn [andb negb] in Eb. by apply Nat.leb_gt in Eb.
  - apply Z.ltb_ge in Et. rewrite sum_values_eq in Et. cbn [br_node an_storage set_an_storage] in Et.
    rewrite Hk, (own_keys_split sk _ Hp), sumZ_app in Et.
    rewrite (sumZ_ext (fun k => if decide (k = sk) then 0 else vlen st k) (vlen st) (own_keys (delete sk (kv st)))) in Et.
    + destruct (decide (is_Some (kv st !! sk))); cbn in Et; rewrite ?decide_True in Et by done; lia.
    + intros k Hin. rewrite decide_False; [done|]. intros ->. by apply own_keys_delete in Hin.
Qed.

Lemma random_eq s s' nonce :
  on_node (a_random NONCE_LEN) s = (s', Ok nonce) ->
  an_storage (br_node s') = an_storage (br_node s) /\ length nonce = NONCE_LEN.
Proof.
  unfold on_node, a_random. generalize NONCE_LEN as k. intros k [= <- <-]. split; [done|].
  rewrite length_take, length_app, length_replicate. lia.
Qed.

(** C29. The storage quota: a [storage.set] that succeeds adds a key only when the
    app held fewer than 256 before, so that it leaves at most 256 keys, or no
    more than there were, and whatever was stored before it leaves at most
    256 KiB of values, as the app reads them.  Keys and values are UTF-8, as Rust
    strings are. *)
Theorem storage_quota_enforced args s s' v value :
  storage_set bh args s = (s', Ok v) -> arg_str args "value" = Some value -> utf8_valid (as_bytes value) = true ->
  kv_utf8 (an_storage (br_node s)) ->
  let before := length (own_keys (kv (an_storage (br_node s)))) in
  let after := length (own_keys (kv (an_storage (br_node s')))) in
  (after <= before \/ after = S before /\ before < MAX_KEYS_PER_APP)%nat
  /\ used_bytes (an_storage (br_node s')) <= MAX_TOTAL_BYTES_PER_APP.
Proof.
  intros Hs Hval Hu Hk. cbv zeta. unfold storage_set, require_permission in Hs. case_decide; [|done].
  apply ST_bind_inv in Hs as (s1 & [] & [= <-] & Hs). apply ST_bind_inv in Hs as (s1 & key & E1 & Hs).
  assert (s1 = s) as -> by (unfold need in E1; by destruct (arg_str args "key"); injection E1).
  rewrite Hval in Hs. apply ST_bind_inv in Hs as (s1 & val & [= <- <-] & Hs).
  apply ST_bind_inv in Hs as (s1 & [] & [= <- _] & Hs). apply ST_bind_inv in Hs as (s1 & [] & [= <- _] & Hs).
  cbv zeta in Hs. apply ST_bind_inv in Hs as (s1 & [] & Hq & Hs).
  destruct (quota_ok _ _ _ Hk (scoped_key_own bh key) _ _ eq_refl Hq) as (Hst & Hcount & Hsum).
  apply ST_bind_inv in Hs as (s2 & nonce & Hn & Hs). apply ST_bind_inv in Hs as (s3 & [] & Hset & [= <- _]).
  destruct (random_eq _ _ _ Hn) as [Hs2 Hln].
  destruct (miniapp_set_eq (an_storage (br_node s)) (scoped_key bh key) value nonce Hu Hln) as (st' & b & Hm & Hkv & Har & Hv).
  unfold on_node, on_storage in Hset. rewrite Hs2, Hst, Hm in Hset. injection Hset as <-.
  cbn [br_node an_storage set_an_storage]. unfold used_bytes. rewrite Hkv, own_keys_insert by apply scoped_key_own.
  split.
  - cbn [length]. rewrite (own_keys_split (scoped_key bh key)), length_app in Hcount by apply scoped_key_own.
    rewrite (own_keys_split (scoped_key bh key) (kv (an_storage (br_node s)))), length_app by apply scoped_key_own.
    unfold MAX_KEYS_PER_APP in *. destruct (decide (is_Some (kv (an_storage (br_node s)) !! scoped_key bh key))) as [Hsome|Hsome].
    + left. cbn [length]. lia.
    + right. destruct Hcount as [Hcount|?]; [|done]. cbn [length] in *. lia.
  - cbn [sumZ foldr]. fold (sumZ (vlen st') (own_keys (delete (scoped_key bh key) (kv (an_storage (br_node s)))))). rewrite Hv.
    rewrite (sumZ_ext (vlen st') (vlen (an_storage (br_node s)))); [done|]. intros k Hin. apply vlen_view; [done|].
    rewrite Hkv, lookup_insert_ne; [done|]. intros <-. by apply own_keys_delete in Hin.
Qed.
End quota.
