(* ===== verification/RelayClient.v ===== *)
(** * Talking to the public relay

    [mycelium-core/src/relay_status.rs] and [rendezvous.rs], the HTTP clients of
    the relay of [Relay.v], with the pages the relay serves; the monitor of
    [mycelium-node/src/connectivity.rs]; and the process of the relay.  The HTTP library is a parameter: the
    body a request returns, or an error. *)

From S2P Require Import Prelude External Text Host Wire Bridge Relay E2E AtRest Libp2p.

Open Scope Z_scope.

(** [ureq]: a response parsed as JSON, and the outcome of a post *)
Class Http := {
  http_get_json : string -> anyhow JValue;
  http_post_json : string -> JValue -> anyhow unit;
}.

Definition DEFAULT_RELAY_HOST : string := "mycelium-relay.fly.dev".

Record RelayStatus := mkRelayStatus {
  rs_online : bool;
  rs_status : string;
  rs_connections : Z;
  rs_peer_id : option string;
}.

Definition relay_offline : RelayStatus := mkRelayStatus false "offline" 0 None.

(** [host.or(env).unwrap_or(DEFAULT)] *)
Definition relay_host (env host : option string) : string :=
  match host with Some h => h | None => default DEFAULT_RELAY_HOST env end.

Definition read_status (body : JValue) : RelayStatus :=
  let status := default "unknown"%string (jas_str (jget body "status")) in
  mkRelayStatus (bool_decide (status = "ok"%string)) status (default 0 (json_as_u64 (jget body "connections")))
    (jas_str (jget body "peer_id")).

(** [RendezvousResponse]: an object, or the sequence of its fields, whose peers
    are all strings *)
Definition string_items (v : JValue) : anyhow (list string) :=
  match v with
  | JArr items =>
      match mapM jas_str items with Some l => Ok l | None => Err "invalid type, expected a string"%string end
  | _ => Err "invalid type, expected a sequence"%string
  end.
Definition read_rendezvous (body : JValue) : anyhow (list string) :=
  match body with
  | JObj _ => string_items (jget body "peers")
  | JArr [v] => string_items v
  | _ => Err "invalid type, expected struct RendezvousResponse"%string
  end.

Section client.
Context `{H : Http}.

Definition fetch_relay_status (host : option string) : RelayStatus :=
  match http_get_json ("https://" +:+ default DEFAULT_RELAY_HOST host +:+ "/") with
  | Err _ => relay_offline
  | Ok body => read_status body
  end.

Definition fetch_relay_rendezvous (env host : option string) : list string :=
  match http_get_json ("https://" +:+ relay_host env host +:+ "/rendezvous") with
  | Err _ => []
  | Ok body => match read_rendezvous body with Ok peers => peers | Err _ => [] end
  end.

Definition registration_url (env host : option string) (register : bool) : string :=
  ("https://" +:+ relay_host env host +:+ "/" +:+ (if register then "rendezvous/register" else "rendezvous/unregister"))%string.

(** [RegisterBody] *)
Definition registration_body (peer_id : string) : JValue := JObj [("peer_id"%string, JStr peer_id)].

(** the result is only logged *)
Definition set_relay_rendezvous_registration (env host : option string) (peer_id : string) (register : bool) : anyhow unit :=
  http_post_json (registration_url env host register) (registration_body peer_id).
End client.

(** ** The pages of the relay *)

Definition status_json (peer_id version : string) (uptime : Z) (s : StatusState) : JValue :=
  let p := status s in
  (JObj [("status", JStr "ok"); ("peer_id", JStr peer_id); ("connections", JNum (pg_connections p));
         ("unique_peers", JNum (Z.of_nat (pg_unique p))); ("reachable_peers", JNum (Z.of_nat (pg_reachable p)));
         ("reservations", JNum (pg_reservations p)); ("uptime_secs", JNum uptime); ("version", JStr version)])%string.

Definition rendezvous_json (s : StatusState) : JValue := JObj [("peers"%string, JArr (JStr <$> rendezvous s))].

(** ** The relay as a server

    The routes of [mycelium-relay/src/main.rs]; the JSON extractor refuses a body
    that is not a [RendezvousPeerBody] before the handler runs. *)

Inductive HttpRequest := HGet (path : string) | HPost (path : string) (body : JValue).
Inductive HttpReply := HJson (v : JValue) | HText (t : string) | HCode (c : StatusCode) | HRejected | HNotFound.

(** serde takes an object with the field, or the sequence of the fields *)
Definition peer_body (body : JValue) : option string :=
  match body with
  | JObj _ => jas_str (jget body "peer_id")
  | JArr [v] => jas_str v
  | _ => None
  end.

Definition with_peer (f : string -> StatusState -> StatusState * StatusCode) (body : JValue) (s : StatusState) :
    StatusState * HttpReply :=
  match peer_body body with
  | Some p => let '(s', c) := f p s in (s', HCode c)
  | None => (s, HRejected)
  end.

Definition relay_serve (peer_id version : string) (uptime : Z) (r : HttpRequest) (s : StatusState) : StatusState * HttpReply :=
  match r with
  | HGet path =>
      (s, if decide (path = "/"%string) then HJson (status_json peer_id version uptime s) else
          if decide (path = "/health"%string) then HText "ok" else
          if decide (path = "/rendezvous"%string) then HJson (rendezvous_json s) else HNotFound)
  | HPost path body =>
      if decide (path = "/rendezvous/register"%string) then with_peer rendezvous_register body s else
      if decide (path = "/rendezvous/unregister"%string) then with_peer rendezvous_unregister body s else (s, HNotFound)
  end.

(** ** The connectivity monitor *)

Definition probe_mode (reachable : bool) : ConnectivityMode := if reachable then Internet else MeshOnly.

(** one round: the new mode, and what is sent to the watchers *)
Definition monitor_round (current : ConnectivityMode) (reachable : bool) : ConnectivityMode * list ConnectivityMode :=
  let new_mode := probe_mode reachable in
  if decide (new_mode ≠ current) then (new_mode, [new_mode]) else (current, []).

Fixpoint monitor (current : ConnectivityMode) (probes : list bool) : ConnectivityMode * list ConnectivityMode :=
  match probes with
  | [] => (current, [])
  | r :: probes =>
      let '(c, sent) := monitor_round current r in
      let '(c', rest) := monitor c probes in (c', sent ++ rest)
  end.

Definition monitor_new : ConnectivityMode := Internet.

(** ** Theorems *)

Lemma mapM_strings (l : list string) : mapM jas_str (JStr <$> l) = Some l.
Proof. induction l as [|x l IH]; [done|]. cbn. by rewrite IH. Qed.

Lemma as_u64_num (z : Z) : in_u 64 z -> json_as_u64 (JNum z) = Some z.
Proof. intros H. unfold json_as_u64. by rewrite decide_True. Qed.

(** ** Client and relay together *)
Section relay_net.
Variables (h peer_id version : string) (uptime : Z).

(** the path of a request to the relay at [h] *)
Definition relay_path (url : string) : option string := strip_prefix ("https://" +:+ h) url.

(** a network that reaches the relay in state [s]; a status other than success is
    an error of the client library *)
Definition relay_net (s : StatusState) : Http := {|
  http_get_json url :=
    match relay_path url with
    | Some path => match (relay_serve peer_id version uptime (HGet path) s).2 with HJson v => Ok v | _ => Err "status"%string end
    | None => Err "dns"%string
    end;
  http_post_json url body :=
    match relay_path url with
    | Some path =>
        match (relay_serve peer_id version uptime (HPost path body) s).2 with HCode NO_CONTENT => Ok tt | _ => Err "status"%string end
    | None => Err "dns"%string
    end;
|}.

(** the relay after a post *)
Definition relay_after (url : string) (body : JValue) (s : StatusState) : StatusState :=
  match relay_path url with
  | Some path => (relay_serve peer_id version uptime (HPost path body) s).1
  | None => s
  end.

Lemma relay_path_app p : relay_path ("https://" +:+ h +:+ p) = Some p.
Proof. unfold relay_path. by rewrite <- str_append_assoc, strip_prefix_app. Qed.

Lemma fetch_served env host s : relay_host env host = h -> fetch_relay_rendezvous (H := relay_net s) env host = rendezvous s.
Proof.
  intros Hh. unfold fetch_relay_rendezvous. rewrite Hh. cbn [http_get_json relay_net]. rewrite relay_path_app.
  cbn [relay_serve snd]. do 2 rewrite decide_False by done. rewrite decide_True by done.
  unfold read_rendezvous, rendezvous_json. change (jget _ "peers") with (JArr (JStr <$> rendezvous s)).
  unfold string_items. by rewrite mapM_strings.
Qed.

Lemma registered_state env host p register s :
  relay_host env host = h ->
  relay_after (registration_url env host register) (registration_body p) s
  = ((if register then rendezvous_register else rendezvous_unregister) p s).1.
Proof.
  intros Hh. unfold relay_after, registration_url. rewrite Hh.
  replace ("/" +:+ (if register then "rendezvous/register" else "rendezvous/unregister"))%string
    with (if register then "/rendezvous/register" else "/rendezvous/unregister")%string by by destruct register.
  rewrite relay_path_app. destruct register; cbv iota; cbn [relay_serve].
  - rewrite decide_True by done. unfold with_peer. change (peer_body _) with (Some p). cbn. by destruct (rendezvous_register p s).
  - rewrite decide_False, decide_True by done. done.
Qed.

Lemma elem_rendezvous q s : q ∈ rendezvous s <-> q ∈ reserved_peers s /\ q ∈ rendezvous_opt_in s.
Proof. unfold rendezvous. rewrite list_elem_of_filter, elem_of_elements. tauto. Qed.

(** Rendezvous end to end, between the clients and the routes of the relay: the
    status client reports the relay online with its peer id and its connection
    count; once a peer with a reservation has registered, every peer that asks
    finds it in the list, until it unregisters; and neither call changes the
    listing of anybody else. *)
Theorem rendezvous_end_to_end (env host : option string) (p : string) (s : StatusState) :
  relay_host env host = h -> in_u 64 (connections s) -> p ≠ ""%string -> p ∈ reserved_peers s ->
  let after register := relay_after (registration_url env host register) (registration_body p) s in
  let listed register := fetch_relay_rendezvous (H := relay_net (after register)) env host in
  fetch_relay_status (H := relay_net s) (Some h) = mkRelayStatus true "ok" (connections s) (Some peer_id)
  /\ set_relay_rendezvous_registration (H := relay_net s) env host p true = Ok tt
  /\ p ∈ listed true /\ (p ∉ listed false)
  /\ forall q register, q ≠ p -> (q ∈ listed register <-> q ∈ fetch_relay_rendezvous (H := relay_net s) env host).
Proof.
  intros Hh Hc Hp Hr. cbv zeta. split_and!.
  - unfold fetch_relay_status. cbn [http_get_json relay_net default]. rewrite relay_path_app. cbn [relay_serve snd].
    rewrite decide_True by done. unfold read_status. change (jget _ "connections") with (JNum (connections s)). by rewrite as_u64_num.
  - unfold set_relay_rendezvous_registration, registration_url. rewrite Hh.
    change ("/" +:+ "rendezvous/register")%string with "/rendezvous/register"%string. cbn [http_post_json relay_net].
    rewrite relay_path_app. cbn [relay_serve]. rewrite decide_True by done. unfold with_peer. change (peer_body _) with (Some p).
    unfold rendezvous_register. by rewrite decide_False by done.
  - rewrite fetch_served, registered_state, elem_rendezvous by done. unfold rendezvous_register. rewrite decide_False by done. set_solver.
  - rewrite fetch_served, registered_state, elem_rendezvous by done. set_solver.
  - intros q register Hq. rewrite !fetch_served, registered_state, !elem_rendezvous by done.
    destruct register; unfold rendezvous_register; [rewrite decide_False by done|]; set_solver.
Qed.
End relay_net.

(** when the relay is unreachable the clients report it offline, with nobody *)
Theorem relay_unreachable (get : string -> anyhow JValue) (post : string -> JValue -> anyhow unit) (env host : option string) :
  (forall u, exists e, get u = Err e) ->
  let H := {| http_get_json := get; http_post_json := post |} in
  fetch_relay_status (H := H) host = relay_offline /\ fetch_relay_rendezvous (H := H) env host = [].
Proof.
  intros Hf H. split; unfold fetch_relay_status, fetch_relay_rendezvous; cbn.
  - by destruct (Hf ("https://" +:+ default DEFAULT_RELAY_HOST host +:+ "/")%string) as [e ->].
  - by destruct (Hf ("https://" +:+ relay_host env host +:+ "/rendezvous")%string) as [e ->].
Qed.

(** no two equal modes in a row, starting from [c] *)
Fixpoint alternates (c : ConnectivityMode) (l : list ConnectivityMode) : Prop :=
  match l with
  | [] => True
  | m :: l => m ≠ c /\ alternates m l
  end.

Lemma last_default {A} (a d : A) (l : list A) : List.last (a :: l) d = List.last l a.
Proof.
  revert a d. induction l as [|x l IH]; intros a d; [done|].
  change (List.last (a :: x :: l) d) with (List.last (x :: l) d). by rewrite !IH.
Qed.

(** The monitor tells its watchers of changes only, and the last mode it told
    is that of the last probe. *)
Theorem monitor_reports_changes (current : ConnectivityMode) (probes : list bool) :
  alternates current (monitor current probes).2
  /\ List.last (monitor current probes).2 current = (monitor current probes).1
  /\ (forall r, last probes = Some r -> (monitor current probes).1 = probe_mode r).
Proof.
  revert current. induction probes as [|r probes IH]; intros c; [done|].
  assert (forall r', last (r :: probes) = Some r' -> probes = [] /\ r' = r \/ last probes = Some r') as Hlast.
  { intros r'. destruct probes; [|by right]. cbn. intros [= ->]. by left. }
  cbn [monitor]. unfold monitor_round. case_decide as Hne.
  - destruct (IH (probe_mode r)) as (H1 & H2 & H3). destruct (monitor (probe_mode r) probes) as [c' rest] eqn:E. cbn in *.
    split; [done|split; [by etrans; [apply last_default|]|]]. intros r' [[-> ->]|Hr]%Hlast; [injection E as <- _; done|by apply H3].
  - destruct (IH c) as (H1 & H2 & H3). destruct (monitor c probes) as [c' rest] eqn:E. cbn in *.
    split_and!; [done|done|]. intros r' [[-> ->]|Hr]%Hlast; [injection E as <- _; done|by apply H3].
Qed.

(** ** The relay process

    [main] of [mycelium-relay/src/main.rs] around the handlers of [Relay.v] and
    [RelayClient.v]: the arguments, the identity, the status server and the event
    loop, which share one state.  Building the swarm, listening and parsing the
    addresses are arguments that may fail. *)


Record Args := mkArgs {
  listen : string;
  listen_quic : string;
  keypair_path : option string;
  status_port : Z;
}.

Definition args_default : Args := mkArgs "/ip4/0.0.0.0/tcp/4001" "/ip4/0.0.0.0/udp/4001/quic-v1" None 8080.

(** [std::env::var] *)
Inductive EnvVar := VarSet (s : string) | VarNotPresent | VarNotUnicode (e : string).

(** the limits the circuit relay is built with, durations in seconds *)
Record RelayConfig := mkRelayConfig {
  max_reservations : Z;
  max_reservations_per_peer : Z;
  reservation_duration : Z;
  max_circuits : Z;
  max_circuits_per_peer : Z;
  max_circuit_duration : Z;
  max_circuit_bytes : Z;
}.

Definition relay_config : RelayConfig := mkRelayConfig 1024 4 3600 1024 16 300 (10 * 1024 * 1024).

Definition KAD_PROTOCOL : string := "/mycelium/kad/1.0.0".
Definition KAD_QUERY_TIMEOUT : Z := 60.
Definition IDENTIFY_PROTOCOL : string := "/mycelium/1.0.0".

(** [RelayBehaviour]: what the swarm runs with *)
Record RelayBehaviour := mkBehaviour {
  rb_peer : string;
  rb_relay : RelayConfig;
  rb_identify : string;
  rb_kad_protocol : string;
  rb_kad_query_timeout : Z;
  rb_kad_mode : KadMode;
}.

Definition relay_behaviour (local_peer_id : string) : RelayBehaviour :=
  mkBehaviour local_peer_id relay_config IDENTIFY_PROTOCOL KAD_PROTOCOL KAD_QUERY_TIMEOUT KadServer.

Record RelayProc := mkProc {
  rp_peer_id : string;
  rp_version : string;
  rp_started : Z;
  rp_behaviour : RelayBehaviour;
  rp_listening : list string;
  rp_state : StatusState;
}.

Definition set_rp_state (v : StatusState) (p : RelayProc) : RelayProc :=
  mkProc (rp_peer_id p) (rp_version p) (rp_started p) (rp_behaviour p) (rp_listening p) v.

Section start.
Context `{V : VaultHost} `{DK : Disk} `{KR : Keyring} `{P : E2EPrims}.
Variables (build_swarm : RelayBehaviour -> anyhow unit) (parse_addr : string -> anyhow string) (listen_on : string -> anyhow unit).

Definition load_or_create_keypair_from_env (storage_key : EnvVar) (path : string) : ST VaultWorld Keypair :=
  key ← match storage_key with
        | VarSet hex => k ← st_lift (parse_storage_key_hex hex); mret (Some k)
        | VarNotPresent => mret None
        | VarNotUnicode e => st_err e
        end;
  load_or_create_keypair path key.

Definition listen_at (a : string) : ST VaultWorld string :=
  a ← st_lift (parse_addr a);
  _ ← st_lift (listen_on a);
  mret a.

Definition relay_main (args : Args) (storage_key : EnvVar) (version : string) (now : Z) : ST VaultWorld RelayProc :=
  let path := default ".mycelium-relay/identity"%string (keypair_path args) in
  key ← load_or_create_keypair_from_env storage_key path;
  let local_peer_id := peer_string (pk_peer_id (kp_public key)) in
  let behaviour := relay_behaviour local_peer_id in
  _ ← st_lift (build_swarm behaviour);
  a ← listen_at (listen args);
  q ← listen_at (listen_quic args);
  mret (mkProc local_peer_id version now behaviour [a; q] status_new).

(** the identity is that of the key file, whose storage key must be readable *)
Lemma relay_main_inv args sk version now w w' p : relay_main args sk version now w = (w', Ok p) ->
  exists w1 kp, load_or_create_keypair_from_env sk (default ".mycelium-relay/identity"%string (keypair_path args)) w = (w1, Ok kp)
    /\ rp_peer_id p = peer_string (pk_peer_id (kp_public kp)) /\ rp_behaviour p = relay_behaviour (rp_peer_id p)
    /\ rp_state p = status_new /\ rp_started p = now.
Proof.
  intros H. apply ST_bind_inv in H as (w1 & kp & Hk & H). apply ST_bind_inv in H as (w2 & [] & _ & H).
  apply ST_bind_inv in H as (w3 & a & _ & H). apply ST_bind_inv in H as (w4 & q & _ & H). injection H as _ <-.
  by exists w1, kp.
Qed.

(** A storage key that is there but cannot be used stops the start before the key
    file is touched. *)
Theorem bad_storage_key_touches_nothing (args : Args) (sk : EnvVar) (version : string) (now : Z) (w : VaultWorld) :
  match sk with VarSet hex => is_ok (parse_storage_key_hex hex) = false | VarNotUnicode _ => True | VarNotPresent => False end ->
  exists e, relay_main args sk version now w = (w, Err e).
Proof.
  intros Hs. unfold relay_main, load_or_create_keypair_from_env. destruct sk as [hex| |e]; [|done|].
  - destruct (parse_storage_key_hex hex) as [k|e] eqn:E; [done|]. exists e. unfold st_lift, mbind, ST_bind. by rewrite ?E.
  - by exists e.
Qed.
End start.

(** ** The process at work *)

Inductive RelayInput := RNet (ev : RelayEvent) | RHttp (now : Z) (r : HttpRequest).

(** [started.elapsed().as_secs()] *)
Definition uptime (now : Z) (p : RelayProc) : Z := now -sat rp_started p.

Definition relay_proc_step (p : RelayProc) (i : RelayInput) : RelayProc * option HttpReply :=
  match i with
  | RNet ev => (set_rp_state (on_event ev (rp_state p)) p, None)
  | RHttp now r =>
      let '(s, reply) := relay_serve (rp_peer_id p) (rp_version p) (uptime now p) r (rp_state p) in
      (set_rp_state s p, Some reply)
  end.

(** the network allows the step, as in [net_step]; requests come at any time *)
Definition input_allowed (o : open_conns) (i : RelayInput) (o' : open_conns) : Prop :=
  match i with RNet ev => net_step o (SEvent ev) o' | RHttp _ _ => o' = o end.

Inductive proc_run (p0 : RelayProc) : open_conns -> RelayProc -> Prop :=
| proc_start : proc_run p0 ∅ p0
| proc_step o p i o' : proc_run p0 o p -> input_allowed o i o' -> proc_run p0 o' (relay_proc_step p i).1.

(** a request is one of the handlers, or leaves the state alone *)
Lemma served_state peer version up r s :
  let s' := (relay_serve peer version up r s).1 in
  s' = s \/ exists i, s' = relay_step i s /\ forall o, net_step o i o.
Proof.
  cbv zeta. destruct r as [path|path body]; cbn [relay_serve]; [by left|].
  repeat case_decide; [| |by left]; unfold with_peer; (destruct (peer_body body) as [q|]; [right|by left]).
  - exists (SRegister q). cbn [relay_step]. destruct (rendezvous_register q s). split; [done|constructor].
  - exists (SUnregister q). split; [done|constructor].
Qed.

Lemma proc_refines p0 o p : rp_state p0 = status_new -> proc_run p0 o p -> relay_run o (rp_state p)
  /\ rp_peer_id p = rp_peer_id p0 /\ rp_version p = rp_version p0 /\ rp_started p = rp_started p0.
Proof.
  intros Hs. induction 1 as [|o p i o' _ (IH & IH1 & IH2 & IH3) Hi]; [by rewrite Hs; split; [constructor|]|].
  destruct i as [ev|now r]; cbn in *; [split; [by eapply (run_step o _ (SEvent ev))|done]|]. subst o'.
  pose proof (served_state (rp_peer_id p) (rp_version p) (uptime now p) r (rp_state p)) as Hserve. cbv zeta in Hserve.
  destruct (relay_serve _ _ _ _ _) as [s' reply]. cbn in *. split; [|done]. destruct Hserve as [->|(i & -> & Hn)]; [done|].
  by eapply run_step.
Qed.

(** The relay process answers truthfully: whatever network events and requests come
    in whatever order after a start that succeeds, the status page carries the peer
    id of the key file and the number of connections that are open, and every peer
    on the rendezvous page has opted in, holds a reservation and has an open
    connection; no request changes what the network events recorded. *)
Theorem relay_process_sound `{V : VaultHost} `{DK : Disk} `{KR : Keyring} `{P : E2EPrims} build parse listen_on
    (args : Args) (sk : EnvVar) (version : string) (t0 now : Z) (w w' : VaultWorld) (p0 p : RelayProc) (o : open_conns) :
  relay_main build parse listen_on args sk version t0 w = (w', Ok p0) -> proc_run p0 o p ->
  (exists v, (relay_proc_step p (RHttp now (HGet "/"))).2 = Some (HJson v)
     /\ jget v "peer_id" = JStr (rp_peer_id p0) /\ jget v "connections" = JNum (total_conns o))
  /\ (exists l, (relay_proc_step p (RHttp now (HGet "/rendezvous"))).2 = Some (HJson (JObj [("peers"%string, JArr (JStr <$> l))]))
     /\ NoDup l /\ forall q, q ∈ l -> q ≠ ""%string /\ (0 < conns_of o q)%nat)
  /\ (exists w1 kp, load_or_create_keypair_from_env sk (default ".mycelium-relay/identity"%string (keypair_path args)) w = (w1, Ok kp)
     /\ rp_peer_id p0 = peer_string (pk_peer_id (kp_public kp))).
Proof.
  intros (w1 & kp & Hk & Hid & _ & Hs & _)%relay_main_inv Hr. destruct (proc_refines p0 o p Hs Hr) as (Hrun & Hpid & _).
  apply relay_inv_run in Hrun as [Hc _ _ Hres Hname]. split_and!; [| |by exists w1, kp].
  - eexists. split; [done|]. cbn. by rewrite Hpid, Hc.
  - exists (rendezvous (rp_state p)). split; [done|]. split; [apply NoDup_filter, NoDup_elements|].
    intros q [Ho Hq]%elem_of_rendezvous. split; [by intros ->|by apply Hres].
Qed.
