(* ===== verification/Rendezvous.v ===== *)
(** * Discovery over the relay

    The composition of three components: the rendezvous task that
    [NodeRunner::run] spawns ([mycelium-node/src/node.rs]) with its channel of
    eight lists, the registrations that [SetRendezvousEnabled] leaves to the
    blocking pool, the HTTP clients of [RelayClient.v] and the relay of [Relay.v].
    The task, the run loop, the pool and the relay interleave freely: a run is a
    sequence of their steps.  A request that does not reach the relay fails. *)

From S2P Require Import Prelude External Text Bootstrap Wire E2E Bloom IngestGuard Security Storage Forwarding.
From S2P Require Import Bridge Relay RelayClient Libp2p NodeData Node Libp2pNode NodeStart.

Open Scope Z_scope.

(** ** Who changes the flag *)

Section flag.
Context `{C : Crypto} `{T : MeshTransport} `{M : MessageStore} `{H : !NodeHost} `{HI : IdHash}.
Context `{P : E2EPrims} `{F : FileSys} `{BW : Bincode WireMessage}.
Variable cfg : NodeConf.

Definition keeps_flag {A} (m : ST NodeRunner A) : Prop := forall s, rendezvous_enabled (m s).1 = rendezvous_enabled s.

Lemma flag_bind {A B} (m : ST NodeRunner A) (f : A -> ST NodeRunner B) :
  keeps_flag m -> (forall a, keeps_flag (f a)) -> keeps_flag (m ≫= f).
Proof.
  intros Hm Hf s. unfold mbind, ST_bind. specialize (Hm s). destruct (m s) as [s1 [a|e]]; [|done]. by rewrite Hf.
Qed.
Lemma flag_warn {A} (m : ST NodeRunner A) : keeps_flag m -> keeps_flag (warn_err m).
Proof. intros Hm s. apply Hm. Qed.
Lemma flag_same {A} (m : ST NodeRunner A) : (forall s, (m s).1 = s) -> keeps_flag m.
Proof. intros Hm s. by rewrite Hm. Qed.
Lemma flag_net {A} (f : Net -> Net * anyhow A) : keeps_flag (on_net f).
Proof. intros s. unfold on_net. by destruct (f (net s)). Qed.
Lemma flag_guard {A} (f : IngestGuard -> IngestGuard * A) : keeps_flag (on_guard f).
Proof. intros s. unfold on_guard. by destruct (f (ingest_guard s)). Qed.
Lemma flag_ingest m v : keeps_flag (node_ingest m v).
Proof. intros s. unfold node_ingest, now_ms, prim, mbind, ST_bind. cbn. by repeat case_match. Qed.
Lemma flag_rotate : keeps_flag maybe_rotate.
Proof. intros s. unfold maybe_rotate. by case_decide. Qed.

(** [flag_tac] walks through a handler *)
Ltac flag_tac := repeat match goal with
  | |- keeps_flag (_ ≫= _) => apply flag_bind; [|intros ?]
  | |- keeps_flag (warn_err _) => apply flag_warn
  | |- keeps_flag (on_net _) => apply flag_net
  | |- keeps_flag (on_guard _) => apply flag_guard
  | |- keeps_flag (node_ingest _ _) => apply flag_ingest
  | |- keeps_flag maybe_rotate => apply flag_rotate
  | |- keeps_flag (if ?b then _ else _) => destruct b
  | |- keeps_flag (match ?x with _ => _ end) => destruct x
  | H : keeps_flag ?m |- keeps_flag ?m => exact H
  | |- keeps_flag (mret _) => by intros ?
  | |- keeps_flag st_get => by intros ?
  | |- keeps_flag now_ms => by intros ?
  | |- keeps_flag known => by intros ?
  | |- keeps_flag (st_lift _) => by intros ?
  | |- keeps_flag (st_err _) => by intros ?
  | |- keeps_flag (bump _ _) => by intros ?
  | |- keeps_flag (deliver _) => by intros ?
  | |- keeps_flag (st_modify _) => intros ?; unfold st_modify; cbn; by repeat case_match
  end.

Lemma flag_gc : keeps_flag gc_store.
Proof. intros s. unfold gc_store, now_ms, prim, mbind, ST_bind. cbn. by destruct (ms_gc_expired _ _). Qed.
Lemma flag_enqueue to m : keeps_flag (enqueue cfg to m).
Proof. unfold enqueue, evict_one, evict_expired. flag_tac. Qed.
Lemma flag_enqueue_all l : keeps_flag (enqueue_all cfg l).
Proof. induction l as [|[to m] l IH]; cbn [enqueue_all]; [done|]. apply flag_bind; [apply flag_enqueue|done]. Qed.
Lemma flag_broadcast l body p : keeps_flag (broadcast_to cfg l body p).
Proof. induction l as [|to l IH]; cbn [broadcast_to]; [done|]. flag_tac. apply flag_enqueue. Qed.
Lemma flag_send_each l m : keeps_flag (send_each l m).
Proof. induction l as [|to l IH]; cbn [send_each]; [done|]. unfold send_direct. flag_tac. Qed.
Lemma flag_bloom peer : keeps_flag (send_sync_bloom peer).
Proof. unfold send_sync_bloom, own_ids, send_bloom, send_direct. flag_tac. Qed.
Lemma flag_sync_peers l : keeps_flag (sync_peers l).
Proof. induction l as [|to l IH]; cbn [sync_peers]; [done|]. apply flag_bind; [apply flag_bloom|done]. Qed.
Lemma flag_missing ids : keeps_flag (missing_ids ids).
Proof. induction ids as [|id ids IH]; cbn [missing_ids]; flag_tac. Qed.
Lemma flag_load ids : keeps_flag (load_ids ids).
Proof. induction ids as [|id ids IH]; cbn [load_ids]; flag_tac. Qed.
Lemma flag_sync_data l : keeps_flag (handle_sync_data l).
Proof. induction l as [|m l IH]; cbn [handle_sync_data]; flag_tac. Qed.
Lemma flag_dial_remotes ks l : keeps_flag (dial_remotes cfg ks l).
Proof. induction l as [|r l IH]; cbn [dial_remotes]; flag_tac. Qed.
Lemma flag_forward n : keeps_flag (forward_loop n).
Proof.
  induction n as [|n IH]; cbn [forward_loop]; [done|]. apply flag_bind; [done|]. intros s. destruct (pending s); [done|].
  flag_tac. intros s'. unfold prim. pose proof (flag_net (net_send_direct (pm_to p) (Data (pm_message p))) s') as E.
  unfold send_direct. destruct (on_net _ s') as [s1 [[]|e]]; exact E.
Qed.
Lemma flag_gossip now from p body : keeps_flag (gossip_store now from p body).
Proof. unfold gossip_store, record_ingest_reject. flag_tac. Qed.
Lemma flag_strike p : keeps_flag (register_strike p).
Proof. unfold register_strike. flag_tac. Qed.
Lemma flag_route from m : keeps_flag (route_data cfg from m).
Proof. unfold route_data. flag_tac; (apply flag_enqueue_all || apply flag_enqueue). Qed.
Lemma flag_data from m : keeps_flag (handle_data cfg from m).
Proof.
  unfold handle_data, record_ingest_reject, drop_no_sig, drop_invalid_sig, drop_hops, reward_peer.
  flag_tac; try apply flag_strike; apply flag_route.
Qed.
Lemma flag_others from m : keeps_flag (forward_wire_to_others from m).
Proof. apply flag_bind; [done|]. intros l. apply flag_send_each. Qed.
Lemma flag_encrypted from f : keeps_flag (handle_encrypted_direct cfg from f).
Proof. unfold handle_encrypted_direct, drop_hops. flag_tac. apply flag_others. Qed.
Lemma flag_incoming from m : keeps_flag (handle_incoming_direct cfg from m).
Proof.
  unfold handle_incoming_direct. apply flag_bind; [unfold is_throttled; flag_tac|]. intros [|]; [flag_tac|].
  destruct (encrypted_gate from m) as [stop|] eqn:E.
  { revert E. unfold encrypted_gate, drop_no_sig, drop_invalid_sig. repeat case_match; intros [= <-]; flag_tac. }
  destruct m; try (apply flag_data || apply flag_encrypted || apply flag_others || apply flag_sync_data).
  - unfold handle_sync_bloom, own_ids, send_bloom, send_direct. flag_tac.
  - apply flag_bind; [apply flag_missing|]. intros l. unfold send_direct. flag_tac.
  - apply flag_bind; [apply flag_load|]. intros l. unfold send_direct. flag_tac.
  - unfold handle_scope_announce. cbv zeta. flag_tac.
  - unfold handle_peer_info. cbv zeta. flag_tac.
Qed.
Lemma flag_event ev : keeps_flag (handle_transport_event cfg ev).
Proof.
  unfold handle_transport_event, send_scope_announce, send_peer_info, send_direct, handle_scoped, record_ingest_reject.
  flag_tac; (apply flag_bloom || apply flag_incoming || apply flag_gossip).
Qed.
Lemma flag_command cmd : (forall b, cmd ≠ SetRendezvousEnabled b) -> keeps_flag (handle_command cfg cmd).
Proof.
  intros Hc. unfold handle_command, send_direct_internal, broadcast_scoped, send_direct.
  flag_tac; try (apply flag_gc || apply flag_enqueue || apply flag_enqueue_all || apply flag_broadcast). by destruct (Hc b).
Qed.

(** only the command changes it *)
Lemma flag_step i : (forall b, i ≠ InCommand (SetRendezvousEnabled b)) -> keeps_flag (node_step cfg i).
Proof.
  intros Hi. destruct i as [ev|cmd|ids| | | |]; cbn [node_step].
  - apply flag_event.
  - apply flag_command. intros b ->. by apply (Hi b).
  - apply flag_bind; [done|]. intros s. apply flag_dial_remotes.
  - unfold forward_once, evict_expired. flag_tac. apply flag_forward.
  - apply flag_bind; [done|]. intros l. apply flag_sync_peers.
  - apply flag_bind; [apply flag_gc|done].
  - flag_tac.
Qed.
End flag.

(** ** The parts and their steps *)

Section discovery.
Context `{C : Crypto} `{T : MeshTransport} `{M : MessageStore} `{H : !NodeHost} `{HI : IdHash}.
Context `{P : E2EPrims} `{F : FileSys} `{BW : Bincode WireMessage}.
Variable cfg : NodeConf.
(** the environment variable of the clients, and what the relay says of itself *)
Variables (env : option string) (relay_id version : string) (uptime : Z).
Abbreviation host := (relay_host env None).

(** where the task is in its round *)
Inductive Round := RWait | RRegister | RFetch | RSend (ids : list string) | REnded.

Record Discovery := mkDisc {
  ds_relay : StatusState;
  ds_node : NodeRunner;
  ds_running : bool;
  ds_round : Round;
  ds_chan : list (list string);
  ds_jobs : list bool;
}.

Definition RENDEZVOUS_CAP : nat := 8.

Definition http_down : Http := {| http_get_json _ := Err "unreachable"%string; http_post_json _ _ := Err "unreachable"%string |}.

(** the relay after the node registered or unregistered itself *)
Definition posted (reached register : bool) (s : StatusState) : StatusState :=
  if reached then relay_after host relay_id version uptime (registration_url env None register) (registration_body (local_peer_id cfg)) s
  else s.

Definition fetched (reached : bool) (s : StatusState) : list string :=
  fetch_relay_rendezvous (H := if reached then relay_net host relay_id version uptime s else http_down) env None.

Inductive DiscStep :=
| DTick
| DRegister (reached : bool)
| DFetch (reached : bool)
| DSend
| DRecv
| DInput (i : NodeInput)
| DJob (n : nat) (reached : bool)
| DRelay (i : RelayStep).

(** the loop body of the task, up to its next await *)
Definition round_step (x : DiscStep) (d : Discovery) : Discovery :=
  let at_round r := mkDisc (ds_relay d) (ds_node d) (ds_running d) r (ds_chan d) (ds_jobs d) in
  match x, ds_round d with
  | DTick, RWait => if rendezvous_enabled (ds_node d) then at_round RRegister else d
  | DRegister reached, RRegister =>
      mkDisc (posted reached true (ds_relay d)) (ds_node d) (ds_running d) RFetch (ds_chan d) (ds_jobs d)
  | DFetch reached, RFetch => at_round (RSend (fetched reached (ds_relay d)))
  | DSend, RSend ids =>
      if negb (ds_running d) then at_round REnded else
      if decide (length (ds_chan d) < RENDEZVOUS_CAP)%nat
      then mkDisc (ds_relay d) (ds_node d) (ds_running d) RWait (ds_chan d ++ [ids]) (ds_jobs d) else d
  | _, _ => d
  end.

(** one turn of the run loop; an error ends it and drops the receiver *)
Definition loop_turn (i : NodeInput) (chan : list (list string)) (jobs : list bool) (d : Discovery) : Discovery :=
  if ds_running d then
    let '(s, r) := node_step cfg i (ds_node d) in
    mkDisc (ds_relay d) s (is_ok r) (ds_round d) chan jobs
  else d.

(** [SetRendezvousEnabled] leaves the request to the blocking pool *)
Definition disc_step (d : Discovery) (x : DiscStep) : Discovery :=
  match x with
  | DTick | DRegister _ | DFetch _ | DSend => round_step x d
  | DRecv => match ds_chan d with ids :: rest => loop_turn (InRendezvous ids) rest (ds_jobs d) d | [] => d end
  | DInput (InRendezvous _) => d
  | DInput (InCommand (SetRendezvousEnabled b)) =>
      loop_turn (InCommand (SetRendezvousEnabled b)) (ds_chan d) (ds_jobs d ++ [b]) d
  | DInput i => loop_turn i (ds_chan d) (ds_jobs d) d
  | DJob n reached =>
      match ds_jobs d !! n with
      | Some b => mkDisc (posted reached b (ds_relay d)) (ds_node d) (ds_running d) (ds_round d) (ds_chan d) (delete n (ds_jobs d))
      | None => d
      end
  | DRelay i => mkDisc (relay_step i (ds_relay d)) (ds_node d) (ds_running d) (ds_round d) (ds_chan d) (ds_jobs d)
  end.

Definition disc_run (xs : list DiscStep) (d : Discovery) : Discovery := foldl disc_step d xs.

(** ** What the steps do to the flag and to the relay *)

Lemma posted_eq register s :
  posted true register s = ((if register then rendezvous_register else rendezvous_unregister) (local_peer_id cfg) s).1.
Proof. by apply registered_state. Qed.

Lemma fetched_eq s : fetched true s = rendezvous s.
Proof. by apply fetch_served. Qed.

Abbreviation opted d := (local_peer_id cfg ∈ rendezvous_opt_in (ds_relay d)).

Lemma posted_out reached s : local_peer_id cfg ∉ rendezvous_opt_in s -> local_peer_id cfg ∉ rendezvous_opt_in (posted reached false s).
Proof. destruct reached; [rewrite posted_eq; cbn; set_solver|done]. Qed.

Lemma loop_turn_relay i chan jobs d : ds_relay (loop_turn i chan jobs d) = ds_relay d.
Proof. unfold loop_turn. destruct (ds_running d); [|done]. by destruct (node_step _ _ _). Qed.
Lemma loop_turn_round i chan jobs d : ds_round (loop_turn i chan jobs d) = ds_round d.
Proof. unfold loop_turn. destruct (ds_running d); [|done]. by destruct (node_step _ _ _). Qed.
Lemma loop_turn_jobs i chan jobs d : ds_jobs (loop_turn i chan jobs d) = jobs \/ loop_turn i chan jobs d = d.
Proof. unfold loop_turn. destruct (ds_running d); [|by right]. left. by destruct (node_step _ _ _). Qed.
Lemma loop_turn_flag i chan jobs d : (forall b, i ≠ InCommand (SetRendezvousEnabled b)) ->
  rendezvous_enabled (ds_node (loop_turn i chan jobs d)) = rendezvous_enabled (ds_node d).
Proof.
  intros Hi. unfold loop_turn. destruct (ds_running d); [|done]. pose proof (flag_step cfg i Hi (ds_node d)) as E.
  by destruct (node_step _ _ _).
Qed.

(** ** Opting out *)

(** switched off, with no registration under way *)
Definition opted_out (d : Discovery) : Prop :=
  rendezvous_enabled (ds_node d) = false /\ ds_round d ≠ RRegister /\ true ∉ ds_jobs d.

(** nobody asks for a registration *)
Definition no_wish (x : DiscStep) : Prop :=
  x ≠ DInput (InCommand (SetRendezvousEnabled true)) /\ x ≠ DRelay (SRegister (local_peer_id cfg)).

Lemma turn_out i chan jobs d : (forall b, i ≠ InCommand (SetRendezvousEnabled b)) -> true ∉ jobs ->
  opted_out d -> opted_out (loop_turn i chan jobs d) /\ ds_relay (loop_turn i chan jobs d) = ds_relay d.
Proof.
  intros Hi Hj (H1 & H2 & H3). split; [|apply loop_turn_relay]. split_and!; [by rewrite loop_turn_flag|by rewrite loop_turn_round|].
  by destruct (loop_turn_jobs i chan jobs d) as [->| ->].
Qed.

Lemma command_out chan d : opted_out d ->
  let d' := loop_turn (InCommand (SetRendezvousEnabled false)) chan (ds_jobs d ++ [false]) d in
  opted_out d' /\ ds_relay d' = ds_relay d.
Proof.
  intros (H1 & H2 & H3) d'. split; [|apply loop_turn_relay]. split_and!; [|by unfold d'; rewrite loop_turn_round|].
  - unfold d', loop_turn. by destruct (ds_running d).
  - unfold d'. destruct (loop_turn_jobs (InCommand (SetRendezvousEnabled false)) chan (ds_jobs d ++ [false]) d) as [->| ->]; [|done].
    by rewrite elem_of_app, list_elem_of_singleton; intros [?|?].
Qed.

Lemma round_out x d : opted_out d -> opted_out (round_step x d) /\ ds_relay (round_step x d) = ds_relay d.
Proof.
  intros (H1 & H2 & H3). unfold round_step. destruct x, (ds_round d) eqn:E; try done; try (by split; [split_and!|]; rewrite ?E).
  - rewrite H1. by split; [split_and!; rewrite ?E|].
  - destruct (negb _); [by split; [split_and!|]|]. case_decide; by split; [split_and!; rewrite ?E|].
Qed.

Lemma relay_step_out i s : i ≠ SRegister (local_peer_id cfg) -> local_peer_id cfg ∉ rendezvous_opt_in s ->
  local_peer_id cfg ∉ rendezvous_opt_in (relay_step i s).
Proof.
  intros Hi Hs. destruct i as [ev|q|q]; cbn [relay_step]; [destruct ev; cbn; set_solver| |cbn; set_solver].
  unfold rendezvous_register. case_decide; cbn; set_solver.
Qed.

Lemma disc_step_out d x : no_wish x -> opted_out d -> opted_out (disc_step d x) /\ (~ opted d -> ~ opted (disc_step d x)).
Proof.
  intros [W1 W2] Ho. assert (forall d', opted_out d' /\ ds_relay d' = ds_relay d -> opted_out d' /\ (~ opted d -> ~ opted d')) as Hsame.
  { intros d' [H1 ->]. done. }
  assert (true ∉ ds_jobs d) as Hj by apply Ho.
  destruct x as [|r|r| | |i|n r|i]; try (by apply Hsame, round_out); cbn [disc_step].
  - destruct (ds_chan d); [done|]. by apply Hsame, turn_out.
  - destruct i as [ev|cmd|ids| | | |]; try (by apply Hsame, turn_out); [|done].
    destruct cmd; try (by apply Hsame, turn_out). destruct b; [done|]. by apply Hsame, command_out.
  - destruct (ds_jobs d !! n) as [b|] eqn:E; [|done]. destruct Ho as (H1 & H2 & H3).
    destruct b; [by apply list_elem_of_lookup_2 in E|]. split; [|apply posted_out].
    split_and!; [done|done|]. cbn. intros Hin. apply Hj. by eapply elem_of_submseteq, submseteq_delete.
  - split; [done|]. apply relay_step_out. by intros ->.
Qed.

(** Opting out lasts: once the node has rendezvous switched off, no registration of
    its own under way and is not registered, it is never registered or listed
    again, whatever the task, the run loop, the pool, the network and the relay do
    and in whatever order, until somebody asks for it. *)
Theorem opt_out_holds (xs : list DiscStep) (d : Discovery) :
  Forall no_wish xs -> opted_out d -> ~ opted d ->
  let d' := disc_run xs d in
  opted_out d' /\ (local_peer_id cfg ∉ rendezvous_opt_in (ds_relay d')) /\ local_peer_id cfg ∉ fetched true (ds_relay d').
Proof.
  intros Hx Ho Hn d'. assert (opted_out d' /\ ~ opted d') as [H1 H2].
  { subst d'. revert d Ho Hn. induction Hx as [|x xs Hx _ IH]; intros d Ho Hn; [done|]. cbn.
    destruct (disc_step_out d x Hx Ho) as [H1 H2]. apply IH; [done|by apply H2]. }
  split_and!; [done|done|]. rewrite fetched_eq, elem_rendezvous. tauto.
Qed.

(** But switching off while a round is under way may be in vain: the unregistration
    of the command can reach the relay before the registration of the round, after
    which nothing is pending, the node is switched off and its reservation is
    listed. *)
Theorem opt_out_race (d : Discovery) :
  ds_running d = true -> ds_round d = RWait -> ds_jobs d = [] -> rendezvous_enabled (ds_node d) = true ->
  local_peer_id cfg ≠ ""%string -> local_peer_id cfg ∈ reserved_peers (ds_relay d) ->
  let d' := disc_run [DTick; DInput (InCommand (SetRendezvousEnabled false)); DJob 0 true; DRegister true] d in
  opted_out d' /\ ds_jobs d' = [] /\ local_peer_id cfg ∈ fetched true (ds_relay d').
Proof.
  intros Hr Hw Hj He Hp Hres d'. rewrite fetched_eq, elem_rendezvous. subst d'.
  unfold disc_run. cbn [foldl disc_step round_step]. rewrite Hw, He. unfold loop_turn. cbn [ds_running]. rewrite Hr.
  cbn [node_step handle_command]. unfold st_modify. cbn -[posted]. rewrite Hj. cbn -[posted]. rewrite !posted_eq.
  unfold rendezvous_register, rendezvous_unregister. rewrite decide_False by done. cbn.
  split_and!; try done; [|set_solver]. split_and!; cbn; try done. by intros ?%elem_of_nil.
Qed.
End discovery.

(** ** Finding each other over libp2p *)
Section found.
Context {K : Type} `{CK : Countable K} `{W : !SwarmEnv K} `{C : Crypto}.
Context `{M : MessageStore} `{H : !NodeHost} `{HI : IdHash} `{P : E2EPrims} `{F : FileSys} `{BW : Bincode WireMessage}.
Variable instants : nat -> Z.
#[local] Instance found_net : MeshTransport := libp2p_mesh instants.
Variables (env : option string) (relay_id version : string) (uptime : Z).

Abbreviation log_of s := (swarm_log (ln_transport (net s : Libp2pNet (K := K)))).

Lemma target_log a (t : Libp2pTransport (K := K)) : swarm_log (add_target a t) = swarm_log t.
Proof. unfold add_target. by case_decide. Qed.

Lemma remembered_log x s : log_of s `prefix_of` log_of (on_net (net_remember_and_dial x) s).1
  /\ forall a, addr_parse x = Some a -> CDial a ∈ log_of (on_net (net_remember_and_dial x) s).1.
Proof.
  unfold on_net. cbn. unfold ln_run, remember_and_dial, queue_dial_target. destruct (addr_parse x) as [b|]; cbn; [|done].
  rewrite target_log. split; [by eexists|]. intros a [= ->]. apply elem_of_app. right. by left.
Qed.

Lemma dial_remotes_ok cfg ks l s : (dial_remotes cfg ks l s).2 = Ok tt.
Proof.
  revert s. induction l as [|r l IH]; intros s; [done|]. cbn. unfold mbind, ST_bind.
  case_decide; [apply IH|]. destruct (relay_circuit_multiaddr r); apply IH.
Qed.

Lemma dial_remotes_log cfg ks l s : log_of s `prefix_of` log_of (dial_remotes cfg ks l s).1
  /\ forall q x a, q ∈ l -> q ≠ local_peer_id cfg -> q ≠ RELAY_PEER_ID -> q ∉ ks ->
       relay_circuit_multiaddr q = Some x -> addr_parse x = Some a -> CDial a ∈ log_of (dial_remotes cfg ks l s).1.
Proof.
  revert s. induction l as [|r l IH]; intros s; [split; [done|by intros q x a ?%elem_of_nil]|].
  cbn [dial_remotes]. unfold mbind, ST_bind.
  match goal with |- context [(if decide ?D then _ else _) s] => set (first := if decide D then _ else _); change (if decide D then _ else _) with first end.
  assert (exists s1, first s = (s1, Ok tt) /\ log_of s `prefix_of` log_of s1
    /\ forall x a, r ≠ local_peer_id cfg -> r ≠ RELAY_PEER_ID -> r ∉ ks -> relay_circuit_multiaddr r = Some x ->
         addr_parse x = Some a -> CDial a ∈ log_of s1) as (s1 & -> & Hp & Hd).
  { subst first. case_decide as Hd; [exists s; split_and!; try done; tauto|]. destruct (relay_circuit_multiaddr r) as [y|]; [|by exists s].
    eexists. split; [done|]. destruct (remembered_log y s) as [R1 R2]. split; [exact R1|]. intros x a _ _ _ [= ->]. apply R2. }
  destruct (IH s1) as [I1 I2]. split; [by etrans|]. intros q x a [->|Hq]%elem_of_cons; [|by apply I2].
  intros. eapply elem_of_prefix; [by eapply Hd|done].
Qed.

(** a step of the relay that keeps [p] listed: its connection does not close, its
    reservation does not time out and nobody unregisters it *)
Definition stays (p : string) (i : RelayStep) : Prop :=
  i ≠ SEvent (RConnectionClosed p) /\ i ≠ SEvent (RReservationTimedOut p) /\ i ≠ SUnregister p.

Definition relay_steps (l : list RelayStep) (s : StatusState) : StatusState := foldl (fun s i => relay_step i s) s l.

Lemma stays_listed p i s : stays p i -> p ∈ rendezvous s -> p ∈ rendezvous (relay_step i s).
Proof.
  intros (H1 & H2 & H3). rewrite !elem_rendezvous. intros [Hr Ho]. destruct i as [ev|q|q]; cbn [relay_step].
  - destruct ev as [q|q|q rn|q|]; cbn; [done| |set_solver| |done].
    + assert (q ≠ p) by (by intros ->). set_solver.
    + assert (q ≠ p) by (by intros ->). set_solver.
  - unfold rendezvous_register. case_decide; cbn; set_solver.
  - assert (q ≠ p) by (by intros ->). cbn. set_solver.
Qed.

Lemma steps_listed p l s : Forall (stays p) l -> p ∈ rendezvous s -> p ∈ rendezvous (relay_steps l s).
Proof.
  intros Hl. revert s. induction Hl as [|i l Hi _ IH]; intros s Hs; [done|]. cbn. by apply IH, stays_listed.
Qed.

Definition with_relay (r : StatusState) (d : Discovery) : Discovery :=
  mkDisc r (ds_node d) (ds_running d) (ds_round d) (ds_chan d) (ds_jobs d).

Lemma registers_listed cfg (d : Discovery) :
  ds_round d = RWait -> rendezvous_enabled (ds_node d) = true -> local_peer_id cfg ≠ ""%string ->
  local_peer_id cfg ∈ reserved_peers (ds_relay d) ->
  local_peer_id cfg ∈ rendezvous (ds_relay (disc_run cfg env relay_id version uptime [DTick; DRegister true] d)).
Proof.
  intros Hw He Hp Hr. cbn [disc_run foldl disc_step round_step]. rewrite Hw, He. cbn [ds_round ds_relay].
  rewrite elem_rendezvous, posted_eq. unfold rendezvous_register. rewrite decide_False by done. cbn. set_solver.
Qed.

(** a whole round of the task and the turn of the run loop that takes its list *)
Lemma round_eq cfg (d : Discovery) : ds_round d = RWait -> rendezvous_enabled (ds_node d) = true -> ds_running d = true -> ds_chan d = [] ->
  let r := posted cfg env relay_id version uptime true true (ds_relay d) in
  disc_run cfg env relay_id version uptime [DTick; DRegister true; DFetch true; DSend; DRecv] d
  = mkDisc r (node_step cfg (InRendezvous (rendezvous r)) (ds_node d)).1 true RWait [] (ds_jobs d).
Proof.
  intros Hw He Hr Hc r. cbn [disc_run foldl disc_step round_step]. rewrite Hw, He. cbn [ds_round ds_relay ds_node ds_running ds_chan ds_jobs].
  rewrite Hr, Hc. cbn [negb length ds_chan app]. rewrite decide_True by (unfold RENDEZVOUS_CAP; lia). cbn [ds_chan ds_jobs].
  rewrite fetched_eq. unfold loop_turn. cbn [ds_running ds_node ds_relay ds_round]. fold r.
  pose proof (dial_remotes_ok cfg (list_to_set (peers (ds_node d)) ∪ list_to_set (net_known_peers (net (ds_node d)))) (rendezvous r) (ds_node d)) as E.
  cbn [node_step]. unfold dial_rendezvous_list, mbind, ST_bind, st_get. cbn. by destruct (dial_remotes _ _ _ _) as [s' res]; cbn in *; subst res.
Qed.

(** C39. Two nodes with rendezvous switched on find each other: once the task of [a] has
    registered it with the relay, where it has a reservation, and whatever else
    happens at the relay in the meantime, short of the connection of [a] closing,
    its reservation timing out or its registration being withdrawn, the next round
    of [b] has the swarm of [b] told to dial [a] over the relay circuit; [b] keeps
    running, its channel is empty again and nothing the swarm was told before is
    lost.  The conditions: the registration of [a], and that of [b] and its fetch,
    reach the relay; the round of [b] starts with an empty channel, while [b] runs,
    and no other step comes between its own; [a] is neither [b], nor the relay, nor
    a peer that [b] knows already, and the circuit address of [a] parses. *)
Theorem rendezvous_discovery (ca cb : NodeConf) (da db : Discovery) (others : list RelayStep) (x : string) (addr : Multiaddr) :
  let id := local_peer_id ca in
  ds_round da = RWait -> rendezvous_enabled (ds_node da) = true -> id ≠ ""%string -> id ∈ reserved_peers (ds_relay da) ->
  Forall (stays id) others ->
  ds_round db = RWait -> rendezvous_enabled (ds_node db) = true -> ds_running db = true -> ds_chan db = [] ->
  id ≠ local_peer_id cb -> id ≠ RELAY_PEER_ID -> id ∉ peers (ds_node db) -> id ∉ net_known_peers (net (ds_node db)) ->
  relay_circuit_multiaddr id = Some x -> addr_parse x = Some addr ->
  let registered := ds_relay (disc_run ca env relay_id version uptime [DTick; DRegister true] da) in
  let db' := disc_run cb env relay_id version uptime [DTick; DRegister true; DFetch true; DSend; DRecv]
               (with_relay (relay_steps others registered) db) in
  id ∈ fetched env relay_id version uptime true registered
  /\ CDial addr ∈ log_of (ds_node db')
  /\ log_of (ds_node db) `prefix_of` log_of (ds_node db')
  /\ ds_running db' = true /\ ds_round db' = RWait /\ ds_chan db' = [].
Proof.
  intros id Ha Hea Hid Hres Hoth Hb Heb Hrun Hch Hne Hnr Hp Hk Hx Haddr registered db'.
  pose proof (registers_listed ca da Ha Hea Hid Hres : id ∈ rendezvous registered) as Hl.
  split; [by rewrite fetched_eq|]. subst db'. rewrite round_eq by done. cbn [ds_node ds_running ds_round ds_chan ds_relay with_relay].
  set (r := posted _ _ _ _ _ _ _ _). assert (id ∈ rendezvous r) as Hr.
  { subst r. rewrite posted_eq. apply (stays_listed id (SRegister (local_peer_id cb))); [done|]. by apply steps_listed. }
  cbn [node_step]. unfold dial_rendezvous_list, mbind, ST_bind, st_get. cbn [fst snd].
  destruct (dial_remotes_log cb (list_to_set (peers (ds_node db)) ∪ list_to_set (net_known_peers (net (ds_node db)))) (rendezvous r) (ds_node db)) as [D1 D2].
  split_and!; [|exact D1|done..]. eapply D2; try done. set_solver.
Qed.
End found.
