(* ===== verification/MeshDemo.v ===== *)
(** * Concrete runs of the mesh

    Two nodes over a link of the simulator, a node started over libp2p, two nodes
    that find each other over the relay, and the relay process: one run of every
    theorem about them. *)

From S2P Require Import Prelude External Text Instances Bootstrap Wire E2E AtRest Bloom IngestGuard Security Storage Forwarding NodeData Node NodeTheorems NodeWalk NodeSecurity.
From S2P Require Import NodeRouting NodeHandle NodeStart CoreDemo NodeDemo Sim SimTheorems SimMesh SimTrace Host AtRestDemo Libp2p Libp2pNode Relay RelayClient Rendezvous.

Open Scope Z_scope.

Definition mesh_host (p : string) : NodeHost (C := crypto_tag) := host_toy.

Definition kp_a : list byte := as_bytes "key-a".
Definition kp_b : list byte := as_bytes "key-b".
Definition peer_a : string := peer_string (pk_peer_id (kp_public kp_a)).
Definition peer_b : string := peer_string (pk_peer_id (kp_public kp_b)).

Definition start_node (kp : list byte) : MeshStep :=
  MSpawn kp (enc_from_secret (as_bytes "enc")) (store_open tree_new : @Store (sled_message_store (D := sled_gmap))) (mkDir None None) "db" 65536.

Definition two_nodes : list MeshStep := [start_node kp_a; start_node kp_b; MLink peer_a peer_b link_default].
Definition mesh2 : Mesh := mesh_run mesh_host two_nodes (mesh_new 1000000 42).

Lemma two_nodes_sound : Forall step_sound two_nodes.
Proof. repeat constructor; exact empty_store_ok. Qed.

Definition spare : NodeConf * NodeRunner (T := sim_mesh) (M := sled_message_store (D := sled_gmap)) :=
  assemble (T := sim_mesh) (sim_config "db") (Some kp_a) peer_a (enc_from_secret (as_bytes "enc")) (mkSimTransport peer_a ∅ [])
    (store_open tree_new : @Store (sled_message_store (D := sled_gmap))) (mkDir None None).

Definition node_at (p : string) (m : Mesh) : SimNode := default (mkSimNode spare.1 spare.2 0 false) (mesh_nodes m !! p).

Lemma node_at_some p m : bool_decide (is_Some (mesh_nodes m !! p)) = true -> mesh_nodes m !! p = Some (node_at p m).
Proof. intros H%bool_decide_eq_true_1. unfold node_at. by destruct H as [n ->]. Qed.

Definition node_a : SimNode := node_at peer_a mesh2.
Definition node_b : SimNode := node_at peer_b mesh2.

Lemma mesh_direct_arrives_witness :
  let w := mesh_run mesh_host [MTurn peer_a (TCommand (SendDirect peer_b "hello")); MTurn peer_a TForward; MAdvance; MReceive peer_b] mesh2 in
  exists nb m, mesh_nodes w !! peer_b = Some nb /\ incoming (sn_runner nb) = incoming (sn_runner node_b) ++ [m]
    /\ content m = (peer_a, Some peer_b, "hello"%string, as_bytes "hello") /\ clock_ms (mesh_sim w) = clock_ms (mesh_sim mesh2) + 10.
Proof.
  intros w. destruct (mesh_direct_arrives mesh_host 1000000 42 two_nodes peer_a peer_b "hello" node_a node_b link_default [])
    as (Hc & _ & (nb & Hnb & _ & Hin) & Hclock).
  - exact two_nodes_sound.
  - by vm_compute.
  - apply node_at_some. by vm_compute.
  - apply node_at_some. by vm_compute.
  - by vm_compute.
  - by vm_compute.
  - by vm_compute.
  - by vm_compute.
  - intros k Hk. do 8 (destruct k as [|k]; [by vm_compute|]). lia.
  - split; [by vm_compute..| |by vm_compute].
    intros k Hk. do 3 (destruct k as [|k]; [by vm_compute|]). lia.
  - by vm_compute.
  - by vm_compute.
  - by vm_compute.
  - split; try (by vm_compute); split; by vm_compute.
  - eexists nb, _. split; [exact Hnb|]. split; [exact Hin|]. split; [exact Hc|exact Hclock].
Defined.

Definition after : list MeshStep :=
  two_nodes ++ [MTurn peer_a (TCommand (SendDirect peer_b "hello")); MTurn peer_a TForward; MAdvance; MReceive peer_b].

Lemma after_sound : Forall step_sound after.
Proof. apply Forall_app. split; [exact two_nodes_sound|by repeat constructor]. Qed.

Lemma mesh_messages_traceable_witness :
  exists m, m ∈ incoming (sn_runner (node_at peer_b (mesh_run mesh_host after (mesh_new 1000000 42))))
    /\ exists from, is_Some (mesh_nodes (mesh_run mesh_host after (mesh_new 1000000 42)) !! from).
Proof.
  set (w := mesh_run mesh_host after (mesh_new 1000000 42)).
  destruct (incoming (sn_runner (node_at peer_b w))) as [|m l] eqn:E; [by vm_compute in E|]. exists m. split; [by left|].
  destruct (mesh_messages_traceable mesh_host 1000000 42 after peer_b (node_at peer_b w) m) as [_ H].
  - exact after_sound.
  - apply node_at_some. by vm_compute.
  - destruct H as (from & Hf & _); [rewrite E; by left|]. exists from. exact Hf.
Defined.

Lemma mesh_run_refines_witness :
  exists m', mesh_run_for mesh_host 40 [[MTurn peer_a (TCommand (SendDirect peer_b "hello")); MTurn peer_a TForward]; []; [MReceive peer_b]] 20 mesh2 = Some m'
    /\ exists m, mesh_sent m' = mesh_sent mesh2 ++ [SimSendDirect peer_a peer_b (Data m)].
Proof.
  destruct (mesh_run_refines mesh_host [[MTurn peer_a (TCommand (SendDirect peer_b "hello")); MTurn peer_a TForward]; []; [MReceive peer_b]]
    20 mesh2 40) as (m' & H & _ & Hs & _).
  - by repeat constructor.
  - lia.
  - split; by vm_compute.
  - cbn. lia.
  - exists m'. split; [exact H|]. rewrite Hs. eexists. by vm_compute.
Defined.

(** ** Start-up over libp2p *)

Definition start_conf : NodeConfig :=
  mkNodeConfig "/ip4/0.0.0.0/tcp/0" "/d" None 500 30 ["/ip4/10.0.0.1/tcp/4001"%string] true None (Some key_a) 3 true [] 0.

Definition started :=
  runner_over_libp2p (W := swarm_toy) (V := vault_host) (KR := keyring_none) (P := aead_toy)
    (M := sled_message_store (D := sled_gmap)) (H := host_toy) Z.of_nat
    (fun _ => Ok (store_open tree_new : @Store (sled_message_store (D := sled_gmap)))) (fun _ => Ok tt) (fun _ => Ok tt)
    start_conf None (mkDir None None) world0.

Lemma libp2p_node_lifetime_witness :
  exists w cfg s0, started = (w, Ok (cfg, s0))
    /\ CDial "/ip4/10.0.0.1/tcp/4001"%string ∈ swarm_log (ln_transport (net s0))
    /\ (length (net_known_peers (net (libp2p_loop (W := swarm_toy) (P := aead_toy) 1%positive Z.of_nat cfg
         [FromTransport (ISwarm 5 (ConnectionEstablished 4%positive)); FromLoop InForwardTick] s0).1)) <= 50)%nat.
Proof.
  destruct started as [w [[cfg s0]|e]] eqn:E.
  2: { apply (f_equal (fun x => is_ok x.2)) in E. vm_compute in E. discriminate. }
  exists w, cfg, s0. split; [reflexivity|].
  destruct (libp2p_node_lifetime (W := swarm_toy) (V := vault_host) (KR := keyring_none) (P := aead_toy)
    (M := sled_message_store (D := sled_gmap)) (H := host_toy) 1%positive Z.of_nat
    (fun _ => Ok (store_open tree_new : @Store (sled_message_store (D := sled_gmap)))) (fun _ => Ok tt) (fun _ => Ok tt)) with
    (c := start_conf) (env := @None string) (d := mkDir None None) (w := world0) (w' := w) (cfg := cfg) (s0 := s0)
    (inputs := [FromTransport (W := swarm_toy) (ISwarm (W := swarm_toy) 5 (ConnectionEstablished 4%positive)); FromLoop InForwardTick]) as (_ & H1 & _ & _ & H2 & _).
  - intros db st [= <-]. exact empty_store_ok.
  - exact E.
  - split; [|exact H2]. apply (H1 "/ip4/10.0.0.1/tcp/4001"%string); [left; by left|reflexivity].
Defined.

(** ** Concrete runs of the relay

    Two nodes that find each other over the relay, and a relay process. *)


Definition disc_conf (kp : list byte) : NodeConf :=
  mkConf (Some kp) (peer_string (pk_peer_id (kp_public kp))) PENDING_CAP (enc_from_secret (P := aead_toy) (as_bytes "enc")) None 3.

Definition relay_with (p : string) : StatusState :=
  relay_steps [SEvent (RConnectionEstablished p); SEvent (RReservationAccepted p false)] status_new.

Definition disc_node (r : StatusState) : Discovery (T := libp2p_mesh (W := swarm_toy) Z.of_nat) (M := sled_message_store (D := sled_gmap)) :=
  mkDisc r (node_new (H := host_toy) (mkLibp2pNet (transport_new (W := swarm_toy) [] 0) true 0 : @Net (libp2p_mesh (W := swarm_toy) Z.of_nat))
    (store_open tree_new : @Store (sled_message_store (D := sled_gmap))) (mkDir None None) [] true) true RWait [] [].

Definition circuit_a : string := default ""%string (relay_circuit_multiaddr peer_a).

Definition after_round : Discovery (T := libp2p_mesh (W := swarm_toy) Z.of_nat) (M := sled_message_store (D := sled_gmap)) :=
  disc_run (H := host_toy) (P := aead_toy) (disc_conf kp_b) None "relay" "1" 9 [DTick; DRegister true; DFetch true; DSend; DRecv]
    (with_relay Z.of_nat (relay_steps [SEvent (RConnectionEstablished peer_b)]
      (ds_relay (disc_run (H := host_toy) (P := aead_toy) (disc_conf kp_a) None "relay" "1" 9 [DTick; DRegister true] (disc_node (relay_with peer_a)))))
      (disc_node status_new)).

Lemma rendezvous_discovery_witness : CDial circuit_a ∈ swarm_log (ln_transport (net (ds_node after_round))).
Proof.
  destruct (rendezvous_discovery (W := swarm_toy) (M := sled_message_store (D := sled_gmap)) (H := host_toy) (P := aead_toy) Z.of_nat None "relay" "1" 9
    (disc_conf kp_a) (disc_conf kp_b) (disc_node (relay_with peer_a)) (disc_node status_new) [SEvent (RConnectionEstablished peer_b)]
    circuit_a circuit_a) as (_ & H & _).
  all: cycle -1. { exact H. }
  all: try reflexivity. all: try (by repeat constructor). all: apply (bool_decide_unpack _); by vm_compute.
Defined.

(** ** The relay process *)

Definition relay_args : Args := mkArgs (listen args_default) (listen_quic args_default) (Some "/d/identity"%string) 8080.
(** 32 bytes under the identity coding of [crypto_tag] *)
Definition storage_key : EnvVar := VarSet (of_bytes (replicate 32 "k"%byte)).

Definition relay_started :=
  relay_main (V := vault_host) (KR := keyring_none) (P := aead_toy) (fun _ => Ok tt) (fun a => Ok a) (fun _ => Ok tt) relay_args storage_key "1" 100 world0.

(** a peer connects, reserves a slot and registers *)
Definition relay_life (p : RelayProc) : RelayProc :=
  foldl (fun p i => (relay_proc_step p i).1) p
    [RNet (RConnectionEstablished "alice"); RNet (RReservationAccepted "alice" false);
     RHttp 105 (HPost "/rendezvous/register" (registration_body "alice"))].

Lemma relay_process_sound_witness : exists w p l, relay_started = (w, Ok p)
  /\ (relay_proc_step (relay_life p) (RHttp 110 (HGet "/rendezvous"))).2 = Some (HJson (JObj [("peers"%string, JArr (JStr <$> l))]))
  /\ NoDup l.
Proof.
  destruct relay_started as [w [p|e]] eqn:E.
  2: { apply (f_equal (fun x => is_ok x.2)) in E. vm_compute in E. discriminate. }
  destruct (relay_process_sound (V := vault_host) (KR := keyring_none) (P := aead_toy) (fun _ => Ok tt) (fun a => Ok a) (fun _ => Ok tt)
    relay_args storage_key "1" 100 110 world0 w p (relay_life p) {["alice"%string := 1%nat]} E) as (_ & (l & H1 & H2 & _) & _).
  - unfold relay_life. cbn [foldl].
    eapply proc_step; [eapply proc_step; [eapply proc_step; [apply proc_start|]|]|]; [apply net_establish|apply net_reserve|]; by vm_compute.
  - exists w, p, l. split; [done|]. split; [exact H1|exact H2].
Defined.
