(* ===== verification/Tests.v ===== *)
(** * The repository's unit tests

    The files [Tests*.v] run the unit tests of the crates on the model: a test is a
    computation that fails where an [assert!] or an [unwrap] of the code would
    panic.  Generated key pairs, clocks, temporary directories and fresh ids are
    those of the demonstration instances. *)

From Stdlib Require Import QArith.
From S2P Require Import Prelude External Text Instances Host E2E AtRest Transaction Policy Ledger CoinDemo CoinNode CoinNodeDemo Payment.

Definition assert {S} (b : bool) : ST S unit := if b then mret tt else st_err "assertion failed".
Definition read {S A} (f : S -> anyhow A) : ST S A := fun s => (s, f s).
Definition passes {S A} (m : ST S A) (s : S) : bool := is_ok (m s).2.
Definition is_err {A} (r : anyhow A) : bool := negb (is_ok r).

(** a test without state *)
Definition check (m : ST unit unit) : bool := passes m tt.

(** ** Unit tests of the coin crate

    The tests of [mycelium-coin/src/lib.rs] and of its modules. *)

Open Scope Z_scope.

Module CoinTests.
(** [Keypair::generate_ed25519]: distinct keys *)
Definition key (n : Z) : list byte := [byte_of_Z n].
Definition addr (n : Z) : string := address_from_keypair (key n).
Definition fresh : LocalLedger := ledger_open db_new.
Definition M : Z := MUON_PER_MXC.

Definition basic_transfer : bool := passes (
  let alice := addr 1 in
  let bob := addr 2 in
  _ ← assert (validate_address bob);
  _ ← genesis_credit alice (10 * M);
  tx ← st_lift (tx_new bob (5 * M) 1000 0 None (key 1) 7);
  r ← apply_transaction tx;
  _ ← assert (match r with Accepted => true | _ => false end);
  acc ← read (account_state alice);
  assert (bool_decide (balance_muon acc = 5 * M - 1000))) fresh.

Definition double_spend_rejected : bool := passes (
  let alice := addr 1 in
  let bob := addr 2 in
  let carol := addr 3 in
  _ ← genesis_credit alice (10 * M);
  tx1 ← st_lift (tx_new bob (8 * M) 1000 0 None (key 1) 7);
  tx2 ← st_lift (tx_new carol (8 * M) 1000 0 None (key 1) 8);
  r ← apply_transaction tx1;
  _ ← assert (match r with Accepted => true | _ => false end);
  r ← apply_transaction tx2;
  assert (match r with InvalidNonce _ _ => true | _ => false end)) fresh.

Definition witness_confirmation : bool := passes (
  let alice := addr 1 in
  let bob_addr := addr 2 in
  _ ← genesis_credit alice (10 * M);
  tx ← st_lift (tx_new bob_addr (5 * M) 1000 0 None (key 1) 7);
  r ← apply_transaction tx;
  _ ← assert (match r with Accepted => true | _ => false end);
  bob ← read (account_state bob_addr);
  _ ← assert (bool_decide (balance_muon bob = 0));
  _ ← assert (bool_decide (pending_received bob = 5 * M));
  _ ← ledger_add_witness (tx_id tx) "peer1";
  _ ← ledger_add_witness (tx_id tx) "peer2";
  _ ← ledger_add_witness (tx_id tx) "peer3";
  bob ← read (account_state bob_addr);
  _ ← assert (bool_decide (balance_muon bob = 5 * M));
  assert (bool_decide (pending_received bob = 0))) fresh.

Definition settlement_policy_rejects_oversized_transfer : bool := passes (
  let alice := addr 1 in
  let bob := addr 2 in
  _ ← genesis_credit alice (50 * M);
  let huge := 30 * M in
  tx ← st_lift (tx_new bob huge 1000 0 None (key 1) 7);
  r ← apply_transaction tx;
  assert (match r with Invalid _ => true | _ => false end)) fresh.

Definition address_generation_and_validation : bool := check (
  _ ← assert (starts_with "mxc1" (addr 1));
  _ ← assert (validate_address (addr 1));
  assert (negb (validate_address "mxc1invalid"))).

Definition payment_request_roundtrip : bool := check (
  let req := pay_new "mxc1abc123" 5000000 (Some "Kaffee"%string) 7 "id" in
  let uri := to_uri (U := url_pct) req in
  _ ← assert (starts_with "mxcpay:mxc1abc123?amount=5000000" uri);
  parsed ← st_lift (from_uri (U := url_pct) uri "id2");
  _ ← assert (bool_decide (to_address parsed = "mxc1abc123"%string));
  _ ← assert (bool_decide (pay_amount_muon parsed = 5000000));
  assert (bool_decide (pay_memo parsed = Some "Kaffee"%string))).

Definition payment_request_expires : bool := check (
  let req := pay_new "mxc1abc" 1000 None 7 "id" in
  let req := mkPayment (to_address req) (pay_amount_muon req) (pay_memo req) (Some 1) (pay_request_id req) in
  assert (pay_is_expired req 7)).

Definition refill_request_sign_and_verify : bool := check (
  req ← st_lift (rf_new_signed (key 1) (addr 2) 5000000 1000 7 "id");
  assert (rf_verify req)).

Definition refill_request_rejects_tampering : bool := check (
  req ← st_lift (rf_new_signed (key 1) (addr 2) 5000000 1000 7 "id");
  let req := mkRefill (request_id req) (hot_address req) (cold_address req) (rf_amount_muon req +64 1) (rf_fee_muon req)
               (created_at_ms req) (expires_at_ms req) (hot_public_key req) (rf_signature req) in
  assert (negb (rf_verify req))).

(** the identity of the vault is the key, and the transport takes every frame *)
Definition signs_with (n : Z) : CoinHost := CoinNodeDemo.NodeDemo.host true (key n).
Definition cold_accepts_signed_refill_once : bool := passes (
  let cold_addr := addr 1 in
  let hot_addr := addr 2 in
  let H := signs_with 1 in
  let cold_node := mkCoinConfig cold_addr "cold-peer" "cold_identity" in
  _ ← on_ledger (H := H) (genesis_credit cold_addr (100 * M));
  req ← st_lift (rf_new_signed (key 2) cold_addr (10 * M) 1000 7 "id");
  _ ← handle_incoming (H := H) cold_node (PRefillRequest req) "p99";
  _ ← handle_incoming (H := H) cold_node (PRefillRequest req) "p99";
  s ← st_get;
  _ ← assert (bool_decide (length (cn_outbox s) = 1%nat));
  hot_acc ← read (fun s => account_state hot_addr (cn_ledger s));
  _ ← assert (bool_decide (pending_received hot_acc = 10 * M));
  cold_acc ← read (fun s => account_state cold_addr (cn_ledger s));
  assert (bool_decide (balance_muon cold_acc = 100 * M - (10 * M + 1000)))) (mkCoin (H := signs_with 1) fresh [] 0 NodeDemo.no_vault).

Definition hot_wallet_enforce_cap_returns_excess : bool := passes (
  let hot_addr := addr 1 in
  let cold_addr := addr 2 in
  let H := signs_with 1 in
  let coin := mkCoinConfig hot_addr "local-peer" "identity" in
  _ ← on_ledger (H := H) (genesis_credit hot_addr (55 * M));
  let max := 50 * M in
  let cfg := mkHotConfig max (max * 80 / 100) max (Some cold_addr) in
  _ ← enforce_cap (H := H) coin 10 cfg "identity";
  hot_acc ← read (fun s => account_state hot_addr (cn_ledger s));
  cold_acc ← read (fun s => account_state cold_addr (cn_ledger s));
  _ ← assert (bool_decide (balance_muon hot_acc <= max));
  assert (bool_decide (4 * M <= balance_muon cold_acc + pending_received cold_acc))) (mkCoin (H := signs_with 1) fresh [] 0 NodeDemo.no_vault).

(** [settlement_policy.rs] *)
Definition beta_defaults_match_prompt : bool := check (
  let p := beta_defaults in
  _ ← assert (bool_decide (max_balance_muon p = 100 * M));
  assert (bool_decide (max_transfer_muon p = 25 * M))).
End CoinTests.

(** The tests of the crate pass on the model. *)
Theorem coin_tests_pass :
  [CoinTests.basic_transfer; CoinTests.double_spend_rejected; CoinTests.witness_confirmation;
   CoinTests.settlement_policy_rejects_oversized_transfer; CoinTests.address_generation_and_validation;
   CoinTests.payment_request_roundtrip; CoinTests.payment_request_expires; CoinTests.refill_request_sign_and_verify;
   CoinTests.refill_request_rejects_tampering; CoinTests.cold_accepts_signed_refill_once;
   CoinTests.hot_wallet_enforce_cap_returns_excess; CoinTests.beta_defaults_match_prompt] = replicate 12 true.
Proof. vm_compute. reflexivity. Qed.

(** ** Unit tests of the core crate

    The tests in the modules of [mycelium-core/src], but for those of file
    permissions, of erased memory and of the multiaddress parser of libp2p. *)

From S2P Require Import Prelude External Text Instances Host Transaction Policy Ledger Wire E2E AtRest AtRestDemo Bootstrap.
Open Scope Z_scope.

Module CoreTests.
Definition key (n : Z) : list byte := [byte_of_Z n].
Definition peer (n : Z) : string := peer_string (pk_peer_id (kp_public (key n))).
(** an empty directory, no keyring *)
Definition disk0 : VaultWorld (K := keyring_none) :=
  mkWorld (K := keyring_none) (DB := db_gmap) ({["/tmp" := FDir]}%string : gmap string FsNode) tt ∅ 0.

#[local] Existing Instance vault_host.
#[local] Existing Instance aead_toy.
Abbreviation test := (ST (VaultWorld (K := keyring_none)) unit).

(** ** [at_rest.rs] *)

Definition encrypt_decrypt_roundtrip : bool := passes (
  master ← random (K := keyring_none) KEY_LEN;
  let pt := as_bytes "secret-key-material" in
  enc ← vault_encrypt (K := keyring_none) master pt;
  dec ← st_lift (vault_decrypt master enc);
  assert (bool_decide (dec = pt)) : test) disk0.

Definition fallback_key_is_random_not_deterministic : bool := passes (
  key1 ← load_or_create_file_fallback_key (K := keyring_none) "/tmp/1";
  key2 ← load_or_create_file_fallback_key (K := keyring_none) "/tmp/2";
  assert (bool_decide (key1 ≠ key2)) : test) disk0.

Definition fallback_key_is_persistent : bool := passes (
  key1 ← load_or_create_file_fallback_key (K := keyring_none) "/tmp/1";
  key2 ← load_or_create_file_fallback_key (K := keyring_none) "/tmp/1";
  assert (bool_decide (key1 = key2)) : test) disk0.

Definition vault_write_read_delete : bool := passes (
  master ← random (K := keyring_none) KEY_LEN;
  vault ← open_with_migration (K := keyring_none) "/tmp" (Some master);
  _ ← write_secret vault "test" (as_bytes "hello");
  r ← read_secret vault "test";
  _ ← assert (bool_decide (r = Some (as_bytes "hello")));
  _ ← delete_secret vault "test";
  r ← read_secret vault "test";
  assert (bool_decide (r = None)) : test) disk0.

Definition recovers_secret_encrypted_with_legacy_deterministic_key : bool := passes (
  let legacy := legacy_derive_fallback_master "/tmp" in
  legacy_vault ← vault_open (K := keyring_none) "/tmp" (Some legacy);
  _ ← write_secret legacy_vault "ed25519_identity" (as_bytes "legacy-identity");
  _ ← load_or_create_file_fallback_key (K := keyring_none) "/tmp";
  vault ← open_with_migration (K := keyring_none) "/tmp" None;
  r ← read_secret vault "ed25519_identity";
  assert (bool_decide (r = Some (as_bytes "legacy-identity"))) : test) disk0.

Definition recovers_secret_when_primary_master_key_changed : bool := passes (
  file_key ← load_or_create_file_fallback_key (K := keyring_none) "/tmp";
  vault_file ← vault_open (K := keyring_none) "/tmp" (Some file_key);
  _ ← write_secret vault_file "ed25519_identity" (as_bytes "identity-bytes");
  keyring_key ← random (K := keyring_none) KEY_LEN;
  vault_primary ← vault_open (K := keyring_none) "/tmp" (Some keyring_key);
  r ← read_secret vault_primary "ed25519_identity";
  assert (bool_decide (r = Some (as_bytes "identity-bytes"))) : test) disk0.

(** ** [crypto.rs] *)

Definition enc_key (n : Z) : EncryptionKeypair := enc_from_secret (P := e2e_toy) (replicate 32 (byte_of_Z n)).

Definition direct_encrypt_decrypt_roundtrip : bool := check (
  let bob := enc_key 2 in
  let plaintext := as_bytes "hello from alice to bob" in
  ciphertext ← st_lift (encrypt_for (P := e2e_toy) (replicate 32 x07) (replicate 12 x01) plaintext (enc_public bob));
  decrypted ← st_lift (decrypt_with (P := e2e_toy) ciphertext bob);
  assert (bool_decide (decrypted = plaintext))).

Definition wrong_key_fails : bool := check (
  let bob := enc_key 2 in
  let eve := enc_key 3 in
  ciphertext ← st_lift (encrypt_for (P := e2e_toy) (replicate 32 x07) (replicate 12 x01) (as_bytes "secret") (enc_public bob));
  assert (is_err (decrypt_with (P := e2e_toy) ciphertext eve))).

Definition group_encrypt_decrypt_roundtrip : bool := check (
  let k := replicate 32 (byte_of_Z 42) in
  let plaintext := as_bytes "group message" in
  ciphertext ← st_lift (encrypt_group (replicate 12 x01) plaintext k);
  decrypted ← st_lift (decrypt_group ciphertext k);
  assert (bool_decide (decrypted = plaintext))).

Definition group_wrong_key_fails : bool := check (
  let key1 := replicate 32 x01 in
  let key2 := replicate 32 x02 in
  ciphertext ← st_lift (encrypt_group (replicate 12 x01) (as_bytes "secret") key1);
  assert (is_err (decrypt_group ciphertext key2))).

Definition keypair_roundtrip_bytes : bool := check (
  let kp := enc_key 1 in
  let bytes := enc_secret kp in
  let restored := enc_from_secret (P := e2e_toy) bytes in
  assert (bool_decide (enc_public kp = enc_public restored))).

(** [clone] derives the pair again from the secret *)
Definition enc_clone (kp : EncryptionKeypair) : EncryptionKeypair := enc_from_secret (P := e2e_toy) (enc_secret kp).

Definition no_clone_leaks_secret : bool := check (
  let kp1 := enc_key 1 in
  let kp2 := enc_clone kp1 in
  assert (bool_decide (enc_public kp1 = enc_public kp2))).

(** ** The other modules *)

Definition roundtrip_invite_v1 : bool := check (
  let id := "12D3KooWGv6goWd2fHwcigDjqQm5Dfw28UijwEjnMcYwTpPRPZy6"%string in
  let encoded := encode_invite id in
  assert (match parse_invite encoded with Some (InvitePeerId p) => bool_decide (p = id) | _ => false end)).

Definition parses_dns4_multiaddr : bool := check (
  let addr := "/dns4/mycelium-relay.fly.dev/tcp/4001/p2p/12D3KooW/p2p-circuit/p2p/12D3KooWOther"%string in
  assert (match parse_invite addr with Some (InviteMultiaddr m) => bool_decide (m = addr) | _ => false end)).

Definition replay_attack_rejected : bool := check (
  let e := envelope_new (peer 1) None (as_bytes "original message") 5000 in
  let '(e, signed) := env_sign (key 1) e in
  _ ← st_lift signed;
  _ ← assert (env_verify (pk_peer_id (kp_public (key 1))) e);
  let replayed := mkEnvelope (e_id e) (from_peer e) (to_peer e) (payload e) (created_at_ms e +64 1000) (ttl_secs e) (priority e)
                    (signature e) (sig_version e) (hop_count e) (max_hops e) (author_peer e) in
  assert (negb (env_verify (pk_peer_id (kp_public (key 1))) replayed))).

Definition wrap_unwrap_roundtrip : bool := check (
  let app := as_bytes "app-bytes" in
  match wrap_inner "12D3KooWAuthor" app with
  | Some w =>
      let '(a, p) := unwrap_inner w "relay" in
      _ ← assert (bool_decide (a = "12D3KooWAuthor"%string));
      assert (bool_decide (p = app))
  | None => st_err "panic"
  end).

Definition legacy_no_magic_uses_relay : bool := check (
  let raw := [x01; x02; x03] in
  let '(a, p) := unwrap_inner raw "relay-peer" in
  _ ← assert (bool_decide (a = "relay-peer"%string));
  assert (bool_decide (p = raw))).

Definition relay_circuit_addr_uses_embedded_relay : bool := check (
  match relay_circuit_multiaddr "12D3KooWExamplePeerIdForTestOnly" with
  | Some addr =>
      _ ← assert (str_contains RELAY_IPV4 addr);
      _ ← assert (str_contains "/p2p-circuit/p2p/12D3KooWExamplePeerIdForTestOnly" addr);
      assert (str_contains RELAY_PEER_ID addr)
  | None => st_err "circuit addr"
  end).

Definition direct_message_expiry_respects_ttl : bool := check (
  let e := envelope_new "a" (Some "b"%string) (as_bytes "hi") 5000 in
  let e := mkEnvelope (e_id e) (from_peer e) (to_peer e) (payload e) 1000 2 (priority e)
             (signature e) (sig_version e) (hop_count e) (max_hops e) (author_peer e) in
  let msg := mkDM e "hi" in
  _ ← assert (negb (is_expired msg 2999));
  assert (is_expired msg 3000)).
End CoreTests.

(** The tests of the crate pass on the model. *)
Theorem core_tests_pass :
  [CoreTests.encrypt_decrypt_roundtrip; CoreTests.fallback_key_is_random_not_deterministic; CoreTests.fallback_key_is_persistent;
   CoreTests.vault_write_read_delete; CoreTests.recovers_secret_encrypted_with_legacy_deterministic_key;
   CoreTests.recovers_secret_when_primary_master_key_changed; CoreTests.direct_encrypt_decrypt_roundtrip; CoreTests.wrong_key_fails; CoreTests.no_clone_leaks_secret;
   CoreTests.group_encrypt_decrypt_roundtrip; CoreTests.group_wrong_key_fails;
   CoreTests.keypair_roundtrip_bytes; CoreTests.roundtrip_invite_v1; CoreTests.parses_dns4_multiaddr; CoreTests.replay_attack_rejected;
   CoreTests.wrap_unwrap_roundtrip; CoreTests.legacy_no_magic_uses_relay; CoreTests.relay_circuit_addr_uses_embedded_relay;
   CoreTests.direct_message_expiry_respects_ttl] = replicate 19 true.
Proof. vm_compute. reflexivity. Qed.

(** ** Unit tests of the node crate

    The tests in the modules of [mycelium-node/src]. *)

From S2P Require Import Prelude External Text Instances Wire Storage CoreDemo IngestGuard Security Forwarding.
Open Scope Z_scope.

Module NodeTests.
Definition key (n : Z) : list byte := [byte_of_Z n].
Definition peer (n : Z) : string := peer_string (pk_peer_id (kp_public (key n))).
Definition now : Z := 5000000.

(** ** [forwarding.rs] *)

Definition TestSeenCache : SeenCache := {|
  Seen := gset string;
  seen_contains id s := bool_decide (id ∈ s);
  seen_insert id s := {[id]} ∪ s;
|}.

Definition MemStore : MessageStore := {|
  Store := gmap string DirectMessage;
  ms_persist _ m s := (<[e_id (dm_envelope m) := m]> s, Ok tt);
  ms_recent _ s := Ok (snd <$> map_to_list s);
  ms_contains id s := Ok (bool_decide (is_Some (s !! id)));
  ms_load_by_id id s := Ok (s !! id);
  ms_list_ids_window _ _ s := Ok (fst <$> map_to_list s);
  ms_gc_expired _ s := (s, Ok 0%nat);
  ms_stats s := Ok (mkStats (size s) 0);
|}.

Definition mk_msg (body : string) : DirectMessage := mkDM (envelope_new "a" (Some "b"%string) (as_bytes body) now) body.

Definition energy_policy_applies_state_rules : bool := check (
  _ ← assert (can_forward Active Low);
  _ ← assert (negb (can_forward Intermittent Low));
  _ ← assert (can_forward Passive High);
  assert (negb (can_forward Passive Normal))).

Definition forwarding_policy_delivers_local_target : bool := check (
  let msg := mk_msg "hello" in
  let e := dm_envelope msg in
  let msg := mkDM (mkEnvelope (e_id e) (from_peer e) (Some "local"%string) (payload e) (created_at_ms e) (ttl_secs e) (priority e)
                     (signature e) (sig_version e) (hop_count e) (max_hops e) (author_peer e)) (dm_body msg) in
  let d := forward_decide now msg "local" ["p1"%string] Active in
  assert (match d with DeliverLocal => true | _ => false end)).

Definition ingest_pipeline_deduplicates_seen_messages : bool := passes (
  let msg := mk_msg "x" in
  first ← ingest (S := TestSeenCache) (M := MemStore) now now now msg false;
  _ ← assert first;
  second ← ingest (S := TestSeenCache) (M := MemStore) now now now msg false;
  assert (negb second)) (∅ : gset string, ∅ : gmap string DirectMessage).

(** ** [security.rs] *)

Definition sample_message (signed : bool) (body : string) : anyhow DirectMessage :=
  let e := envelope_new (peer 1) (Some "dest"%string) (as_bytes "payload") now in
  if signed then (let '(e, r) := env_sign (key 1) e in _ ← r; Ok (mkDM e body))
  else Ok (mkDM (set_signature None (sig_version e) e) body).

Definition unsigned_dropped_after_grace_period : bool := check (
  msg ← st_lift (sample_message false "hello");
  assert (match validate_data_message_signature msg with Err NoSignature => true | _ => false end)).

Definition unsigned_rejected_immediately : bool := check (
  msg ← st_lift (sample_message false "hello");
  assert (match validate_data_message_signature msg with Err NoSignature => true | _ => false end)).

Definition gossip_relay_body_skips_sig_check : bool := check (
  msg ← st_lift (sample_message false "[mycelium:group]");
  assert (is_ok (validate_data_message_signature msg))).

Definition invalid_sig_is_dropped : bool := check (
  let e := envelope_new (peer 2) (Some "dest"%string) (as_bytes "payload") now in
  let '(e, r) := env_sign (key 1) e in
  _ ← st_lift r;
  assert (match validate_data_message_signature (mkDM e "hello") with Err InvalidSignature => true | _ => false end)).

Definition fanout_is_bounded : bool := check (
  let peers := (fun i => ("peer" +:+ show (Z.of_nat i))%string) <$> seq 0 10 in
  let relay := select_relay_candidates peers "unknown" ∅ 3 in
  _ ← assert (bool_decide (length relay = 3%nat));
  assert (negb (existsb (fun p => bool_decide (p = "unknown"%string)) relay))).

(** ** [ingest_guard.rs] *)

Definition guard_msg (from : string) (created : Z) (salt : byte) : DirectMessage :=
  let e := envelope_new from None [salt] now in
  mkDM (mkEnvelope (e_id e) (from_peer e) (to_peer e) (payload e) created (ttl_secs e) (priority e)
          (signature e) (sig_version e) (hop_count e) (max_hops e) (author_peer e)) "hello".

Definition allow (author : string) (m : DirectMessage) : ST IngestGuard (Res IngestReject unit) := fun g =>
  let '(g, r) := allow_direct author m now g in (g, Ok r).

Definition freshness_rejects_stale_and_far_future : bool := check (
  let now := 10000000 in
  _ ← assert (negb (check_envelope_freshness (now -sat (REPLAY_MAX_AGE_MS + 1)) now));
  _ ← assert (negb (check_envelope_freshness (now +sat (REPLAY_MAX_FUTURE_SKEW_MS + 1)) now));
  assert (check_envelope_freshness (now -sat 1000) now)).

Fixpoint allow_many (n : nat) : ST IngestGuard unit :=
  match n with
  | O => mret tt
  | S n => _ ← allow_many n;
           r ← allow "author" (guard_msg "author" now (byte_of_Z (Z.of_nat n)));
           assert (is_ok r)
  end.

Definition direct_rate_limit_trips : bool := passes (
  _ ← allow_many (Z.to_nat DIRECT_RATE_PER_MINUTE);
  r ← allow "author" (guard_msg "author" now xff);
  assert (match r with Err RateLimit => true | _ => false end)) guard_new.

Definition gossip_oversize_rejected : bool := check (
  assert (match (allow_gossip "peer" (S MAX_GOSSIP_PAYLOAD_BYTES) "id1" now now guard_new).2 with Err Oversize => true | _ => false end)).

Definition author_replay_window_catches_duplicate_id : bool := passes (
  let msg := guard_msg "author" now x00 in
  r ← allow "author" msg;
  _ ← assert (is_ok r);
  r ← allow "author" msg;
  assert (match r with Err Replay => true | _ => false end)) guard_new.

(** ** [storage.rs] *)

Definition store0 : SledMessageStore (D := sled_gmap) := store_open tree_new.

Definition store_persist_and_load_roundtrip : bool := passes (
  let msg := mk_msg "roundtrip" in
  let id := e_id (dm_envelope msg) in
  _ ← persist now msg;
  found ← read (store_contains id);
  _ ← assert found;
  loaded ← read (load_by_id id);
  assert (match loaded with Some m => bool_decide (dm_body m = "roundtrip"%string) | None => false end)) store0.

Definition store_recent_returns_newest_first : bool := passes (
  _ ← persist now (mk_msg "one");
  _ ← persist (now + 1) (mk_msg "two");
  l ← read (recent 2);
  assert (match l with m :: _ => bool_decide (dm_body m = "two"%string) | [] => false end)) store0.

(** the last entry of the order dated back ten seconds *)
Definition back_date (now : Z) (s : SledMessageStore (D := sled_gmap)) : SledMessageStore (D := sled_gmap) :=
  mkStore (sdb s) (match reverse (order s) with [] => [] | (_, id) :: l => reverse ((now -sat 10000, id) :: l) end).

Definition list_ids_window_filters_old_entries : bool := passes (
  let old := mk_msg "old" in
  let new := mk_msg "new" in
  _ ← persist now old;
  _ ← st_modify (back_date now);
  _ ← persist now new;
  ids ← read (list_ids_window now 1000);
  _ ← assert (bool_decide (e_id (dm_envelope new) ∈ ids));
  assert (bool_decide (e_id (dm_envelope old) ∉ ids))) store0.
End NodeTests.

(** The tests of the crate pass on the model. *)
Theorem node_tests_pass :
  [NodeTests.energy_policy_applies_state_rules; NodeTests.forwarding_policy_delivers_local_target;
   NodeTests.ingest_pipeline_deduplicates_seen_messages; NodeTests.unsigned_dropped_after_grace_period;
   NodeTests.unsigned_rejected_immediately; NodeTests.gossip_relay_body_skips_sig_check; NodeTests.invalid_sig_is_dropped;
   NodeTests.fanout_is_bounded; NodeTests.freshness_rejects_stale_and_far_future; NodeTests.direct_rate_limit_trips;
   NodeTests.gossip_oversize_rejected; NodeTests.author_replay_window_catches_duplicate_id;
   NodeTests.store_persist_and_load_roundtrip; NodeTests.store_recent_returns_newest_first;
   NodeTests.list_ids_window_filters_old_entries] = replicate 15 true.
Proof. vm_compute. reflexivity. Qed.

(** ** Unit tests of the simulator

    The tests in the modules of [mycelium-sim/src].  [three_hop_delivery] runs
    three real nodes: the schedule gives each node its turns between two moves of
    the network. *)

From S2P Require Import Prelude External Text Instances Wire E2E Bootstrap Storage CoreDemo NodeData Node NodeDemo NodeStart Sim SimMesh MeshDemo Scenarios.
Open Scope Z_scope.

Module SimTests.

(** ** [scheduler.rs] *)

Definition pop (now : Z) : ST (EventScheduler string) (option (ScheduledEvent string)) := fun s =>
  let '(s, r) := pop_ready now s in (s, Ok r).

Definition has (e : option (ScheduledEvent string)) (p : string) : bool :=
  match e with Some e => bool_decide (ev_payload e = p) | None => false end.

Definition scheduler_orders_by_time_then_sequence : bool := passes (
  _ ← st_modify (sched_push 20 "b"%string);
  _ ← st_modify (sched_push 10 "a1"%string);
  _ ← st_modify (sched_push 10 "a2"%string);
  first ← pop 10;
  second ← pop 10;
  third ← pop 20;
  _ ← assert (has first "a1");
  _ ← assert (has second "a2");
  assert (has third "b")) sched_default.

Definition scheduler_waits_until_ready : bool := passes (
  _ ← st_modify (sched_push 50 "1"%string);
  e ← pop 49;
  _ ← assert (match e with None => true | _ => false end);
  e ← pop 50;
  assert (match e with Some _ => true | _ => false end)) sched_default.

(** ** [runner.rs] *)

Definition msg (from to body : string) : DirectMessage := mkDM (envelope_new from (Some to) (as_bytes body) 7) body.
Definition run (duration : Z) : ST SimulationRunner unit := fun s =>
  match run_for (Z.to_nat duration + 2) duration s with Some s => (s, Ok tt) | None => (s, Err "does not end"%string) end.
Definition metrics : ST SimulationRunner SimulationMetrics := st_gets sim_metrics.

Definition hello_run : ST SimulationRunner SimulationMetrics :=
  _ ← st_modify (register_node "n1" (1024 * 64));
  _ ← st_modify (register_node "n2" (1024 * 64));
  _ ← st_modify (set_link "n1" "n2" link_default);
  _ ← st_modify (send_action (SimSendDirect "n1" "n2" (Data (msg "n1" "n2" "hello"))));
  _ ← run 100;
  metrics.

Definition simulation_is_deterministic_with_same_seed : bool := passes (
  ma ← hello_run;
  _ ← st_put (sim_new 0 1337);
  mb ← hello_run;
  _ ← assert (bool_decide (delivered ma = delivered mb));
  _ ← assert (bool_decide (dropped_loss ma = dropped_loss mb));
  assert (bool_decide (sent_bytes ma = sent_bytes mb))) (sim_new 0 1337).

Definition offline_nodes_drop_messages : bool := passes (
  _ ← st_modify (register_node "a" (1024 * 64));
  _ ← st_modify (register_node "b" (1024 * 64));
  _ ← st_modify (set_link "a" "b" link_default);
  _ ← st_modify (fun s => match nodes s !! "b"%string with
        | Some n => set_nodes (<["b"%string := mkSpec (sp_peer_id n) false (bandwidth_bytes_per_sec n)]> (nodes s)) s
        | None => s end);
  _ ← st_modify (send_action (SimSendDirect "a" "b" (Data (msg "a" "b" "x"))));
  _ ← run 50;
  m ← metrics;
  assert (bool_decide (0 < dropped_offline m))) (sim_new 0 1).

Definition peer_c : string := peer_string (pk_peer_id (kp_public (as_bytes "key-c"))).

(** the nodes take turns: commands first, then what arrived and the timers *)
Definition round : list MeshStep :=
  [MReceive peer_a; MReceive peer_b; MReceive peer_c; MTurn peer_a TForward; MTurn peer_b TForward; MTurn peer_c TForward].

Definition three_nodes : list MeshStep :=
  [start_node kp_a; start_node kp_b; start_node (as_bytes "key-c"); MLink peer_a peer_b link_default; MLink peer_b peer_c link_default;
   MTurn peer_a (TCommand (SendDirect peer_c "hello from A"))].

Definition three_hop_run : option Mesh :=
  mesh_run_for mesh_host 5020 (replicate 8 round) 5000 (mesh_run mesh_host three_nodes (mesh_new 0 42)).

Definition three_hop_delivery : bool :=
  match three_hop_run with
  | Some m => bool_decide (delivered (sim_metrics (mesh_sim m)) = 1) && bool_decide (duplicates (sim_metrics (mesh_sim m)) = 0)
  | None => false
  end.

(** ** [scenarios.rs] *)

Definition wall (n : nat) : Z := 7 + Z.of_nat n.
Definition reported (r : option ScenarioReport) (f : ScenarioReport -> bool) : bool := match r with Some r => f r | None => false end.

Definition partition_scenario_produces_metrics : bool :=
  reported (partition_and_merge wall 3002 42) (fun r => bool_decide (0 < expected_deliveries r) && Qle_bool 0 (delivery_success_rate r)).
Definition high_load_scenario_records_losses_or_deliveries : bool :=
  reported (high_message_load wall 5002 7) (fun r => bool_decide (0 < delivered (rp_metrics r) + dropped_loss (rp_metrics r))).
Definition churn_scenario_tracks_latency_samples : bool :=
  reported (node_churn wall 4002 99) (fun r => Qle_bool 0 (avg_latency_ms r)).
Definition bloom_sync_scenario_runs : bool :=
  let eff := bloom_sync_efficiency_compare 10 50 in
  bool_decide (0 < expected_deliveries (bloom_sync_efficiency 5))
  && bool_decide (bloom_bytes_per_round eff < ids_bytes_per_round eff)
  && bool_decide (estimated_roundtrips_bloom eff <= estimated_roundtrips_ids eff).
Definition hop_limit_scenario_runs : bool := bool_decide (0 < expected_deliveries (hop_limit_containment 6)).
Definition scope_isolation_scenario_runs : bool := bool_decide (0 < expected_deliveries (scope_isolation 7)).
End SimTests.

(** The tests of the crate pass on the model. *)
Theorem sim_tests_pass :
  [SimTests.scheduler_orders_by_time_then_sequence; SimTests.scheduler_waits_until_ready;
   SimTests.simulation_is_deterministic_with_same_seed; SimTests.offline_nodes_drop_messages; SimTests.three_hop_delivery;
   SimTests.partition_scenario_produces_metrics; SimTests.high_load_scenario_records_losses_or_deliveries;
   SimTests.churn_scenario_tracks_latency_samples; SimTests.bloom_sync_scenario_runs; SimTests.hop_limit_scenario_runs;
   SimTests.scope_isolation_scenario_runs] = replicate 11 true.
Proof. vm_compute. reflexivity. Qed.

(** What [three_hop_delivery] does not look at: the frame it counts as delivered
    reaches the third node and is dropped there for its signature.  The node in the
    middle hands the message to its own application; the node it is for does not. *)
Theorem three_hop_message_is_lost :
  exists m, SimTests.three_hop_run = Some m
    /\ delivered (sim_metrics (mesh_sim m)) = 1
    /\ incoming (sn_runner (node_at SimTests.peer_c m)) = []
    /\ messages_dropped_invalid_sig (NodeData.metrics (sn_runner (node_at SimTests.peer_c m))) = 1
    /\ length (incoming (sn_runner (node_at peer_b m))) = 1%nat.
Proof.
  assert ((fun o => match o with
    | Some m => (delivered (sim_metrics (mesh_sim m)), incoming (sn_runner (node_at SimTests.peer_c m)),
        messages_dropped_invalid_sig (NodeData.metrics (sn_runner (node_at SimTests.peer_c m))), length (incoming (sn_runner (node_at peer_b m))))
    | None => (0, [], 0, 0%nat) end) SimTests.three_hop_run = (1, [], 1, 1%nat)) as H by (vm_compute; reflexivity).
  destruct SimTests.three_hop_run as [m|]; [|discriminate]. exists m. injection H as H1 H2 H3 H4. by split_and!.
Qed.
