(* ===== verification/FfiData.v ===== *)
(** * The mobile bindings: data

    [mycelium-ffi/src/lib.rs]: the records that cross the language boundary and
    their conversions, the events of the callback interface, and the state the
    library keeps in statics. *)

From S2P Require Import Prelude External Text Instances Transaction Policy Ledger CoinNode Wire.
From S2P Require Import E2E AtRest Bootstrap Payment NodeData NodeHandle Host AppStorage Proximity MiniApp MiniAppStore.
From S2P Require Import AppNodeData AppNode Bridge BridgeHost.

Open Scope Z_scope.

Inductive MyceliumException :=
| InstallError (detail : string)
| ChatError (detail : string).

Record FfiMetrics := mkFfiMetrics {
  fm_messages_forwarded : Z;
  fm_messages_dropped_ttl : Z;
  fm_messages_dropped_queue : Z;
  fm_messages_delivered_local : Z;
  fm_pending_queue_size : Z;
  fm_seen_cache_size : Z;
  fm_connected_peers : Z;
  fm_max_peers : Z;
  fm_peer_cap_rejections : Z;
}.

Definition metrics_to_ffi (m : NodeMetrics) : FfiMetrics :=
  mkFfiMetrics (messages_forwarded m) (messages_dropped_ttl m) (messages_dropped_queue m) (messages_delivered_local m)
    (Z.of_nat (pending_queue_size m)) (Z.of_nat (seen_cache_size m)) (Z.of_nat (connected_peers m))
    (max_peers m) (peer_cap_rejections m).

Record FfiChat := mkFfiChat {
  fc_id : string;
  fc_from_peer : string;
  fc_from_display_name : string;
  fc_body : string;
  fc_timestamp_ms : Z;
}.

Definition to_chat_message (m : ChatMessage) (from_peer : string) : FfiChat :=
  mkFfiChat (ch_id m) from_peer (ch_from_display_name m) (ch_body m) (ch_timestamp_ms m).

Record FfiPost := mkFfiPost {
  fp_id : string;
  fp_from_display_name : string;
  fp_title : string;
  fp_body : string;
  fp_scope : string;
  fp_timestamp_ms : Z;
  fp_expires_at_ms : Z;
}.

Definition to_bulletin (p : BulletinPost) : FfiPost :=
  mkFfiPost (bp_id p) (bp_from_display_name p) (bp_title p) (bp_body p) (bp_scope p) (bp_timestamp_ms p)
    (bp_expires_at_ms p).

Record FfiMail := mkFfiMail {
  fl_id : string;
  fl_from_peer : string;
  fl_from_display_name : string;
  fl_to_peer : string;
  fl_subject : string;
  fl_body : string;
  fl_timestamp_ms : Z;
  fl_is_read : bool;
}.

Definition to_mail_message (m : MailMessage) (is_read : bool) : FfiMail :=
  mkFfiMail (ml_id m) (ml_from_peer m) (ml_from_display_name m) (ml_to_peer m) (ml_subject m) (ml_body m)
    (ml_timestamp_ms m) is_read.

Record GroupInfo := mkGroupInfo {
  gi_id : string;
  gi_name : string;
  gi_member_count : Z;
  gi_created_at_ms : Z;
}.

(** [g.members.len() as u32] *)
Definition group_to_info (g : Group) : GroupInfo :=
  mkGroupInfo (gr_id g) (gr_name g) (wrap 32 (Z.of_nat (length (gr_members g)))) (gr_created_at_ms g).

(** the status keeps its constructors *)
Record ContactInfo := mkContactInfo {
  cti_peer_id : string;
  cti_display_name : string;
  cti_added_at_ms : Z;
  cti_status : ContactStatus;
}.

Definition contact_to_info (c : Contact) : ContactInfo :=
  mkContactInfo (ct_peer_id c) (ct_display_name c) (ct_added_at_ms c) (ct_status c).

Record NearbyProfile := mkNearbyProfile {
  np_ephemeral_id : string;
  np_enc_pubkey_hex : string;
  np_profile : PresenceProfile;
  np_seen_at_ms : Z;
  np_has_expired : bool;
  np_interest_sent : bool;
  np_interest_received : bool;
  np_is_mutual : bool;
}.

Definition entry_to_nearby (now : Z) (e : ProximityNearbyEntry) : NearbyProfile :=
  let s := ne_signal e in
  mkNearbyProfile (ps_ephemeral_id s) (ps_enc_pubkey_hex s) (ps_profile s) (ps_created_at_ms s)
    (signal_is_expired now s) (ne_interest_sent e) (ne_interest_received e) (ne_is_mutual e).

Record ScopeKeyInfo := mkScopeKeyInfo { ski_scope : string; ski_display_name : string; ski_added_at_ms : Z }.

(** the key itself stays inside *)
Definition scope_key_to_info (k : ScopeKey) : ScopeKeyInfo :=
  mkScopeKeyInfo (sk_scope k) (sk_display_name k) (sk_added_at_ms k).

Record WalletBalance := mkWalletBalance { wb_confirmed_muon : Z; wb_pending_muon : Z }.

Record TxInfo := mkTxInfo {
  ti_id : string;
  ti_from_address : string;
  ti_to_address : string;
  ti_amount_muon : Z;
  ti_fee_muon : Z;
  ti_timestamp_ms : Z;
  ti_memo : option string;
  ti_witness_count : Z;
  ti_confirmed : bool;
}.

Definition tx_to_info (t : Transaction) : TxInfo :=
  let witness_count := wrap 32 (Z.of_nat (size (witnesses t))) in
  mkTxInfo (tx_id t) (tx_from t) (tx_to t) (amount_muon t) (fee_muon t) (timestamp_ms t) (memo t)
    witness_count (3 <=? witness_count).

Record HotWalletStatus := mkHotStatus {
  hs_confirmed_muon : Z;
  hs_pending_muon : Z;
  hs_max_cache_muon : Z;
  hs_auto_refill_enabled : bool;
  hs_needs_refill : bool;
  hs_connectivity : ConnectivityMode;
}.

Record PaymentRequestData := mkPaymentData {
  pq_to_address : string;
  pq_amount_muon : Z;
  pq_memo : option string;
  pq_expires_at_ms : option Z;
}.

Record MiniAppInfo := mkAppInfo {
  ai_id : string;
  ai_name : string;
  ai_description : string;
  ai_version : string;
  ai_developer : string;
  ai_entry : string;
  ai_accepts_payments : bool;
  ai_payment_address : option string;
  ai_permissions : list string;
}.

Definition mini_app_manifest_to_info (m : MiniAppManifest) : MiniAppInfo :=
  mkAppInfo (mf_id m) (mf_name m) (mf_description m) (mf_version m) (mf_developer m) (mf_entry m)
    (mf_accepts_payments m) (mf_payment_address m) (permission_name <$> mf_permissions m).

Definition trust_level_name (l : InstallTrustLevel) : string :=
  match l with
  | LVerifiedListing => "verified_listing"
  | LMatchingListingHash => "matching_listing_hash"
  | LSideloadOnly => "sideload_only"
  | LHashMismatch => "hash_mismatch"
  end.

Record MiniAppInstallPreview := mkFfiPreview {
  pv_manifest : MiniAppInfo;
  pv_bundle_hash : string;
  pv_trust_level : string;
  pv_listing_signature_ok : bool;
  pv_installed_version : option string;
  pv_is_downgrade : bool;
  pv_has_inline_script : bool;
  pv_strict_csp_eligible : bool;
  pv_bundle_signature_ok : bool;
  pv_reproducible_attested : bool;
}.

Definition preview_to_ffi (p : InstallPreview) : MiniAppInstallPreview :=
  mkFfiPreview (mini_app_manifest_to_info (ip_manifest p)) (ip_bundle_hash p) (trust_level_name (ip_trust_level p))
    (ip_listing_signature_ok p) (ip_installed_version p) (ip_is_downgrade p) (ip_has_inline_script p)
    (ip_strict_csp_eligible p) (ip_bundle_signature_ok p) (ip_reproducible_attested p).

Record FfiListing := mkFfiListing {
  fa_manifest : MiniAppInfo;
  fa_bundle_hash : string;
  fa_updated_at_ms : Z;
  fa_signature_valid : bool;
}.

Section listing.
Context `{C : Crypto} `{SC : MiniCodecs}.

(** [l.verify_signature().unwrap_or(false)] *)
Definition to_app_store_listing (l : AppStoreListing) : FfiListing :=
  mkFfiListing (mini_app_manifest_to_info (ls_manifest l)) (ls_bundle_hash l) (ls_updated_at_ms l)
    (match listing_verify_signature l with Ok b => b | Err _ => false end).
End listing.

(** the calls of [NodeEventCallback] *)
Inductive NodeEvent :=
| OnPeerDiscovered (peer_id : string)
| OnPeerLost (peer_id : string)
| EvChatReceived (m : FfiChat)
| EvMailReceived (m : FfiMail)
| EvBulletinReceived (p : FfiPost)
| EvAppStoreListing (l : FfiListing)
| OnConnectivityChanged (mode : ConnectivityMode)
| EvContactRequest (peer_id display_name : string).

(** ** State *)
Section ffi_state.
Context `{C : Crypto} `{D : Sled} `{DB : !SledDb} `{CH : !CoinHost}.

(** [struct NodeState]: the app node holds the app store and the coin node too *)
Record FfiNode := mkFfiNode {
  fn_app : AppNode;
  fn_conf : AppConf;
  fn_cap_mac_key : list byte;
  fn_display_name : string;
  fn_hot_wallet : HotWalletConfig;
  fn_connectivity_mode : ConnectivityMode;
}.

(** The statics: [RUNTIME], [NODE] with its poison flag, [CALLBACK] with what it
    has been called with, and the tables of the bridge. *)
Record Ffi := mkFfi {
  ff_runtime : bool;
  ff_node : option FfiNode;
  ff_poisoned : bool;
  ff_callback : bool;
  ff_events : list NodeEvent;
  ff_sessions : gmap string Session;
  ff_limits : gmap string (Z * Z);
  ff_broadcasts : gmap string (Z * Z);
}.

Definition ffi_new : Ffi := mkFfi false None false false [] ∅ ∅ ∅.

Definition set_ff_runtime (v : bool) (s : Ffi) : Ffi :=
  mkFfi v (ff_node s) (ff_poisoned s) (ff_callback s) (ff_events s) (ff_sessions s) (ff_limits s) (ff_broadcasts s).
Definition set_ff_node (v : option FfiNode) (s : Ffi) : Ffi :=
  mkFfi (ff_runtime s) v (ff_poisoned s) (ff_callback s) (ff_events s) (ff_sessions s) (ff_limits s) (ff_broadcasts s).
Definition set_ff_poisoned (v : bool) (s : Ffi) : Ffi :=
  mkFfi (ff_runtime s) (ff_node s) v (ff_callback s) (ff_events s) (ff_sessions s) (ff_limits s) (ff_broadcasts s).
Definition set_ff_callback (v : bool) (s : Ffi) : Ffi :=
  mkFfi (ff_runtime s) (ff_node s) (ff_poisoned s) v (ff_events s) (ff_sessions s) (ff_limits s) (ff_broadcasts s).
Definition set_ff_events (v : list NodeEvent) (s : Ffi) : Ffi :=
  mkFfi (ff_runtime s) (ff_node s) (ff_poisoned s) (ff_callback s) v (ff_sessions s) (ff_limits s) (ff_broadcasts s).
Definition set_ff_sessions (v : gmap string Session) (s : Ffi) : Ffi :=
  mkFfi (ff_runtime s) (ff_node s) (ff_poisoned s) (ff_callback s) (ff_events s) v (ff_limits s) (ff_broadcasts s).

Definition set_fn_app (v : AppNode) (n : FfiNode) : FfiNode :=
  mkFfiNode v (fn_conf n) (fn_cap_mac_key n) (fn_display_name n) (fn_hot_wallet n) (fn_connectivity_mode n).
Definition set_fn_display_name (v : string) (n : FfiNode) : FfiNode :=
  mkFfiNode (fn_app n) (fn_conf n) (fn_cap_mac_key n) v (fn_hot_wallet n) (fn_connectivity_mode n).
Definition set_fn_hot_wallet (v : HotWalletConfig) (n : FfiNode) : FfiNode :=
  mkFfiNode (fn_app n) (fn_conf n) (fn_cap_mac_key n) (fn_display_name n) v (fn_connectivity_mode n).
Definition set_fn_connectivity_mode (v : ConnectivityMode) (n : FfiNode) : FfiNode :=
  mkFfiNode (fn_app n) (fn_conf n) (fn_cap_mac_key n) (fn_display_name n) (fn_hot_wallet n) v.
End ffi_state.
