(* ===== verification/Ffi.v ===== *)
(** * The mobile bindings: calls

    [mycelium-ffi/src/lib.rs].  A panic is an error of the monad: the foreign
    side sees an exception, and what was done before stays done.  [NODE] is a
    [std] mutex, so a panic while it is held poisons it; the lock inside is
    tokio's, which is not poisoned.  [with_state] asks for the runtime first,
    the other calls take the node first.  Clock readings and uuids of calls that
    do not reach a node are arguments. *)

From S2P Require Import Prelude External Text Instances Transaction Policy Ledger CoinNode Wire.
From S2P Require Import E2E AtRest Bootstrap Payment NodeData NodeHandle Host AppStorage Proximity MiniApp MiniAppStore.
From S2P Require Import AppNodeData AppNode Api Bridge BridgeHost FfiData.

Open Scope Z_scope.

Section ffi.
Context `{C : Crypto} `{D : Sled} `{DB : !SledDb} `{P : E2EPrims} `{J : Json} `{BW : Bincode WireMessage}.
Context `{BT : Bincode Transaction} `{BA : Bincode AccountState} `{BV : Bincode VelocityWindow}.
Context `{BP : Bincode CoinPayload} `{CH : !CoinHost}.
Context `{SC : MiniCodecs} `{ZP : Zip} `{L : Lowercase}.
Context `{B : AppCodecs} `{MC : MeshCodecs} `{AH : AppHost} `{K : CapPrims} `{U : UrlEncoding} `{UT : UuidText}.

Abbreviation ffi := (ST Ffi).
Abbreviation node := (ST FfiNode).

(** ** The statics *)

(** [NODE.lock().expect(..).as_ref().cloned().expect(..)]: the guard is alive
    when the second [expect] panics *)
Definition state_arc : ffi FfiNode := fun s =>
  if ff_poisoned s then (s, Err "node lock"%string) else
  match ff_node s with
  | None => (set_ff_poisoned true s, Err "node not initialized"%string)
  | Some n => (s, Ok n)
  end.

Definition runtime : ffi unit := fun s =>
  if ff_runtime s then (s, Ok tt) else (s, Err "runtime not initialized"%string).

(** a computation on the node behind the lock *)
Definition on_state {A} (m : node A) : ffi A := fun s =>
  match ff_node s with
  | None => (s, Err "node not initialized"%string)
  | Some n => let '(n', r) := m n in (set_ff_node (Some n') s, r)
  end.

Definition with_state {A} (m : node A) : ffi A := _ ← runtime; _ ← state_arc; on_state m.
Definition state_first {A} (m : node A) : ffi A := _ ← state_arc; _ ← runtime; on_state m.

(** ** Inside the node *)

Definition on_app {A} (m : AppConf -> ST AppNode A) : node A := fun n =>
  let '(a, r) := m (fn_conf n) (fn_app n) in (set_fn_app a n, r).
Definition on_db {A} (m : ST AppStorage A) : node A := on_app (fun _ => on_storage m).

(** [s.coin_node] and [s.app_store] are the objects the app node was given *)
Definition on_coin_node {A} (m : CoinConfig -> ST CoinState A) : node A := on_app (fun cfg a =>
  match an_coin a with
  | None => (a, Err "no coin node"%string)
  | Some c => let '(c', r) := m (ac_coin cfg) c in (set_an_coin (Some c') a, r)
  end).
Definition on_apps {A} (m : ST Db A) : node A := on_app (fun _ a =>
  match an_app_store a with
  | None => (a, Err "no app store"%string)
  | Some d => let '(d', r) := m d in (set_an_app_store (Some d') a, r)
  end).

Definition or_default {S A} (d : A) (m : ST S A) : ST S A :=
  r ← st_attempt m; mret (match r with Ok a => a | Err _ => d end).
(** [.ok().flatten()] *)
Definition ok_flatten {S A} (m : ST S (option A)) : ST S (option A) := or_default None m.
Definition or_throw {S A} (e : string -> MyceliumException) (m : ST S A) : ST S (Res MyceliumException A) :=
  r ← st_attempt m; mret (match r with Ok a => Ok a | Err d => Err (e d) end).

Definition node_now : node Z := on_app (fun _ => a_now).

(** ** Start and stop *)

(** the [NodeConfig] of the foreign side *)
Record FfiConfig := mkFfiConfig {
  fg_db_path : string;
  fg_listen_addr : string;
  fg_display_name : string;
  fg_bootstrap_peers : list string;
  fg_storage_key_hex : option string;
  fg_rendezvous_enabled : bool;
  fg_bulletin_subscriptions : list string;
}.

(** what the constructors called by [init_node] return: the listen address, the
    run loop with the views it shares, the databases, the identity, the ledger,
    the encryption keys, and the disk and keyring as they leave them, from which
    the coin node loads its identity later *)
Record Opened := mkOpened {
  od_listen_addr : string -> anyhow unit;
  od_runner : NodeConfig -> anyhow string;
  od_peer_keys : gmap string (list byte);
  od_peers : list string;
  od_app_db : anyhow Db;
  od_app_store : anyhow Db;
  od_identity : anyhow Keypair;
  od_ledger : anyhow LocalLedger;
  od_enc : anyhow EncryptionKeypair;
  od_vault : IdentityVault;
}.

Definition storage_key_of (c : FfiConfig) : anyhow (option (list byte)) :=
  match fg_storage_key_hex c with
  | None => Ok None
  | Some h => k ← parse_storage_key_hex h; Ok (Some k)
  end.

Definition rust_config (c : FfiConfig) (storage_key : option (list byte)) : NodeConfig :=
  mkNodeConfig (fg_listen_addr c) (fg_db_path c) (Some (fg_db_path c +:+ "/identity")%string) 500 30 (fg_bootstrap_peers c) true
    (Some (fg_display_name c)) storage_key 3 (fg_rendezvous_enabled c) (fg_bulletin_subscriptions c) 50.

Definition open_parts (c : FfiConfig) (o : Opened) (mode : ConnectivityMode) : anyhow FfiNode :=
  storage_key ← storage_key_of c;
  _ ← od_listen_addr o (fg_listen_addr c);
  local_peer_id ← od_runner o (rust_config c storage_key);
  app_db ← od_app_db o;
  app_store ← od_app_store o;
  identity ← od_identity o;
  ledger ← od_ledger o;
  enc ← od_enc o;
  let path := (fg_db_path c +:+ "/identity")%string in
  let coin := mkCoinConfig (address_from_keypair identity) local_peer_id path in
  Ok (mkFfiNode
        (app_node_new (od_peer_keys o) (od_peers o) (fg_display_name c) (mkApp app_db storage_key)
           (Some (mkCoin ledger [] 0 (od_vault o))) (Some app_store))
        (mkAppConf local_peer_id enc coin) (mac_key_from_db_path (fg_db_path c)) (fg_display_name c) hot_default mode).

(** the last lock panics when [NODE] is poisoned *)
Definition init_node (c : FfiConfig) (o : Opened) (mode : ConnectivityMode) : ffi unit :=
  _ ← st_modify (set_ff_runtime true);
  n ← st_lift (open_parts c o mode);
  s ← st_get;
  if ff_poisoned s then st_err "node lock" else st_modify (set_ff_node (Some n)).

Definition stop_node : ffi unit :=
  s ← st_get;
  if negb (ff_runtime s) then mret tt else
  if ff_poisoned s then st_err "node lock" else st_modify (set_ff_node None).

(** ** Background tasks *)

Definition emit (e : NodeEvent) : ffi unit :=
  st_modify (fun s => if ff_callback s then set_ff_events (ff_events s ++ [e]) s else s).

Definition set_event_callback : ffi unit := st_modify (set_ff_callback true).

(** [FfiNotifier] *)
Definition ffi_notify (n : Notification) : ffi unit :=
  match n with
  | OnContactRequest peer name => emit (EvContactRequest peer name)
  | _ => mret tt
  end.

Definition hot_wallet_round (fuel : nat) : node unit :=
  hot ← st_gets fn_hot_wallet;
  _ ← st_ignore (on_coin_node (fun cfg => maybe_refill cfg hot (coin_identity_path cfg)));
  st_ignore (on_coin_node (fun cfg => enforce_cap cfg fuel hot (coin_identity_path cfg))).

(** the start of the connectivity task, and one round of its loop *)
Definition connectivity_start (fuel : nat) (mode : ConnectivityMode) : ffi unit :=
  _ ← on_state (st_modify (set_fn_connectivity_mode mode));
  if decide (mode = Internet) then on_state (hot_wallet_round fuel) else mret tt.

Definition connectivity_changed (fuel : nat) (mode : ConnectivityMode) : ffi unit :=
  _ ← on_state (st_modify (set_fn_connectivity_mode mode));
  _ ← emit (OnConnectivityChanged mode);
  if decide (mode = Internet) then on_state (hot_wallet_round fuel) else mret tt.

Fixpoint emit_all (es : list NodeEvent) : ffi unit :=
  match es with
  | [] => mret tt
  | e :: es => _ ← emit e; emit_all es
  end.

(** one tick of the peer watcher, which returns the set it will compare with *)
Definition peer_watch (known : gset string) : ffi (gset string) :=
  peers ← on_state (on_app (fun _ => known_peers));
  let current : gset string := list_to_set peers in
  _ ← emit_all ((OnPeerDiscovered <$> elements (current ∖ known)) ++ (OnPeerLost <$> elements (known ∖ current)));
  mret current.

(** one item of the inbox task *)
Inductive InboxItem :=
| ItChat (c : ChatIncoming)
| ItMail (m : MailMessage)
| ItPost (p : BulletinPost)
| ItListing (l : AppStoreListing).

Definition inbox_event (i : InboxItem) : NodeEvent :=
  match i with
  | ItChat c => EvChatReceived (to_chat_message (ci_message c) (ci_from_peer c))
  | ItMail m => EvMailReceived (to_mail_message m false)
  | ItPost p => EvBulletinReceived (to_bulletin p)
  | ItListing l => EvAppStoreListing (to_app_store_listing l)
  end.

Definition inbox_step (i : InboxItem) : ffi unit := emit (inbox_event i).

(** ** The coin transport *)

Definition encode_coin_payload (inner : list byte) : anyhow (list byte) := ser (mkAppMsg IdCoin (Coin inner)).

Definition ffi_coin_transport (c : CoinSend) : anyhow NodeCommand :=
  match c with
  | BroadcastCoinInner inner => p ← encode_coin_payload inner; Ok (BroadcastPayload "mycelium/coin/v1" "[coin]" p)
  | SendDirectCoinInner to inner => p ← encode_coin_payload inner; Ok (SendDirectPayload to "[coin]" p)
  end.

(** ** Identity and peers *)

Definition ffi_local_peer_id : ffi string := with_state (st_gets (fun n => ac_local_peer_id (fn_conf n))).
Definition ffi_relay_peer_id (v : NodeView) : ffi string := state_first (mret (handle_relay_peer_id v)).
Definition ffi_relay_keypair_age_secs (v : NodeView) : ffi Z := state_first (mret (relay_keypair_age_secs v)).
Definition ffi_known_peers : ffi (list string) := state_first (on_app (fun _ => known_peers)).
Definition ffi_metrics (v : NodeView) : ffi FfiMetrics := state_first (mret (metrics_to_ffi (nv_metrics v))).
Definition ffi_local_enc_pubkey : ffi string := with_state (st_gets (fun n => local_enc_pubkey_hex (fn_conf n))).
Definition ffi_has_enc_key_for (peer_id : string) : ffi bool := state_first (on_app (fun _ => has_enc_key_for peer_id)).

(** ** Chat *)

Definition send_chat_direct (to body : string) : ffi (Res MyceliumException unit) :=
  state_first (or_throw ChatError (_ ← on_app (fun cfg => send_chat cfg (Some to) body); mret tt)).
Definition send_chat_broadcast (body : string) : ffi (Res MyceliumException unit) :=
  state_first (or_throw ChatError (_ ← on_app (fun cfg => send_chat cfg None body); mret tt)).
Definition ffi_send_chat_encrypted (to body : string) : ffi (Res MyceliumException unit) :=
  state_first (or_throw ChatError (on_app (fun cfg => send_chat_encrypted cfg to body))).
Definition ffi_chat_history (peer_id : string) (limit : Z) : ffi (list FfiChat) :=
  state_first (l ← or_default [] (on_db (chat_history peer_id (Z.to_nat limit)));
               mret ((fun m => to_chat_message m peer_id) <$> l)).

(** ** Contacts *)

Definition ffi_contacts (m : ST AppNode (list Contact)) : ffi (list ContactInfo) :=
  with_state (l ← or_default [] (on_app (fun _ => m)); mret (contact_to_info <$> l)).
Definition ffi_list_contacts : ffi (list ContactInfo) := ffi_contacts list_contacts.
Definition ffi_list_accepted_contacts : ffi (list ContactInfo) := ffi_contacts list_accepted_contacts.
Definition ffi_list_pending_contacts : ffi (list ContactInfo) := ffi_contacts list_pending_contacts.
Definition ffi_add_contact (peer_id display_name : string) (accepted : bool) : ffi ContactInfo :=
  with_state (c ← on_app (fun _ => add_contact peer_id display_name accepted); mret (contact_to_info c)).
Definition ffi_accept_contact (peer_id : string) : ffi ContactInfo :=
  with_state (c ← on_app (fun _ => accept_contact peer_id); mret (contact_to_info c)).
Definition ffi_reject_contact (peer_id : string) : ffi unit := with_state (st_ignore (on_app (fun _ => reject_contact peer_id))).
Definition ffi_remove_contact (peer_id : string) : ffi unit := with_state (st_ignore (on_app (fun _ => remove_contact peer_id))).

(** ** Groups *)

Definition ffi_list_groups : ffi (list GroupInfo) :=
  with_state (l ← or_default [] (on_db all_groups); mret (group_to_info <$> l)).

Definition new_group (name : string) : ST AppNode Group :=
  key ← a_random 32; now ← a_now; mret (group_new name key now).

Definition ffi_create_group (name : string) : ffi GroupInfo :=
  state_first (g ← on_app (fun _ => new_group name); _ ← on_db (save_group g); mret (group_to_info g)).

(** [.ok()?] *)
Definition ffi_import_group_invite (json : string) : ffi (option GroupInfo) :=
  state_first (
    r ← st_attempt (now ← node_now; g ← st_lift (group_from_invite json now); _ ← on_db (save_group g); mret g);
    mret (match r with Ok g => Some (group_to_info g) | Err _ => None end)).

Definition ffi_export_group_invite (group_id : string) : ffi string :=
  with_state (o ← ok_flatten (on_db (group_by_id group_id));
              mret (match o with Some g => group_export_invite g | None => ""%string end)).

Definition ffi_send_group_message (group_id body : string) : ffi unit :=
  state_first (
    o ← ok_flatten (on_db (group_by_id group_id));
    match o with
    | None => mret tt
    | Some g => st_ignore (on_app (fun cfg => send_group_message cfg g body))
    end).

Definition ffi_delete_group (group_id : string) : ffi unit := with_state (st_ignore (on_db (delete_group group_id))).

Definition ffi_group_chat_history (group_id : string) (limit : Z) : ffi (list FfiChat) :=
  state_first (l ← or_default [] (on_db (group_chat_history group_id (Z.to_nat limit)));
               mret ((fun m => to_chat_message m ("group:" +:+ group_id)) <$> l)).

(** ** Bulletins and scope keys *)

Definition ffi_post_bulletin (scope title body : string) (ttl_secs : Z) : ffi unit :=
  state_first (st_ignore (on_app (fun _ => post_bulletin scope title body ttl_secs))).
Definition ffi_bulletins_for_scope (scope : string) : ffi (list FfiPost) :=
  with_state (l ← or_default [] (on_app (fun _ => app_bulletins_for_scope scope)); mret (to_bulletin <$> l)).
Definition ffi_get_bulletin_subscriptions (v : NodeView) : ffi (list string) := state_first (mret (nv_bulletins v)).
Definition ffi_send_command (c : NodeCommand) : ffi unit := state_first (st_ignore (on_app (fun _ => send c))).
Definition ffi_subscribe_bulletin_scope (scope : string) : ffi unit := ffi_send_command (SubscribeBulletinScope scope).
Definition ffi_unsubscribe_bulletin_scope (scope : string) : ffi unit := ffi_send_command (UnsubscribeBulletinScope scope).
Definition ffi_is_bulletin_enabled (v : NodeView) : ffi bool := state_first (mret (is_bulletin_enabled v)).
Definition ffi_list_scope_keys : ffi (list ScopeKeyInfo) :=
  with_state (l ← or_default [] (on_app (fun _ => list_scope_keys)); mret (scope_key_to_info <$> l)).
Definition ffi_add_scope_key (invite : string) : ffi (Res MyceliumException unit) :=
  state_first (or_throw ChatError (_ ← on_app (fun _ => add_scope_key_from_invite invite); mret tt)).
Definition ffi_create_scope_key (scope name : string) : ffi unit :=
  state_first (st_ignore (on_app (fun _ => create_scope_key scope name))).
Definition ffi_export_scope_key (scope : string) : ffi (Res MyceliumException string) :=
  with_state (or_throw ChatError (on_app (fun _ => export_scope_key scope))).
Definition ffi_delete_scope_key (scope : string) : ffi unit :=
  state_first (st_ignore (on_app (fun _ => app_delete_scope_key scope))).
Definition ffi_scope_is_encrypted (scope : string) : ffi bool :=
  with_state (or_default false (on_app (fun _ => scope_is_encrypted scope))).

(** ** Proximity *)

Definition ffi_start_proximity (profile : PresenceProfile) (ttl_secs : Z) : ffi (Res MyceliumException unit) :=
  state_first (or_throw ChatError (on_app (fun cfg => start_proximity cfg profile ttl_secs))).
Definition ffi_stop_proximity : ffi unit := state_first (on_app (fun _ => stop_proximity)).

(** each entry is aged by a reading of its own *)
Fixpoint nearby_infos (l : list ProximityNearbyEntry) : node (list NearbyProfile) :=
  match l with
  | [] => mret []
  | e :: l => now ← node_now; rest ← nearby_infos l; mret (entry_to_nearby now e :: rest)
  end.
Definition ffi_nearby_profiles : ffi (list NearbyProfile) :=
  state_first (l ← on_app (fun _ => nearby_profiles); nearby_infos l).
Definition ffi_express_proximity_interest (enc : string) : ffi (Res MyceliumException bool) :=
  state_first (or_throw ChatError (on_app (fun cfg => express_proximity_interest cfg enc))).
Definition ffi_proximity_messages (since_ms : Z) : ffi (list ProximityReceivedMessage) :=
  state_first (on_app (fun _ => proximity_messages since_ms)).
Definition ffi_is_proximity_active : ffi bool := with_state (st_gets (fun n => an_px_active (fn_app n))).
Definition ffi_send_proximity_message (enc message : string) : ffi (Res MyceliumException unit) :=
  state_first (or_throw ChatError (on_app (fun cfg => send_proximity_message cfg enc message))).

(** ** Mail and settings *)

Definition ffi_send_mail (to subject body : string) : ffi unit :=
  state_first (st_ignore (on_app (fun cfg => send_mail cfg to subject body []))).

Fixpoint with_read_flags (l : list MailMessage) : node (list FfiMail) :=
  match l with
  | [] => mret []
  | m :: l =>
      r ← or_default false (on_db (is_read (ml_id m)));
      rest ← with_read_flags l;
      mret (to_mail_message m r :: rest)
  end.

Definition ffi_mail_inbox (limit : Z) : ffi (list FfiMail) :=
  with_state (l ← or_default [] (on_db (inbox (Z.to_nat limit))); with_read_flags l).
Definition ffi_mail_sent (limit : Z) : ffi (list FfiMail) :=
  with_state (l ← or_default [] (on_db (sent (Z.to_nat limit))); mret ((fun m => to_mail_message m false) <$> l)).
Definition ffi_mark_mail_read (mail_id : string) : ffi unit :=
  match uuid_parse mail_id with
  | Ok id => with_state (st_ignore (on_db (mark_read id)))
  | Err _ => mret tt
  end.

Definition ffi_set_display_name (name : string) : ffi unit :=
  state_first (_ ← on_app (fun _ => set_display_name name); st_modify (set_fn_display_name name)).
Definition ffi_display_name : ffi string := state_first (st_gets fn_display_name).
Definition ffi_set_energy_state (st : NodeState) : ffi unit := ffi_send_command (SetEnergyState st).
Definition ffi_set_rendezvous_enabled (b : bool) : ffi unit := ffi_send_command (SetRendezvousEnabled b).
Definition ffi_add_bootstrap_peer (multiaddr : string) : ffi unit := ffi_send_command (AddBootstrapPeer multiaddr).

(** ** Wallet *)

Definition wallet_address : ffi string := with_state (st_gets (fun n => local_address (ac_coin (fn_conf n)))).
Definition balance_or_zero : node (Z * Z) := or_default (0, 0) (on_coin_node coin_balance).
Definition wallet_balance : ffi WalletBalance :=
  with_state ('(c, p) ← balance_or_zero; mret (mkWalletBalance c p)).

Definition pay_checked (to : string) (amount : Z) (memo : option string) : node unit :=
  if negb (validate_address to) then st_err "invalid MeshCoin address" else
  on_coin_node (fun cfg => submit_transfer_from_identity_path cfg (coin_identity_path cfg) to amount 1000 memo).
Definition ffi_send_transaction (to : string) (amount : Z) (memo : option string) : ffi unit :=
  state_first (st_ignore (pay_checked to amount memo)).

Definition wallet_recent_transactions (limit : Z) : ffi (list TxInfo) :=
  with_state (l ← or_default [] (on_coin_node (fun _ c => (c, recent_transactions (Z.to_nat limit) (cn_ledger c))));
              mret (tx_to_info <$> l)).
Definition request_faucet : ffi unit := with_state (st_ignore (on_coin_node request_faucet_coins)).
Definition get_hot_wallet_config : ffi HotWalletConfig := state_first (st_gets fn_hot_wallet).
Definition set_hot_wallet_config (c : HotWalletConfig) : ffi unit := state_first (st_modify (set_fn_hot_wallet c)).
Definition set_cold_wallet_address (address : option string) : ffi unit :=
  state_first (
    c ← st_gets fn_hot_wallet;
    st_modify (set_fn_hot_wallet (mkHotConfig (max_cache_muon c) (refill_threshold_muon c) (refill_amount_muon c) address))).
Definition hot_wallet_status : ffi HotWalletStatus :=
  state_first (
    '(conf, pend) ← balance_or_zero;
    cfg ← st_gets fn_hot_wallet;
    net ← st_gets fn_connectivity_mode;
    let has_cold := bool_decide (is_Some (cold_wallet_address cfg)) in
    mret (mkHotStatus conf pend (max_cache_muon cfg) has_cold (has_cold && (conf <? refill_threshold_muon cfg)) net)).
Definition current_connectivity_mode : ffi ConnectivityMode := with_state (st_gets fn_connectivity_mode).

Definition build_payment_request_uri (to : string) (amount : Z) (memo : option string) (now : Z) (uuid : string) : string :=
  to_uri (pay_new to amount memo now uuid).
Definition parse_payment_request_uri (uri : string) (now : Z) (uuid : string) : option PaymentRequestData :=
  match from_uri uri uuid with
  | Err _ => None
  | Ok p => if pay_is_expired p now then None
            else Some (mkPaymentData (to_address p) (pay_amount_muon p) (pay_memo p) (pay_expires_at_ms p))
  end.

(** ** Mini-apps *)

(** the bridge works on the node and on the tables of the process *)
Definition on_bridge {A} (m : AppConf -> ST BridgeState A) : ffi A := fun s =>
  match ff_node s with
  | None => (s, Err "node not initialized"%string)
  | Some n =>
      let '(b, r) := m (fn_conf n) (mkBridgeState (fn_app n) (ff_sessions s) (ff_limits s) (ff_broadcasts s)) in
      (mkFfi (ff_runtime s) (Some (set_fn_app (br_node b) n)) (ff_poisoned s) (ff_callback s) (ff_events s)
         (br_sessions b) (br_limits b) (br_broadcasts b), r)
  end.

Definition miniapp_issue_bridge_session (app_id uuid : string) (now : Z) : ffi string := fun s =>
  let '(t, tok) := issue_session app_id uuid now (ff_sessions s) in (set_ff_sessions t s, Ok tok).
Definition miniapp_revoke_bridge_session (app_id : string) : ffi unit :=
  st_modify (fun s => set_ff_sessions (revoke_session app_id (ff_sessions s)) s).

(** an unknown permission panics *)
Definition miniapp_issue_capability (app_id permission session_token : string) : ffi string :=
  with_state (
    match parse_permission_name permission with
    | None => st_err ("unknown permission: " +:+ permission)%string
    | Some perm =>
        now ← node_now;
        key ← st_gets fn_cap_mac_key;
        mret (issue_capability key app_id perm session_token DEFAULT_CAP_TTL_MS now)
    end).

(** [AppStore::build_revocation_gossip] *)
Definition build_revocation_gossip (app_id reason curator : string) (kp : Keypair) (now : Z) : anyhow RevocationGossip :=
  revocation_new_signed app_id reason curator kp now.

Definition miniapp_publish_revocation (app_id reason : string) : ffi unit :=
  with_state (
    cfg ← st_gets fn_conf;
    keypair ← on_coin_node (fun coin => load_keypair (coin_identity_path coin));
    now ← node_now;
    entry ← st_lift (build_revocation_gossip app_id reason (ac_local_peer_id cfg) keypair now);
    on_app (fun _ => publish_app_revocation entry)).

Definition miniapp_get_policy (app_id : string) : ffi MiniAppPolicy := with_state (on_apps (policy_load_with_store app_id true)).
Definition miniapp_set_safe_mode (app_id : string) (enabled : bool) : ffi unit :=
  with_state (on_apps (set_safe_mode app_id enabled)).
Definition miniapp_report_app (app_id : string) : ffi unit :=
  with_state (now ← node_now; _ ← on_apps (record_user_report app_id now); mret tt).

Definition list_installed_apps : ffi (list MiniAppInfo) :=
  with_state (l ← or_default [] (on_apps installed_apps); mret (mini_app_manifest_to_info <$> l)).

Definition preview_miniapp_install (bundle : list byte) : ffi (Res MyceliumException MiniAppInstallPreview) :=
  with_state (or_throw InstallError (p ← on_apps (preview_install bundle); mret (preview_to_ffi p))).

(** the trust the caller asks for *)
Definition requested_trust (listing_app_id : option string) (allow_sideload : bool) : anyhow InstallTrust :=
  match listing_app_id with
  | Some _ => Ok VerifiedListing
  | None => if allow_sideload then Ok SideloadAcknowledged else Err "listing_app_id or allow_sideload required"%string
  end.

Definition install_checked (bundle : list byte) (listing_app_id : option string) (allow_sideload allow_downgrade : bool)
    (now : Z) : ST Db MiniAppManifest :=
  trust ← st_lift (requested_trust listing_app_id allow_sideload);
  _ ← match listing_app_id with
      | Some id =>
          preview ← preview_install bundle;
          if decide (mf_id (ip_manifest preview) ≠ id) then st_err "bundle app id does not match listing_app_id" else mret tt
      | None => mret tt
      end;
  install_verified bundle trust allow_downgrade now.

Definition install_app (bundle : list byte) (listing_app_id : option string) (allow_sideload allow_downgrade : bool)
    : ffi (Res MyceliumException MiniAppInfo) :=
  with_state (
    now ← node_now;
    or_throw InstallError (
      m ← on_apps (install_checked bundle listing_app_id allow_sideload allow_downgrade now);
      mret (mini_app_manifest_to_info m))).

(** [bundled] is the asset shipped for the app *)
Definition ffi_install_official_bundle (bundled : option (list byte)) (app_id : string) : ffi (Res MyceliumException MiniAppInfo) :=
  with_state (
    now ← node_now;
    or_throw InstallError (
      m ← on_apps (install_official_bundle bundled app_id now); mret (mini_app_manifest_to_info m))).

Definition uninstall_app (app_id : string) : ffi unit :=
  _ ← miniapp_revoke_bridge_session app_id;
  with_state (
    _ ← on_apps (uninstall app_id);
    st_ignore (on_db (miniapp_clear_all_for_app app_id))).

Definition get_app_file (app_id path : string) : ffi (option (list byte)) :=
  with_state (ok_flatten (on_apps (store_get_file app_id path))).
Definition browse_app_store : ffi (list FfiListing) :=
  with_state (l ← or_default [] (on_apps browse_listings); mret (to_app_store_listing <$> l)).

Definition app_key (app_id key : string) : string := ("app:" +:+ app_id +:+ ":" +:+ key)%string.

Definition miniapp_storage_get (app_id key : string) : ffi (option string) :=
  with_state (ok_flatten (on_db (miniapp_get (app_key app_id key)))).
Definition miniapp_storage_set (app_id key value : string) : ffi unit :=
  with_state (
    _ ← st_lift (validate_key key);
    _ ← st_lift (validate_value value);
    nonce ← on_app (fun _ => a_random NONCE_LEN);
    on_db (miniapp_set (app_key app_id key) value nonce)).
Definition miniapp_storage_delete (app_id key : string) : ffi unit :=
  with_state (on_db (miniapp_delete (app_key app_id key))).

(** the bridge a call runs on: the permissions of the installed manifest, none
    when there is none *)
Definition bridge_for (app_id : string) : node BridgeConf :=
  manifest ← ok_flatten (on_apps (get_manifest app_id));
  safe ← or_default false (on_apps (effective_safe_mode app_id));
  n ← st_get;
  mret (mkBridge app_id (match manifest with Some m => mf_permissions m | None => [] end)
          (ac_local_peer_id (fn_conf n)) (local_enc_pubkey_hex (fn_conf n)) safe (fn_cap_mac_key n)).

Definition miniapp_bridge_call (app_id method args_json : string) : ffi string :=
  bh ← with_state (bridge_for app_id);
  let args := match json_from_str args_json with Ok v => v | Err _ => JNull end in
  r ← st_attempt (on_bridge (fun cfg => handle cfg bh method args));
  mret (match r with
        | Ok v => json_to_string v
        | Err e => json_to_string (JObj [("error", JStr e)]%string)
        end).
End ffi.
