(* ===== verification/FfiTheorems.v ===== *)
(** * The mobile bindings: lock life cycle and invariant *)

From S2P Require Import Prelude External Text Instances Transaction Policy Ledger LedgerView LedgerTheorems CoinNode CoinNodeTheorems.
From S2P Require Import Wire E2E AtRest Bootstrap Payment NodeData NodeHandle Host AppStorage AppStorageTheorems AppStorageProps.
From S2P Require Import Proximity MiniApp MiniAppStore MiniAppTheorems AppNodeData AppNode AppNodeInv FrontInv Api Bridge BridgeHost.
From S2P Require Import BridgeTheorems FfiData Ffi.

Open Scope Z_scope.

(** ** Every exported function *)

Section calls.
Context `{C : Crypto} `{D : Sled} `{DB : !SledDb} `{P : E2EPrims} `{CH : !CoinHost}.

Inductive FfiCall :=
| FInit (c : FfiConfig) (o : Opened) (mode : ConnectivityMode)
| FStop
| FSetCallback
| FNotify (n : Notification)
| FInboxItem (i : InboxItem)
| FDispatch (msg : DirectMessage)
| FConnectivityStart (fuel : nat) (mode : ConnectivityMode)
| FConnectivityChanged (fuel : nat) (mode : ConnectivityMode)
| FPeerWatch (known : gset string)
| FLocalPeerId
| FRelayPeerId (v : NodeView)
| FRelayAge (v : NodeView)
| FKnownPeers
| FMetrics (v : NodeView)
| FEncPubkey
| FHasEncKey (peer : string)
| FSendDirect (to body : string)
| FSendBroadcast (body : string)
| FSendEncrypted (to body : string)
| FChatHistory (peer : string) (limit : Z)
| FListContacts
| FListAccepted
| FListPending
| FAddContact (peer name : string) (accepted : bool)
| FAcceptContact (peer : string)
| FRejectContact (peer : string)
| FRemoveContact (peer : string)
| FListGroups
| FCreateGroup (name : string)
| FImportGroup (json : string)
| FExportGroup (id : string)
| FSendGroup (id body : string)
| FDeleteGroup (id : string)
| FGroupHistory (id : string) (limit : Z)
| FPost (scope title body : string) (ttl : Z)
| FBulletins (scope : string)
| FSubscriptions (v : NodeView)
| FSubscribe (scope : string)
| FUnsubscribe (scope : string)
| FBulletinEnabled (v : NodeView)
| FListScopeKeys
| FAddScopeKey (invite : string)
| FCreateScopeKey (scope name : string)
| FExportScopeKey (scope : string)
| FDeleteScopeKey (scope : string)
| FScopeEncrypted (scope : string)
| FStartProximity (profile : PresenceProfile) (ttl : Z)
| FStopProximity
| FNearby
| FExpress (enc : string)
| FProximityMessages (since : Z)
| FProximityActive
| FSendProximity (enc message : string)
| FSendMail (to subject body : string)
| FMailInbox (limit : Z)
| FMailSent (limit : Z)
| FMarkRead (id : string)
| FSetName (name : string)
| FDisplayName
| FSetEnergy (st : NodeState)
| FSetRendezvous (b : bool)
| FAddBootstrap (addr : string)
| FWalletAddress
| FWalletBalance
| FPay (to : string) (amount : Z) (memo : option string)
| FRecent (limit : Z)
| FFaucet
| FGetHot
| FSetHot (c : HotWalletConfig)
| FSetCold (a : option string)
| FHotStatus
| FConnectivity
| FIssueSession (app uuid : string) (now : Z)
| FRevokeSession (app : string)
| FIssueCapability (app permission session : string)
| FPublishRevocation (app reason : string)
| FGetPolicy (app : string)
| FSetSafeMode (app : string) (b : bool)
| FReport (app : string)
| FListInstalled
| FPreview (bundle : list byte)
| FInstall (bundle : list byte) (listing : option string) (sideload downgrade : bool)
| FInstallOfficial (bundled : option (list byte)) (app : string)
| FUninstall (app : string)
| FGetFile (app path : string)
| FBrowse
| FStorageGet (app key : string)
| FStorageSet (app key value : string)
| FStorageDelete (app key : string)
| FBridge (app method args : string).
End calls.

(** how a call reaches the node: through the runtime first, the node first, or
    not at all *)
Inductive CallKind := KInit (ok : bool) | KStop | KWith | KFirst | KFree.

Section ffi_calls.
Context `{C : Crypto} `{D : Sled} `{DB : !SledDb} `{P : E2EPrims} `{J : Json} `{BW : Bincode WireMessage}.
Context `{BT : Bincode Transaction} `{BA : Bincode AccountState} `{BV : Bincode VelocityWindow}.
Context `{BP : Bincode CoinPayload} `{CH : !CoinHost}.
Context `{SC : MiniCodecs} `{ZP : Zip} `{L : Lowercase}.
Context `{B : AppCodecs} `{MC : MeshCodecs} `{AH : AppHost} `{K : CapPrims} `{U : UrlEncoding} `{UT : UuidText}.

Abbreviation ffi := (ST Ffi).

Definition drop {A} (m : ffi A) : ffi unit := _ ← m; mret tt.

(** the dispatch of an incoming message, by the task that holds the node *)
Definition ffi_dispatch (msg : DirectMessage) : ffi unit := on_state (on_app (fun cfg => dispatch_incoming cfg msg)).

Definition run_ffi (c : FfiCall) : ffi unit :=
  match c with
  | FInit c o mode => init_node c o mode
  | FStop => stop_node
  | FSetCallback => set_event_callback
  | FNotify n => ffi_notify n
  | FInboxItem i => inbox_step i
  | FDispatch msg => ffi_dispatch msg
  | FConnectivityStart fuel mode => connectivity_start fuel mode
  | FConnectivityChanged fuel mode => connectivity_changed fuel mode
  | FPeerWatch known => drop (peer_watch known)
  | FLocalPeerId => drop ffi_local_peer_id
  | FRelayPeerId v => drop (ffi_relay_peer_id v)
  | FRelayAge v => drop (ffi_relay_keypair_age_secs v)
  | FKnownPeers => drop ffi_known_peers
  | FMetrics v => drop (ffi_metrics v)
  | FEncPubkey => drop ffi_local_enc_pubkey
  | FHasEncKey p => drop (ffi_has_enc_key_for p)
  | FSendDirect to body => drop (send_chat_direct to body)
  | FSendBroadcast body => drop (send_chat_broadcast body)
  | FSendEncrypted to body => drop (ffi_send_chat_encrypted to body)
  | FChatHistory p l => drop (ffi_chat_history p l)
  | FListContacts => drop ffi_list_contacts
  | FListAccepted => drop ffi_list_accepted_contacts
  | FListPending => drop ffi_list_pending_contacts
  | FAddContact p n a => drop (ffi_add_contact p n a)
  | FAcceptContact p => drop (ffi_accept_contact p)
  | FRejectContact p => ffi_reject_contact p
  | FRemoveContact p => ffi_remove_contact p
  | FListGroups => drop ffi_list_groups
  | FCreateGroup n => drop (ffi_create_group n)
  | FImportGroup j => drop (ffi_import_group_invite j)
  | FExportGroup g => drop (ffi_export_group_invite g)
  | FSendGroup g b => ffi_send_group_message g b
  | FDeleteGroup g => ffi_delete_group g
  | FGroupHistory g l => drop (ffi_group_chat_history g l)
  | FPost s t b ttl => ffi_post_bulletin s t b ttl
  | FBulletins s => drop (ffi_bulletins_for_scope s)
  | FSubscriptions v => drop (ffi_get_bulletin_subscriptions v)
  | FSubscribe s => ffi_subscribe_bulletin_scope s
  | FUnsubscribe s => ffi_unsubscribe_bulletin_scope s
  | FBulletinEnabled v => drop (ffi_is_bulletin_enabled v)
  | FListScopeKeys => drop ffi_list_scope_keys
  | FAddScopeKey i => drop (ffi_add_scope_key i)
  | FCreateScopeKey s n => ffi_create_scope_key s n
  | FExportScopeKey s => drop (ffi_export_scope_key s)
  | FDeleteScopeKey s => ffi_delete_scope_key s
  | FScopeEncrypted s => drop (ffi_scope_is_encrypted s)
  | FStartProximity p ttl => drop (ffi_start_proximity p ttl)
  | FStopProximity => ffi_stop_proximity
  | FNearby => drop ffi_nearby_profiles
  | FExpress e => drop (ffi_express_proximity_interest e)
  | FProximityMessages t => drop (ffi_proximity_messages t)
  | FProximityActive => drop ffi_is_proximity_active
  | FSendProximity e m => drop (ffi_send_proximity_message e m)
  | FSendMail to s b => ffi_send_mail to s b
  | FMailInbox l => drop (ffi_mail_inbox l)
  | FMailSent l => drop (ffi_mail_sent l)
  | FMarkRead id => ffi_mark_mail_read id
  | FSetName n => ffi_set_display_name n
  | FDisplayName => drop ffi_display_name
  | FSetEnergy s => ffi_set_energy_state s
  | FSetRendezvous b => ffi_set_rendezvous_enabled b
  | FAddBootstrap a => ffi_add_bootstrap_peer a
  | FWalletAddress => drop wallet_address
  | FWalletBalance => drop wallet_balance
  | FPay to amount memo => ffi_send_transaction to amount memo
  | FRecent l => drop (wallet_recent_transactions l)
  | FFaucet => request_faucet
  | FGetHot => drop get_hot_wallet_config
  | FSetHot c => set_hot_wallet_config c
  | FSetCold a => set_cold_wallet_address a
  | FHotStatus => drop hot_wallet_status
  | FConnectivity => drop current_connectivity_mode
  | FIssueSession a u now => drop (miniapp_issue_bridge_session a u now)
  | FRevokeSession a => miniapp_revoke_bridge_session a
  | FIssueCapability a p s => drop (miniapp_issue_capability a p s)
  | FPublishRevocation a r => miniapp_publish_revocation a r
  | FGetPolicy a => drop (miniapp_get_policy a)
  | FSetSafeMode a b => miniapp_set_safe_mode a b
  | FReport a => miniapp_report_app a
  | FListInstalled => drop list_installed_apps
  | FPreview b => drop (preview_miniapp_install b)
  | FInstall b l s d => drop (install_app b l s d)
  | FInstallOfficial b a => drop (ffi_install_official_bundle b a)
  | FUninstall a => uninstall_app a
  | FGetFile a p => drop (get_app_file a p)
  | FBrowse => drop browse_app_store
  | FStorageGet a k => drop (miniapp_storage_get a k)
  | FStorageSet a k v => miniapp_storage_set a k v
  | FStorageDelete a k => miniapp_storage_delete a k
  | FBridge a m args => drop (miniapp_bridge_call a m args)
  end.

Definition run_ffis (cs : list FfiCall) (s : Ffi) : Ffi := foldl (fun s c => (run_ffi c s).1) s cs.

Definition kind (c : FfiCall) : CallKind :=
  match c with
  | FInit c o mode => KInit (is_ok (open_parts c o mode))
  | FStop => KStop
  | FSetCallback | FNotify _ | FInboxItem _ | FDispatch _ | FConnectivityStart _ _ | FConnectivityChanged _ _ | FPeerWatch _
  | FIssueSession _ _ _ | FRevokeSession _ => KFree
  | FMarkRead id => if uuid_parse id is Ok _ then KWith else KFree
  | FLocalPeerId | FEncPubkey | FListContacts | FListAccepted | FListPending | FAddContact _ _ _ | FAcceptContact _
  | FRejectContact _ | FRemoveContact _ | FListGroups | FExportGroup _ | FDeleteGroup _ | FBulletins _ | FListScopeKeys
  | FExportScopeKey _ | FScopeEncrypted _ | FProximityActive | FMailInbox _ | FMailSent _ | FWalletAddress | FWalletBalance
  | FRecent _ | FFaucet | FConnectivity | FIssueCapability _ _ _ | FPublishRevocation _ _ | FGetPolicy _ | FSetSafeMode _ _
  | FReport _ | FListInstalled | FPreview _ | FInstall _ _ _ _ | FInstallOfficial _ _ | FUninstall _ | FGetFile _ _ | FBrowse
  | FStorageGet _ _ | FStorageSet _ _ _ | FStorageDelete _ _ | FBridge _ _ _ => KWith
  | _ => KFirst
  end.

(** ** The life cycle

    What the foreign side can rely on, without the node: the library is not
    started, running, stopped, or its lock is poisoned. *)

Inductive Life := Fresh | Running | Stopped | Poisoned.

Definition life (s : Ffi) : Life :=
  if ff_poisoned s then Poisoned else
  match ff_node s with
  | Some _ => Running
  | None => if ff_runtime s then Stopped else Fresh
  end.

Definition life_step (k : CallKind) (l : Life) : Life :=
  match l, k with
  | Poisoned, _ => Poisoned
  | Running, KStop => Stopped
  | Running, _ => Running
  | Fresh, KInit true | Stopped, KInit true => Running
  | Fresh, KInit false => Stopped
  | Fresh, KFirst => Poisoned
  | Stopped, (KWith | KFirst) => Poisoned
  | l, _ => l
  end.

(** the calls that the life cycle alone makes panic *)
Definition must_panic (k : CallKind) (l : Life) : bool :=
  match l, k with
  | Poisoned, (KInit _ | KStop | KWith | KFirst) => true
  | Fresh, (KWith | KFirst | KInit false) => true
  | Stopped, (KWith | KFirst | KInit false) => true
  | Running, KInit false => true
  | _, _ => false
  end.

(** the runtime is up whenever there is a node or the lock is poisoned with it *)
Definition ffi_wf (s : Ffi) : Prop := is_Some (ff_node s) -> ff_runtime s = true.

Definition simulates {A} (k : CallKind) (m : ffi A) : Prop := forall s, ffi_wf s ->
  ffi_wf (m s).1 /\ life (m s).1 = life_step k (life s)
  /\ (ff_runtime s = true \/ k ≠ KStop -> must_panic k (life s) = true -> is_ok (m s).2 = false).

Lemma drop_simulates {A} k (m : ffi A) : simulates k m -> simulates k (drop m).
Proof.
  intros Hm s Hs. destruct (Hm s Hs) as (H1 & H2 & H3). unfold drop, mbind, ST_bind.
  destruct (m s) as [s' [a|e]]; cbn in *; split_and!; try done.
Qed.

Lemma on_state_life {A} (m : ST FfiNode A) s :
  ff_poisoned (on_state m s).1 = ff_poisoned s /\ ff_runtime (on_state m s).1 = ff_runtime s
  /\ (is_Some (ff_node (on_state m s).1) <-> is_Some (ff_node s)).
Proof.
  unfold on_state. destruct (ff_node s) as [n|] eqn:E; [|cbn; by rewrite ?E]. destruct (m n) as [n' r]. cbn. split_and!; try done.
Qed.

Lemma life_ext s s' :
  ff_poisoned s' = ff_poisoned s -> ff_runtime s' = ff_runtime s -> (is_Some (ff_node s') <-> is_Some (ff_node s)) ->
  life s' = life s /\ (ffi_wf s -> ffi_wf s').
Proof.
  intros H1 H2 H3. unfold life, ffi_wf. rewrite H1, H2. split; [|by intros Hw Hs; apply Hw, H3].
  destruct (ff_node s), (ff_node s'); try done; exfalso; destruct H3 as [H4 H5].
  - by apply (is_Some_None (A := FfiNode)), H5.
  - by apply (is_Some_None (A := FfiNode)), H4.
Qed.

Lemma free_simulates {A} (m : ffi A) :
  (forall s, ff_poisoned (m s).1 = ff_poisoned s /\ ff_runtime (m s).1 = ff_runtime s
             /\ (is_Some (ff_node (m s).1) <-> is_Some (ff_node s))) -> simulates KFree m.
Proof.
  intros Hm s Hs. destruct (Hm s) as (H1 & H2 & H3). destruct (life_ext s (m s).1 H1 H2 H3) as [H4 H5].
  split_and!; [auto|by rewrite H4; destruct (life s)|by destruct (life s)].
Qed.

Lemma with_state_simulates {A} (m : ST FfiNode A) : simulates KWith (with_state m).
Proof.
  intros s Hs. unfold with_state, runtime, state_arc, mbind, ST_bind.
  destruct (ff_runtime s) eqn:Er; cbn.
  - unfold life. destruct (ff_poisoned s) eqn:Ep; [cbn; rewrite ?Ep; split_and!; by try exact Hs|]. destruct (ff_node s) as [n|] eqn:En.
    + destruct (on_state_life m s) as (H1 & H2 & H3). destruct (life_ext s _ H1 H2 H3) as [H4 H5].
      unfold life in H4. rewrite H4, Ep, En. split_and!; [auto|done|done].
    + unfold ffi_wf. cbn. by rewrite Er, En.
  - assert (ff_node s = None) as En by (destruct (ff_node s) eqn:E; [by rewrite Hs in Er by eauto|done]).
    split_and!; [done| |done]. unfold life. rewrite En, Er. by destruct (ff_poisoned s).
Qed.

Lemma state_first_simulates {A} (m : ST FfiNode A) : simulates KFirst (state_first m).
Proof.
  intros s Hs. unfold state_first, state_arc, mbind, ST_bind. unfold life.
  destruct (ff_poisoned s) eqn:Ep; [cbn; rewrite ?Ep; split_and!; by try exact Hs|]. destruct (ff_node s) as [n|] eqn:En.
  - unfold runtime. rewrite Hs by (rewrite En; eauto). destruct (on_state_life m s) as (H1 & H2 & H3).
    destruct (life_ext s _ H1 H2 H3) as [H4 H5]. unfold life in H4. rewrite H4, Ep, En. split_and!; [auto|done|done].
  - unfold ffi_wf. cbn. rewrite En. split_and!; [by intros []| |done]. by destruct (ff_runtime s).
Qed.

Lemma init_simulates c o mode : simulates (KInit (is_ok (open_parts c o mode))) (init_node c o mode).
Proof.
  intros s Hs. unfold init_node, mbind, ST_bind, st_modify, st_lift, st_get, st_err, life, ffi_wf.
  destruct (open_parts c o mode) as [n|e]; cbn; destruct (ff_poisoned s) eqn:Ep; cbn; rewrite ?Ep; split_and!; try done;
    destruct (ff_node s) eqn:En, (ff_runtime s) eqn:Er; cbn; rewrite ?Ep, ?En, ?Er; try done.
Qed.

Lemma stop_simulates : simulates KStop stop_node.
Proof.
  intros s Hs. unfold stop_node, mbind, ST_bind, st_modify, st_get, st_err. cbn.
  destruct (ff_runtime s) eqn:Er; cbn.
  - unfold life. destruct (ff_poisoned s) eqn:Ep; cbn; rewrite ?Ep, ?Er; [split_and!; by try exact Hs|].
    split_and!; [by intros []|by destruct (ff_node s)|by destruct (ff_node s)].
  - assert (ff_node s = None) as En by (destruct (ff_node s) eqn:E; [by rewrite Hs in Er by eauto|done]).
    split_and!; [exact Hs|unfold life; rewrite En, Er; by destruct (ff_poisoned s)|]. by intros [|[]].
Qed.

Lemma emit_frame e s :
  ff_poisoned (emit e s).1 = ff_poisoned s /\ ff_runtime (emit e s).1 = ff_runtime s
  /\ (is_Some (ff_node (emit e s).1) <-> is_Some (ff_node s)).
Proof. unfold emit, st_modify. cbn. by destruct (ff_callback s). Qed.

(** computations that leave the statics alone compose *)
Definition framed {A} (m : ffi A) : Prop := forall s,
  ff_poisoned (m s).1 = ff_poisoned s /\ ff_runtime (m s).1 = ff_runtime s
  /\ (is_Some (ff_node (m s).1) <-> is_Some (ff_node s)).

Lemma framed_bind {A X} (m : ffi A) (f : A -> ffi X) : framed m -> (forall a, framed (f a)) -> framed (m ≫= f).
Proof.
  intros Hm Hf s. destruct (Hm s) as (H1 & H2 & H3). unfold mbind, ST_bind. destruct (m s) as [s' [a|e]]; [|done].
  destruct (Hf a s') as (H4 & H5 & H6). cbn in *. rewrite H4, H5, H6. done.
Qed.

Lemma framed_ret {A} (a : A) : framed (mret a).
Proof. done. Qed.
Lemma framed_attempt {A} (m : ffi A) : framed m -> framed (st_attempt m).
Proof. intros Hm s. apply Hm. Qed.
Lemma framed_emit_all es : framed (emit_all es).
Proof. induction es as [|e es IH]; [done|]. apply framed_bind; [intros s; apply emit_frame|done]. Qed.
Lemma framed_bridge {A} (m : AppConf -> ST BridgeState A) : framed (on_bridge m).
Proof.
  intros s. unfold on_bridge. destruct (ff_node s) as [n|] eqn:E; [|cbn; by rewrite E].
  destruct (m _ _) as [b r]. cbn. split_and!; done.
Qed.

(** a call that is framed before and after it reaches the node *)
Lemma after_simulates {A X} k (m : ffi A) (f : A -> ffi X) :
  simulates k m -> (forall a, framed (f a)) -> simulates k (m ≫= f).
Proof.
  intros Hm Hf s Hs. destruct (Hm s Hs) as (H1 & H2 & H3). unfold mbind, ST_bind. destruct (m s) as [s' [a|e]]; [|done].
  destruct (Hf a s') as (H4 & H5 & H6). destruct (life_ext s' _ H4 H5 H6) as [H7 H8]. cbn in *.
  split_and!; [auto|by rewrite H7, H2|]. intros Hr Hp. specialize (H3 Hr Hp). done.
Qed.

Lemma before_simulates {X} k (f : Ffi -> Ffi) (m : ffi X) :
  framed (st_modify f) -> simulates k m -> simulates k (_ ← st_modify f; m).
Proof.
  intros Hf Hm s Hs. destruct (Hf s) as (H4 & H5 & H6). destruct (life_ext s _ H4 H5 H6) as [H7 H8].
  destruct (Hm (f s) (H8 Hs)) as (H1 & H2 & H3). cbn in *. unfold mbind, ST_bind, st_modify. rewrite <- H7. split_and!; try done.
  intros Hr. apply H3. by rewrite H5.
Qed.

Lemma ffi_simulates c : simulates (kind c) (run_ffi c).
Proof.
  destruct c; cbn [kind run_ffi];
    try first [apply with_state_simulates | apply state_first_simulates
              | apply drop_simulates; first [apply with_state_simulates | apply state_first_simulates]];
    try (apply free_simulates; done).
  - apply init_simulates.
  - apply stop_simulates.
  - apply free_simulates. destruct n; try done. intros s. apply emit_frame.
  - apply free_simulates. intros s. apply emit_frame.
  - apply free_simulates. intros s. apply on_state_life.
  - apply free_simulates. apply framed_bind; [intros s; apply on_state_life|intros _].
    case_decide; [intros s; apply on_state_life|done].
  - apply free_simulates. apply framed_bind; [intros s; apply on_state_life|intros _].
    apply framed_bind; [intros s; apply emit_frame|intros _]. case_decide; [intros s; apply on_state_life|done].
  - apply free_simulates, framed_bind; [|done]. apply framed_bind; [intros s; apply on_state_life|intros peers].
    apply framed_bind; [apply framed_emit_all|done].
  - unfold ffi_mark_mail_read. destruct (uuid_parse id); [apply with_state_simulates|by apply free_simulates].
  - by apply before_simulates, with_state_simulates.
  - apply drop_simulates, after_simulates; [apply with_state_simulates|intros bh].
    apply framed_bind; [apply framed_attempt, framed_bridge|done].
Qed.

(** C32. The life cycle of the mobile library: over any sequence of exported calls
    and background steps, panics included, whether the library is fresh,
    running, stopped or poisoned is the one computed by [life_step], and the
    calls that [must_panic] predicts panic.  So a running library is never
    poisoned, and one call that reaches the node before [init_node] or after
    [stop_node] poisons the lock for good: every later call that needs the node
    panics, [init_node] included. *)
Theorem ffi_lifecycle (cs : list FfiCall) (s : Ffi) :
  ffi_wf s ->
  let s' := run_ffis cs s in
  life s' = foldl (fun l c => life_step (kind c) l) (life s) cs
  /\ (life s = Poisoned -> life s' = Poisoned)
  /\ (forall c, ff_runtime s' = true \/ kind c ≠ KStop -> must_panic (kind c) (life s') = true ->
        is_ok (run_ffi c s').2 = false).
Proof.
  cbv zeta. intros Hs. revert s Hs. induction cs as [|c cs IH]; intros s Hs.
  - split_and!; [done|done|]. intros c. cbn. destruct (ffi_simulates c s Hs) as (_ & _ & H). done.
  - change (run_ffis (c :: cs) s) with (run_ffis cs (run_ffi c s).1). cbn [foldl].
    destruct (ffi_simulates c s Hs) as (H1 & H2 & _). destruct (IH _ H1) as (H3 & H4 & H5). rewrite H2 in H3, H4.
    split_and!; [done| |done]. intros E. apply H4. by rewrite E.
Qed.
End ffi_calls.
