(* ===== verification/FfiProps.v ===== *)
(** * The mobile bindings: the node stays consistent

    Whatever the foreign side calls, in whatever order, and whatever panics on
    the way, the node it left behind satisfies the invariant of
    [AppNodeInv.v]. *)

From S2P Require Import Prelude External Text Instances Transaction Policy Ledger LedgerView LedgerTheorems CoinNode CoinNodeTheorems Wire E2E AtRest Bootstrap Payment NodeData.
From S2P Require Import NodeHandle Host AppStorage AppStorageTheorems AppStorageProps Proximity MiniApp MiniAppStore MiniAppTheorems AppNodeData AppNode AppNodeInv FrontInv Api.
From S2P Require Import Bridge BridgeHost BridgeTheorems FfiData Ffi FfiTheorems.

Open Scope Z_scope.

(** walks through a program with the hints of [front] *)
Ltac front_step :=
  match goal with
  | |- keeps _ (mbind _ _) => apply keeps_bind; [|intros ?]
  | |- keeps _ (st_ignore _) => apply keeps_ignore
  | |- keeps _ (st_attempt _) => apply keeps_attempt
  | |- keeps _ (or_default _ _) => unfold or_default
  | |- keeps _ (ok_flatten _) => unfold ok_flatten
  | |- keeps _ (or_throw _ _) => unfold or_throw
  | |- keeps _ (match ?x with _ => _ end) => destruct x eqn:?
  | |- keeps _ (if decide _ then _ else _) => case_decide
  | |- keeps _ _ => solve [eauto with front]
  end.
Ltac front_auto := repeat (cbv zeta; front_step).

(** ** The bridge *)
Section bridge_good.
Context `{C : Crypto} `{D : Sled} {DL : SledLaws D} {DO : SledOrder D} `{DB : !SledDb} {DBL : SledDbLaws DB}.
Context `{P : E2EPrims} `{J : Json} `{BW : Bincode WireMessage}.
Context `{BT : Bincode Transaction} `{BTL : !BincodeLaws BT}.
Context `{BA : Bincode AccountState} `{BAL : !BincodeLaws BA}.
Context `{BV : Bincode VelocityWindow} `{BVL : !BincodeLaws BV}.
Context `{BP : Bincode CoinPayload} `{CH : !CoinHost}.
Context `{SC : MiniCodecs} {SL : MiniCodecLaws SC} `{ZP : Zip} `{L : Lowercase}.
Context `{B : AppCodecs} {BL : AppCodecLaws B} `{MC : MeshCodecs} `{AH : AppHost} `{K : CapPrims} `{U : UrlEncoding}.
Variable cfg : AppConf.
Variable bh : BridgeConf.
Hypothesis HT : HostTyped.

Definition br_good (b : BridgeState) : Prop := app_good (br_node b).

(** JSON strings are Rust strings *)
Definition args_typed (args : JValue) : Prop := forall k s, arg_str args k = Some s -> utf8_valid (as_bytes s) = true.

Lemma br_node_good {A} (m : ST AppNode A) : keeps app_good m -> keeps br_good (on_node m).
Proof. intros Hm b Hb. unfold on_node. specialize (Hm _ Hb). by destruct (m (br_node b)). Qed.
Lemma br_limits_good f : keeps br_good (on_limits f).
Proof. intros b Hb. unfold on_limits. by destruct (f (br_limits b)). Qed.
Lemma br_broadcasts_good f : keeps br_good (on_broadcasts f).
Proof. intros b Hb. unfold on_broadcasts. by destruct (f (br_broadcasts b)). Qed.
Lemma br_need {A} (o : option A) msg : keeps br_good (need o msg).
Proof. by destruct o; intros b Hb. Qed.
Lemma br_perm p : keeps br_good (require_permission bh p).
Proof. unfold require_permission. case_decide; auto with front. Qed.
Lemma br_anomaly id now x : keeps app_good (on_app_store (record_bridge_anomaly id now) x).
Proof. apply good_apps, range_step. constructor. Qed.
Lemma br_get_manifest app x : keeps app_good (on_app_store (get_manifest app) x).
Proof. apply good_apps, range_manifest. Qed.
Lemma br_list p : keeps app_good (on_storage (miniapp_list p)).
Proof. apply good_storage. unfold miniapp_list. keeps_auto; eauto using with_tree_keeps. Qed.

#[local] Hint Resolve br_node_good br_limits_good br_broadcasts_good br_need br_perm br_anomaly br_get_manifest br_list : front.

Lemma br_scope scope : keeps br_good (require_bulletin_scope bh scope).
Proof. unfold require_bulletin_scope, bridge_manifest. front_auto. Qed.
Lemma br_quota k n : keeps br_good (check_storage_quota bh k n).
Proof. unfold check_storage_quota. front_auto. Qed.
Lemma br_gets {A} (f : AppNode -> A) : keeps br_good (on_node (st_gets f)).
Proof. apply br_node_good, keeps_gets. Qed.
Lemma br_known : keeps br_good (on_node known_peers).
Proof. apply br_gets. Qed.
Lemma br_nearby l : keeps br_good (nearby_list l).
Proof. induction l as [|e l IH]; cbn [nearby_list]; front_auto. Qed.
#[local] Hint Resolve br_scope br_quota br_gets br_known br_nearby : front.

Lemma br_post args : args_typed args -> keeps br_good (bulletin_post bh args).
Proof.
  intros Ha. unfold bulletin_post. apply keeps_bind; [apply br_perm|intros _].
  apply keeps_bind_eq; [apply br_need|]. intros s s1 scope _ E Hs1.
  assert (utf8_valid (as_bytes scope) = true) as Hu.
  { apply (Ha "scope"%string). destruct (arg_str args "scope"); by inversion E. }
  revert s1 E Hs1. intros s1 _. revert s1. match goal with |- forall s1, _ -> br_good (?m s1).1 => change (keeps br_good m) end.
  front_auto.
Qed.
#[local] Hint Resolve br_post : front.

Lemma br_run method args : args_typed args -> keeps br_good (run_method cfg bh method args).
Proof.
  intros Ha. unfold run_method.
  repeat match goal with |- keeps _ (if decide _ then ?m else _) => case_decide; [solve [
    auto with front |
    unfold identity_get, messaging_send, messaging_subscribe, messaging_broadcast, payment_request, payment_create_qr,
      payment_get_balance, storage_get, storage_set, storage_delete, storage_list, bulletin_get, peers_nearby, proximity_start,
      proximity_stop, proximity_nearby, proximity_connect, proximity_messages_call, proximity_send, util_now, util_scan_qr,
      util_dialog, app_get_version, bridge_manifest; front_auto]|] end.
  auto with front.
Qed.

Lemma br_handle method args : args_typed args -> keeps br_good (handle cfg bh method args).
Proof.
  intros Ha. unfold handle, check_session, check_limit, require_not_blocked_by_safe_mode, require_capability.
  front_auto. by apply br_run.
Qed.
End bridge_good.

(** ** The bindings *)
Section ffi_good.
Context `{C : Crypto} `{D : Sled} {DL : SledLaws D} {DO : SledOrder D} `{DB : !SledDb} {DBL : SledDbLaws DB}.
Context `{P : E2EPrims} `{J : Json} `{BW : Bincode WireMessage}.
Context `{BT : Bincode Transaction} `{BTL : !BincodeLaws BT}.
Context `{BA : Bincode AccountState} `{BAL : !BincodeLaws BA}.
Context `{BV : Bincode VelocityWindow} `{BVL : !BincodeLaws BV}.
Context `{BP : Bincode CoinPayload} `{CH : !CoinHost}.
Context `{SC : MiniCodecs} {SL : MiniCodecLaws SC} `{ZP : Zip} `{L : Lowercase}.
Context `{B : AppCodecs} {BL : AppCodecLaws B} `{MC : MeshCodecs} `{AH : AppHost} `{K : CapPrims} `{U : UrlEncoding} `{UT : UuidText}.
Hypothesis HT : HostTyped.

(** the node behind the lock: its application node is consistent, and the cap of
    its hot wallet is a [u64] *)
Definition node_good (n : FfiNode) : Prop := app_good (fn_app n) /\ in_u 64 (max_cache_muon (fn_hot_wallet n)).
Definition ffi_good (s : Ffi) : Prop := forall n, ff_node s = Some n -> node_good n.

(** what the types of the arguments and of the opened databases guarantee *)
Definition opened_good (o : Opened) : Prop :=
  (forall d, od_app_db o = Ok d -> forall k, db_good (mkApp d k))
  /\ (forall d, od_app_store o = Ok d -> rep_in_range d)
  /\ (forall l, od_ledger o = Ok l -> exists n, reach n l).

Definition ffi_typed (c : FfiCall) : Prop :=
  match c with
  | FInit _ o _ => opened_good o
  | FPost scope _ _ _ => utf8_valid (as_bytes scope) = true
  | FPay _ amount _ => in_u 64 amount
  | FSetHot c => in_u 64 (max_cache_muon c)
  | FBridge _ _ args => forall v, json_from_str args = Ok v -> args_typed v
  | _ => True
  end.

Lemma n_app {A} (m : AppConf -> ST AppNode A) : (forall cfg, keeps app_good (m cfg)) -> keeps node_good (on_app m).
Proof.
  intros Hm n [Ha Hc]. unfold on_app. specialize (Hm (fn_conf n) _ Ha).
  by destruct (m (fn_conf n) (fn_app n)).
Qed.
Lemma n_db {A} (m : ST AppStorage A) : keeps app_good (on_storage m) -> keeps node_good (on_db m).
Proof. intros Hm. by apply n_app. Qed.
Lemma n_apps {A} (m : ST Db A) : keeps rep_in_range m -> keeps node_good (on_apps m).
Proof.
  intros Hm. apply n_app. intros _ s [n (Hc & Hp & Hd & Ha)]. destruct (an_app_store s) as [d|] eqn:E; [|by exists n].
  specialize (Hm d (Ha d E)). destruct (m d) as [d' r]. exists n. split_and!; try done. by intros ? [= <-].
Qed.
Lemma n_coin {A} (m : CoinConfig -> ST CoinState A) :
  (forall cfg n c, node_ok n c -> exists n', node_ok n' (m (ac_coin cfg) c).1) -> keeps node_good (on_coin_node m).
Proof.
  intros Hm. apply n_app. intros cfg s [n (Hc & Hp & Hd & Ha)]. destruct (an_coin s) as [c|] eqn:E; [|by exists n].
  destruct (Hm cfg n c (Hc c E)) as [n' Hn]. destruct (m (ac_coin cfg) c) as [c' r]. exists n'.
  split; [|done]. by intros ? [= <-].
Qed.
Lemma n_now : keeps node_good node_now.
Proof. apply n_app. auto with front. Qed.
Lemma n_gets {A} (f : AppNode -> A) : keeps node_good (on_app (fun _ => st_gets f)).
Proof. apply n_app. auto with front. Qed.

Lemma n_balance : keeps node_good (on_coin_node coin_balance).
Proof.
  apply n_coin. intros cfg n c Hc. exists n. unfold coin_balance, mbind, ST_bind, st_get, st_lift. by destruct (account_state _ _).
Qed.
Lemma n_pay to amount m : in_u 64 amount -> keeps node_good (pay_checked to amount m).
Proof.
  intros Ha. unfold pay_checked. destruct (validate_address to); cbn [negb]; [|apply keeps_err]. apply n_coin. intros cfg n c Hc.
  eapply good_submit; [done|done|unfold in_u; lia|done].
Qed.
Lemma n_faucet : keeps node_good (on_coin_node request_faucet_coins).
Proof. apply n_coin. intros cfg n c Hc. by apply (coin_ok_grows n). Qed.
Lemma n_recent l : keeps node_good (on_coin_node (fun _ c => (c, recent_transactions l (cn_ledger c)))).
Proof. apply n_coin. intros cfg n c Hc. by exists n. Qed.

Lemma n_load : keeps node_good (on_coin_node (fun coin => load_keypair (coin_identity_path coin))).
Proof. apply n_coin. intros cfg n c Hc. exists n. unfold load_keypair. by destruct (load_identity _ _). Qed.

Lemma n_round fuel : keeps node_good (hot_wallet_round fuel).
Proof.
  unfold hot_wallet_round. apply keeps_bind_eq; [apply keeps_gets|]. intros n n1 hot' [_ Hh] E Hn1.
  assert (in_u 64 (max_cache_muon hot')) as Hh' by by injection E as _ <-. clear n Hh E. revert n1 Hn1.
  assert (keeps node_good (st_ignore (on_coin_node (fun cfg => maybe_refill cfg hot' (coin_identity_path cfg))))) as H1.
  { apply keeps_ignore, n_coin. intros cfg k c. apply good_refill. }
  assert (keeps node_good (st_ignore (on_coin_node (fun cfg => enforce_cap cfg fuel hot' (coin_identity_path cfg))))) as H2.
  { apply keeps_ignore, n_coin. intros cfg k c. by apply good_enforce. }
  exact (keeps_bind _ _ _ H1 (fun _ => H2)).
Qed.

Lemma n_flags l : keeps node_good (with_read_flags l).
Proof.
  induction l as [|m l IH]; cbn [with_read_flags]; [auto with front|].
  apply keeps_bind; [|intros; apply keeps_bind; [done|auto with front]].
  unfold or_default. apply keeps_bind; [|auto with front]. apply keeps_attempt, n_db, good_read.
Qed.
Lemma n_nearby l : keeps node_good (nearby_infos l).
Proof. pose proof n_now. induction l as [|m l IH]; cbn [nearby_infos]; front_auto. Qed.
End ffi_good.

#[export] Hint Resolve n_app n_db n_apps n_now n_gets n_balance n_pay n_faucet n_recent n_round n_flags n_nearby : front.

Section ffi_invariant.
Context `{C : Crypto} `{D : Sled} {DL : SledLaws D} {DO : SledOrder D} `{DB : !SledDb} {DBL : SledDbLaws DB}.
Context `{P : E2EPrims} `{J : Json} `{BW : Bincode WireMessage}.
Context `{BT : Bincode Transaction} `{BTL : !BincodeLaws BT}.
Context `{BA : Bincode AccountState} `{BAL : !BincodeLaws BA}.
Context `{BV : Bincode VelocityWindow} `{BVL : !BincodeLaws BV}.
Context `{BP : Bincode CoinPayload} `{CH : !CoinHost}.
Context `{SC : MiniCodecs} {SL : MiniCodecLaws SC} `{ZP : Zip} `{L : Lowercase}.
Context `{B : AppCodecs} {BL : AppCodecLaws B} `{MC : MeshCodecs} `{AH : AppHost} `{K : CapPrims} `{U : UrlEncoding} `{UT : UuidText}.
Hypothesis HT : HostTyped.

Lemma f_on_state {A} (m : ST FfiNode A) : keeps node_good m -> keeps ffi_good (on_state m).
Proof.
  intros Hm s Hs. unfold on_state. destruct (ff_node s) as [n|] eqn:E; [|done]. specialize (Hm n (Hs n E)).
  destruct (m n) as [n' r]. by intros ? [= <-].
Qed.
Lemma f_runtime : keeps ffi_good runtime.
Proof. intros s Hs. unfold runtime. by destruct (ff_runtime s). Qed.
Lemma f_state_arc : keeps ffi_good state_arc.
Proof. intros s Hs. unfold state_arc. destruct (ff_poisoned s); [done|]. destruct (ff_node s) eqn:E; [done|]. intros n. cbn. congruence. Qed.
Lemma f_with {A} (m : ST FfiNode A) : keeps node_good m -> keeps ffi_good (with_state m).
Proof.
  intros Hm. apply keeps_bind; [apply f_runtime|intros _]. apply keeps_bind; [apply f_state_arc|intros _]. by apply f_on_state.
Qed.
Lemma f_first {A} (m : ST FfiNode A) : keeps node_good m -> keeps ffi_good (state_first m).
Proof.
  intros Hm. apply keeps_bind; [apply f_state_arc|intros _]. apply keeps_bind; [apply f_runtime|intros _]. by apply f_on_state.
Qed.
Lemma f_drop {A} (m : ST Ffi A) : keeps ffi_good m -> keeps ffi_good (drop m).
Proof. intros Hm. apply keeps_bind; [done|intros; apply keeps_ret]. Qed.
Lemma f_emit e : keeps ffi_good (emit e).
Proof. intros s Hs. unfold emit, st_modify. cbn. by destruct (ff_callback s). Qed.
Lemma f_emit_all es : keeps ffi_good (emit_all es).
Proof. induction es as [|e es IH]; [apply keeps_ret|]. apply keeps_bind; [apply f_emit|done]. Qed.
Lemma f_mode mode : keeps ffi_good (on_state (st_modify (set_fn_connectivity_mode mode))).
Proof. apply f_on_state, keeps_modify. by intros n Hn. Qed.

Lemma f_init c o mode : opened_good o -> keeps ffi_good (init_node c o mode).
Proof.
  intros (Hd & Ha & Hl). unfold init_node. apply keeps_bind; [by apply keeps_modify|intros _].
  destruct (open_parts c o mode) as [n|e] eqn:E; [|by intros s Hs].
  intros s Hs. rewrite (ST_bind_lift _ _ _ _ eq_refl). erewrite ST_bind_Ok; [|reflexivity].
  destruct (ff_poisoned s); [done|]. intros ? [= <-]. unfold open_parts in E.
  apply Res_bind_Ok in E as (key & _ & E). apply Res_bind_Ok in E as (_ & _ & E). apply Res_bind_Ok in E as (id & _ & E).
  apply Res_bind_Ok in E as (db & Edb & E). apply Res_bind_Ok in E as (apps & Eapps & E).
  apply Res_bind_Ok in E as (kp & _ & E). apply Res_bind_Ok in E as (l & El & E). apply Res_bind_Ok in E as (enc & _ & E).
  injection E as <-. destruct (Hl l El) as [k Hk]. split; [|by vm_compute].
  exists k. apply app_new_ok; [by intros ? [= <-]|by apply Hd|intros ? [= <-]; by apply Ha].
Qed.

Lemma f_bridge {A} (m : AppConf -> ST BridgeState A) :
  (forall cfg, keeps br_good (m cfg)) -> keeps ffi_good (on_bridge m).
Proof.
  intros Hm s Hs. unfold on_bridge. destruct (ff_node s) as [n|] eqn:E; [|done].
  pose proof (Hm (fn_conf n) (mkBridgeState (fn_app n) (ff_sessions s) (ff_limits s) (ff_broadcasts s))) as H.
  destruct (m (fn_conf n) _) as [b r]. intros ? [= <-]. destruct (Hs n E) as [Ha Hc]. split; [by apply H|done].
Qed.

Lemma n_install bundle l s d now : keeps node_good (on_apps (install_checked bundle l s d now)).
Proof. apply n_apps. unfold install_checked. front_auto. Qed.

Ltac f_auto := first [apply f_with | apply f_first]; front_auto; eauto using keeps_modify with front.

Lemma n_read {A} k (f : Tree -> anyhow A) : keeps node_good (on_apps (read_tree k f)).
Proof. apply n_apps, range_read. Qed.
Lemma n_official b app now : keeps node_good (on_apps (install_official_bundle b app now)).
Proof. apply n_apps. destruct b; cbn; auto with front. Qed.
Lemma n_bridge_for app : keeps node_good (bridge_for app).
Proof. unfold bridge_for. front_auto. Qed.

Lemma f_call c : ffi_typed c -> keeps ffi_good (run_ffi c).
Proof.
  pose proof n_install. pose proof (@n_read). pose proof n_official. pose proof n_load.
  intros Hc. destruct c; cbn [run_ffi ffi_typed] in *; try (apply f_drop); try solve [f_auto | by apply keeps_modify].
  - by apply f_init.
  - unfold stop_node. apply keeps_bind; [apply keeps_get|intros s]. destruct (negb _); [apply keeps_ret|].
    destruct (ff_poisoned s); [apply keeps_err|]. by apply keeps_modify.
  - destruct n; first [apply keeps_ret|apply f_emit].
  - apply f_emit.
  - apply f_on_state, n_app. auto with front.
  - apply keeps_bind; [apply f_mode|intros _]. case_decide; [|apply keeps_ret]. by apply f_on_state, n_round.
  - apply keeps_bind; [apply f_mode|intros _]. apply keeps_bind; [apply f_emit|intros _].
    case_decide; [|apply keeps_ret]. by apply f_on_state, n_round.
  - apply keeps_bind; [apply f_on_state, n_gets|intros peers]. apply keeps_bind; [apply f_emit_all|intros; apply keeps_ret].
  - unfold ffi_mark_mail_read. destruct (uuid_parse id); [f_auto|apply keeps_ret].
  - apply f_first, keeps_modify. by intros n [Hn _].
  - apply f_first. by intros n [Ha Hh].
  - apply keeps_bind; [by apply keeps_modify|intros _]. f_auto.
  - apply keeps_bind; [apply f_with, n_bridge_for|intros bh].
    apply keeps_bind; [|intros; apply keeps_ret]. apply keeps_attempt, f_bridge. intros cfg. apply br_handle; [done|].
    destruct (json_from_str args) eqn:E; [by apply Hc|done].
Qed.

(** C33. The mobile library keeps its node consistent: from a consistent state,
    after any sequence of exported calls, incoming messages and background
    steps, panicking and failing ones included, whatever node is behind the
    lock has a reachable ledger, typed and correctly filed rows in its
    database, proximity data only from mutual matches while it is on, and
    reputations in range. *)
Theorem ffi_invariant (cs : list FfiCall) (s : Ffi) (n : FfiNode) :
  Forall ffi_typed cs -> ffi_good s -> ff_node (run_ffis cs s) = Some n -> exists issued, app_ok issued (fn_app n).
Proof.
  intros Ht Hs Hn. assert (ffi_good (run_ffis cs s)) as Hg; [|by destruct (Hg n Hn)].
  clear Hn. revert s Hs. induction Ht as [|c cs Hc Ht IH]; intros s Hs; [done|]. cbn. by apply IH, f_call.
Qed.
End ffi_invariant.

(** ** The mobile bindings: what calls achieve

    Revoked apps stay confined, uninstalling leaves nothing behind, the peer
    watcher keeps the foreign side's view exact, and payment requests survive
    their URI. *)


(** ** Revoked apps *)
Section revoked.
Context `{C : Crypto} `{D : Sled} {DL : SledLaws D} `{DB : !SledDb} {DBL : SledDbLaws DB}.
Context `{SC : MiniCodecs} {SL : MiniCodecLaws SC} `{ZP : Zip} `{L : Lowercase}.

(** the app has no reputation left *)
Definition rep_zero (app : string) (d : Db) : Prop :=
  exists r, get_json app (db_view d "miniapp_reputation") = Ok (Some r) /\ rep_score r = 0.

Lemma rep_zero_local app : local "miniapp_reputation" (rep_zero app).
Proof. intros d d' E (r & H1 & H2). exists r. by rewrite E. Qed.

Lemma apply_delta_eq app delta now d o :
  get_json app (db_view d "miniapp_reputation") = Ok o ->
  let r := mkAppRep (Z.max 0 (Z.min 100 (rep_score (default app_rep_default o) + delta))) now in
  exists d', apply_delta app delta now d = (d', Ok r)
    /\ get_json app (db_view d' "miniapp_reputation") = Ok (Some r)
    /\ (forall k, k ≠ app -> tree_view (db_view d' "miniapp_reputation") !! k = tree_view (db_view d "miniapp_reputation") !! k)
    /\ (forall n', n' ≠ "miniapp_reputation"%string -> db_view d' n' = db_view d n').
Proof.
  intros E r. destruct (write_json "miniapp_reputation" app r d) as (d' & Ew & Hg & Hk & Ho). exists d'. split_and!; try done.
  unfold apply_delta, rep_load, mbind, ST_bind. rewrite read_tree_eq, E. cbn [mret ST_ret]. fold r. unfold rep_save. by rewrite Ew.
Qed.

Lemma delta_zero app id delta now : delta <= 0 -> keeps (rep_zero app) (apply_delta id delta now).
Proof.
  intros Hd d (r & H1 & H2). destruct (decide (id = app)) as [->|Hne].
  - destruct (apply_delta_eq app delta now d _ H1) as (d' & -> & Hg & _). cbn [fst]. eexists. split; [exact Hg|]. cbn. lia.
  - destruct (get_json (A := AppReputation) id (db_view d "miniapp_reputation")) as [o|e] eqn:E.
    + destruct (apply_delta_eq id delta now d o E) as (d' & -> & _ & Hk & _). cbn [fst]. exists r. split; [|done].
      rewrite <- H1. apply get_json_ext, Hk. congruence.
    + unfold apply_delta, rep_load, mbind, ST_bind. rewrite read_tree_eq, E. cbn. by exists r.
Qed.

Lemma install_revoked app bytes trust allow now d :
  revoked app d -> (exists e, install_verified bytes trust allow now d = (d, Err e))
    \/ exists b, load_from_bytes bytes = Ok b /\ mf_id (bu_manifest b) ≠ app.
Proof.
  intros Hr. destruct (preview_install bytes d) as [d2 [p|e]] eqn:Ep.
  - right. apply preview_inv in Ep as (_ & b & _ & _ & Hb & _ & _ & _ & Hf & _). exists b. split; [done|].
    intros <-. unfold revoked in Hr. by rewrite Hf in Hr.
  - left. exists e. apply preview_pure in Ep as E. subst d2. by apply ST_bind_Err.
Qed.

Lemma trust_other app id t now : id ≠ app -> keeps (rep_zero app) (record_install_trust id t now).
Proof.
  intros Hne. unfold record_install_trust. apply keeps_bind; [|intros; apply keeps_ret].
  intros d (r & H1 & H2). destruct (get_json (A := AppReputation) id (db_view d "miniapp_reputation")) as [o|e] eqn:E.
  - destruct (apply_delta_eq id (trust_delta t) now d o E) as (d' & -> & _ & Hk & _). cbn [fst]. exists r. split; [|done].
    rewrite <- H1. apply get_json_ext, Hk. congruence.
  - unfold apply_delta, rep_load, mbind, ST_bind. rewrite read_tree_eq, E. cbn. by exists r.
Qed.

(** an installation raises the score of its own app only *)
Lemma install_zero app bytes trust allow now d b :
  load_from_bytes bytes = Ok b -> mf_id (bu_manifest b) ≠ app ->
  rep_zero app d -> rep_zero app (install_verified bytes trust allow now d).1.
Proof.
  intros Hb Hne Hz. pose proof (rep_zero_local app) as Hl. unfold install_verified, mbind, ST_bind.
  destruct (preview_install bytes d) as [d1 r] eqn:Ep. apply preview_pure in Ep as ->. destruct r as [p|e]; [|done].
  unfold st_lift. destruct (trust_gate trust p); [|done]. case_match; [done|].
  pose proof (keeps_store_install _ _ bytes Hl ltac:(done) ltac:(done) d Hz) as Hs.
  destruct (store_install bytes d) as [d2 [m|e]] eqn:Es; [|done]. cbn [fst] in Hs.
  assert (mf_id m ≠ app) as Hm.
  { unfold store_install in Es. rewrite (ST_bind_lift _ _ _ _ Hb) in Es. case_match; [done|]. cbv zeta in Es.
    apply ST_bind_inv in Es as (? & ? & _ & Es). apply ST_bind_inv in Es as (? & ? & _ & Es).
    apply ST_bind_inv in Es as (? & ? & _ & Es). destruct (insert_files _ _). apply ST_bind_inv in Es as (? & ? & _ & Es).
    apply ST_bind_inv in Es as (? & ? & _ & Es). by injection Es as _ <-. }
  by apply (trust_other app (mf_id m) (ip_trust_level p) now Hm).
Qed.

Lemma store_step_zero app d d' : store_step d d' -> revoked app d -> rep_zero app d -> rep_zero app d'.
Proof.
  intros Hs Hr Hz. pose proof (rep_zero_local app) as Hl.
  assert (forall id now, keeps (rep_zero app) (revoke_app id now)) as Hrev by (intros; by eapply keeps_other; [..|apply only_revoke]).
  destruct Hs; lazymatch goal with
    | |- rep_zero _ (install_verified _ _ _ _ _).1 => idtac
    | |- rep_zero _ (?m _).1 => enough (keeps (rep_zero app) m) as Hk by (by apply Hk)
    end.
  - unfold store_open. apply keeps_bind; [apply keeps_ignore; by eapply keeps_other; [..|apply only_defaults]|intros _].
    apply keeps_ignore, keeps_bind; [apply keeps_lift|intros ls]. by eapply keeps_other; [..|apply only_merge].
  - destruct (install_revoked app bytes trust allow now d Hr) as [(e & ->)|(b & Hb & Hne)]; [done|].
    by eapply install_zero.
  - by eapply keeps_store_install.
  - by eapply keeps_uninstall.
  - by eapply keeps_other; [..|apply only_write].
  - apply Hrev.
  - apply keeps_bind; [apply keeps_lift|intros ok]. destruct ok; cbn [negb]; [|apply keeps_ret].
    apply keeps_bind; [apply Hrev|intros _]. apply keeps_bind; [apply delta_zero; lia|intros; apply keeps_ret].
  - by eapply keeps_other; [..|apply only_prefs].
  - by apply delta_zero.
  - apply keeps_bind; [by apply delta_zero|intros; apply keeps_ret].
Qed.
End revoked.

Section revoked_ffi.
Context `{C : Crypto} `{D : Sled} {DL : SledLaws D} {DO : SledOrder D} `{DB : !SledDb} {DBL : SledDbLaws DB}.
Context `{P : E2EPrims} `{J : Json} `{BW : Bincode WireMessage}.
Context `{BT : Bincode Transaction} `{BA : Bincode AccountState} `{BV : Bincode VelocityWindow}.
Context `{BP : Bincode CoinPayload} `{CH : !CoinHost}.
Context `{SC : MiniCodecs} {SL : MiniCodecLaws SC} `{ZP : Zip} `{L : Lowercase}.
Context `{B : AppCodecs} {BL : AppCodecLaws B} `{MC : MeshCodecs} `{AH : AppHost} `{K : CapPrims} `{U : UrlEncoding} `{UT : UuidText}.

Lemma ingest_revokes e now d d1 :
  rep_in_range d -> ingest_gossip_revocation e now d = (d1, Ok true) ->
  revoked (rv_app_id e) d1 /\ rep_zero (rv_app_id e) d1.
Proof.
  intros Hr H. unfold ingest_gossip_revocation in H. apply ST_bind_inv in H as (x & ok & [= <- _] & H).
  destruct ok; [|done]. cbn [negb] in H. apply ST_bind_inv in H as (d2 & [] & Hv & H).
  apply ST_bind_inv in H as (d3 & r & Hh & H). injection H as <-.
  assert (rep_in_range d2) as Hr2.
  { assert (keeps rep_in_range (revoke_app (rv_app_id e) now)) as Hk by (by eapply keeps_other; [apply rep_local| |apply only_revoke]).
    specialize (Hk d Hr). by rewrite Hv in Hk. }
  unfold record_revocation_hit in Hh.
  destruct (get_json (A := AppReputation) (rv_app_id e) (db_view d2 "miniapp_reputation")) as [o|err] eqn:Eo.
  - destruct (apply_delta_eq (rv_app_id e) (-100) now d2 o Eo) as (d4 & Ea & Hg & _ & Ho). rewrite Ea in Hh. injection Hh as <- _.
    split.
    + assert (revoked (rv_app_id e) d2) as Hrv; [|by eapply revoked_view; [by apply Ho|]].
      destruct (load_revocations d) as [d5 [snap|]] eqn:El.
      * assert (d5 = d) as -> by (rewrite load_revocations_eq in El; by injection El as <- _).
        destruct (revoke_app_revokes (rv_app_id e) now d snap El) as (d6 & Ev & H6). rewrite Hv in Ev. by injection Ev as <-.
      * unfold revoke_app in Hv. by rewrite (ST_bind_Err _ _ _ _ _ El) in Hv.
    + eexists. split; [exact Hg|]. cbn. destruct o as [r0|]; [pose proof (Hr2 _ _ Eo); cbn; lia|reflexivity].
  - unfold apply_delta, rep_load, mbind, ST_bind in Hh. by rewrite read_tree_eq, Eo in Hh.
Qed.

Lemma revoked_stays app d d' : revoked app d -> rep_zero app d -> rtc store_step d d' -> rep_zero app d'.
Proof.
  intros Hr Hz Hs. induction Hs as [|d1 d2 d3 H1 _ IH]; [done|].
  apply IH; [by eapply store_step_revoked|by eapply store_step_zero].
Qed.

Lemma zero_forces app d : rep_zero app d -> is_ok (prefs_load app d).2 = true -> effective_safe_mode app d = (d, Ok true).
Proof.
  intros (r & Hg & Hz) Hp. unfold effective_safe_mode. destruct (prefs_load app d) as [d1 [p|]] eqn:Ep; [|done].
  assert (d1 = d) as ->.
  { unfold prefs_load in Ep. apply ST_bind_inv in Ep as (d2 & o & E1 & E2). rewrite read_tree_eq in E1.
    injection E1 as <- _. by injection E2. }
  rewrite (ST_bind_Ok _ _ _ _ _ Ep). destruct (pr_safe_mode p); [done|].
  rewrite (ST_bind_Ok _ _ d d r); [by unfold forced_safe_mode; rewrite Hz|].
  unfold rep_load, mbind, ST_bind. by rewrite read_tree_eq, Hg.
Qed.
End revoked_ffi.

(** ** Calls of a running library *)
Section running.
Context `{C : Crypto} `{D : Sled} {DL : SledLaws D} {DO : SledOrder D} `{DB : !SledDb} {DBL : SledDbLaws DB}.
Context `{P : E2EPrims} `{J : Json} `{BW : Bincode WireMessage}.
Context `{BT : Bincode Transaction} `{BA : Bincode AccountState} `{BV : Bincode VelocityWindow}.
Context `{BP : Bincode CoinPayload} `{CH : !CoinHost}.
Context `{SC : MiniCodecs} {SL : MiniCodecLaws SC} `{ZP : Zip} `{L : Lowercase}.
Context `{B : AppCodecs} {BL : AppCodecLaws B} `{MC : MeshCodecs} `{AH : AppHost} `{K : CapPrims} `{U : UrlEncoding} `{UT : UuidText}.

(** the library runs the node [n] *)
Definition running (s : Ffi) (n : FfiNode) : Prop := ff_runtime s = true /\ ff_poisoned s = false /\ ff_node s = Some n.

Lemma with_state_run {A} (m : ST FfiNode A) s n :
  running s n -> with_state m s = (set_ff_node (Some (m n).1) s, (m n).2).
Proof.
  intros (Hr & Hp & Hn). unfold with_state, runtime, state_arc, mbind, ST_bind. rewrite Hr, Hp, Hn.
  unfold on_state. rewrite Hn. by destruct (m n).
Qed.

Lemma state_first_run {A} (m : ST FfiNode A) s n :
  running s n -> state_first m s = (set_ff_node (Some (m n).1) s, (m n).2).
Proof.
  intros (Hr & Hp & Hn). unfold state_first, runtime, state_arc, mbind, ST_bind. rewrite Hp, Hn, Hr.
  unfold on_state. rewrite Hn. by destruct (m n).
Qed.

(** a read of the app store leaves the node as it is *)
Lemma on_apps_read {A} (m : ST Db A) n d r :
  an_app_store (fn_app n) = Some d -> m d = (d, r) -> on_apps m n = (n, r).
Proof.
  intros Hd Hm. unfold on_apps, on_app. rewrite Hd, Hm. f_equal. destruct n as [a ? ? ? ? ?]. unfold set_fn_app. cbn in *.
  f_equal. destruct a. cbn in *. by rewrite Hd.
Qed.

Lemma or_default_run {S A} (x : A) (m : ST S A) s s' r :
  m s = (s', r) -> or_default x m s = (s', Ok (match r with Ok a => a | Err _ => x end)).
Proof. intros E. unfold or_default, st_attempt, mbind, ST_bind. by rewrite E. Qed.

Lemma bridge_for_run app n d safe :
  an_app_store (fn_app n) = Some d -> effective_safe_mode app d = (d, safe) ->
  exists bh, bridge_for app n = (n, Ok bh) /\ bh_app_id bh = app
    /\ bh_safe_mode bh = match safe with Ok b => b | Err _ => false end.
Proof.
  intros Hd Hs. unfold bridge_for, ok_flatten.
  rewrite (ST_bind_Ok _ _ _ _ _ (or_default_run None _ n n _ (on_apps_read _ _ _ _ Hd (get_manifest_eq app d)))).
  rewrite (ST_bind_Ok _ _ _ _ _ (or_default_run false _ n n _ (on_apps_read _ _ _ _ Hd Hs))).
  eexists. split; [reflexivity|]. by split.
Qed.

(** C34. A revoked app stays confined: once a signed revocation has been accepted by a
    store with scores in range and preferences that parse (a new store is one,
    and every operation keeps both), whatever happens to the store afterwards
    (installations, reports, listings, restarts, the user switching safe mode
    off), every call of that app through the mobile bridge to a method that
    writes, sends or pays returns an error and leaves everything as it was, but
    for the clock, the reputation row of this app and the count of its calls: the
    app is still revoked, and no other row of the app store, no session and no
    other table of the library changes. *)
Theorem revoked_app_confined (e : RevocationGossip) (now : Z) (d0 d1 d2 : Db) (s : Ffi) (n : FfiNode) method args :
  rep_in_range d0 -> prefs_parse d0 -> ingest_gossip_revocation e now d0 = (d1, Ok true) -> rtc store_step d1 d2 ->
  running s n -> an_app_store (fn_app n) = Some d2 -> method_allowed_in_safe_mode method = false ->
  exists a limits err,
    miniapp_bridge_call (rv_app_id e) method args s
      = (mkFfi (ff_runtime s) (Some (set_fn_app a n)) (ff_poisoned s) (ff_callback s) (ff_events s)
           (ff_sessions s) limits (ff_broadcasts s), Ok (json_to_string (JObj [("error"%string, JStr err)])))
    /\ inert (rv_app_id e) (fn_app n) a
    /\ (limits = ff_limits s \/ exists t, limits = (check_bridge_rate (rv_app_id e) t (ff_limits s)).1)
    /\ exists d3, an_app_store a = Some d3 /\ revoked (rv_app_id e) d3.
Proof.
  intros Hr Hp0 Hi Hs Hrun Hd Hm. destruct (ingest_revokes _ _ _ _ Hr Hi) as [Hrv Hz].
  assert (rtc store_step d0 d2) as Hs0.
  { apply rtc_l with d1; [|done]. pose proof (step_gossip e now d0) as H. by rewrite Hi in H. }
  pose proof (prefs_load_ok (rv_app_id e) d2 (prefs_stay_parsed _ _ Hp0 Hs0)) as Hp.
  pose proof (zero_forces _ _ (revoked_stays _ _ _ Hrv Hz Hs) Hp) as He.
  assert (revoked (rv_app_id e) d2) as Hrv2.
  { clear -Hrv Hs DBL SL. induction Hs as [|x y z H1 _ IH]; [done|]. apply IH. by eapply store_step_revoked. }
  destruct (bridge_for_run (rv_app_id e) n d2 (Ok true) Hd He) as (bh & Eb & Ea & Hsafe).
  assert (with_state (bridge_for (rv_app_id e)) s = (set_ff_node (Some n) s, Ok bh)) as Ew
    by by rewrite (with_state_run _ s n Hrun), Eb.
  unfold miniapp_bridge_call. rewrite (ST_bind_Ok _ _ _ _ _ Ew). cbv zeta.
  set (v := match json_from_str args with Ok v => v | Err _ => JNull end).
  set (b := mkBridgeState (fn_app n) (ff_sessions s) (ff_limits s) (ff_broadcasts s)).
  destruct (handle (fn_conf n) bh method v b) as [b' r] eqn:Eh.
  apply handle_gate in Eh as Hg. destruct Hg as [(tok & _ & _ & _ & Hok & _)|[(err & ->) (Hin & Hse & Hbr & Hli)]].
  { rewrite (Hok Hsafe) in Hm. done. }
  assert (on_bridge (fun cfg => handle cfg bh method v) (set_ff_node (Some n) s)
    = (mkFfi (ff_runtime s) (Some (set_fn_app (br_node b') n)) (ff_poisoned s) (ff_callback s) (ff_events s)
         (br_sessions b') (br_limits b') (br_broadcasts b'), Err err)) as Eo.
  { unfold on_bridge. cbn -[handle]. fold b. by rewrite Eh. }
  unfold st_attempt, mbind, ST_bind. rewrite Eo, Hse, Hbr. rewrite Ea in Hin, Hli.
  exists (br_node b'), (br_limits b'), err. split_and!; [reflexivity|done|done|].
  destruct Hin as (o & k & -> & Ho). cbn [an_app_store set_an_app_store] in *. cbn in Ho. rewrite Hd in Ho.
  destruct o as [d3|]; [|done]. exists d3. split; [done|]. destruct Ho as [Ho _].
  eapply revoked_view; [|exact Hrv2]. by apply Ho.
Qed.
(** ** Removing an app *)

Abbreviation kv st := (tree_view (db_view (app_db st) "miniapp_storage")).

Lemma uninstall_spec app d :
  exists d', uninstall app d = (d', Ok tt) /\ get_manifest app d' = (d', Ok None)
    /\ forall path, store_get_file app path d' = (d', Ok None).
Proof.
  destruct (tree_remove_view (db_view d "installed_apps") app) as (t' & Ht & Hv).
  assert (write_tree "installed_apps" (fun t => tree_remove t app) d = (db_put d "installed_apps" t', Ok tt)) as Ew
    by by apply write_tree_ok.
  eexists. split_and!.
  - unfold uninstall. rewrite (ST_bind_Ok _ _ _ _ _ Ew). reflexivity.
  - rewrite get_manifest_eq. f_equal. apply get_json_none. rewrite db_put_view, decide_False by done.
    rewrite db_put_view, decide_True by done. by rewrite Hv, lookup_delete_eq.
  - intros path. unfold store_get_file. rewrite read_tree_eq. f_equal. rewrite db_put_view, decide_True by done.
    by rewrite tree_get_view, tree_view_new.
Qed.

(** Uninstalling an app from the mobile bindings removes all of it: the call
    succeeds, and afterwards there is no manifest, no file, no open session and
    no stored value of the app. *)
Theorem uninstall_leaves_nothing (app : string) (s : Ffi) (n : FfiNode) (d : Db) :
  running s n -> an_app_store (fn_app n) = Some d ->
  exists s' n' d', uninstall_app app s = (s', Ok tt) /\ running s' n' /\ an_app_store (fn_app n') = Some d'
    /\ get_manifest app d' = (d', Ok None) /\ (forall path, store_get_file app path d' = (d', Ok None))
    /\ ff_sessions s' !! app = None
    /\ forall key, kv (an_storage (fn_app n')) !! (app_prefix app +:+ key)%string = None.
Proof.
  intros (Hr & Hp & Hn) Hd. destruct (uninstall_spec app d) as (d' & Eu & Hm & Hf).
  destruct (clear_spec (an_storage (fn_app n)) app) as (st & Ec & Hv).
  set (s1 := set_ff_sessions (revoke_session app (ff_sessions s)) s).
  set (n1 := set_fn_app (set_an_app_store (Some d') (fn_app n)) n).
  set (n2 := set_fn_app (set_an_storage st (fn_app n1)) n1).
  assert (on_apps (uninstall app) n = (n1, Ok tt)) as E1 by (unfold on_apps, on_app; by rewrite Hd, Eu).
  assert (on_db (miniapp_clear_all_for_app app) n1 = (n2, Ok tt)) as E2.
  { unfold on_db, on_app, on_storage. cbn [fn_app set_fn_app an_storage set_an_app_store n1]. by rewrite Ec. }
  exists (set_ff_node (Some n2) s1), n2, d'. split_and!; try done.
  - unfold uninstall_app. erewrite ST_bind_Ok; [|reflexivity]. fold s1.
    rewrite (with_state_run _ s1 n) by done. rewrite (ST_bind_Ok _ _ _ _ _ E1). unfold st_ignore. by rewrite E2.
  - cbn. apply lookup_delete_eq.
  - intros key. cbn. rewrite Hv. replace (starts_with _ _) with true; [done|]. symmetry. apply starts_with_true. by exists key.
Qed.

(** ** Watching peers *)

(** the set a listener keeps *)
Definition follow (known : gset string) (e : NodeEvent) : gset string :=
  match e with
  | OnPeerDiscovered p => {[p]} ∪ known
  | OnPeerLost p => known ∖ {[p]}
  | _ => known
  end.

Lemma follow_found (l : list string) known : foldl follow known (OnPeerDiscovered <$> l) = list_to_set l ∪ known.
Proof. revert known. induction l as [|x l IH]; intros known; cbn; [set_solver|]. rewrite IH. set_solver. Qed.
Lemma follow_lost (l : list string) known : foldl follow known (OnPeerLost <$> l) = known ∖ list_to_set l.
Proof. revert known. induction l as [|x l IH]; intros known; cbn; [set_solver|]. rewrite IH. set_solver. Qed.

Lemma emit_all_run es s :
  emit_all es s = (if ff_callback s then set_ff_events (ff_events s ++ es) s else s, Ok tt).
Proof.
  revert s. induction es as [|e es IH]; intros s; cbn [emit_all].
  - destruct (ff_callback s) eqn:E; [|done]. rewrite app_nil_r. by destruct s.
  - unfold emit, st_modify. unfold mbind, ST_bind. rewrite IH. destruct (ff_callback s) eqn:E; [|by rewrite E].
    cbn. rewrite E. by rewrite <- (assoc_L (++)).
Qed.

(** Every tick of the peer watcher brings the listener's set up to date: the
    events it receives turn the set of the previous tick into the peers known
    now, the relay left out. *)
Theorem peer_watch_tracks (known : gset string) (s : Ffi) (n : FfiNode) :
  running s n -> ff_callback s = true ->
  exists s' es, peer_watch known s = (s', Ok (list_to_set (filter (fun p => is_relay_peer p = false) (an_peers (fn_app n)))))
    /\ ff_events s' = ff_events s ++ es
    /\ foldl follow known es = list_to_set (filter (fun p => is_relay_peer p = false) (an_peers (fn_app n))).
Proof.
  intros (Hr & Hp & Hn) Hc. set (current := list_to_set (filter _ _) : gset string).
  eexists _, ((OnPeerDiscovered <$> elements (current ∖ known)) ++ (OnPeerLost <$> elements (known ∖ current))).
  split_and!.
  - unfold peer_watch, mbind, ST_bind, on_state. rewrite Hn. cbn -[emit_all]. fold current. rewrite emit_all_run. cbn. rewrite Hc. reflexivity.
  - done.
  - rewrite foldl_app, follow_found, follow_lost, !list_to_set_elements_L. apply set_eq. intros x.
    destruct (decide (x ∈ current)), (decide (x ∈ known)); set_solver.
Qed.

(** ** Payment requests *)

(** A payment request built here and parsed by another phone within its half
    hour is shown with the same address, amount, memo and expiry; later it is
    refused. *)
Theorem payment_request_transfer {UL : UrlEncodingLaws U} (to : string) (amount now now' : Z) (memo : option string) (u u' : string) :
  has_char qmark to = false -> in_u 64 amount -> in_u 64 now ->
  parse_payment_request_uri (build_payment_request_uri to amount memo now u) now' u'
  = if decide (now' <= now +sat 1800000) then Some (mkPaymentData to amount memo (Some (now +sat 1800000))) else None.
Proof.
  intros Hq Ha Hn. unfold parse_payment_request_uri, build_payment_request_uri, pay_new.
  change (30 * 60 * 1000) with 1800000. assert (in_u 64 (now +sat 1800000)) as He by (destruct Hn; by apply (sat_add_in_u 64)).
  revert He. generalize (now +sat 1800000). intros expiry He. rewrite payment_uri_roundtrip; [|done|done|by intros ? [= <-]].
  unfold pay_is_expired. cbn [pay_expires_at_ms to_address pay_amount_muon pay_memo].
  case_decide; [by rewrite bool_decide_false by lia|by rewrite bool_decide_true by lia].
Qed.
End running.
