(* ===== verification/Desktop.v ===== *)
(** * The desktop shell: commands

    [mycelium-desktop/src/lib.rs], every Tauri command.  An [Err] of a command is
    the message the user interface shows; there are no panics on these paths.
    The state is the shared [Option<AppState>], the tables of the bridge, the
    events emitted to the user interface, and the disk and keyring the shell
    works on.  Opening the message store, the databases and the swarm is an
    argument of [start_node]; the identity and the encryption keys are loaded by
    the definitions of [AtRest.v].  What serde derives for a record is [to_value];
    the reply of the run loop to a command with a reply channel is an argument. *)

From S2P Require Import Prelude External Text Instances Transaction Policy Ledger CoinNode Wire.
From S2P Require Import E2E AtRest Bootstrap Payment NodeData NodeHandle Host AppStorage Proximity MiniApp MiniAppStore.
From S2P Require Import AppNodeData AppNode AppTasks Api Bridge BridgeHost RelayClient FfiData Ffi.

Open Scope Z_scope.

(** serde's derived [Serialize], [base64]'s standard engine, and the type of the
    settings file *)
Class ToValue (A : Type) := to_value : A -> JValue.
Class B64Std := b64_std_decode : string -> anyhow (list byte).

Record UiSettings := mkUi { ui_rendezvous_enabled : bool }.
Definition ui_default : UiSettings := mkUi true.

Definition set_ui_rendezvous (b : bool) (u : UiSettings) : UiSettings := mkUi b.

Definition ui_settings_path (db_path : string) : string := path_join db_path "ui_settings.json".

(** ** State *)

(** the coin node of the desktop works on the disk and the keyring of the shell *)
Definition desk_host `{V : VaultHost} `{F : Disk} `{KR : Keyring} `{P : E2EPrims} `{CE : CoinEnv} : CoinHost :=
  Build_CoinHost _ _ CE _ V F KR P.
#[local] Existing Instance desk_host.

Section desktop_state.
Context `{V : VaultHost} `{F : Disk} `{KR : Keyring} `{P : E2EPrims} `{CE : CoinEnv}.

(** [AppState] *)
Record DeskNode := mkDeskNode {
  dn_app : AppNode;
  dn_conf : AppConf;
  dn_db_path : string;
  dn_cap_mac_key : list byte;
  dn_energy_state : NodeState;
  dn_rendezvous_enabled : bool;
}.

Record Desktop := mkDesktop {
  dk_node : option DeskNode;
  dk_events : list (string * JValue);
  dk_sessions : gmap string Session;
  dk_limits : gmap string (Z * Z);
  dk_broadcasts : gmap string (Z * Z);
  dk_world : VaultWorld;
}.

(** a fresh process over the same disk and keyring *)
Definition desktop_run (w : VaultWorld) : Desktop := mkDesktop None [] ∅ ∅ ∅ w.

Definition set_dk_node (v : option DeskNode) (s : Desktop) : Desktop :=
  mkDesktop v (dk_events s) (dk_sessions s) (dk_limits s) (dk_broadcasts s) (dk_world s).
Definition set_dk_sessions (v : gmap string Session) (s : Desktop) : Desktop :=
  mkDesktop (dk_node s) (dk_events s) v (dk_limits s) (dk_broadcasts s) (dk_world s).
Definition set_dk_world (v : VaultWorld) (s : Desktop) : Desktop :=
  mkDesktop (dk_node s) (dk_events s) (dk_sessions s) (dk_limits s) (dk_broadcasts s) v.

Definition set_dn_app (v : AppNode) (n : DeskNode) : DeskNode :=
  mkDeskNode v (dn_conf n) (dn_db_path n) (dn_cap_mac_key n) (dn_energy_state n) (dn_rendezvous_enabled n).
Definition set_dn_energy (v : NodeState) (n : DeskNode) : DeskNode :=
  mkDeskNode (dn_app n) (dn_conf n) (dn_db_path n) (dn_cap_mac_key n) v (dn_rendezvous_enabled n).
Definition set_dn_rendezvous (v : bool) (n : DeskNode) : DeskNode :=
  mkDeskNode (dn_app n) (dn_conf n) (dn_db_path n) (dn_cap_mac_key n) (dn_energy_state n) v.

(** the coin node finds the disk and the keyring as the shell left them, and the
    shell finds them as the coin node left them *)
Definition lend (w : VaultWorld) (n : DeskNode) : DeskNode :=
  match an_coin (dn_app n) with
  | None => n
  | Some c => set_dn_app (set_an_coin (Some (mkCoin (cn_ledger c) (cn_outbox c) (cn_ticks c) w)) (dn_app n)) n
  end.
Definition given_back (w : VaultWorld) (n : DeskNode) : VaultWorld :=
  match an_coin (dn_app n) with None => w | Some c => cn_vault c end.
End desktop_state.

Section desktop.
Context `{C : Crypto} `{D : Sled} `{DB : !SledDb} `{V : !VaultHost} `{F : Disk} `{KR : Keyring}.
Context `{P : E2EPrims} `{J : Json} `{BW : Bincode WireMessage}.
Context `{BT : Bincode Transaction} `{BA : Bincode AccountState} `{BV : Bincode VelocityWindow}.
Context `{BP : Bincode CoinPayload} `{CE : CoinEnv}.
Context `{SC : MiniCodecs} `{ZP : Zip} `{L : Lowercase}.
Context `{B : AppCodecs} `{MC : MeshCodecs} `{AH : AppHost} `{K : CapPrims} `{U : UrlEncoding}.
Context `{US : Serde UiSettings} `{TM : ToValue MiniAppManifest} `{TL : ToValue AppStoreListing} `{B64 : B64Std}.
Context `{RD : !DirRemoval} `{HT : Http}.

Abbreviation desk := (ST Desktop).
Abbreviation dnode := (ST DeskNode).

(** ** Reaching the node *)

(** [guard.as_ref().ok_or_else(|| "node not started")?] *)
Definition with_node {A} (m : dnode A) : desk A := fun s =>
  match dk_node s with
  | None => (s, Err "node not started"%string)
  | Some n => let '(n', r) := m (lend (dk_world s) n) in (set_dk_world (given_back (dk_world s) n') (set_dk_node (Some n') s), r)
  end.

(** [let Some(s) = guard.as_ref() else { return Ok(d) }] *)
Definition with_node_or {A} (d : A) (m : dnode A) : desk A := fun s =>
  match dk_node s with
  | None => (s, Ok d)
  | Some _ => with_node m s
  end.

Definition d_app {A} (m : AppConf -> ST AppNode A) : dnode A := fun n =>
  let '(a, r) := m (dn_conf n) (dn_app n) in (set_dn_app a n, r).
Definition d_db {A} (m : ST AppStorage A) : dnode A := d_app (fun _ => on_storage m).
Definition d_coin {A} (m : CoinConfig -> ST CoinState A) : dnode A := d_app (fun cfg a =>
  match an_coin a with
  | None => (a, Err "no coin node"%string)
  | Some c => let '(c', r) := m (ac_coin cfg) c in (set_an_coin (Some c') a, r)
  end).
Definition d_store {A} (m : ST Db A) : dnode A := d_app (fun _ a =>
  match an_app_store a with
  | None => (a, Err "no app store"%string)
  | Some d => let '(d', r) := m d in (set_an_app_store (Some d') a, r)
  end).
Definition d_now : dnode Z := d_app (fun _ => a_now).

Definition on_world {A} (m : ST VaultWorld A) : desk A := fun s =>
  let '(w, r) := m (dk_world s) in (set_dk_world w s, r).

Definition desk_emit (event : string) (v : JValue) : desk unit :=
  st_modify (fun s => mkDesktop (dk_node s) (dk_events s ++ [(event, v)]) (dk_sessions s) (dk_limits s) (dk_broadcasts s) (dk_world s)).

(** ** Settings file *)

Definition load_ui_settings (db_path : string) (w : VaultWorld) : UiSettings :=
  match disk_read (w_fs w) (ui_settings_path db_path) with
  | Err _ => ui_default
  | Ok b => if utf8_valid b then match from_json b with Ok u => u | Err _ => ui_default end else ui_default
  end.

Definition save_ui_settings (db_path : string) (u : UiSettings) : ST VaultWorld unit :=
  json ← st_lift (to_json u);
  on_fs (fun f => disk_write f (ui_settings_path db_path) json).

(** ** Notifications and the coin transport *)

Definition desktop_notify (n : Notification) : desk unit :=
  match n with
  | OnContactRequest peer name =>
      desk_emit "contacts-updated" (JObj [("peer_id", JStr peer); ("display_name", JStr name)]%string)
  | _ => mret tt
  end.

Definition desktop_coin_transport (c : CoinSend) : anyhow NodeCommand :=
  match c with
  | BroadcastCoinInner inner => p ← encode_coin_payload inner; Ok (BroadcastPayload "mycelium/coin" "coin:broadcast" p)
  | SendDirectCoinInner to inner => p ← encode_coin_payload inner; Ok (SendDirectPayload to "coin:direct" p)
  end.

(** ** Start and reset *)

Definition default_db_path (data_dir : option string) : string := path_join (default "."%string data_dir) "mycelium".

Definition reset_local_data (data_dir db_path : option string) : desk unit :=
  let path := default (default_db_path data_dir) db_path in
  _ ← on_world (clear_keyring_master path);
  ex ← on_world (exists_file path);
  if (ex : bool) then
    r ← st_attempt (on_world (remove_dir_all path));
    match r with
    | Ok _ => mret tt
    | Err e => st_err ("failed to reset local data: " +:+ e)%string
    end
  else mret tt.

(** what opening the swarm, the message store, the databases and the ledger
    returns, and the tables the run loop shares *)
Record DeskParts := mkParts {
  dp_swarm : NodeConfig -> anyhow unit;
  dp_message_store : anyhow unit;
  dp_peer_keys : gmap string (list byte);
  dp_peers : list string;
  dp_app_db : anyhow Db;
  dp_app_store : anyhow Db;
  dp_ledger : anyhow LocalLedger;
}.

Definition identity_path (db_path : string) : string := (db_path +:+ "/identity")%string.
Definition peer_id_of (kp : Keypair) : string := peer_string (pk_peer_id (kp_public kp)).

(** the parts [NodeRunner::new] loads: the identity in the transport, the
    encryption keys, the message store *)
Definition runner_new (c : NodeConfig) (swarm : NodeConfig -> anyhow unit) (message_store : anyhow unit) : ST VaultWorld string :=
  kp ← load_or_create_keypair (keypair_path_of c) (nc_storage_key c);
  _ ← st_lift (swarm c);
  _ ← load_or_create_enc_keypair (nc_db_path c) (nc_storage_key c);
  _ ← st_lift message_store;
  mret (peer_id_of kp).

Definition desk_config (db_path display_name : string) (bootstrap_peers : list string) (ui : UiSettings) : NodeConfig :=
  mkNodeConfig "/ip4/0.0.0.0/tcp/0" db_path (Some (identity_path db_path)) 500 30 bootstrap_peers true (Some display_name) None 3
    (ui_rendezvous_enabled ui) [] 50.

Definition start_parts (db_path display_name : string) (bootstrap_peers : list string) (o : DeskParts) : ST VaultWorld DeskNode :=
  w ← st_get;
  let ui := load_ui_settings db_path w in
  local_peer_id ← runner_new (desk_config db_path display_name bootstrap_peers ui) (dp_swarm o) (dp_message_store o);
  app_db ← st_lift (dp_app_db o);
  app_store ← st_lift (dp_app_store o);
  ledger ← st_lift (dp_ledger o);
  coin_keypair ← load_or_create_keypair (identity_path db_path) None;
  enc ← load_or_create_enc_keypair db_path None;
  w ← st_get;
  let coin := mkCoinConfig (address_from_keypair coin_keypair) local_peer_id (identity_path db_path) in
  mret (mkDeskNode
          (app_node_new (dp_peer_keys o) (dp_peers o) display_name (mkApp app_db None) (Some (mkCoin ledger [] 0 w)) (Some app_store))
          (mkAppConf local_peer_id enc coin) db_path (mac_key_from_db_path db_path) Active (ui_rendezvous_enabled ui)).

Definition start_node (db_path display_name : string) (bootstrap_peers : list string) (o : DeskParts) : desk string :=
  s ← st_get;
  match dk_node s with
  | Some n => mret (ac_local_peer_id (dn_conf n))
  | None =>
      n ← on_world (start_parts db_path display_name bootstrap_peers o);
      _ ← st_modify (set_dk_node (Some n));
      mret (ac_local_peer_id (dn_conf n))
  end.

(** ** Peers *)

Definition desk_get_peers : desk (list string) :=
  with_node_or [] (l ← d_app (fun _ => known_peers); mret (filter (fun p => p ≠ RELAY_PEER_ID) l)).

Definition relay_status_value (r : RelayStatus) : JValue :=
  JObj [("online", JBool (rs_online r)); ("status", JStr (rs_status r)); ("connections", JNum (rs_connections r));
        ("peer_id", match rs_peer_id r with Some p => JStr p | None => JNull end)]%string.
Definition get_relay_status : desk JValue := mret (relay_status_value (fetch_relay_status None)).

Definition get_shareable_multiaddrs (v : NodeView) : desk (list string) :=
  with_node (id ← st_gets (fun n => ac_local_peer_id (dn_conf n)); mret (shareable_dial_multiaddrs id (nv_listen_addrs v))).

Definition add_peer (multiaddr : string) : desk unit := with_node (d_app (fun _ => send (AddBootstrapPeer multiaddr))).

Definition connect_peer_id (peer_id : string) : desk unit :=
  match parse_invite (trim peer_id) with
  | None => st_err "invalid invite — use mycelium://invite/v1#… or a peer ID"
  | Some (InviteMultiaddr addr) => add_peer addr
  | Some (InvitePeerId peer_id) =>
      _ ← with_node (d_app (fun _ => add_contact peer_id (take_chars 16 peer_id) true));
      match relay_circuit_multiaddr peer_id with
      | None => st_err "invalid peer id"
      | Some addr => add_peer addr
      end
  end.

(** ** Contacts *)

Definition contact_json (c : Contact) : JValue :=
  JObj [("peer_id", JStr (ct_peer_id c)); ("display_name", JStr (ct_display_name c)); ("added_at_ms", JNum (ct_added_at_ms c));
        ("status", JStr (match ct_status c with Pending => "pending" | Accepted => "accepted" end))]%string.

Definition desk_contacts (m : ST AppNode (list Contact)) : desk (list JValue) :=
  with_node (l ← d_app (fun _ => m); mret (contact_json <$> l)).
Definition desk_list_contacts : desk (list JValue) := desk_contacts list_contacts.
Definition desk_list_accepted_contacts : desk (list JValue) := desk_contacts list_accepted_contacts.
Definition desk_list_pending_contacts : desk (list JValue) := desk_contacts list_pending_contacts.
Definition desk_add_contact (peer_id display_name : string) (accepted : bool) : desk JValue :=
  c ← with_node (d_app (fun _ => add_contact peer_id display_name accepted));
  _ ← desk_emit "contacts-updated" JNull;
  mret (contact_json c).
Definition desk_accept_contact (peer_id : string) : desk JValue :=
  c ← with_node (d_app (fun _ => accept_contact peer_id));
  _ ← desk_emit "contacts-updated" JNull;
  mret (contact_json c).
Definition desk_reject_contact (peer_id : string) : desk unit :=
  _ ← with_node (d_app (fun _ => reject_contact peer_id));
  desk_emit "contacts-updated" JNull.

(** ** Metrics, chat and mail *)

Definition metrics_json (m : NodeMetrics) : JValue :=
  JObj [("messages_forwarded", JNum (messages_forwarded m)); ("messages_dropped_ttl", JNum (messages_dropped_ttl m));
        ("messages_dropped_hops", JNum (messages_dropped_hops m)); ("messages_dropped_queue", JNum (messages_dropped_queue m));
        ("messages_dropped_invalid_sig", JNum (messages_dropped_invalid_sig m));
        ("messages_dropped_no_sig", JNum (messages_dropped_no_sig m));
        ("messages_delivered_local", JNum (messages_delivered_local m));
        ("pending_queue_size", JNum (Z.of_nat (pending_queue_size m)));
        ("seen_cache_size", JNum (Z.of_nat (seen_cache_size m)))]%string.
Definition get_metrics (v : NodeView) : desk JValue := with_node_or (JObj []) (mret (metrics_json (nv_metrics v))).

Definition desk_send_chat (to body : string) : desk unit :=
  with_node (_ ← d_app (fun cfg => send_chat cfg (Some to) body); mret tt).
Definition peer_has_enc_key (peer_id : string) : desk bool := with_node (d_app (fun _ => has_enc_key_for peer_id)).
Definition desk_send_chat_encrypted (to body : string) : desk string :=
  with_node (_ ← d_app (fun cfg => send_chat_encrypted cfg to body); mret "encrypted"%string).

Definition chat_json (m : ChatMessage) : JValue :=
  JObj [("id", JStr (ch_id m)); ("from_display_name", JStr (ch_from_display_name m)); ("body", JStr (ch_body m));
        ("timestamp_ms", JNum (ch_timestamp_ms m))]%string.
Definition desk_chat_history (peer_id : string) (limit : Z) : desk (list JValue) :=
  with_node_or [] (l ← or_default [] (d_db (chat_history peer_id (Z.to_nat limit))); mret (chat_json <$> l)).

Definition desk_send_mail (to subject body : string) : desk unit :=
  with_node (d_app (fun cfg => send_mail cfg to subject body [])).

Definition mail_json (m : MailMessage) (is_read : bool) : JValue :=
  JObj [("id", JStr (ml_id m)); ("from_peer", JStr (ml_from_peer m)); ("from_display_name", JStr (ml_from_display_name m));
        ("subject", JStr (ml_subject m)); ("body", JStr (ml_body m)); ("timestamp_ms", JNum (ml_timestamp_ms m));
        ("is_read", JBool is_read)]%string.
Fixpoint mail_values (l : list MailMessage) : dnode (list JValue) :=
  match l with
  | [] => mret []
  | m :: l => r ← or_default false (d_db (is_read (ml_id m))); rest ← mail_values l; mret (mail_json m r :: rest)
  end.
Definition mail_inbox (limit : Z) : desk (list JValue) :=
  with_node_or [] (l ← or_default [] (d_db (inbox (Z.to_nat limit))); mail_values l).

(** ** Wallet *)

Definition balance_json (b : Z * Z) : JValue := JObj [("confirmed_muon", JNum b.1); ("pending_muon", JNum b.2)]%string.
Definition desk_wallet_balance : desk JValue :=
  with_node_or (balance_json (0, 0)) (b ← or_default (0, 0) (d_coin coin_balance); mret (balance_json b)).
Definition desk_wallet_address : desk string := with_node_or ""%string (st_gets (fun n => local_address (ac_coin (dn_conf n)))).
Definition wallet_send (to : string) (amount fee : Z) (memo : option string) : desk unit :=
  with_node (d_coin (fun cfg => submit_transfer_from_identity_path cfg (coin_identity_path cfg) to amount fee memo)).

(** ** Bulletins and groups *)

Definition desk_post_bulletin (scope title body : string) (ttl_secs : Z) : desk unit :=
  with_node (d_app (fun _ => post_bulletin scope title body ttl_secs)).

Definition bulletin_json (p : BulletinPost) : JValue :=
  JObj [("id", JStr (bp_id p)); ("from_display_name", JStr (bp_from_display_name p)); ("title", JStr (bp_title p));
        ("body", JStr (bp_body p)); ("scope", JStr (bp_scope p)); ("timestamp_ms", JNum (bp_timestamp_ms p));
        ("expires_at_ms", JNum (bp_expires_at_ms p))]%string.

(** [AppStorage::bulletins_for_scope], with the clock it reads *)
Definition desk_bulletins_for_scope (scope : string) : desk (list JValue) :=
  with_node_or [] (now ← d_now; l ← or_default [] (d_db (bulletins_for_scope scope now)); mret (bulletin_json <$> l)).

Definition group_json (g : Group) : JValue :=
  JObj [("id", JStr (gr_id g)); ("name", JStr (gr_name g)); ("member_count", JNum (Z.of_nat (length (gr_members g))));
        ("created_at_ms", JNum (gr_created_at_ms g))]%string.
Definition desk_list_groups : desk (list JValue) := with_node (l ← d_db all_groups; mret (group_json <$> l)).
Definition desk_create_group (name : string) : desk JValue :=
  with_node (g ← d_app (fun _ => new_group name); _ ← d_db (save_group g); mret (group_json g)).
Definition desk_import_group_invite (json_str : string) : desk JValue :=
  with_node (now ← d_now; g ← st_lift (group_from_invite json_str now); _ ← d_db (save_group g); mret (group_json g)).
Definition desk_export_group_invite (group_id : string) : desk string :=
  with_node (o ← d_db (group_by_id group_id);
             mret (match o with Some g => group_export_invite g | None => ""%string end)).
Definition desk_send_group_message (group_id body : string) : desk unit :=
  with_node (
    o ← d_db (group_by_id group_id);
    match o with
    | None => st_err "unknown group"
    | Some g => d_app (fun cfg => send_group_message cfg g body)
    end).
Definition desk_delete_group (group_id : string) : desk unit := with_node (d_db (delete_group group_id)).

Definition group_chat_json (gid : string) (m : ChatMessage) : JValue :=
  JObj [("id", JStr (ch_id m)); ("from_peer", JStr gid); ("from_display_name", JStr (ch_from_display_name m));
        ("body", JStr (ch_body m)); ("timestamp_ms", JNum (ch_timestamp_ms m))]%string.
Definition desk_group_chat_history (group_id : string) (limit : Z) : desk (list JValue) :=
  with_node (l ← d_db (group_chat_history group_id (Z.to_nat limit));
             mret (group_chat_json ("group:" +:+ group_id) <$> l)).

(** ** Mini-apps *)

Definition miniapp_list_installed : desk (list JValue) := with_node (l ← d_store installed_apps; mret (to_value <$> l)).

Definition install_preview_json (p : InstallPreview) : JValue :=
  JObj [("manifest", to_value (ip_manifest p)); ("bundle_hash", JStr (ip_bundle_hash p));
        ("trust_level", JStr (trust_level_name (ip_trust_level p))); ("listing_signature_ok", JBool (ip_listing_signature_ok p));
        ("installed_version", match ip_installed_version p with Some v => JStr v | None => JNull end);
        ("is_downgrade", JBool (ip_is_downgrade p)); ("has_inline_script", JBool (ip_has_inline_script p));
        ("strict_csp_eligible", JBool (ip_strict_csp_eligible p)); ("reproducible_attested", JBool (ip_reproducible_attested p));
        ("bundle_signature_ok", JBool (ip_bundle_signature_ok p))]%string.
Definition miniapp_preview_install (bundle_base64 : string) : desk JValue :=
  bytes ← st_lift (b64_std_decode (trim bundle_base64));
  with_node (p ← d_store (preview_install bytes); mret (install_preview_json p)).

Definition check_listing_id (bytes : list byte) (listing_app_id : option string) : ST Db unit :=
  match listing_app_id with
  | None => mret tt
  | Some id =>
      preview ← preview_install bytes;
      if decide (mf_id (ip_manifest preview) ≠ id) then st_err "bundle app id does not match listing_app_id" else mret tt
  end.
Definition miniapp_install (bundle_base64 : string) (listing_app_id : option string) (allow_sideload allow_downgrade : bool)
    : desk JValue :=
  bytes ← st_lift (b64_std_decode (trim bundle_base64));
  trust ← st_lift (requested_trust listing_app_id allow_sideload);
  with_node (
    _ ← d_store (check_listing_id bytes listing_app_id);
    now ← d_now;
    m ← d_store (install_verified bytes trust allow_downgrade now);
    mret (to_value m)).

Definition miniapp_uninstall (app_id : string) : desk unit := with_node (d_store (uninstall app_id)).
Definition miniapp_browse_store : desk (list JValue) := with_node (l ← d_store browse_listings; mret (to_value <$> l)).

(** the page of an app: policy, network block, session shim, bridge, then what
    the app shipped *)
Definition q (s : string) : string := (dquote +:+ s +:+ dquote)%string.
Definition script_tag (nonce : string) : string := ("<script nonce=" +:+ q nonce +:+ ">")%string.
Definition network_block (nonce : string) : string :=
  (script_tag nonce +:+ nl
   +:+ "window.fetch = function() { return Promise.reject(new Error('Network blocked')); };" +:+ nl
   +:+ "window.XMLHttpRequest = function() { throw new Error('Network blocked'); };" +:+ nl
   +:+ "window.WebSocket = function() { throw new Error('WebSocket blocked'); };" +:+ nl
   +:+ "if (navigator.sendBeacon) { navigator.sendBeacon = function() { return false; }; }" +:+ nl
   +:+ "</script>")%string.
Definition session_shim (nonce session : string) : string :=
  (script_tag nonce +:+ nl
   +:+ "window.__mycelium_session = " +:+ json_to_string (JStr session) +:+ ";" +:+ nl
   +:+ "window.addEventListener(" +:+ q "message" +:+ ", function (ev) {" +:+ nl
   +:+ "  if (ev.data && ev.data.__mycelium_resolve && window.__mycelium_resolve) {" +:+ nl
   +:+ "    var r = ev.data.__mycelium_resolve;" +:+ nl
   +:+ "    window.__mycelium_resolve(r.id, r.result, r.error);" +:+ nl
   +:+ "  }" +:+ nl
   +:+ "});" +:+ nl
   +:+ "window.__mycelium_native_call = function (json) {" +:+ nl
   +:+ "  window.parent.postMessage({ __mycelium_call: json }, window.location.origin);" +:+ nl
   +:+ "};" +:+ nl
   +:+ "</script>" +:+ script_tag nonce +:+ nl)%string.
Definition entry_html (nonce session bridge_js body : string) : string :=
  (meta_tag nonce +:+ nl +:+ network_block nonce +:+ nl +:+ session_shim nonce session +:+ bridge_js +:+ "</script>" +:+ nl
   +:+ body)%string.

Definition desk_issue_session (app_id uuid : string) (now : Z) : desk string := fun s =>
  let '(t, tok) := issue_session app_id uuid now (dk_sessions s) in (set_dk_sessions t s, Ok tok).

(** [bridge_js] is the shipped [bridge_api.js] *)
Definition miniapp_get_entry_html (bridge_js app_id script_nonce uuid : string) (now : Z) : desk string :=
  body ← with_node (
    m ← d_store (get_manifest app_id);
    match m with
    | None => st_err "unknown app"
    | Some m =>
        f ← d_store (store_get_file app_id (mf_entry m));
        match f with
        | None => st_err "entry missing"
        | Some bytes =>
            match from_utf8 bytes with
            | None => st_err "invalid utf-8 sequence"
            | Some body => mret body
            end
        end
    end);
  session ← desk_issue_session app_id uuid now;
  mret (entry_html script_nonce session bridge_js body).

Definition desk_revoke_bridge_session (app_id : string) : desk unit :=
  st_modify (fun s => set_dk_sessions (revoke_session app_id (dk_sessions s)) s).

Definition desk_issue_capability (app_id permission session_token : string) : desk string :=
  with_node (
    match parse_permission_name permission with
    | None => st_err ("unknown permission: " +:+ permission)%string
    | Some perm =>
        now ← d_now;
        key ← st_gets dn_cap_mac_key;
        mret (issue_capability key app_id perm session_token DEFAULT_CAP_TTL_MS now)
    end).

Definition desk_publish_revocation (app_id reason : string) : desk unit :=
  with_node (
    cfg ← st_gets dn_conf;
    keypair ← d_coin (fun coin => load_keypair (coin_identity_path coin));
    now ← d_now;
    entry ← st_lift (build_revocation_gossip app_id reason (ac_local_peer_id cfg) keypair now);
    d_app (fun _ => publish_app_revocation entry)).

Definition policy_json (p : MiniAppPolicy) : JValue :=
  JObj [("app_id", JStr (mp_app_id p)); ("reputation_score", JNum (mp_reputation_score p));
        ("safe_mode_active", JBool (mp_safe_mode_active p)); ("safe_mode_forced", JBool (mp_safe_mode_forced p));
        ("safe_mode_suggested", JBool (mp_safe_mode_suggested p)); ("user_safe_mode", JBool (mp_user_safe_mode p));
        ("revoked", JBool (mp_revoked p)); ("strict_csp_eligible", JBool (mp_strict_csp_eligible p))]%string.
Definition desk_get_policy (app_id : string) : desk JValue :=
  with_node (p ← d_store (policy_load_with_store app_id true); mret (policy_json p)).
Definition desk_set_safe_mode (app_id : string) (enabled : bool) : desk unit := with_node (d_store (set_safe_mode app_id enabled)).
Definition desk_report_app (app_id : string) : desk unit :=
  with_node (now ← d_now; _ ← d_store (record_user_report app_id now); mret tt).

(** unlike the mobile bindings, an error of the store reaches the caller *)
Definition desk_bridge_for (app_id : string) : dnode BridgeConf :=
  manifest ← d_store (get_manifest app_id);
  safe ← or_default false (d_store (effective_safe_mode app_id));
  n ← st_get;
  mret (mkBridge app_id (match manifest with Some m => mf_permissions m | None => [] end)
          (ac_local_peer_id (dn_conf n)) (local_enc_pubkey_hex (dn_conf n)) safe (dn_cap_mac_key n)).

Definition desk_on_bridge {A} (m : AppConf -> ST BridgeState A) : desk A := fun s =>
  match dk_node s with
  | None => (s, Err "node not started"%string)
  | Some n =>
      let '(b, r) := m (dn_conf n) (mkBridgeState (dn_app n) (dk_sessions s) (dk_limits s) (dk_broadcasts s)) in
      (mkDesktop (Some (set_dn_app (br_node b) n)) (dk_events s) (br_sessions b) (br_limits b) (br_broadcasts b) (dk_world s), r)
  end.

Definition desk_bridge_call (app_id method : string) (args : JValue) : desk JValue :=
  bh ← with_node (desk_bridge_for app_id);
  desk_on_bridge (fun cfg => handle cfg bh method args).

(** ** Settings *)

Definition node_state_label (s : NodeState) : string :=
  match s with Active => "Active" | Intermittent => "Intermittent" | Passive => "Passive" end.
Definition parse_energy_state (s : string) : anyhow NodeState :=
  if decide (s = "Active"%string) then Ok Active else
  if decide (s = "Intermittent"%string) then Ok Intermittent else
  if decide (s = "Passive"%string) then Ok Passive else Err ("unknown energy state: " +:+ s)%string.

Definition desk_get_settings : desk JValue :=
  with_node_or (JObj []) (
    name ← d_app (fun _ => st_gets an_display_name);
    n ← st_get;
    mret (JObj [("display_name", JStr name); ("energy_state", JStr (node_state_label (dn_energy_state n)));
                ("local_peer_id", JStr (ac_local_peer_id (dn_conf n)));
                ("rendezvous_enabled", JBool (dn_rendezvous_enabled n))]%string)).

(** the node keeps the new setting even when the file cannot be written *)
Definition set_rendezvous_enabled (enabled : bool) : desk unit :=
  db_path ← with_node (
    _ ← d_app (fun _ => send (SetRendezvousEnabled enabled));
    _ ← st_modify (set_dn_rendezvous enabled);
    st_gets dn_db_path);
  w ← on_world st_get;
  let ui := load_ui_settings db_path w in
  on_world (save_ui_settings db_path (set_ui_rendezvous enabled ui)).

Definition desk_set_display_name (name : string) : desk unit := with_node (d_app (fun _ => set_display_name name)).
Definition set_energy_state (energy_state : string) : desk unit :=
  ns ← st_lift (parse_energy_state energy_state);
  with_node (_ ← d_app (fun _ => send (SetEnergyState ns)); st_modify (set_dn_energy ns)).

(** the reply of the run loop, [None] when it dropped the channel *)
Definition desk_get_store_stats (reply : option (Z * Z)) : desk JValue :=
  with_node_or (JObj [("count", JNum 0); ("oldest_ms", JNum 0)]%string) (
    _ ← d_app (fun _ => send NodeData.GetStoreStats);
    match reply with
    | None => st_err "store stats response channel closed"
    | Some (count, oldest) => mret (JObj [("count", JNum count); ("oldest_ms", JNum oldest)]%string)
    end).
Definition run_gc (reply : option Z) : desk Z :=
  with_node (
    _ ← d_app (fun _ => send GcNow);
    match reply with None => st_err "gc response channel closed" | Some n => mret n end).

(** the two files of [bootstrap.rs] in a directory of the disk *)
Definition text_file (w : VaultWorld) (p : string) : file :=
  if disk_exists (w_fs w) p then
    Some (match disk_read (w_fs w) p with
          | Err e => Err e
          | Ok b => match from_utf8 b with Some s => Ok s | None => Err "stream did not contain valid UTF-8"%string end
          end)
  else None.
Definition bootstrap_path (db_path : string) : string := path_join db_path "bootstrap.txt".
Definition data_dir (db_path : string) (w : VaultWorld) : DataDir :=
  mkDir (text_file w (bootstrap_path db_path)) (text_file w (path_join db_path "dial_peers.txt")).

Definition save_bootstrap (db_path : string) (peers : list string) : ST VaultWorld unit :=
  _ ← on_fs (fun f => disk_create_dir_all f db_path);
  if decide (peers = []) then
    ex ← exists_file (bootstrap_path db_path);
    if (ex : bool) then on_fs (fun f => disk_remove f (bootstrap_path db_path)) else mret tt
  else on_fs (fun f => disk_write f (bootstrap_path db_path) (as_bytes (join nl peers))).

Definition get_custom_bootstrap_peers : desk (list string) := fun s =>
  match dk_node s with
  | None => (s, Ok [])
  | Some n => (s, Ok (load_custom_bootstrap_peers (data_dir (dn_db_path n) (dk_world s))))
  end.

Fixpoint dial_all (peers : list string) : dnode unit :=
  match peers with
  | [] => mret tt
  | p :: peers => _ ← st_ignore (d_app (fun _ => send (AddBootstrapPeer p))); dial_all peers
  end.
Definition set_custom_bootstrap_peers (peers : list string) : desk unit :=
  db_path ← with_node (st_gets dn_db_path);
  _ ← on_world (save_bootstrap db_path peers);
  with_node (dial_all peers).

(** ** Wiping

    [app.restart()] starts the process again on what is left. *)
Definition panic_wipe : desk unit :=
  s ← st_get;
  let db_path := dn_db_path <$> dk_node s in
  _ ← st_modify (set_dk_node None);
  _ ← match db_path with
      | None => mret tt
      | Some path =>
          ex ← on_world (exists_file path);
          if (ex : bool) then
            r ← st_attempt (on_world (remove_dir_all path));
            match r with Ok _ => mret tt | Err e => st_err ("failed to wipe data: " +:+ e)%string end
          else mret tt
      end;
  st_modify (fun s => desktop_run (dk_world s)).

(** ** Background tasks *)

(** one receive of the inbox task; it ends when a channel is closed *)
Inductive InboxRecv :=
| RxChat (r : Recv ChatIncoming)
| RxMail (r : Recv MailMessage)
| RxBulletin (r : Recv BulletinPost)
| RxListing (r : Recv AppStoreListing).

Definition tell {A} (event : string) (r : Recv A) : desk bool :=
  match r with
  | RClosed => mret false
  | _ => _ ← desk_emit event JNull; mret true
  end.
Definition inbox_emit (i : InboxRecv) : desk bool :=
  match i with
  | RxChat (RItem c) =>
      _ ← desk_emit "chat-updated" (JObj [("from_peer", JStr (ci_from_peer c)); ("body", JStr (ch_body (ci_message c)))]%string);
      mret true
  | RxChat r => tell "chat-updated" r
  | RxMail r => tell "mail-updated" r
  | RxBulletin r => tell "bulletin-updated" r
  | RxListing r => tell "appstore-updated" r
  end.
Fixpoint inbox_task (l : list InboxRecv) : desk unit :=
  match l with
  | [] => mret tt
  | i :: l => go ← inbox_emit i; if (go : bool) then inbox_task l else mret tt
  end.

(** one tick of the metrics task *)
Definition metrics_tick (v : NodeView) : desk unit := fun s =>
  match dk_node s with
  | None => (s, Ok tt)
  | Some _ =>
      (peers ← with_node (d_app (fun _ => known_peers));
       desk_emit "metrics-updated"
         (JObj [("forwarded", JNum (messages_forwarded (nv_metrics v))); ("queue", JNum (Z.of_nat (pending_queue_size (nv_metrics v))));
                ("peers", JNum (Z.of_nat (length peers)))]%string)) s
  end.

(** the dispatch of an incoming message, by the task that holds the node *)
Definition desk_dispatch (msg : DirectMessage) : desk unit := with_node (d_app (fun cfg => dispatch_incoming cfg msg)).
End desktop.
