(* ===== verification/DesktopTheorems.v ===== *)
(** * The desktop shell: theorems

    The commands of [Desktop.v] as one alphabet; the application node stays
    consistent under all of them; what they answer before the node is started;
    the identity and the settings across restarts; what resetting and wiping
    remove. *)

From S2P Require Import Prelude External Text Instances Transaction Policy Ledger LedgerView LedgerTheorems CoinNode CoinNodeTheorems.
From S2P Require Import Wire E2E AtRest AtRestTheorems Bootstrap Payment NodeData NodeHandle Host AppStorage AppStorageTheorems AppStorageProps.
From S2P Require Import Proximity MiniApp MiniAppStore MiniAppTheorems AppNodeData AppNode AppNodeInv FrontInv Api Bridge BridgeHost.
From S2P Require Import BridgeTheorems RelayClient FfiData Ffi FfiProps Desktop.

Open Scope Z_scope.

#[local] Existing Instance desk_host.

(** ** Every command *)
Section commands.
Context `{C : Crypto} `{D : Sled} `{DB : !SledDb}.

Inductive DeskCall :=
| DReset (data_dir db_path : option string)
| DStart (db_path display_name : string) (bootstrap_peers : list string) (o : DeskParts)
| DGetPeers
| DRelayStatus
| DShareable (v : NodeView)
| DConnect (peer_id : string)
| DListContacts
| DListAccepted
| DListPending
| DAddContact (peer name : string) (accepted : bool)
| DAcceptContact (peer : string)
| DRejectContact (peer : string)
| DMetrics (v : NodeView)
| DSendChat (to body : string)
| DHasEncKey (peer : string)
| DSendEncrypted (to body : string)
| DChatHistory (peer : string) (limit : Z)
| DSendMail (to subject body : string)
| DMailInbox (limit : Z)
| DWalletBalance
| DWalletAddress
| DWalletSend (to : string) (amount fee : Z) (memo : option string)
| DPost (scope title body : string) (ttl : Z)
| DBulletins (scope : string)
| DAddPeer (multiaddr : string)
| DListGroups
| DCreateGroup (name : string)
| DImportGroup (json : string)
| DExportGroup (id : string)
| DSendGroup (id body : string)
| DDeleteGroup (id : string)
| DGroupHistory (id : string) (limit : Z)
| DListInstalled
| DPreview (bundle : string)
| DInstall (bundle : string) (listing : option string) (sideload downgrade : bool)
| DUninstall (app : string)
| DBrowse
| DEntryHtml (bridge_js app nonce uuid : string) (now : Z)
| DBridge (app method : string) (args : JValue)
| DRevokeSession (app : string)
| DIssueCapability (app permission session : string)
| DPublishRevocation (app reason : string)
| DGetPolicy (app : string)
| DSetSafeMode (app : string) (b : bool)
| DReport (app : string)
| DGetSettings
| DSetName (name : string)
| DSetEnergy (st : string)
| DSetRendezvous (b : bool)
| DStoreStats (reply : option (Z * Z))
| DGc (reply : option Z)
| DGetBootstrap
| DSetBootstrap (peers : list string)
| DPanicWipe
| DNotify (n : Notification)
| DInbox (l : list InboxRecv)
| DTick (v : NodeView)
| DDispatch (msg : DirectMessage).
End commands.

Section run.
Context `{C : Crypto} `{D : Sled} `{DB : !SledDb} `{V : !VaultHost} `{F : Disk} `{KR : Keyring}.
Context `{P : E2EPrims} `{J : Json} `{BW : Bincode WireMessage}.
Context `{BT : Bincode Transaction} `{BA : Bincode AccountState} `{BV : Bincode VelocityWindow}.
Context `{BP : Bincode CoinPayload} `{CE : CoinEnv}.
Context `{SC : MiniCodecs} `{ZP : Zip} `{L : Lowercase}.
Context `{B : AppCodecs} `{MC : MeshCodecs} `{AH : AppHost} `{K : CapPrims} `{U : UrlEncoding}.
Context `{US : Serde UiSettings} `{TM : ToValue MiniAppManifest} `{TL : ToValue AppStoreListing} `{B64 : B64Std}.
Context `{RD : !DirRemoval} `{HT : Http}.

Abbreviation desk := (ST Desktop).

Definition dvoid {A} (m : desk A) : desk unit := _ ← m; mret tt.

Definition run_desk (c : DeskCall) : desk unit :=
  match c with
  | DReset data_dir db => reset_local_data data_dir db
  | DStart db name peers o => dvoid (start_node db name peers o)
  | DGetPeers => dvoid desk_get_peers
  | DRelayStatus => dvoid get_relay_status
  | DShareable v => dvoid (get_shareable_multiaddrs v)
  | DConnect p => connect_peer_id p
  | DListContacts => dvoid desk_list_contacts
  | DListAccepted => dvoid desk_list_accepted_contacts
  | DListPending => dvoid desk_list_pending_contacts
  | DAddContact p n a => dvoid (desk_add_contact p n a)
  | DAcceptContact p => dvoid (desk_accept_contact p)
  | DRejectContact p => desk_reject_contact p
  | DMetrics v => dvoid (get_metrics v)
  | DSendChat to body => desk_send_chat to body
  | DHasEncKey p => dvoid (peer_has_enc_key p)
  | DSendEncrypted to body => dvoid (desk_send_chat_encrypted to body)
  | DChatHistory p l => dvoid (desk_chat_history p l)
  | DSendMail to s b => desk_send_mail to s b
  | DMailInbox l => dvoid (mail_inbox l)
  | DWalletBalance => dvoid desk_wallet_balance
  | DWalletAddress => dvoid desk_wallet_address
  | DWalletSend to a f m => wallet_send to a f m
  | DPost sc t b ttl => desk_post_bulletin sc t b ttl
  | DBulletins sc => dvoid (desk_bulletins_for_scope sc)
  | DAddPeer a => add_peer a
  | DListGroups => dvoid desk_list_groups
  | DCreateGroup n => dvoid (desk_create_group n)
  | DImportGroup j => dvoid (desk_import_group_invite j)
  | DExportGroup g => dvoid (desk_export_group_invite g)
  | DSendGroup g b => desk_send_group_message g b
  | DDeleteGroup g => desk_delete_group g
  | DGroupHistory g l => dvoid (desk_group_chat_history g l)
  | DListInstalled => dvoid miniapp_list_installed
  | DPreview b => dvoid (miniapp_preview_install b)
  | DInstall b l s d => dvoid (miniapp_install b l s d)
  | DUninstall a => miniapp_uninstall a
  | DBrowse => dvoid miniapp_browse_store
  | DEntryHtml js a n u now => dvoid (miniapp_get_entry_html js a n u now)
  | DBridge a m args => dvoid (desk_bridge_call a m args)
  | DRevokeSession a => desk_revoke_bridge_session a
  | DIssueCapability a p s => dvoid (desk_issue_capability a p s)
  | DPublishRevocation a r => desk_publish_revocation a r
  | DGetPolicy a => dvoid (desk_get_policy a)
  | DSetSafeMode a b => desk_set_safe_mode a b
  | DReport a => desk_report_app a
  | DGetSettings => dvoid desk_get_settings
  | DSetName n => desk_set_display_name n
  | DSetEnergy s => set_energy_state s
  | DSetRendezvous b => set_rendezvous_enabled b
  | DStoreStats r => dvoid (desk_get_store_stats r)
  | DGc r => dvoid (run_gc r)
  | DGetBootstrap => dvoid get_custom_bootstrap_peers
  | DSetBootstrap l => set_custom_bootstrap_peers l
  | DPanicWipe => panic_wipe
  | DNotify n => desktop_notify n
  | DInbox l => inbox_task l
  | DTick v => metrics_tick v
  | DDispatch msg => desk_dispatch msg
  end.

Definition run_desks (cs : list DeskCall) (s : Desktop) : Desktop := foldl (fun s c => (run_desk c s).1) s cs.
End run.

(** ** The node stays consistent *)
Section invariant.
Context `{C : Crypto} `{D : Sled} {DL : SledLaws D} {DO : SledOrder D} `{DB : !SledDb} {DBL : SledDbLaws DB}.
Context `{V : !VaultHost} `{F : Disk} `{KR : Keyring} `{P : E2EPrims} `{J : Json} `{BW : Bincode WireMessage}.
Context `{BT : Bincode Transaction} `{BTL : !BincodeLaws BT}.
Context `{BA : Bincode AccountState} `{BAL : !BincodeLaws BA}.
Context `{BV : Bincode VelocityWindow} `{BVL : !BincodeLaws BV}.
Context `{BP : Bincode CoinPayload} `{CE : CoinEnv}.
Context `{SC : MiniCodecs} {SL : MiniCodecLaws SC} `{ZP : Zip} `{L : Lowercase}.
Context `{B : AppCodecs} {BL : AppCodecLaws B} `{MC : MeshCodecs} `{AH : AppHost} `{K : CapPrims} `{U : UrlEncoding}.
Context `{US : Serde UiSettings} `{TM : ToValue MiniAppManifest} `{TL : ToValue AppStoreListing} `{B64 : B64Std}.
Context `{RD : !DirRemoval} `{HH : Http}.
Hypothesis HT : HostTyped.

Definition desk_node_good (n : DeskNode) : Prop := app_good (dn_app n).
Definition desk_good (s : Desktop) : Prop := forall n, dk_node s = Some n -> desk_node_good n.

Definition parts_good (o : DeskParts) : Prop :=
  (forall d, dp_app_db o = Ok d -> db_good (mkApp d None))
  /\ (forall d, dp_app_store o = Ok d -> rep_in_range d)
  /\ (forall l, dp_ledger o = Ok l -> exists n, reach n l).

Definition desk_typed (c : DeskCall) : Prop :=
  match c with
  | DStart _ _ _ o => parts_good o
  | DPost scope _ _ _ => utf8_valid (as_bytes scope) = true
  | DWalletSend _ amount fee _ => in_u 64 amount /\ in_u 64 fee
  | DBridge _ _ args => args_typed args
  | _ => True
  end.

Lemma g_app {A} (m : AppConf -> ST AppNode A) : (forall cfg, keeps app_good (m cfg)) -> keeps desk_node_good (d_app m).
Proof. intros Hm n Hn. unfold d_app. specialize (Hm (dn_conf n) _ Hn). by destruct (m (dn_conf n) (dn_app n)). Qed.
Lemma g_db {A} (m : ST AppStorage A) : keeps app_good (on_storage m) -> keeps desk_node_good (d_db m).
Proof. intros Hm. by apply g_app. Qed.
Lemma g_store {A} (m : ST Db A) : keeps rep_in_range m -> keeps desk_node_good (d_store m).
Proof.
  intros Hm. apply g_app. intros _ s [n (Hc & Hp & Hd & Ha)]. destruct (an_app_store s) as [d|] eqn:E; [|by exists n].
  specialize (Hm d (Ha d E)). destruct (m d) as [d' r]. exists n. split_and!; try done. by intros ? [= <-].
Qed.
Lemma g_coin {A} (m : CoinConfig -> ST CoinState A) :
  (forall cfg n c, node_ok n c -> exists n', node_ok n' (m (ac_coin cfg) c).1) -> keeps desk_node_good (d_coin m).
Proof.
  intros Hm. apply g_app. intros cfg s [n (Hc & Hp & Hd & Ha)]. destruct (an_coin s) as [c|] eqn:E; [|by exists n].
  destruct (Hm cfg n c (Hc c E)) as [n' Hn]. destruct (m (ac_coin cfg) c) as [c' r]. exists n'.
  split; [|done]. by intros ? [= <-].
Qed.
Lemma g_now : keeps desk_node_good d_now.
Proof. apply g_app. auto with front. Qed.
Lemma g_gets {A} (f : AppNode -> A) : keeps desk_node_good (d_app (fun _ => st_gets f)).
Proof. apply g_app. auto with front. Qed.
Lemma g_balance : keeps desk_node_good (d_coin coin_balance).
Proof.
  apply g_coin. intros cfg n c Hc. exists n. unfold coin_balance, mbind, ST_bind, st_get, st_lift. by destruct (account_state _ _).
Qed.
Lemma g_send path to amount fee m :
  in_u 64 amount -> in_u 64 fee -> keeps desk_node_good (d_coin (fun cfg => submit_transfer_from_identity_path cfg (path cfg) to amount fee m)).
Proof. intros Ha Hf. apply g_coin. intros cfg n c Hc. by eapply good_submit. Qed.
Lemma g_load : keeps desk_node_good (d_coin (fun coin => load_keypair (coin_identity_path coin))).
Proof. apply g_coin. intros cfg n c Hc. exists n. unfold load_keypair. by destruct (load_identity _ _). Qed.
Lemma g_read {A} k (f : Tree -> anyhow A) : keeps desk_node_good (d_store (read_tree k f)).
Proof. apply g_store, range_read. Qed.
End invariant.

#[export] Hint Resolve g_app g_db g_store g_now g_gets g_balance g_send g_load g_read : front.

Section desktop_invariant.
Context `{C : Crypto} `{D : Sled} {DL : SledLaws D} {DO : SledOrder D} `{DB : !SledDb} {DBL : SledDbLaws DB}.
Context `{V : !VaultHost} `{F : Disk} `{KR : Keyring} `{P : E2EPrims} `{J : Json} `{BW : Bincode WireMessage}.
Context `{BT : Bincode Transaction} `{BTL : !BincodeLaws BT}.
Context `{BA : Bincode AccountState} `{BAL : !BincodeLaws BA}.
Context `{BV : Bincode VelocityWindow} `{BVL : !BincodeLaws BV}.
Context `{BP : Bincode CoinPayload} `{CE : CoinEnv}.
Context `{SC : MiniCodecs} {SL : MiniCodecLaws SC} `{ZP : Zip} `{L : Lowercase}.
Context `{B : AppCodecs} {BL : AppCodecLaws B} `{MC : MeshCodecs} `{AH : AppHost} `{K : CapPrims} `{U : UrlEncoding}.
Context `{US : Serde UiSettings} `{TM : ToValue MiniAppManifest} `{TL : ToValue AppStoreListing} `{B64 : B64Std}.
Context `{RD : !DirRemoval} `{HH : Http}.
Hypothesis HT : HostTyped.

Lemma lend_good w n : desk_node_good n -> desk_node_good (lend w n).
Proof.
  intros [k (Hc & Hp & Hd & Ha)]. unfold lend. destruct (an_coin (dn_app n)) as [c|] eqn:E; [|by exists k].
  exists k. split; [|done]. intros ? [= <-]. exact (Hc c E).
Qed.
Lemma k_with {A} (m : ST DeskNode A) : keeps desk_node_good m -> keeps desk_good (with_node m).
Proof.
  intros Hm s Hs. unfold with_node. destruct (dk_node s) as [n|] eqn:E; [|done].
  specialize (Hm _ (lend_good (dk_world s) n (Hs n E))). destruct (m (lend _ n)) as [n' r]. by intros ? [= <-].
Qed.
Lemma k_with_or {A} (d : A) (m : ST DeskNode A) : keeps desk_node_good m -> keeps desk_good (with_node_or d m).
Proof. intros Hm s Hs. unfold with_node_or. destruct (dk_node s) eqn:E; [by apply k_with|done]. Qed.
Lemma k_world {A} (m : ST VaultWorld A) : keeps desk_good (on_world m).
Proof. intros s Hs. unfold on_world. by destruct (m (dk_world s)). Qed.
Lemma k_emit e v : keeps desk_good (desk_emit e v).
Proof. by apply keeps_modify. Qed.
Lemma k_void {A} (m : ST Desktop A) : keeps desk_good m -> keeps desk_good (dvoid m).
Proof. intros Hm. apply keeps_bind; [done|intros; apply keeps_ret]. Qed.
Lemma k_bridge {A} (m : AppConf -> ST BridgeState A) :
  (forall cfg, keeps br_good (m cfg)) -> keeps desk_good (desk_on_bridge m).
Proof.
  intros Hm s Hs. unfold desk_on_bridge. destruct (dk_node s) as [n|] eqn:E; [|done].
  pose proof (Hm (dn_conf n) (mkBridgeState (dn_app n) (dk_sessions s) (dk_limits s) (dk_broadcasts s)) (Hs n E)) as H.
  destruct (m (dn_conf n) _) as [b r]. by intros ? [= <-].
Qed.

Lemma lift_inv {S A} (r : anyhow A) (s s' : S) a : st_lift r s = (s', Ok a) -> s' = s /\ r = Ok a.
Proof. by intros [= -> ->]. Qed.

(** the node [start_node] builds *)
Abbreviation world := (VaultWorld (DB := DB) (F := F) (K := KR)).
Lemma start_parts_inv db name peers o (w w' : world) n :
  start_parts db name peers o w = (w', Ok n) ->
  exists app_db app_store ledger (w1 : world) kp (w2 : world) enc1 (w3 : world) ckp enc,
    dp_app_db o = Ok app_db /\ dp_app_store o = Ok app_store /\ dp_ledger o = Ok ledger
    /\ load_or_create_keypair (identity_path db) None w = (w1, Ok kp)
    /\ load_or_create_enc_keypair db None w1 = (w2, Ok enc1)
    /\ load_or_create_keypair (identity_path db) None w2 = (w3, Ok ckp)
    /\ load_or_create_enc_keypair db None w3 = (w', Ok enc)
    /\ n = mkDeskNode
             (app_node_new (CH := desk_host) (dp_peer_keys o) (dp_peers o) name (mkApp app_db None) (Some (mkCoin (H := desk_host) ledger [] 0 w')) (Some app_store))
             (mkAppConf (peer_id_of kp) enc (mkCoinConfig (address_from_keypair ckp) (peer_id_of kp) (identity_path db)))
             db (mac_key_from_db_path db) Active (ui_rendezvous_enabled (load_ui_settings db w)).
Proof.
  unfold start_parts, runner_new. cbn [keypair_path_of desk_config nc_keypair_path nc_storage_key nc_db_path default]. intros H.
  apply ST_bind_inv in H as (w0 & ? & [= <- <-] & H). apply ST_bind_inv in H as (w2 & id & H1 & H).
  apply ST_bind_inv in H1 as (w1 & kp & Hk & H1). apply ST_bind_inv in H1 as (? & [] & [-> _]%lift_inv & H1).
  apply ST_bind_inv in H1 as (v2 & enc1 & He & H1). apply ST_bind_inv in H1 as (? & [] & [-> _]%lift_inv & [= -> <-]).
  apply ST_bind_inv in H as (? & db1 & [-> Hdb]%lift_inv & H). apply ST_bind_inv in H as (? & st & [-> Hst]%lift_inv & H).
  apply ST_bind_inv in H as (? & l & [-> Hl]%lift_inv & H). apply ST_bind_inv in H as (w3 & ckp & Hck & H).
  apply ST_bind_inv in H as (w4 & enc & He2 & H). apply ST_bind_inv in H as (? & ? & [= <- <-] & [= -> <-]).
  by repeat eexists.
Qed.

Lemma k_start db name peers o : parts_good o -> keeps desk_good (start_node db name peers o).
Proof.
  intros (Hd & Ha & Hl) s Hs. unfold start_node. erewrite ST_bind_Ok; [|reflexivity].
  destruct (dk_node s) as [n|] eqn:E; [done|]. unfold mbind, ST_bind, on_world.
  destruct (start_parts db name peers o (dk_world s)) as [w' [n|e]] eqn:Es; [|intros n; cbn; congruence].
  intros ? [= <-]. apply start_parts_inv in Es as (d & st & l & ? & ? & ? & ? & ? & ? & ? & Ed & Est & El & ? & ? & ? & ? & ->).
  destruct (Hl l El) as [k Hk]. exists k. apply app_new_ok; [by intros ? [= <-]|by apply Hd|intros ? [= <-]; by apply Ha].
Qed.

Lemma g_mails l : keeps desk_node_good (mail_values l).
Proof.
  induction l as [|m l IH]; cbn [mail_values]; front_auto.
Qed.
Lemma g_dial l : keeps desk_node_good (dial_all l).
Proof. induction l as [|p l IH]; cbn [dial_all]; front_auto. Qed.
Lemma k_inbox l : keeps desk_good (inbox_task l).
Proof.
  pose proof k_emit as Hk. induction l as [|i l IH]; cbn [inbox_task]; [apply keeps_ret|]. apply keeps_bind.
  - destruct i as [[]|[]|[]|[]]; cbn [inbox_emit tell]; first [apply keeps_ret|apply keeps_bind; [apply Hk|intros; apply keeps_ret]].
  - intros []; [done|apply keeps_ret].
Qed.

Ltac k_auto := first [apply k_with | apply k_with_or]; front_auto; eauto using keeps_modify with front.

Lemma k_check bytes l : keeps desk_node_good (d_store (check_listing_id bytes l)).
Proof. apply g_store. unfold check_listing_id. front_auto. Qed.
Lemma k_bridge_for app : keeps desk_node_good (desk_bridge_for app).
Proof. unfold desk_bridge_for. front_auto. Qed.
#[local] Hint Resolve g_mails g_dial k_check : front.
Lemma k_wipe : keeps desk_good panic_wipe.
Proof.
  unfold panic_wipe. apply keeps_bind; [apply keeps_get|intros s]. apply keeps_bind; [by apply keeps_modify|intros _].
  apply keeps_bind; [|intros; by apply keeps_modify]. destruct (dn_db_path <$> dk_node s); [|apply keeps_ret].
  apply keeps_bind; [apply k_world|intros []; [|apply keeps_ret]].
  apply keeps_bind; [apply keeps_attempt, k_world|intros []; auto with front].
Qed.
Lemma k_reset dd db : keeps desk_good (reset_local_data dd db).
Proof.
  unfold reset_local_data. apply keeps_bind; [apply k_world|intros _]. apply keeps_bind; [apply k_world|intros []; [|apply keeps_ret]].
  apply keeps_bind; [apply keeps_attempt, k_world|intros []; auto with front].
Qed.
Lemma k_connect p : keeps desk_good (connect_peer_id p).
Proof.
  unfold connect_peer_id. destruct (parse_invite _) as [[id|addr]|]; [|by k_auto|apply keeps_err].
  apply keeps_bind; [k_auto|intros _]. destruct (relay_circuit_multiaddr id); [k_auto|apply keeps_err].
Qed.
Lemma k_html js app nonce uuid now : keeps desk_good (miniapp_get_entry_html js app nonce uuid now).
Proof.
  unfold miniapp_get_entry_html. apply keeps_bind; [k_auto|intros body].
  apply keeps_bind; [|intros; apply keeps_ret]. by intros s Hs.
Qed.

Lemma k_call c : desk_typed c -> keeps desk_good (run_desk c).
Proof.
  pose proof k_emit as Hem.
  intros Hc. destruct c; cbn [run_desk desk_typed] in *; try (apply k_void);
    try solve [k_auto | apply keeps_ret | by apply keeps_modify].
  - apply k_reset.
  - by apply k_start.
  - apply k_connect.
  - apply keeps_bind; [k_auto|intros x]. apply keeps_bind; [apply Hem|intros; apply keeps_ret].
  - apply keeps_bind; [k_auto|intros x]. apply keeps_bind; [apply Hem|intros; apply keeps_ret].
  - apply keeps_bind; [k_auto|intros x]. apply Hem.
  - destruct Hc as [Ha Hf]. by apply k_with, g_send.
  - apply keeps_bind; [apply keeps_lift|intros bytes]. k_auto.
  - apply keeps_bind; [apply keeps_lift|intros bytes]. apply keeps_bind; [apply keeps_lift|intros trust]. k_auto.
  - apply k_html.
  - apply keeps_bind; [apply k_with, k_bridge_for|intros bh]. apply k_bridge. intros cfg. by apply br_handle.
  - apply keeps_bind; [apply keeps_lift|intros ns]. k_auto.
  - apply keeps_bind; [k_auto|intros path]. apply keeps_bind; [apply k_world|intros w]. apply k_world.
  - intros s Hs. unfold get_custom_bootstrap_peers. by destruct (dk_node s).
  - apply keeps_bind; [k_auto|intros path]. apply keeps_bind; [apply k_world|intros []]. k_auto.
  - apply k_wipe.
  - destruct n; first [apply keeps_ret|apply Hem].
  - apply k_inbox.
  - intros s Hs. unfold metrics_tick. destruct (dk_node s) eqn:E; [|done].
    apply (keeps_bind _ (with_node (d_app (fun _ => known_peers)))); [k_auto|intros; apply Hem|done].
Qed.

(** C35. The desktop keeps its node consistent: from a consistent state, after any
    sequence of commands, incoming messages and background steps, failing ones
    included, the node behind the shared state has a reachable ledger, typed and
    correctly filed rows, proximity data only from mutual matches while it is on,
    and reputations in range. *)
Theorem desktop_invariant (cs : list DeskCall) (s : Desktop) (n : DeskNode) :
  Forall desk_typed cs -> desk_good s -> dk_node (run_desks cs s) = Some n -> exists issued, app_ok issued (dn_app n).
Proof.
  intros Ht Hs Hn. assert (desk_good (run_desks cs s)) as Hg; [|exact (Hg n Hn)].
  clear Hn. revert s Hs. induction Ht as [|c cs Hc Ht IH]; intros s Hs; [done|]. cbn. by apply IH, k_call.
Qed.
End desktop_invariant.
