(* ===== verification/DesktopProps.v ===== *)
(** * The desktop shell across restarts

    The identity, the encryption keys and the wallet address of the desktop
    come back after a restart, whatever was done in between short of resetting
    or wiping; the settings come back too; and what the two ways of removing
    local data leave behind. *)

From S2P Require Import Prelude External Text Instances Transaction Policy Ledger CoinNode.
From S2P Require Import Wire E2E AtRest AtRestTheorems Bootstrap Payment NodeData NodeHandle Host AppStorage.
From S2P Require Import Proximity MiniApp MiniAppStore AppNodeData AppNode AppNodeInv FrontInv Api Bridge BridgeHost.
From S2P Require Import Bloom IngestGuard Security Storage Forwarding Node AppMesh RelayClient FfiData Ffi FfiProps Desktop DesktopTheorems.

Open Scope Z_scope.

#[local] Existing Instance desk_host.

(** the directory of [db/identity] *)
Lemma identity_parent db : db ≠ ""%string -> ends_with "/" db = false -> path_parent (identity_path db) = Some db.
Proof.
  intros Hne Hs. assert (exists x r, reverse (as_bytes db) = x :: r /\ is_slash x = false) as (x & r & Er & Hx).
  { destruct (reverse (as_bytes db)) as [|x r] eqn:E.
    - destruct Hne. apply (inj as_bytes), (inj reverse). by rewrite E.
    - exists x, r. split; [done|]. apply bool_decide_eq_false. intros ->. apply bool_decide_eq_false in Hs. apply Hs.
      exists (of_bytes (reverse r)). apply strip_suffix_Some. rewrite as_of_bytes. apply (inj reverse).
      rewrite reverse_app, reverse_involutive. exact E. }
  unfold path_parent, identity_path. rewrite as_bytes_app, reverse_app.
  change (reverse (as_bytes "/identity")) with (reverse (as_bytes "identity") ++ [x2f]).
  rewrite <- app_assoc, Er.
  trans (match drop_while is_slash (x :: r) with [] => Some "/"%string | r'' => Some (of_bytes (reverse r'')) end); [reflexivity|].
  cbn [drop_while]. by rewrite Hx, <- Er, reverse_involutive, of_as_bytes.
Qed.

Lemma lend_path `{V : VaultHost} `{F : Disk} `{KR : Keyring} `{P : E2EPrims} `{CE : CoinEnv} w n : dn_db_path (lend w n) = dn_db_path n.
Proof. unfold lend. by destruct (an_coin (dn_app n)). Qed.

Section desktop_restart.
Context `{C : Crypto} `{D : Sled} `{DB : !SledDb} `{V : !VaultHost} {VL : VaultHostLaws} `{F : Disk} {FL : DiskLaws F} `{KR : Keyring}.
Context `{P : E2EPrims} {PL : AeadLaws P} `{J : Json} `{BW : Bincode WireMessage}.
Context `{BT : Bincode Transaction} `{BA : Bincode AccountState} `{BV : Bincode VelocityWindow}.
Context `{BP : Bincode CoinPayload} `{CE : CoinEnv}.
Context `{SC : MiniCodecs} `{ZP : Zip} `{L : Lowercase}.
Context `{B : AppCodecs} `{MC : MeshCodecs} `{AH : AppHost} `{K : CapPrims} `{U : UrlEncoding}.
Context `{US : Serde UiSettings} `{TM : ToValue MiniAppManifest} `{TL : ToValue AppStoreListing} `{B64 : B64Std}.
Context `{RD : !DirRemoval} `{HH : Http}.

Section keys.
Variables (db : string) (k : list byte).
Hypothesis Hdb : path_parent (identity_path db) = Some db.

Lemma dir_is : default (identity_path db) (path_parent (identity_path db)) = db.
Proof. by rewrite Hdb. Qed.

Abbreviation kept := (holds (identity_path db) None k).
Variables (b e : list byte) (kp : Keypair) (enc : EncryptionKeypair).
Hypothesis Hb : ed25519_from_bytes b = Ok kp.
Hypothesis He : enc_from_secret_bytes e = Ok enc.

Definition both (w : VaultWorld) : Prop := kept IDENTITY_SECRET b w /\ kept ENC_SECRET e w.

Lemma both_open : keeps both (open_with_migration db None).
Proof.
  apply keeps_and; pose proof (open_keeps (identity_path db) None k) as H; rewrite dir_is in H; apply H.
Qed.
Lemma both_keypair w : both w -> exists w', load_or_create_keypair (identity_path db) None w = (w', Ok kp) /\ both w'.
Proof.
  intros Hw. exists (open_with_migration db None w).1. split; [|by apply both_open].
  pose proof (load_keypair_run (identity_path db) None k b kp w (proj1 Hw) Hb) as H. by rewrite dir_is in H.
Qed.
Lemma both_enc w : both w -> exists w', load_or_create_enc_keypair db None w = (w', Ok enc) /\ both w'.
Proof.
  intros Hw. exists (open_with_migration db None w).1. split; [|by apply both_open].
  pose proof (load_enc_run (identity_path db) None k e enc w (proj2 Hw) He) as H. by rewrite dir_is in H.
Qed.

Lemma both_beside n x : beside n -> keeps both (on_fs (fun f => disk_write f (path_join db n) x)).
Proof.
  intros Hn. apply keeps_and; pose proof (write_beside (identity_path db) None k) as H; rewrite dir_is in H; by apply H.
Qed.
Lemma both_remove n : beside n -> keeps both (on_fs (fun f => disk_remove f (path_join db n))).
Proof.
  intros Hn. apply keeps_and; pose proof (remove_beside (identity_path db) None k) as H; rewrite dir_is in H; by apply H.
Qed.

Lemma both_ui u : keeps both (save_ui_settings db u).
Proof.
  apply keeps_bind; [apply keeps_lift|intros json]. apply both_beside. split_and!; [done|done|]. intros name E. discriminate E.
Qed.
Lemma both_bootstrap l : keeps both (save_bootstrap db l).
Proof.
  assert (beside "bootstrap.txt") as Hs by (split_and!; [done|done|intros name E; discriminate E]).
  apply keeps_bind.
  - intros w Hw. pose proof Hw as [[(_ & Hp & _) _] _]. rewrite dir_is in Hp.
    unfold on_fs. rewrite disk_create_dir_id by by apply Hp. by destruct w.
  - intros _. case_decide; [|by apply both_beside]. apply keeps_bind; [apply keeps_gets|intros []; [by apply both_remove|apply keeps_ret]].
Qed.

Lemma both_parts name peers o : keeps both (start_parts db name peers o).
Proof.
  assert (keeps both (load_or_create_keypair (identity_path db) None)) as H1.
  { intros w Hw. by destruct (both_keypair w Hw) as (w' & -> & ?). }
  assert (keeps both (load_or_create_enc_keypair db None)) as H2.
  { intros w Hw. by destruct (both_enc w Hw) as (w' & -> & ?). }
  unfold start_parts, runner_new. keeps_auto.
Qed.

(** everything that opens, opens *)
Definition parts_open (o : DeskParts) : Prop :=
  (forall c, dp_swarm o c = Ok tt) /\ dp_message_store o = Ok tt
  /\ (exists d, dp_app_db o = Ok d) /\ (exists d, dp_app_store o = Ok d) /\ (exists l, dp_ledger o = Ok l).

Lemma both_start name peers o w :
  both w -> parts_open o ->
  exists s n, start_node db name peers o (desktop_run w) = (s, Ok (peer_id_of kp)) /\ dk_node s = Some n
    /\ dn_conf n = mkAppConf (peer_id_of kp) enc (mkCoinConfig (address_from_keypair kp) (peer_id_of kp) (identity_path db)).
Proof.
  intros Hw (H1 & H2 & [d H3] & [st H4] & [l H5]).
  destruct (both_keypair w Hw) as (w1 & E1 & Hw1). destruct (both_enc w1 Hw1) as (w2 & E2 & Hw2).
  destruct (both_keypair w2 Hw2) as (w3 & E3 & Hw3). destruct (both_enc w3 Hw3) as (w4 & E4 & Hw4).
  assert (exists n, start_parts db name peers o w = (w4, Ok n) /\
    dn_conf n = mkAppConf (peer_id_of kp) enc (mkCoinConfig (address_from_keypair kp) (peer_id_of kp) (identity_path db))) as (n & En & Hn).
  { eexists. split; [|shelve]. unfold start_parts. erewrite ST_bind_Ok; [|reflexivity]. cbv zeta.
    rewrite (ST_bind_Ok _ _ w w2 (peer_id_of kp)).
    - rewrite (ST_bind_lift _ _ _ _ H3), (ST_bind_lift _ _ _ _ H4), (ST_bind_lift _ _ _ _ H5), (ST_bind_Ok _ _ _ _ _ E3).
      rewrite (ST_bind_Ok _ _ _ _ _ E4). erewrite ST_bind_Ok; [|reflexivity]. reflexivity.
    - unfold runner_new. rewrite (ST_bind_Ok _ _ _ _ _ E1), (ST_bind_lift _ _ _ _ (H1 _)), (ST_bind_Ok _ _ _ _ _ E2).
      by rewrite (ST_bind_lift _ _ _ _ H2).
    Unshelve. done. }
  do 2 eexists. unfold start_node. erewrite ST_bind_Ok; [|reflexivity]. cbn [dk_node desktop_run].
  rewrite (ST_bind_Ok _ _ _ (set_dk_world w4 (desktop_run w)) n) by (unfold on_world; cbn [dk_world desktop_run]; by rewrite En).
  erewrite ST_bind_Ok; [|reflexivity]. split; [unfold mret, ST_ret; by rewrite Hn|split; [reflexivity|exact Hn]].
Qed.

(** the commands that neither reset nor wipe nor start on another directory *)
Definition stays (c : DeskCall) : Prop :=
  match c with
  | DReset _ _ | DPanicWipe => False
  | DStart db' _ _ _ => db' = db
  | _ => True
  end.

(** the coin node signs with the identity of the directory *)
Definition here (cfg : AppConf) : Prop := coin_identity_path (ac_coin cfg) = identity_path db.
Definition vaulted (c : CoinState) : Prop := both (cn_vault c).

Definition home (s : Desktop) : Prop := both (dk_world s) /\ forall n, dk_node s = Some n -> dn_db_path n = db /\ here (dn_conf n).
Definition at_db (n : DeskNode) : Prop := dn_db_path n = db /\ here (dn_conf n) /\ coin_part vaulted (dn_app n).

(** the coin node keeps the secrets: it loads the identity, and creates none *)
Lemma v_load : keeps vaulted (load_keypair (identity_path db)).
Proof.
  intros c Hc. unfold load_keypair, load_identity. destruct (both_keypair (cn_vault c) Hc) as (w' & E & Hw).
  cbn [coin_vault coin_disk coin_keyring coin_prims desk_host]. cbn in E |- *. by rewrite E.
Qed.
Lemma v_ledger {A} (m : ST LocalLedger A) : keeps vaulted (on_ledger m).
Proof. intros c Hc. unfold on_ledger. by destruct (m (cn_ledger c)). Qed.
Lemma v_now : keeps vaulted CoinNode.now_ms.
Proof. by intros c Hc. Qed.
Lemma v_transport x : keeps vaulted (CoinNode.transport x).
Proof. intros c Hc. unfold CoinNode.transport. by destruct (transport_send _ _). Qed.
Lemma v_try {A} (m : ST CoinState A) : keeps vaulted m -> keeps vaulted (st_try m).
Proof. intros Hm c Hc. unfold st_try. specialize (Hm c Hc). by destruct (m c). Qed.
#[local] Hint Resolve v_load v_ledger v_now v_transport v_try : keeps.
Lemma v_submit ccfg to amount fee m : keeps vaulted (submit_transfer_from_identity_path ccfg (identity_path db) to amount fee m).
Proof. unfold submit_transfer_from_identity_path, send_transaction. keeps_auto. Qed.
#[local] Hint Resolve v_submit : keeps.
Lemma v_incoming ccfg p from : coin_identity_path ccfg = identity_path db -> keeps vaulted (handle_incoming ccfg p from).
Proof.
  intros Hp. unfold handle_incoming, handle_transaction, handle_refill. rewrite Hp. keeps_auto.
Qed.

Lemma h_app {A} (m : AppConf -> ST AppNode A) : (forall cfg, here cfg -> keeps (coin_part vaulted) (m cfg)) -> keeps at_db (d_app m).
Proof.
  intros Hm n (Hd & Hh & Hc). unfold d_app. specialize (Hm (dn_conf n) Hh _ Hc). by destruct (m (dn_conf n) (dn_app n)).
Qed.
Lemma h_call_app {A} (m : AppConf -> ST AppNode A) (c : AppCall) :
  (forall cfg s, (m cfg s).1 = (run_call cfg c s).1) -> keeps at_db (d_app m).
Proof.
  intros Hm. apply h_app. intros cfg Hh s Hs. rewrite Hm. apply cp_call; [|done]. intros p from. by apply v_incoming.
Qed.
Lemma h_same {A} (m : ST AppNode A) : keeps (coin_part vaulted) m -> keeps at_db (d_app (fun _ => m)).
Proof. intros Hm. by apply h_app. Qed.
Lemma h_with {A} (m : ST DeskNode A) : keeps at_db m -> keeps home (with_node m).
Proof.
  intros Hm s Hs. unfold with_node. destruct (dk_node s) as [n|] eqn:E; [|exact Hs].
  destruct Hs as [Hw Hs]. destruct (Hs n E) as [Hd Hh].
  assert (at_db (lend (dk_world s) n)) as Hl.
  { unfold lend. destruct (an_coin (dn_app n)) as [c|] eqn:Ec; (split; [done|split; [done|]]); intros c'; cbn; rewrite ?Ec; [|done].
    by intros [= <-]. }
  specialize (Hm _ Hl). destruct (m (lend _ n)) as [n' r]. destruct Hm as (Hd' & Hh' & Hc'). split; [|by intros ? [= <-]].
  cbn. unfold given_back. destruct (an_coin (dn_app n')) as [c|] eqn:Ec; [exact (Hc' c Ec)|done].
Qed.
Lemma h_with_or {A} (d : A) (m : ST DeskNode A) : keeps at_db m -> keeps home (with_node_or d m).
Proof. intros Hm s Hs. unfold with_node_or. destruct (dk_node s) eqn:E; [by apply h_with|done]. Qed.
Lemma h_world {A} (m : ST VaultWorld A) : keeps both m -> keeps home (on_world m).
Proof. intros Hm s [Hw Hs]. unfold on_world. specialize (Hm _ Hw). by destruct (m (dk_world s)). Qed.
Lemma h_emit ev v : keeps home (desk_emit ev v).
Proof. by apply keeps_modify. Qed.
Lemma h_db {A} (m : ST AppStorage A) : keeps at_db (d_db m).
Proof. apply h_same, cp_storage. Qed.
Lemma h_store {A} (m : ST Db A) : keeps at_db (d_store m).
Proof.
  apply h_same, cp_same. intros a. destruct (an_app_store a) as [d|]; [|done]. by destruct (m d).
Qed.
Lemma h_coin {A} (m : CoinConfig -> ST CoinState A) :
  (forall ccfg, coin_identity_path ccfg = identity_path db -> keeps vaulted (m ccfg)) -> keeps at_db (d_coin m).
Proof.
  intros Hm. apply h_app. intros cfg Hh a Ha. destruct (an_coin a) as [c|] eqn:E; [|done].
  specialize (Hm (ac_coin cfg) Hh c (Ha c E)). destruct (m (ac_coin cfg) c) as [c' r]. by intros ? [= <-].
Qed.
Lemma h_balance : keeps at_db (d_coin coin_balance).
Proof. apply h_coin. intros. unfold coin_balance. keeps_auto. Qed.
Lemma h_pay to amount fee memo :
  keeps at_db (d_coin (fun cfg => submit_transfer_from_identity_path cfg (coin_identity_path cfg) to amount fee memo)).
Proof. apply h_coin. intros ccfg ->. apply v_submit. Qed.
Lemma h_key : keeps at_db (d_coin (fun coin => load_keypair (coin_identity_path coin))).
Proof. apply h_coin. intros ccfg ->. apply v_load. Qed.
Lemma h_now : keeps at_db d_now.
Proof. apply h_same, cp_now. Qed.
Lemma h_send c : keeps at_db (d_app (fun _ => send c)).
Proof. apply h_same, cp_send. Qed.
Lemma h_gets {A} (g : AppNode -> A) : keeps at_db (d_app (fun _ => st_gets g)).
Proof. apply h_same. by intros s Hs. Qed.

Lemma h_chat to body : keeps at_db (d_app (fun cfg => send_chat cfg to body)).
Proof. by apply (h_call_app _ (CSendChat to body)). Qed.
Lemma h_encrypted to body : keeps at_db (d_app (fun cfg => send_chat_encrypted cfg to body)).
Proof. by apply (h_call_app _ (CSendChatEncrypted to body)). Qed.
Lemma h_group g body : keeps at_db (d_app (fun cfg => send_group_message cfg g body)).
Proof. by apply (h_call_app _ (CSendGroup g body)). Qed.
Lemma h_mail to subject body atts : keeps at_db (d_app (fun cfg => send_mail cfg to subject body atts)).
Proof. by apply (h_call_app _ (CSendMail to subject body atts)). Qed.
Lemma h_post scope title body ttl : keeps at_db (d_app (fun _ => post_bulletin scope title body ttl)).
Proof. by apply (h_call_app _ (CPost scope title body ttl)). Qed.
Lemma h_add p name a : keeps at_db (d_app (fun _ => add_contact p name a)).
Proof. by apply (h_call_app _ (CAddContact p name a)). Qed.
Lemma h_accept p : keeps at_db (d_app (fun _ => accept_contact p)).
Proof. by apply (h_call_app _ (CAcceptContact p)). Qed.
Lemma h_reject p : keeps at_db (d_app (fun _ => reject_contact p)).
Proof. by apply (h_call_app _ (CRemoveContact p)). Qed.
Lemma h_revocation r : keeps at_db (d_app (fun _ => publish_app_revocation r)).
Proof. by apply (h_call_app _ (CPublishRevocation r)). Qed.
Lemma h_name x : keeps at_db (d_app (fun _ => set_display_name x)).
Proof. by apply (h_call_app _ (CSetName x)). Qed.
Lemma h_dispatch msg : keeps at_db (d_app (fun cfg => dispatch_incoming cfg msg)).
Proof. by apply (h_call_app _ (CDispatch msg)). Qed.
Lemma h_known : keeps at_db (d_app (fun _ => known_peers)).
Proof. apply h_gets. Qed.
Lemma h_has p : keeps at_db (d_app (fun _ => has_enc_key_for p)).
Proof. apply h_gets. Qed.
Lemma h_list : keeps at_db (d_app (fun _ => list_contacts)) /\ keeps at_db (d_app (fun _ => list_accepted_contacts))
  /\ keeps at_db (d_app (fun _ => list_pending_contacts)).
Proof. split_and!; apply h_same, cp_storage. Qed.

Lemma h_mails l : keeps at_db (mail_values l).
Proof. pose proof (@h_db). induction l as [|m l IH]; cbn [mail_values]; unfold or_default; keeps_auto. Qed.
Lemma h_dial l : keeps at_db (dial_all l).
Proof. pose proof h_send. induction l as [|p l IH]; cbn [dial_all]; keeps_auto. Qed.
Lemma h_set f : (forall n, dn_db_path (f n) = dn_db_path n /\ dn_conf (f n) = dn_conf n /\ dn_app (f n) = dn_app n) -> keeps at_db (st_modify f).
Proof. intros Hf. apply keeps_modify. intros n. unfold at_db. destruct (Hf n) as (-> & -> & ->). done. Qed.
Lemma h_inbox l : keeps home (inbox_task l).
Proof.
  pose proof h_emit as Hk. induction l as [|i l IH]; cbn [inbox_task]; [apply keeps_ret|]. apply keeps_bind.
  - destruct i as [[]|[]|[]|[]]; cbn [inbox_emit tell]; first [apply keeps_ret|apply keeps_bind; [apply Hk|intros; apply keeps_ret]].
  - intros []; [done|apply keeps_ret].
Qed.

Lemma h_start name peers o : keeps home (start_node db name peers o).
Proof.
  intros s Hs. unfold start_node. erewrite ST_bind_Ok; [|reflexivity]. destruct (dk_node s) as [n|] eqn:E; [exact Hs|].
  destruct Hs as [Hw Hs]. pose proof (both_parts name peers o _ Hw) as Hp. unfold mbind, ST_bind, on_world.
  destruct (start_parts db name peers o (dk_world s)) as [w' [n|e']] eqn:Es; cbn in *; [|by split; [|cbn; intros ?; rewrite E]].
  split; [done|]. intros ? [= <-]. apply start_parts_inv in Es as (? & ? & ? & ? & ? & ? & ? & ? & ? & ? & ? & ? & ? & ? & ? & ? & ? & ->).
  done.
Qed.

#[local] Hint Resolve h_db h_store h_balance h_pay h_key h_now h_send h_gets h_chat h_encrypted h_group h_mail h_post h_add h_accept
  h_reject h_revocation h_name h_dispatch h_known h_has h_mails h_dial h_set h_emit h_inbox h_start : front.

Ltac h_step :=
  match goal with
  | |- keeps home (mbind _ _) => apply keeps_bind; [|intros ?]
  | |- keeps home (with_node _) => apply h_with
  | |- keeps home (with_node_or _ _) => apply h_with_or
  | |- keeps home (on_world _) => apply h_world
  | |- keeps home (match ?x with _ => _ end) => destruct x
  | |- keeps home (if decide _ then _ else _) => case_decide
  | |- keeps home (st_modify _) => by apply keeps_modify
  | |- keeps home _ => solve [auto with front]
  | |- keeps at_db _ => front_auto
  end.

(** a command that works on the directory of the node *)
Lemma h_path {A} (m : ST DeskNode string) (f : string -> ST Desktop A) :
  keeps at_db m -> (forall n n' p, dn_db_path n = db -> m n = (n', Ok p) -> p = db) -> keeps home (f db) -> keeps home (p ← with_node m; f p).
Proof.
  intros Hm Hp Hf. apply keeps_bind_eq; [by apply h_with|]. intros s s1 p [_ Hs] E H1. unfold with_node in E.
  destruct (dk_node s) as [n|] eqn:En; [|done]. destruct (m (lend _ n)) as [n' [p'|]] eqn:Em; [|done]. injection E as <- <-.
  rewrite (Hp _ n' p' (eq_trans (lend_path _ n) (proj1 (Hs n eq_refl))) Em). by apply Hf.
Qed.

Lemma h_rendezvous enabled : keeps home (set_rendezvous_enabled enabled).
Proof.
  apply h_path; [front_auto| |].
  - intros n n' p Hn. unfold d_app, mbind, ST_bind, st_modify, st_gets. destruct (send _ _) as [a [|]]; [|done]. by intros [= _ <-].
  - apply keeps_bind; [apply h_world, keeps_get|intros w]. apply h_world, both_ui.
Qed.
Lemma h_set_bootstrap l : keeps home (set_custom_bootstrap_peers l).
Proof.
  apply h_path; [apply keeps_gets|by intros n n' p Hn [= _ <-]|].
  apply keeps_bind; [apply h_world, both_bootstrap|intros _]. apply h_with, h_dial.
Qed.
Lemma h_bridge {A} (m : AppConf -> ST BridgeState A) : keeps home (desk_on_bridge m).
Proof.
  intros s Hs. unfold desk_on_bridge. destruct (dk_node s) as [n|] eqn:E; [|exact Hs]. destruct Hs as [Hw Hs].
  destruct (m (dn_conf n) _) as [b' r]. split; [done|]. intros ? [= <-]. exact (Hs n E).
Qed.
#[local] Hint Resolve h_rendezvous h_set_bootstrap h_bridge : front.

Lemma h_call c : stays c -> keeps home (run_desk c).
Proof.
  destruct h_list as (L1 & L2 & L3).
  intros Hc. destruct c; cbn [run_desk stays] in *; try done; unfold dvoid, desk_get_peers, get_relay_status, get_shareable_multiaddrs,
    connect_peer_id, add_peer, desk_list_contacts, desk_list_accepted_contacts, desk_list_pending_contacts, desk_contacts,
    desk_add_contact, desk_accept_contact, desk_reject_contact, get_metrics, desk_send_chat, peer_has_enc_key, desk_send_chat_encrypted,
    desk_chat_history, desk_send_mail, mail_inbox, desk_wallet_balance, desk_wallet_address, wallet_send, desk_post_bulletin,
    desk_bulletins_for_scope, desk_list_groups, desk_create_group, desk_import_group_invite, desk_export_group_invite,
    desk_send_group_message, desk_delete_group, desk_group_chat_history, miniapp_list_installed, miniapp_preview_install,
    miniapp_install, miniapp_uninstall, miniapp_browse_store, miniapp_get_entry_html, desk_bridge_call, desk_revoke_bridge_session,
    desk_issue_capability, desk_publish_revocation, desk_get_policy, desk_set_safe_mode, desk_report_app, desk_get_settings,
    desk_set_display_name, set_energy_state, desk_get_store_stats, run_gc, desktop_notify, desk_dispatch, desk_bridge_for.
  all: repeat h_step; try done; subst; auto with front.
  - by intros s Hs.
  - intros s Hs. unfold get_custom_bootstrap_peers. by destruct (dk_node s).
  - intros s Hs. unfold metrics_tick. destruct (dk_node s) eqn:E; [|done].
    apply (keeps_bind _ (with_node (d_app (fun _ => known_peers)))); [apply h_with, h_known|intros; apply h_emit|done].
Qed.

Lemma h_calls cs s : Forall stays cs -> home s -> home (run_desks cs s).
Proof.
  intros Ht. revert s. induction Ht as [|c cs Hc Ht IH]; intros s Hs; [done|]. cbn. by apply IH, h_call.
Qed.
End keys.

(** the first start leaves both secrets in the vault *)
Lemma first_start db k name peers o w s id :
  path_parent (identity_path db) = Some db -> resolves (identity_path db) None k w ->
  start_node db name peers o (desktop_run w) = (s, Ok id) ->
  exists b e kp enc n,
    ed25519_from_bytes b = Ok kp /\ enc_from_secret_bytes e = Ok enc /\ home db k b e s /\ id = peer_id_of kp
    /\ dk_node s = Some n
    /\ dn_conf n = mkAppConf id enc (mkCoinConfig (address_from_keypair kp) id (identity_path db)).
Proof.
  intros Hdb Hr H. unfold start_node in H. erewrite ST_bind_Ok in H; [|reflexivity]. cbn [dk_node desktop_run] in H.
  apply ST_bind_inv in H as (s1 & n & H1 & H). unfold on_world in H1. cbn [dk_world desktop_run] in H1.
  destruct (start_parts db name peers o w) as [w' r] eqn:Es. injection H1 as <- ->.
  apply ST_bind_inv in H as (s2 & [] & [= <-] & [= <- <-]).
  apply start_parts_inv in Es as (d & st & l & w1 & kp & w2 & enc1 & w3 & ckp & enc & _ & _ & _ & L1 & L2 & L3 & L4 & ->).
  destruct (load_keypair_holds _ _ _ _ _ _ Hr L1) as (b & Hb & Hkp).
  pose proof (load_enc_keeps (identity_path db) None k b w1 Hb) as Hb2. rewrite dir_is, L2 in Hb2 by done.
  destruct (load_enc_holds (identity_path db) None k w1 w2 enc1) as (e & He & Henc); [apply Hb|by rewrite dir_is|].
  assert (both db k b e w2) as Hw2 by done.
  destruct (both_keypair db k Hdb b e kp Hkp w2 Hw2) as (w3' & E3 & Hw3). rewrite L3 in E3. injection E3 as <- ->.
  destruct (both_enc db k Hdb b e enc1 Henc w3 Hw3) as (w4 & E4 & Hw4). rewrite L4 in E4. injection E4 as <- ->.
  exists b, e, kp, enc1. eexists. split; [done|split; [done|split; [|by split; [|split]]]].
  split; [done|]. by intros ? [= <-].
Qed.

(** C36. The desktop keeps its identity: for a database path that is not empty and has
    no trailing slash, and with the master key in the keyring, the node that the
    first start creates has one key for its peer id and its wallet address; and
    after any commands other than resetting, wiping or starting on another
    directory, whether they succeed or fail, payments and revocations included,
    which load the identity from the same disk, a new process on that disk whose
    databases open starts with the same peer id, encryption keys and wallet
    address. *)
Theorem desktop_restart (db name name' : string) (peers peers' : list string) (k : list byte) (o o' : DeskParts) (w : VaultWorld) (s : Desktop) (id : string)
    (cs : list DeskCall) :
  db ≠ ""%string -> ends_with "/" db = false -> resolves (identity_path db) None k w ->
  start_node db name peers o (desktop_run w) = (s, Ok id) -> Forall (stays db) cs -> parts_open o' ->
  exists kp enc s' n n',
    let conf := mkAppConf id enc (mkCoinConfig (address_from_keypair kp) id (identity_path db)) in
    id = peer_id_of kp /\ dk_node s = Some n /\ dn_conf n = conf
    /\ start_node db name' peers' o' (desktop_run (dk_world (run_desks cs s))) = (s', Ok id)
    /\ dk_node s' = Some n' /\ dn_conf n' = conf.
Proof.
  intros Hne Hs Hr H Hcs Ho. pose proof (identity_parent db Hne Hs) as Hdb.
  destruct (first_start db k name peers o w s id Hdb Hr H) as (b & e & kp & enc & n & Hb & He & Hh & -> & Hn & Hc).
  pose proof (h_calls db k Hdb b e kp enc Hb He cs s Hcs Hh) as [Hw _].
  destruct (both_start db k Hdb b e kp enc Hb He name' peers' o' _ Hw Ho) as (s' & n' & E & Hn' & Hc').
  exists kp, enc, s', n, n'. done.
Qed.
End desktop_restart.

(** ** Before the node is started *)
Section idle.
Context `{C : Crypto} `{D : Sled} `{DB : !SledDb} `{V : !VaultHost} `{F : Disk} `{KR : Keyring}.
Context `{P : E2EPrims} `{J : Json} `{BW : Bincode WireMessage}.
Context `{BT : Bincode Transaction} `{BA : Bincode AccountState} `{BV : Bincode VelocityWindow}.
Context `{BP : Bincode CoinPayload} `{CE : CoinEnv}.
Context `{SC : MiniCodecs} `{ZP : Zip} `{L : Lowercase}.
Context `{B : AppCodecs} `{MC : MeshCodecs} `{AH : AppHost} `{K : CapPrims} `{U : UrlEncoding}.
Context `{US : Serde UiSettings} `{TM : ToValue MiniAppManifest} `{TL : ToValue AppStoreListing} `{B64 : B64Std}.
Context `{RD : !DirRemoval} `{HH : Http}.

(** the commands that need no node; those that answer with a default; the rest
    is refused *)
Definition needs_no_node (c : DeskCall) : bool :=
  match c with
  | DReset _ _ | DStart _ _ _ _ | DRelayStatus | DRevokeSession _ | DPanicWipe | DNotify _ | DInbox _ => true
  | _ => false
  end.
Definition answers_idle (c : DeskCall) : bool :=
  match c with
  | DGetPeers | DMetrics _ | DChatHistory _ _ | DMailInbox _ | DWalletBalance | DWalletAddress | DBulletins _ | DGetSettings
  | DStoreStats _ | DGetBootstrap | DTick _ => true
  | _ => false
  end.

Lemma with_node_idle {A} (m : ST DeskNode A) s : dk_node s = None -> with_node m s = (s, Err "node not started"%string).
Proof. intros E. unfold with_node. by rewrite E. Qed.
Lemma with_node_or_idle {A} (d : A) (m : ST DeskNode A) s : dk_node s = None -> with_node_or d m s = (s, Ok d).
Proof. intros E. unfold with_node_or. by rewrite E. Qed.

(** Before the node is started no command that needs it changes anything: the
    queries of the start page answer with a default, every other command is
    refused with an error. *)
Theorem desktop_idle (c : DeskCall) (s : Desktop) :
  dk_node s = None -> needs_no_node c = false ->
  if answers_idle c then run_desk c s = (s, Ok tt) else exists e, run_desk c s = (s, Err e).
Proof.
  intros E Hc. destruct c; try discriminate Hc; cbn [answers_idle run_desk]; unfold dvoid, mbind, ST_bind, desk_get_peers,
    get_metrics, desk_chat_history, mail_inbox, desk_wallet_balance, desk_wallet_address, desk_bulletins_for_scope,
    desk_get_settings, desk_get_store_stats, get_custom_bootstrap_peers, metrics_tick, get_shareable_multiaddrs, connect_peer_id,
    add_peer, desk_list_contacts, desk_list_accepted_contacts, desk_list_pending_contacts, desk_contacts, desk_add_contact,
    desk_accept_contact, desk_reject_contact, desk_send_chat, peer_has_enc_key, desk_send_chat_encrypted, desk_send_mail, wallet_send,
    desk_post_bulletin, desk_list_groups, desk_create_group, desk_import_group_invite, desk_export_group_invite,
    desk_send_group_message, desk_delete_group, desk_group_chat_history, miniapp_list_installed, miniapp_preview_install,
    miniapp_install, miniapp_uninstall, miniapp_browse_store, miniapp_get_entry_html, desk_bridge_call, desk_issue_capability,
    desk_publish_revocation, desk_get_policy, desk_set_safe_mode, desk_report_app, desk_set_display_name, set_energy_state,
    set_rendezvous_enabled, run_gc, set_custom_bootstrap_peers, desk_dispatch, mbind, ST_bind, st_lift;
    rewrite ?with_node_or_idle, ?with_node_idle by done; eauto; try by rewrite E.
  all: repeat (match goal with |- context [match ?x with _ => _ end] =>
    lazymatch x with context [with_node] => fail | _ => destruct x end end; rewrite ?with_node_idle by done); eauto.
Qed.
End idle.

(** ** Settings and removal *)
Section removal.
Context `{C : Crypto} `{D : Sled} `{DB : !SledDb} `{V : !VaultHost} `{F : Disk} {FL : DiskLaws F} `{KR : Keyring}.
Context `{P : E2EPrims} `{J : Json} `{BW : Bincode WireMessage}.
Context `{BT : Bincode Transaction} `{BA : Bincode AccountState} `{BV : Bincode VelocityWindow}.
Context `{BP : Bincode CoinPayload} `{CE : CoinEnv}.
Context `{SC : MiniCodecs} `{ZP : Zip} `{L : Lowercase}.
Context `{B : AppCodecs} `{MC : MeshCodecs} `{AH : AppHost} `{K : CapPrims} `{U : UrlEncoding}.
Context `{US : Serde UiSettings} {UL : SerdeLaws US} `{RD : !DirRemoval} {RL : DirRemovalLaws RD}.

(** serde_json writes UTF-8 *)
Definition json_is_text : Prop := forall (u : UiSettings) b, to_json u = Ok b -> utf8_valid b = true.

(** The rendezvous setting survives a restart: once the command has succeeded, a
    new process on the same disk starts the node of that directory with it. *)
Theorem rendezvous_setting_persists (enabled : bool) (s s' s2 : Desktop) (n n2 : DeskNode) name peers o id :
  json_is_text -> dk_node s = Some n -> set_rendezvous_enabled enabled s = (s', Ok tt) ->
  start_node (dn_db_path n) name peers o (desktop_run (dk_world s')) = (s2, Ok id) -> dk_node s2 = Some n2 ->
  dn_rendezvous_enabled n2 = enabled.
Proof.
  intros Ht Hn H Hst Hn2. unfold set_rendezvous_enabled in H. apply ST_bind_inv in H as (s1 & p & H1 & H).
  assert (p = dn_db_path n) as ->.
  { unfold with_node in H1. rewrite Hn in H1. unfold d_app, mbind, ST_bind, st_modify, st_gets in H1.
    destruct (send _ _) as [a [|]]; [|done]. injection H1 as _ <-. cbn. apply lend_path. }
  clear H1. apply ST_bind_inv in H as (s1' & w & Hw & H). unfold on_world in Hw. cbn in Hw. injection Hw as <- <-.
  unfold on_world, save_ui_settings in H. destruct (to_json_total (set_ui_rendezvous enabled (load_ui_settings (dn_db_path n) (dk_world s1))))
    as [json Hj]. rewrite (ST_bind_lift _ _ _ _ Hj) in H. unfold on_fs in H. cbn in H.
  destruct (disk_write (w_fs (dk_world s1)) _ json) as [f r] eqn:Ew. injection H as <- ->.
  unfold start_node in Hst. erewrite ST_bind_Ok in Hst; [|reflexivity]. cbn [dk_node desktop_run] in Hst.
  apply ST_bind_inv in Hst as (s3 & n3 & H1 & Hst). unfold on_world in H1. cbn [dk_world desktop_run] in H1.
  match type of H1 with (let '(_, _) := ?x in _) = _ => destruct x as [w' r] eqn:Es end. injection H1 as <- ->.
  apply ST_bind_inv in Hst as (s4 & [] & [= <-] & [= <- <-]). injection Hn2 as <-.
  apply start_parts_inv in Es as (? & ? & ? & ? & ? & ? & ? & ? & ? & ? & _ & _ & _ & _ & _ & _ & _ & ->).
  cbn. unfold load_ui_settings. cbn. rewrite (proj2 (disk_read_view f _ json)).
  - by rewrite (Ht _ _ Hj), (from_to_json _ _ Hj).
  - by rewrite (disk_write_view _ _ _ _ Ew), decide_True.
Qed.

Lemma world_inv {A} (m : ST VaultWorld A) s s' a :
  on_world m s = (s', Ok a) -> exists w', m (dk_world s) = (w', Ok a) /\ s' = set_dk_world w' s.
Proof. unfold on_world. destruct (m (dk_world s)) as [w' r]. intros [= <- ->]. eauto. Qed.

(** the steps both share *)
Lemma remove_existing db msg t t' :
  disk_exists (w_fs (dk_world t)) db = true ->
  (ex ← on_world (exists_file db);
   if (ex : bool) then
     r ← st_attempt (on_world (remove_dir_all db));
     match r with Ok _ => mret tt | Err e => st_err (msg +:+ e)%string end
   else mret tt) t = (t', Ok tt) ->
  w_kr (dk_world t') = w_kr (dk_world t) /\ forall q, under db q -> disk_exists (w_fs (dk_world t')) q = false.
Proof.
  intros Ht (t1 & ex & (w1 & [= <- <-] & ->)%world_inv & H)%ST_bind_inv. rewrite Ht in H.
  apply ST_bind_inv in H as (t2 & r & H2 & H). unfold st_attempt, on_world in H2. cbn in H2.
  pose proof (remove_dir_kr db (dk_world t)) as Hk.
  destruct (remove_dir_all db (dk_world t)) as [w2 [[]|e]] eqn:E; cbn in H2; injection H2 as <- <-; [|done].
  injection H as <-. split; [done|]. intros q Hq. rewrite disk_exists_view. cbn. by rewrite (remove_dir_view _ _ _ E q Hq).
Qed.

(** What the two ways of removing the local data leave: after either succeeds on
    an existing directory nothing is left of it and no node is shown; resetting
    first deletes the master key from the keyring, wiping leaves it there. *)
Theorem removal_leaves (s s' : Desktop) (n : DeskNode) (dd : option string) (db : string) :
  disk_exists (w_fs (dk_world s)) db = true ->
  (dk_node s = Some n -> dn_db_path n = db -> panic_wipe s = (s', Ok tt) ->
     s' = desktop_run (dk_world s') /\ (forall q, under db q -> disk_exists (w_fs (dk_world s')) q = false)
     /\ w_kr (dk_world s') = w_kr (dk_world s))
  /\ (reset_local_data dd (Some db) s = (s', Ok tt) ->
        (forall q, under db q -> disk_exists (w_fs (dk_world s')) q = false)
        /\ w_kr (dk_world s') = w_kr (clear_keyring_master db (dk_world s)).1).
Proof.
  intros Hex. split.
  - intros Hn Hdb H. unfold panic_wipe in H. erewrite ST_bind_Ok in H; [|reflexivity]. rewrite Hn in H. cbn [fmap option_fmap option_map] in H.
    erewrite ST_bind_Ok in H; [|reflexivity]. rewrite Hdb in H. apply ST_bind_inv in H as (t' & [] & H & [= <-]).
    apply remove_existing in H as [Hk Hq]; [|done]. split_and!; [done|done|done].
  - intros H. unfold reset_local_data in H. cbn [default] in H. apply ST_bind_inv in H as (t & [] & (w1 & E & ->)%world_inv & H).
    apply remove_existing in H as [Hk Hq].
    + split; [done|]. rewrite Hk. cbn. by rewrite (E : clear_keyring_master db (dk_world s) = _).
    + cbn. replace (w_fs w1) with (w_fs (dk_world s)); [done|]. cbn [id] in E. unfold clear_keyring_master, st_ignore, on_kr in E.
      destruct (kr_entry _ _); [|by injection E as <-]. destruct (kr_delete_credential _ _). by injection E as <-.
Qed.
End removal.

(** ** Payments *)
Section payments.
Context `{C : Crypto} `{D : Sled} `{DB : !SledDb} `{P : E2EPrims} `{J : Json} `{BW : Bincode WireMessage}.
Context `{MC : MeshCodecs} `{AH : AppHost} `{BA : Bincode AccountState} `{BT : Bincode Transaction} `{BV : Bincode VelocityWindow}.
Context `{T : MeshTransport} `{M : MessageStore} `{NH : !NodeHost} `{HI : IdHash} `{FS : FileSys}.
Context `{B : AppCodecs}.

(** The desktop's coin broadcasts go to a scope no node subscribes to: they have
    no target among nodes with the scopes they start with, and a node that
    receives one as gossip ignores it; the scope of the mobile bindings is one
    every node starts with. *)
Theorem desktop_payments_unheard inner cmd :
  desktop_coin_transport (BroadcastCoinInner inner) = Ok cmd ->
  exists tag p,
    cmd = BroadcastPayload "mycelium/coin" tag p
    /\ ffi_coin_transport (BroadcastCoinInner inner) = Ok (BroadcastPayload "mycelium/coin/v1" "[coin]" p)
    /\ "mycelium/coin/v1"%string ∈ initial_scopes
    /\ (forall ncfg n, (forall q ps, peer_scopes n !! q = Some ps -> ps = initial_scopes) ->
          handle_command ncfg cmd n = on_net (net_publish_scoped "mycelium/coin" p) n)
    /\ forall from n, subscribed_scopes n = initial_scopes -> handle_scoped from "mycelium/coin" p n = (n, Ok tt).
Proof.
  cbn. intros (p & Hp & [= <-])%Res_bind_Ok. exists "coin:broadcast"%string, p. split; [done|split; [by rewrite Hp|split]].
  - unfold initial_scopes. set_solver.
  - apply unheard_broadcast, unheard_intro. repeat constructor; by vm_compute.
Qed.
End payments.
