(* ===== verification/Cli.v ===== *)
(** * The command line

    [mycelium-cli/src/main.rs]: the interactive node, whose loop ends at the
    first error because every command is followed by [?], and the two commands
    that sign a bundle for the store.  The parsed arguments of clap, opening the
    swarm, the databases and the API socket are arguments; input lines can fail
    to be read; what is printed is the result. *)

From S2P Require Import Prelude External Text Instances Transaction Policy Ledger CoinNode Wire E2E AtRest Bootstrap Payment NodeData NodeHandle Host AppStorage Proximity MiniApp.
From S2P Require Import MiniAppStore AppNodeData AppNode Api Desktop LedgerView LedgerTheorems CoinNodeTheorems AppStorageTheorems AppStorageProps MiniAppTheorems AppNodeInv FrontInv.
From S2P Require Import FfiData Ffi FfiProps.

Open Scope Z_scope.

Definition to_ascii_lowercase (s : string) : string := of_bytes (ascii_lower <$> as_bytes s).

Definition cli_energy_state (input : string) : anyhow NodeState :=
  let s := to_ascii_lowercase input in
  if decide (s = "active"%string) then Ok Active else
  if decide (s = "intermittent"%string) then Ok Intermittent else
  if decide (s = "passive"%string) then Ok Passive else
  Err "invalid --energy-state, expected active|intermittent|passive"%string.

(** ** Lines *)

Definition space : Ascii.ascii := Ascii.ascii_of_nat 32.
Definition bar : Ascii.ascii := Ascii.ascii_of_nat 124.

(** [s.splitn(2, c)], with [unwrap_or_default] for both parts *)
Definition splitn2 (c : Ascii.ascii) (s : string) : string * string :=
  match split_once c s with Some p => p | None => (s, ""%string) end.

Inductive LineCmd :=
| LNothing
| LPeers
| LChat (peer body : string)
| LChatHistory (peer : string)
| LBulletin (scope title body : string)
| LBulletinList (scope : string)
| LMail (to subject body : string)
| LMailInbox
| LMailRead (id : string)
| LName (name : string)
| LBroadcast (scope body : string)
| LUsage (u : string)
| LUnknown.

Definition chat_args (rest : string) : LineCmd :=
  let '(peer, body) := splitn2 space rest in
  if decide (peer = ""%string \/ body = ""%string) then LUsage "/chat <peer_id> <text>" else LChat peer body.

(** [<first> <second> | <third>] *)
Definition three_args (rest : string) : string * string * string :=
  let '(first, content) := splitn2 space rest in
  let '(second, third) := splitn2 bar content in
  (first, trim second, trim third).

Definition bulletin_args (rest : string) : LineCmd :=
  let '(scope, title, body) := three_args rest in
  if decide (scope = ""%string \/ title = ""%string \/ body = ""%string) then LUsage "/bulletin <scope> <title> | <body>"
  else LBulletin scope title body.
Definition mail_args (rest : string) : LineCmd :=
  let '(to, subject, body) := three_args rest in
  if decide (to = ""%string \/ subject = ""%string \/ body = ""%string) then LUsage "/mail <peer_id> <subject> | <body>"
  else LMail to subject body.
Definition broadcast_args (rest : string) : LineCmd :=
  let '(scope, body) := splitn2 space rest in
  if decide (scope = ""%string \/ body = ""%string) then LUsage "/broadcast <scope> <text>" else LBroadcast scope body.

Definition parse_line (line : string) : LineCmd :=
  let trimmed := trim line in
  if decide (trimmed = ""%string) then LNothing else
  if decide (trimmed = "/peers"%string) then LPeers else
  match strip_prefix "/chat " trimmed with Some rest => chat_args rest | None =>
  match strip_prefix "/chat:history " trimmed with Some peer => LChatHistory (trim peer) | None =>
  match strip_prefix "/bulletin " trimmed with Some rest => bulletin_args rest | None =>
  match strip_prefix "/bulletin:list " trimmed with Some scope => LBulletinList (trim scope) | None =>
  match strip_prefix "/mail " trimmed with Some rest => mail_args rest | None =>
  if decide (trimmed = "/mail:inbox"%string) then LMailInbox else
  match strip_prefix "/mail:read " trimmed with Some id => LMailRead (trim id) | None =>
  match strip_prefix "/name " trimmed with Some name => LName (trim name) | None =>
  match strip_prefix "/broadcast " trimmed with Some rest => broadcast_args rest | None => LUnknown end
  end end end end end end end.

Section cli.
Context `{C : Crypto} `{D : Sled} `{DB : !SledDb} `{V : !VaultHost} `{F : Disk} `{KR : Keyring}.
Context `{P : E2EPrims} `{J : Json} `{BW : Bincode WireMessage}.
Context `{BT : Bincode Transaction} `{BA : Bincode AccountState} `{BV : Bincode VelocityWindow}.
Context `{BP : Bincode CoinPayload} `{CH : !CoinHost}.
Context `{SC : MiniCodecs} `{ZP : Zip} `{L : Lowercase}.
Context `{B : AppCodecs} `{MC : MeshCodecs} `{AH : AppHost} `{UT : UuidText}.

Abbreviation app := (ST AppNode).

Section commands.
Variable cfg : AppConf.

Definition brackets (a b : string) : string := ("[" +:+ a +:+ "] " +:+ b)%string.

Definition run_line (c : LineCmd) : app (list string) :=
  match c with
  | LNothing => mret []
  | LPeers => _ ← send ListPeers; mret []
  | LChat peer body => _ ← send_chat cfg (Some peer) body; mret []
  | LChatHistory peer =>
      l ← on_storage (chat_history peer 50);
      mret ((fun m => brackets (ch_from_display_name m) (ch_body m)) <$> l)
  | LBulletin scope title body => _ ← post_bulletin scope title body 86400; mret []
  | LBulletinList scope =>
      now ← a_now;
      l ← on_storage (bulletins_for_scope scope now);
      mret ((fun p => brackets (bp_scope p) (bp_title p +:+ " - " +:+ bp_body p)) <$> l)
  | LMail to subject body => _ ← send_mail cfg to subject body []; mret []
  | LMailInbox =>
      l ← on_storage (inbox 50);
      mret ((fun m => ml_id m +:+ " " +:+ ml_from_display_name m +:+ " " +:+ ml_subject m)%string <$> l)
  | LMailRead mail_id =>
      match uuid_parse mail_id with
      | Err _ => st_err "invalid mail id"
      | Ok id => _ ← on_storage (mark_read id); mret ["marked as read: " +:+ id]%string
      end
  | LName name => _ ← set_display_name name; mret ["name set"%string]
  | LBroadcast scope body => _ ← broadcast_chat scope body; mret ["broadcast sent"%string]
  | LUsage _ => mret []
  | LUnknown => mret []
  end.

(** the loop over standard input: the lines printed before it ends *)
Fixpoint interactive (input : list (anyhow string)) : app (list string) :=
  match input with
  | [] => mret []
  | line :: input =>
      l ← st_lift line;
      out ← run_line (parse_line l);
      rest ← interactive input;
      mret (out ++ rest)
  end.
End commands.

(** ** Starting the node *)

Record CliParts := mkCliParts {
  cp_listen : string -> anyhow unit;
  cp_swarm : NodeConfig -> anyhow unit;
  cp_message_store : anyhow unit;
  cp_peer_keys : gmap string (list byte);
  cp_peers : list string;
  cp_app_db : anyhow Db;
  cp_app_store : anyhow Db;
  cp_api : Z -> anyhow unit;
}.

(** the node of the command line has no coin node *)
Definition no_coin (local_peer_id : string) : CoinConfig := mkCoinConfig "" local_peer_id "".

Definition cli_app (db name local_peer_id : string) (first : list NodeCommand) (o : CliParts) : ST VaultWorld (AppConf * AppNode) :=
  app_db ← st_lift (cp_app_db o);
  app_store ← st_lift (cp_app_store o);
  enc ← load_or_create_enc_keypair db None;
  mret (mkAppConf local_peer_id enc (no_coin local_peer_id),
        set_an_commands first (app_node_new (cp_peer_keys o) (cp_peers o) name (mkApp app_db None) None (Some app_store))).

Definition cli_config (listen db : string) (bootstrap : list string) (name : string) : NodeConfig :=
  mkNodeConfig listen db None 500 30 bootstrap true (Some name) None 3 true [] 50.

Record RunArgs := mkRunArgs {
  ra_listen : string;
  ra_db : string;
  ra_energy_state : string;
  ra_name : string;
  ra_api_port : Z;
  ra_bootstrap : list string;
}.

Definition start_interactive (args : RunArgs) (o : CliParts) : ST VaultWorld (AppConf * AppNode) :=
  _ ← st_lift (cp_listen o (ra_listen args));
  local_peer_id ← runner_new (cli_config (ra_listen args) (ra_db args) (ra_bootstrap args) (ra_name args)) (cp_swarm o) (cp_message_store o);
  ns ← st_lift (cli_energy_state (ra_energy_state args));
  _ ← st_lift (handle_send [] (SetEnergyState ns));
  node ← cli_app (ra_db args) (ra_name args) local_peer_id [SetEnergyState ns] o;
  _ ← st_lift (cp_api o (ra_api_port args));
  mret node.

(** ** Publishing *)

Definition set_developer (peer_id : string) (m : MiniAppManifest) : MiniAppManifest :=
  match mf_developer_peer_id m with
  | Some _ => m
  | None =>
      mkManifest (mf_id m) (mf_name m) (mf_description m) (mf_version m) (mf_developer m) (Some peer_id)
        (mf_entry m) (mf_icon_base64 m) (mf_permissions m) (mf_min_mycelium_version m) (mf_accepts_payments m)
        (mf_payment_address m) (mf_categories m) (mf_runtime m) (mf_bulletin_scopes m) (mf_reproducible_build m)
  end.

(** the listing of a bundle, signed by a key *)
Definition sign_listing (kp : Keypair) (bundle_bytes : list byte) (now : Z) : anyhow AppStoreListing :=
  bundle ← load_from_bytes bundle_bytes;
  listing_new_signed (set_developer (peer_id_of kp) (bu_manifest bundle)) bundle_bytes [SrcPeer (peer_id_of kp)] kp now.

Definition build_signed_listing (db bundle_path : string) (now : Z) : ST VaultWorld AppStoreListing :=
  keypair ← load_or_create_keypair (identity_path db) None;
  bundle_bytes ← read_file bundle_path;
  st_lift (sign_listing keypair bundle_bytes now).

Definition signed_lines (l : AppStoreListing) : list string :=
  ["✓ Signed: " +:+ mf_id (ls_manifest l) +:+ " v" +:+ mf_version (ls_manifest l); "  Bundle hash: " +:+ ls_bundle_hash l]%string.

Definition cmd_app_publish (db bundle : string) (now : Z) : ST VaultWorld (list string) :=
  l ← build_signed_listing db bundle now;
  mret (signed_lines l ++ ["  Developer:   " +:+ mf_developer (ls_manifest l)]%string
        ++ match mf_developer_peer_id (ls_manifest l) with Some p => ["  Peer ID:     " +:+ p]%string | None => [] end
        ++ [""; "  Start the node and run:"; "    mycelium app publish-live " +:+ bundle]%string).

(** the node that publishes, and what its call leaves *)
Definition cmd_app_publish_live (db bundle listen : string) (bootstrap : list string) (now : Z) (o : CliParts) : ST VaultWorld AppNode :=
  l ← build_signed_listing db bundle now;
  _ ← st_lift (cp_listen o listen);
  publisher_peer ← runner_new (cli_config listen db bootstrap "publisher") (cp_swarm o) (cp_message_store o);
  '(cfg, node) ← cli_app db "publisher" publisher_peer [] o;
  let '(node', r) := publish_app_listing l node in
  _ ← st_lift r;
  mret node'.

(** ** The command line *)

Inductive AppCommands :=
| Publish (bundle db : string)
| PublishLive (bundle db listen : string) (bootstrap : list string).

Definition run_interactive_server (args : RunArgs) (o : CliParts) (input : list (anyhow string)) :
    ST VaultWorld (AppNode * anyhow (list string)) :=
  '(cfg, node) ← start_interactive args o;
  mret (interactive cfg input node).

(** without a sub-command the interactive node runs *)
Definition cli_main (command : option AppCommands) (args : RunArgs) (o : CliParts) (now : Z) (input : list (anyhow string)) :
    ST VaultWorld unit :=
  match command with
  | Some (Publish bundle db) => _ ← cmd_app_publish db bundle now; mret tt
  | Some (PublishLive bundle db listen bootstrap) => _ ← cmd_app_publish_live db bundle listen bootstrap now o; mret tt
  | None => '(_, r) ← run_interactive_server args o input; _ ← st_lift r; mret tt
  end.
End cli.

(** ** The command line: theorems *)


(** ** Configurations *)

(** The phone, the desktop and the command line, started on one directory, keep
    the identity in one file, with the same timing and limits: the run loops they
    build differ only in the listen address, the names, the peers, the storage
    key, the rendezvous switch and the subscriptions. *)
Theorem front_configs_agree (c : FfiConfig) (key : option (list byte)) (name name' listen : string) (peers peers' : list string)
    (ui : UiSettings) :
  Forall (fun n => nc_db_path n = fg_db_path c /\ keypair_path_of n = identity_path (fg_db_path c)
      /\ nc_forwarding_interval_ms n = nc_forwarding_interval_ms config_default
      /\ nc_sync_interval_secs n = nc_sync_interval_secs config_default
      /\ nc_max_relay_fanout n = default_max_relay_fanout /\ nc_max_peers n = default_max_peers)
    [rust_config c key; desk_config (fg_db_path c) name peers ui; cli_config listen (fg_db_path c) peers' name'].
Proof. by repeat constructor. Qed.

(** ** Lines *)

Lemma trim_space_l t : trim (" " +:+ t) = trim t.
Proof. unfold trim. by rewrite as_bytes_app. Qed.

Lemma ws2_space a : ws2 a x20 = false.
Proof. unfold ws2. by destruct (bool_decide _). Qed.
Lemma ws3_space a b : ws3 a b x20 = false.
Proof.
  unfold ws3. by destruct (bool_decide (a = xe1)), (bool_decide (a = xe2)), (bool_decide (a = xe3)), (bool_decide (b = x9a)),
    (bool_decide (b = x80)), (bool_decide (b = x81)).
Qed.

Lemma trim_space_r t : t ≠ ""%string -> trim t = t -> trim (t +:+ " ") = t.
Proof.
  intros Hne Ht. pose proof (trim_heads t) as [H1 H2]. rewrite Ht in H1, H2. unfold trim.
  assert (ws_head ws1 ws2 ws3 (as_bytes (t +:+ " ")) = false) as H3.
  { rewrite as_bytes_app. change (as_bytes " ") with [x20].
    destruct (as_bytes t) as [|a [|b [|c l]]] eqn:E; cbn [ws_head app] in *; rewrite ?ws2_space, ?ws3_space; try done.
    destruct Hne. by rewrite <- (of_as_bytes t), E. }
  rewrite trim_start_id by done. rewrite as_bytes_app. unfold trim_end_bytes. rewrite reverse_app.
  change (drop_ws ws1 (fun a b => ws2 b a) (fun a b c => ws3 c b a) (reverse (as_bytes " ") ++ reverse (as_bytes t)))
    with (drop_ws ws1 (fun a b => ws2 b a) (fun a b c => ws3 c b a) (reverse (as_bytes t))).
  change (of_bytes (trim_end_bytes (as_bytes t)) = t). rewrite trim_end_id by done. apply of_as_bytes.
Qed.

(** an argument at the end of a line: white space at neither end *)
Definition arg_text (s : string) : Prop := s ≠ ""%string /\ trim s = s /\ starts_char s.
(** an argument followed by others *)
Definition word (s : string) : Prop := s ≠ ""%string /\ has_char space s = false.

Definition print_line (c : LineCmd) : string :=
  match c with
  | LPeers => "/peers"
  | LChat peer body => "/chat " +:+ peer +:+ " " +:+ body
  | LChatHistory peer => "/chat:history " +:+ peer
  | LBulletin scope title body => "/bulletin " +:+ scope +:+ " " +:+ title +:+ " | " +:+ body
  | LBulletinList scope => "/bulletin:list " +:+ scope
  | LMail to subject body => "/mail " +:+ to +:+ " " +:+ subject +:+ " | " +:+ body
  | LMailInbox => "/mail:inbox"
  | LMailRead id => "/mail:read " +:+ id
  | LName name => "/name " +:+ name
  | LBroadcast scope body => "/broadcast " +:+ scope +:+ " " +:+ body
  | LNothing | LUsage _ | LUnknown => ""
  end%string.

Definition line_ok (c : LineCmd) : Prop :=
  match c with
  | LPeers | LMailInbox => True
  | LChat w t | LBroadcast w t => word w /\ arg_text t
  | LChatHistory t | LBulletinList t | LMailRead t | LName t => arg_text t
  | LBulletin w t b | LMail w t b => word w /\ (arg_text t /\ has_char bar t = false) /\ arg_text b
  | _ => False
  end.

Lemma trim_line p t : arg_text t -> ws_head ws1 ws2 ws3 (as_bytes (p +:+ t)) = false -> trim (p +:+ t) = (p +:+ t)%string.
Proof.
  intros (Hne & Ht & Hc) Hh. apply trim_clean; [done|]. apply ws_head_end_app; [done..|]. pose proof (trim_heads t) as [_ H].
  by rewrite Ht in H.
Qed.

Lemma splitn2_word w r : word w -> splitn2 space (w +:+ " " +:+ r) = (w, r).
Proof. intros [_ Hw]. unfold splitn2. rewrite (split_once_app space w r Hw : split_once space (w +:+ " " +:+ r) = _). done. Qed.

Lemma three_args_print w t b :
  word w -> arg_text t -> has_char bar t = false -> arg_text b -> three_args (w +:+ " " +:+ t +:+ " | " +:+ b) = (w, t, b).
Proof.
  intros Hw (Ht1 & Ht2 & _) Hbar (Hb1 & Hb2 & _). unfold three_args. rewrite splitn2_word by done.
  assert (splitn2 bar (t +:+ " | " +:+ b) = (t +:+ " ", " " +:+ b)%string) as ->.
  { unfold splitn2. replace (t +:+ " | " +:+ b)%string with ((t +:+ " ") +:+ String bar (" " +:+ b))%string by (by rewrite str_append_assoc).
    rewrite split_once_app; [done|]. by rewrite has_char_app, Hbar. }
  by rewrite trim_space_l, trim_space_r, Hb2.
Qed.

(** the first command word decides *)
Ltac line_match :=
  repeat match goal with
  | |- context [decide (?a = ?b)] => rewrite (decide_False (P := (a = b))) by (intros X; discriminate X)
  | |- context [match strip_prefix ?p ?s with _ => _ end] =>
      first [ change (strip_prefix p s) with (@None string) | rewrite (strip_prefix_app p) ]; cbv beta iota
  end.

(** The command line reads back what its help describes: every command written
    with its arguments (a word where another argument follows, text without outer
    white space at the end, a title without a bar) is parsed as that command with
    those arguments. *)
Theorem cli_line_roundtrip (c : LineCmd) : line_ok c -> parse_line (print_line c) = c.
Proof.
  destruct c as [| |peer body|peer|scope title body|scope|to subject body| |id|name|scope body|u|]; cbn [line_ok]; try done.
  - intros [Hw Ht]. unfold parse_line. cbn [print_line]. rewrite <- !str_append_assoc, trim_line, !str_append_assoc by done. line_match.
    unfold chat_args. rewrite splitn2_word, decide_False; [done| |done]. destruct Hw, Ht. tauto.
  - intros Ht. unfold parse_line. cbn [print_line]. rewrite trim_line by done. line_match. by destruct Ht as (_ & -> & _).
  - intros (Hw & [Ht Hbar] & Hb). unfold parse_line. cbn [print_line].
    rewrite <- !str_append_assoc, trim_line, !str_append_assoc by done. line_match.
    unfold bulletin_args. rewrite three_args_print, decide_False by first [done|destruct Hw, Ht, Hb; tauto]. done.
  - intros Ht. unfold parse_line. cbn [print_line]. rewrite trim_line by done. line_match. by destruct Ht as (_ & -> & _).
  - intros (Hw & [Ht Hbar] & Hb). unfold parse_line. cbn [print_line].
    rewrite <- !str_append_assoc, trim_line, !str_append_assoc by done. line_match.
    unfold mail_args. rewrite three_args_print, decide_False by first [done|destruct Hw, Ht, Hb; tauto]. done.
  - intros Ht. unfold parse_line. cbn [print_line]. rewrite trim_line by done. line_match. by destruct Ht as (_ & -> & _).
  - intros Ht. unfold parse_line. cbn [print_line]. rewrite trim_line by done. line_match. by destruct Ht as (_ & -> & _).
  - intros [Hw Ht]. unfold parse_line. cbn [print_line]. rewrite <- !str_append_assoc, trim_line, !str_append_assoc by done. line_match.
    unfold broadcast_args. rewrite splitn2_word, decide_False; [done| |done]. destruct Hw, Ht. tauto.
Qed.

(** ** The session *)
Section session.
Context `{C : Crypto} `{D : Sled} {DL : SledLaws D} {DO : SledOrder D} `{DB : !SledDb} {DBL : SledDbLaws DB}.
Context `{P : E2EPrims} `{J : Json} `{BW : Bincode WireMessage}.
Context `{BT : Bincode Transaction} `{BTL : !BincodeLaws BT}.
Context `{BA : Bincode AccountState} `{BAL : !BincodeLaws BA}.
Context `{BV : Bincode VelocityWindow} `{BVL : !BincodeLaws BV}.
Context `{BP : Bincode CoinPayload} `{CH : !CoinHost}.
Context `{SC : MiniCodecs} {SL : MiniCodecLaws SC} `{ZP : Zip} `{L : Lowercase}.
Context `{B : AppCodecs} {BL : AppCodecLaws B} `{MC : MeshCodecs} `{AH : AppHost} `{UT : UuidText}.
Variable cfg : AppConf.
Hypothesis HT : HostTyped.

(** the parts of a line are Rust strings *)
Definition line_typed (r : anyhow string) : Prop :=
  forall l scope title body, r = Ok l -> parse_line l = LBulletin scope title body -> utf8_valid (as_bytes scope) = true.

Lemma good_broadcast_chat scope body : keeps app_good (broadcast_chat scope body).
Proof. by apply (good_call cfg HT (CBroadcastChat scope body)). Qed.

Lemma run_line_good c :
  (forall scope title body, c = LBulletin scope title body -> utf8_valid (as_bytes scope) = true) -> keeps app_good (run_line cfg c).
Proof.
  pose proof good_broadcast_chat. intros Hc. destruct c; cbn [run_line]; front_auto.
Qed.

Definition run_input (line : anyhow string) : ST AppNode (list string) := l ← st_lift line; run_line cfg (parse_line l).

Lemma run_input_good line : line_typed line -> keeps app_good (run_input line).
Proof.
  intros Ht s Hs. unfold run_input, mbind, ST_bind, st_lift. destruct line as [l|e]; [|done].
  apply run_line_good; [|done]. intros scope title body. by apply Ht.
Qed.

Lemma interactive_cons line input s :
  interactive cfg (line :: input) s = (out ← run_input line; rest ← interactive cfg input; mret (out ++ rest)) s.
Proof.
  cbn [interactive]. unfold run_input, mbind, ST_bind, st_lift. destruct line as [l|]; [|done]. by destruct (run_line cfg _ s) as [? []].
Qed.

(** An interactive session keeps the node consistent and ends at the first
    command that fails: when it ends with an error, the lines before that command
    all succeeded, the state is the one that command left, and no later line was
    run; otherwise every line succeeded. *)
Theorem cli_session (input : list (anyhow string)) (s s' : AppNode) (r : anyhow (list string)) :
  Forall line_typed input -> app_good s -> interactive cfg input s = (s', r) ->
  app_good s' /\ forall e, r = Err e ->
    exists ran line unread s1 out,
      input = ran ++ line :: unread /\ interactive cfg ran s = (s1, Ok out) /\ run_input line s1 = (s', Err e).
Proof.
  intros Ht. revert s s' r. induction Ht as [|line input Hl Ht IH]; intros s s' r Hs H; [by injection H as <- <-|].
  rewrite interactive_cons in H. pose proof (run_input_good line Hl s Hs) as Hs1. unfold mbind at 1, ST_bind at 1 in H.
  destruct (run_input line s) as [s1 [out|e]] eqn:E1.
  - unfold mbind, ST_bind in H. destruct (interactive cfg input s1) as [s2 r2] eqn:E2.
    destruct (IH s1 s2 r2 Hs1 E2) as [Hg Hr]. destruct r2 as [rest|e2]; injection H as <- <-; [done|].
    split; [done|]. intros e [= <-]. destruct (Hr e2 eq_refl) as (ran & l & unread & s3 & out' & -> & Hran & Hl').
    exists (line :: ran), l, unread, s3, (out ++ out'). split_and!; [done| |done].
    rewrite interactive_cons, (ST_bind_Ok _ _ _ _ _ E1), (ST_bind_Ok _ _ _ _ _ Hran). done.
  - injection H as <- <-. split; [done|]. intros e' [= <-]. exists [], line, input, s, []. done.
Qed.
End session.

(** ** Listings *)
Section listings.
Context `{C : Crypto} {CL : CryptoLaws C} `{SC : MiniCodecs} `{ZP : Zip} `{L : Lowercase}.

(** Ed25519 signatures are not empty *)
Definition sign_nonempty : Prop := forall kp m s, kp_sign kp m = Ok s -> s ≠ [].

(** A listing signed on the command line: a manifest without a developer gets
    the signer's peer id, and one that names the signer verifies; one that names
    another key's peer id is signed all the same, and its check, the one
    publishing makes, is whether the other key verifies the signer's signature. *)
Theorem signed_listing_verifies (kp : Keypair) (bytes : list byte) (now : Z) (l : AppStoreListing) :
  sign_nonempty -> sign_listing kp bytes now = Ok l ->
  ls_bundle_hash l = bundle_hash_hex bytes
  /\ (exists m sig, listing_signable_bytes l = Ok m /\ kp_sign kp m = Ok sig
       /\ forall kp', mf_developer_peer_id (ls_manifest l) = Some (peer_id_of kp') ->
            listing_verify_signature l = Ok (pk_verify (kp_public kp') m sig))
  /\ (mf_developer_peer_id (ls_manifest l) = Some (peer_id_of kp) -> listing_verify_signature l = Ok true)
  /\ exists b, load_from_bytes bytes = Ok b
       /\ (mf_developer_peer_id (bu_manifest b) = None -> mf_developer_peer_id (ls_manifest l) = Some (peer_id_of kp)).
Proof.
  intros Hne H. unfold sign_listing in H. apply Res_bind_Ok in H as (b & Hb & H). unfold listing_new_signed in H.
  set (l0 := mkListing _ _ _ _ _ _) in H. apply Res_bind_Ok in H as (m & Hm & H).
  destruct (kp_sign kp m) as [sig|] eqn:Es; [|done]. injection H as <-.
  assert (forall k, mf_developer_peer_id (ls_manifest l0) = Some (peer_id_of k) ->
    listing_verify_signature (set_ls_signature sig l0) = Ok (pk_verify (kp_public k) m sig)) as Hv.
  { intros k Hk. unfold listing_verify_signature. cbn [ls_signature set_ls_signature ls_manifest]. rewrite Hk.
    destruct sig as [|x sig]; [by destruct (Hne _ _ _ Es)|]. unfold peer_id_of. rewrite peer_parse_string, inline_key_pk.
    replace (listing_signable_bytes (set_ls_signature (x :: sig) l0)) with (listing_signable_bytes l0) by done. by rewrite Hm. }
  split_and!; [done| | |exists b; split; [done|]].
  - exists m, sig. split_and!; [|done|exact Hv].
    by replace (listing_signable_bytes (set_ls_signature sig l0)) with (listing_signable_bytes l0).
  - intros Hk. rewrite (Hv kp Hk). by rewrite (kp_sign_verify _ _ _ Es).
  - cbn. intros E. unfold set_developer. by rewrite E.
Qed.
End listings.
