(* ===== verification/Sdk.v ===== *)
(** * The developer tool

    [miniapp-sdk/src/main.rs]: lint, hash, pack, sign, listing and attestation of
    mini-app bundles.  The zip writer, directory listings, libp2p key files and
    pretty-printed JSON are parameters; what the tool prints is its result. *)

From S2P Require Import Prelude External Text Instances Host E2E AtRest Wire AppStorage Proximity MiniApp Desktop Cli AtRestTheorems.

Open Scope Z_scope.

(** [ZipWriter]: the archive with these entries, in this order *)
Class ZipWriter := zip_write : list (string * list byte) -> anyhow (list byte).
Definition written_entry (e : string * list byte) : anyhow ZipEntry := Ok (mkZip e.1 (ends_with "/" e.1) (Ok e.2)).
Class ZipWriterLaws (ZP : Zip) (ZW : ZipWriter) : Prop :=
  zip_read_write : forall es b, zip_write es = Ok b -> zip_archive b = Ok (written_entry <$> es).

Class KeyFile `{C : Crypto} := {
  to_protobuf_encoding : Keypair -> anyhow (list byte);
  from_protobuf_encoding : list byte -> option Keypair;
}.
Class KeyFileLaws `{KF : KeyFile} : Prop :=
  protobuf_roundtrip : forall kp b, to_protobuf_encoding kp = Ok b -> from_protobuf_encoding b = Some kp.

Class Pretty (A : Type) := to_string_pretty : A -> anyhow (list byte).
Class PrettyLaws {A} (S : Serde A) (PP : Pretty A) : Prop :=
  from_pretty : forall (a : A) b, to_string_pretty a = Ok b -> from_json b = Ok a.

(** an entry of a directory; the name and the extension are there when they are
    valid UTF-8 *)
Record DirEntry := mkDirEntry { de_path : string; de_name : option string; de_extension : option string; de_is_dir : bool }.
Class ReadDir `{F : Disk} := {
  read_dir : DiskState -> string -> anyhow (list (anyhow DirEntry));
  is_file : DiskState -> string -> bool;
}.

(** [BundledListingsFile] of [bundled_listings.rs], which the tool writes as
    [{ "listings": [..] }] *)
Record BundledListingsFile := mkListingsFile { lf_listings : list AppStoreListing }.

Section sdk.
Context `{C : Crypto} `{SC : MiniCodecs} `{ZP : Zip} `{L : Lowercase} `{ZW : ZipWriter} `{KF : !KeyFile} `{F : Disk} `{RDir : !ReadDir}.
Context `{PM : Pretty MiniAppManifest} `{PS : Pretty BundleSignatureFile} `{PL : Pretty AppStoreListing}.
Context `{PLS : Pretty BundledListingsFile} `{PR : Pretty ReproducibleBuild}.

Abbreviation sdk := (ST DiskState).

Definition sdk_read (p : string) : sdk (list byte) := fun f => (f, disk_read f p).
Definition sdk_write (p : string) (b : list byte) : sdk unit := fun f => disk_write f p b.
Definition sdk_fs (g : DiskState -> DiskState * anyhow unit) : sdk unit := g.
(** [if let Some(parent) = p.parent() { create_dir_all(parent)? }] *)
Definition make_parent (p : string) : sdk unit :=
  match path_parent p with Some d => sdk_fs (fun f => disk_create_dir_all f d) | None => mret tt end.

Definition read_bundle (path : string) : sdk (list byte * MiniAppBundle) :=
  bytes ← sdk_read path;
  bundle ← st_lift (load_from_bytes bytes);
  mret (bytes, bundle).

(** ** Lint and attestation *)

Record LintReport := mkLint {
  lr_id : string;
  lr_version : string;
  lr_bytes : Z;
  lr_hash : string;
  lr_signature_ok : bool;
  lr_permissions : list Permission;
  (** the attested hash matches, or there is none *)
  lr_reproducible : option bool;
}.

Definition lint_repro (m : MiniAppManifest) (content_hash : string) : anyhow (option bool) :=
  match mf_reproducible_build m with
  | None => Ok None
  | Some rb =>
      _ ← repro_validate rb;
      match rb_attested_bundle_hash rb with
      | None => Ok (Some false)
      | Some attested =>
          if negb (eq_ignore_ascii_case attested content_hash)
          then Err ("reproducible_build.attested_bundle_hash mismatch (manifest " +:+ attested +:+ " vs content "
                    +:+ content_hash +:+ ")")%string
          else Ok (Some true)
      end
  end.

Definition lint_checks (bytes : list byte) (bundle : MiniAppBundle) : anyhow LintReport :=
  if 10 * 1024 * 1024 <? total_size bundle then Err "bundle exceeds 10 MB limit"%string else
  let m := bu_manifest bundle in
  if decide (mf_runtime m ≠ "webview"%string)
  then Err ("unsupported runtime " +:+ mf_runtime m +:+ " (only webview is supported)")%string else
  _ ← MiniApp.entry_html bundle;
  _ ← scan_bundle bundle bytes;
  sig_ok ← verify_bundle_developer_signature bundle bytes;
  content_hash ← content_attestation_hash bundle;
  repro ← lint_repro m content_hash;
  Ok (mkLint (mf_id m) (mf_version m) (Z.of_nat (length bytes)) (bundle_hash_hex bytes) sig_ok (mf_permissions m) repro).

Definition lint_bundle (path : string) : sdk LintReport :=
  '(bytes, bundle) ← read_bundle path; st_lift (lint_checks bytes bundle).

Definition hash_bundle (path : string) : sdk string := bytes ← sdk_read path; mret (bundle_hash_hex bytes).

(** [digest_file_hex] *)
Definition digest_file_hex (path : string) : sdk string := bytes ← sdk_read path; mret (hex_encode (blake3 bytes)).

(** the block to merge into the manifest *)
Definition attest_bundle (version path recipe : string) : sdk ReproducibleBuild :=
  '(_, bundle) ← read_bundle path;
  content_hash ← st_lift (content_attestation_hash bundle);
  recipe_digest ← digest_file_hex recipe;
  let attestation := mkRepro None (Some recipe_digest) (Some content_hash) (Some version) in
  _ ← st_lift (repro_validate attestation);
  _ ← st_lift (to_string_pretty attestation);
  mret attestation.

(** ** Packing *)

Fixpoint pack_entries (entries : list (anyhow DirEntry)) : sdk (list (string * list byte)) :=
  match entries with
  | [] => mret []
  | e :: entries =>
      e ← st_lift e;
      if de_is_dir e then pack_entries entries else
      match de_name e with
      | None => st_err "bad filename"
      | Some name =>
          if ends_with ".mxa" name || bool_decide (name = BUNDLE_SIG_FILE) then pack_entries entries else
          buf ← sdk_read (de_path e);
          rest ← pack_entries entries;
          mret ((name, buf) :: rest)
      end
  end.

Definition pack_dir (dir output : string) : sdk MiniAppManifest :=
  let manifest_path := path_join dir "mycelium-app.json" in
  file ← st_gets (fun f => is_file f manifest_path);
  if negb file then st_err ("missing mycelium-app.json in " +:+ dir)%string else
  mb ← sdk_read manifest_path;
  manifest ← st_lift (from_json mb);
  _ ← st_lift (manifest_validate manifest);
  f ← st_get;
  listing ← st_lift (read_dir f dir);
  entries ← pack_entries listing;
  zip_buf ← st_lift (zip_write entries);
  _ ← make_parent output;
  _ ← sdk_write output zip_buf;
  mret manifest.

(** ** Keys *)

Definition key_path (dir : string) : string := path_join dir "official.ed25519".
Definition peer_path (dir : string) : string := path_join dir "official.peer-id".

Definition keygen (keypair : Keypair) (dir : string) : sdk string :=
  _ ← sdk_fs (fun f => disk_create_dir_all f dir);
  enc ← st_lift (to_protobuf_encoding keypair);
  _ ← sdk_write (key_path dir) enc;
  _ ← sdk_write (peer_path dir) (as_bytes (peer_id_of keypair));
  _ ← sdk_fs (fun f => disk_chmod_600 f (key_path dir));
  mret (peer_id_of keypair).

Definition sdk_load_keypair (path : string) : sdk Keypair :=
  bytes ← sdk_read path;
  match from_protobuf_encoding bytes with
  | Some kp => mret kp
  | None => st_err "identity file must be libp2p protobuf Ed25519"
  end.

(** ** Signing *)

(** [archive.by_name(name)]: a later entry of the same name shadows an earlier *)
Fixpoint by_name (name : string) (entries : list (anyhow ZipEntry)) : anyhow ZipEntry :=
  match entries with
  | [] => Err "specified file not found in archive"%string
  | e :: entries =>
      match by_name name entries with
      | Ok f => Ok f
      | Err err => match e with
                   | Ok f => if decide (ze_name f = name) then Ok f else Err err
                   | Err _ => Err err
                   end
      end
  end.

(** every entry but the signature, the manifest replaced *)
Fixpoint rewrite_entries (manifest_json : anyhow (list byte)) (entries : list (anyhow ZipEntry)) : anyhow (list (string * list byte)) :=
  match entries with
  | [] => Ok []
  | e :: entries =>
      f ← e;
      if decide (ze_name f = BUNDLE_SIG_FILE) then rewrite_entries manifest_json entries else
      buf ← ze_data f;
      buf ← (if decide (ze_name f = "mycelium-app.json"%string) then manifest_json else Ok buf);
      rest ← rewrite_entries manifest_json entries;
      Ok ((ze_name f, buf) :: rest)
  end.

Fixpoint copy_entries (entries : list (anyhow ZipEntry)) : anyhow (list (string * list byte)) :=
  match entries with
  | [] => Ok []
  | e :: entries => f ← e; buf ← ze_data f; rest ← copy_entries entries; Ok ((ze_name f, buf) :: rest)
  end.

(** the signed archive, and the manifest in it *)
Definition sign_archive (kp : Keypair) (bytes : list byte) : anyhow (list byte * MiniAppManifest) :=
  archive ← zip_archive bytes;
  f ← by_name "mycelium-app.json" archive;
  buf ← ze_data f;
  manifest ← from_json buf;
  let manifest := set_developer (peer_id_of kp) manifest in
  entries ← rewrite_entries (to_string_pretty manifest) archive;
  unsigned_with_manifest ← zip_write entries;
  sig ← sigfile_sign unsigned_with_manifest kp;
  sig_json ← to_string_pretty sig;
  archive2 ← zip_archive unsigned_with_manifest;
  copies ← copy_entries archive2;
  out ← zip_write (copies ++ [(BUNDLE_SIG_FILE, sig_json)]);
  Ok (out, manifest).

Record SignReport := mkSignReport { sr_manifest : MiniAppManifest; sr_peer : string; sr_sig_ok : bool }.

Definition sign_bundle (path identity : string) (output : option string) : sdk SignReport :=
  kp ← sdk_load_keypair identity;
  bytes ← sdk_read path;
  '(out, manifest) ← st_lift (sign_archive kp bytes);
  let dest := default path output in
  _ ← make_parent dest;
  _ ← sdk_write dest out;
  '(signed, bundle) ← read_bundle dest;
  ok ← st_lift (verify_bundle_developer_signature bundle signed);
  mret (mkSignReport manifest (peer_id_of kp) ok).

(** [tmp] is the fresh temporary file *)
Definition pack_sign (tmp dir output identity : string) : sdk SignReport :=
  _ ← pack_dir dir tmp; sign_bundle tmp identity (Some output).

(** ** Listings *)

Definition build_listing (bundle_path identity : string) (now : Z) : sdk AppStoreListing :=
  keypair ← sdk_load_keypair identity;
  bundle_bytes ← sdk_read bundle_path;
  st_lift (sign_listing keypair bundle_bytes now).

(** the JSON text, written or printed *)
Definition emit_listing (bundle_path identity : string) (output : option string) (now : Z) : sdk (list byte) :=
  l ← build_listing bundle_path identity now;
  json ← st_lift (to_string_pretty l);
  match output with
  | Some out => _ ← make_parent out; _ ← sdk_write out json; mret json
  | None => mret json
  end.

Fixpoint build_listings (entries : list (anyhow DirEntry)) (identity : string) (now : Z) : sdk (list AppStoreListing) :=
  match entries with
  | [] => mret []
  | e :: entries =>
      e ← st_lift e;
      if decide (de_extension e ≠ Some "mxa"%string) then build_listings entries identity now else
      l ← build_listing (de_path e) identity now;
      rest ← build_listings entries identity now;
      mret (l :: rest)
  end.

Definition listing_id_le (a b : AppStoreListing) : Prop := key_le (mf_id (ls_manifest a)) (mf_id (ls_manifest b)).
#[local] Instance listing_id_le_dec : RelDecision listing_id_le.
Proof. intros a b. unfold listing_id_le. apply _. Defined.

Definition emit_listings_dir (dir identity output : string) (now : Z) : sdk nat :=
  f ← st_get;
  entries ← st_lift (read_dir f dir);
  listings ← build_listings entries identity now;
  let listings := sort_by listing_id_le listings in
  _ ← make_parent output;
  json ← st_lift (to_string_pretty (mkListingsFile listings));
  _ ← sdk_write output json;
  mret (length listings).

(** ** The command line *)

Inductive Command :=
| Lint (path : string)
| Hash (path : string)
| Pack (dir output : string)
| Sign (path identity : string) (output : option string)
| PackSign (dir output identity : string)
| Keygen (dir : string)
| Listing (path identity : string) (output : option string)
| Listings (dir identity output : string)
| Attest (path recipe : string).

(** the version of the package, the temporary file, the generated key and the
    clock are what the commands take from outside *)
Definition sdk_main (version : string) (tmp : anyhow string) (fresh : Keypair) (now : Z) (cmd : Command) : sdk unit :=
  match cmd with
  | Lint path => _ ← lint_bundle path; mret tt
  | Hash path => _ ← hash_bundle path; mret tt
  | Pack dir output => _ ← pack_dir dir output; mret tt
  | Sign path identity output => _ ← sign_bundle path identity output; mret tt
  | PackSign dir output identity => t ← st_lift tmp; _ ← pack_sign t dir output identity; mret tt
  | Keygen dir => _ ← keygen fresh dir; mret tt
  | Listing path identity output => _ ← emit_listing path identity output now; mret tt
  | Listings dir identity output => _ ← emit_listings_dir dir identity output now; mret tt
  | Attest path recipe => _ ← attest_bundle version path recipe; mret tt
  end.
End sdk.

(** ** The developer tool: theorems *)


Section sdk_theorems.
Context `{C : Crypto} {CL : CryptoLaws C} `{SC : MiniCodecs} `{ZP : Zip} `{L : Lowercase}.
Context `{ZW : ZipWriter} {ZL : ZipWriterLaws ZP ZW} `{KF : !KeyFile} {KL : KeyFileLaws} `{F : Disk} {FL : DiskLaws F} `{RDir : !ReadDir}.
Context `{PM : Pretty MiniAppManifest} {PML : PrettyLaws serde_manifest PM}.
Context `{PS : Pretty BundleSignatureFile} {PSL : PrettyLaws serde_sigfile PS} `{PR : Pretty ReproducibleBuild}.

(** ** Archives *)

Lemma copy_written es : copy_entries (written_entry <$> es) = Ok es.
Proof. induction es as [|[n b] es IH]; [done|]. cbn. by rewrite IH. Qed.

Lemma signed_written es : Forall (fun e => e.1 ≠ BUNDLE_SIG_FILE) es -> signed_entries (written_entry <$> es) = Ok es.
Proof.
  induction 1 as [|[n b] es Hn Hes IH]; [done|]. cbn. cbn in Hn. rewrite decide_False by done. cbn in IH. by rewrite IH.
Qed.

Lemma signed_written_sig es b :
  Forall (fun e => e.1 ≠ BUNDLE_SIG_FILE) es -> signed_entries (written_entry <$> (es ++ [(BUNDLE_SIG_FILE, b)])) = Ok es.
Proof.
  induction 1 as [|[n c] es Hn Hes IH]; [done|]. cbn. cbn in Hn. rewrite decide_False by done. cbn in IH. by rewrite IH.
Qed.

Lemma rewrite_inv mj entries es :
  rewrite_entries mj entries = Ok es ->
  Forall (fun e => e.1 ≠ BUNDLE_SIG_FILE /\ (e.1 = "mycelium-app.json"%string -> mj = Ok e.2)) es.
Proof.
  revert es. induction entries as [|e entries IH]; intros es; cbn; [by intros [= <-]|].
  intros (f & _ & H)%Res_bind_Ok. case_decide as Hs; [by apply IH|].
  apply Res_bind_Ok in H as (buf & _ & H). apply Res_bind_Ok in H as (buf' & Hb & H).
  apply Res_bind_Ok in H as (rest & Hr & [= <-]). constructor; [|by apply IH]. cbn. split; [done|].
  intros En. by rewrite decide_True in Hb.
Qed.

(** the files of a written archive: the last entry of a name wins *)
Definition put_entry (m : gmap string (list byte)) (e : string * list byte) : gmap string (list byte) :=
  if ends_with "/" e.1 then m else <[e.1 := e.2]> m.

Lemma load_written es files0 files : load_entries (written_entry <$> es) files0 = Ok files -> files = foldl put_entry files0 es.
Proof.
  revert files0. induction es as [|[n b] es IH]; intros files0; [by intros [= <-]|]. cbn. unfold put_entry at 2. cbn.
  destruct (ends_with "/" n); [apply IH|]. destruct (is_safe_bundle_path n); [apply IH|done].
Qed.

Lemma put_lookup (Q : list byte -> Prop) es files0 k v :
  Forall (fun e => e.1 = k -> Q e.2) es -> (files0 !! k = Some v -> Q v) -> foldl put_entry files0 es !! k = Some v -> Q v.
Proof.
  intros He. revert files0. induction He as [|[n b] es Hn He IH]; intros files0 H0; [done|]. cbn. apply IH. unfold put_entry. cbn.
  destruct (ends_with "/" n); [done|]. destruct (decide (n = k)) as [->|Hk].
  - rewrite lookup_insert_eq. intros [= <-]. by apply Hn.
  - by rewrite lookup_insert_ne.
Qed.

(** ** Signing *)

(** text of the hex crate, and signatures that are not empty *)
Definition hex_text : Prop :=
  (forall b, trim (hex_encode b) = hex_encode b) /\ forall kp m s, kp_sign kp m = Ok s -> hex_encode s ≠ ""%string.

(** the manifest of an archive to sign *)
Definition source_manifest (bytes : list byte) : anyhow MiniAppManifest :=
  archive ← zip_archive bytes; f ← by_name "mycelium-app.json" archive; buf ← ze_data f; from_json buf.

(** what is in a signed archive *)
Lemma sign_archive_inv kp bytes out m :
  sign_archive kp bytes = Ok (out, m) ->
  exists es sj h sig m0,
    Forall (fun e => e.1 = "mycelium-app.json"%string -> from_json e.2 = Ok m) es
    /\ kp_sign kp (as_bytes h) = Ok sig /\ from_json sj = Ok (mkSigFile h (hex_encode sig))
    /\ zip_archive out = Ok (written_entry <$> (es ++ [(BUNDLE_SIG_FILE, sj)])) /\ bundle_hash_for_signature out = Ok h
    /\ source_manifest bytes = Ok m0 /\ m = set_developer (peer_id_of kp) m0.
Proof.
  intros H. unfold sign_archive in H. apply Res_bind_Ok in H as (archive & Ha & H). apply Res_bind_Ok in H as (f & Hf & H).
  apply Res_bind_Ok in H as (buf & Hbuf & H). apply Res_bind_Ok in H as (m0 & Hm0 & H). cbv zeta in H.
  apply Res_bind_Ok in H as (es & Hes & H). apply Res_bind_Ok in H as (uns & Huns & H). apply Res_bind_Ok in H as (sf & Hsf & H).
  apply Res_bind_Ok in H as (sj & Hsj & H). apply Res_bind_Ok in H as (archive2 & Ha2 & H). apply Res_bind_Ok in H as (copies & Hc & H).
  apply Res_bind_Ok in H as (out' & Hout & [= <- <-]).
  apply rewrite_inv in Hes. pose proof (zip_read_write _ _ Huns) as Zu. rewrite Zu in Ha2. injection Ha2 as <-.
  rewrite copy_written in Hc. injection Hc as <-. pose proof (zip_read_write _ _ Hout) as Zo.
  assert (Forall (fun e => e.1 ≠ BUNDLE_SIG_FILE) es) as Hsig by (eapply Forall_impl; [exact Hes|]; by intros e []).
  unfold sigfile_sign in Hsf. apply Res_bind_Ok in Hsf as (h & Hh & Hsf). destruct (kp_sign kp (as_bytes h)) as [sig|] eqn:Es; [|done].
  injection Hsf as <-. exists es, sj, h, sig, m0. split_and!; try done.
  - eapply Forall_impl; [exact Hes|]. intros e [_ He] En. by apply from_pretty, He.
  - by apply from_pretty.
  - unfold bundle_hash_for_signature in *. rewrite Zo. rewrite Zu in Hh. cbn in *. rewrite signed_written in Hh by done.
    by rewrite signed_written_sig.
  - unfold source_manifest. by rewrite Ha; cbn; rewrite Hf; cbn; rewrite Hbuf.
Qed.

Lemma sign_archive_verifies kp bytes out m bundle :
  hex_text -> sign_archive kp bytes = Ok (out, m) -> load_from_bytes out = Ok bundle ->
  bu_manifest bundle = m
  /\ (exists m0, source_manifest bytes = Ok m0 /\ m = set_developer (peer_id_of kp) m0)
  /\ exists h sig, bundle_hash_for_signature out = Ok h /\ kp_sign kp (as_bytes h) = Ok sig /\ forall k, mf_developer_peer_id m = Some (peer_id_of k) ->
       verify_bundle_developer_signature bundle out = Ok (pk_verify (kp_public k) (as_bytes h) sig).
Proof.
  intros [Htrim Hne] (es & sj & h & sig & m0 & Hes & Hk & Hsj & Hz & Hh & Hm0)%sign_archive_inv Hl.
  unfold load_from_bytes in Hl. rewrite Hz in Hl. cbn [mbind Res_bind] in Hl. apply Res_bind_Ok in Hl as (files & Hf & Hl).
  apply load_written in Hf. rewrite foldl_app in Hf. cbn [foldl] in Hf. unfold put_entry at 1 in Hf.
  change (ends_with "/" (BUNDLE_SIG_FILE, sj).1) with false in Hf. cbn [fst snd] in Hf.
  destruct (files !! "mycelium-app.json"%string) as [mb|] eqn:E; [|done]. apply Res_bind_Ok in Hl as (m' & Hm & Hl).
  apply Res_bind_Ok in Hl as ([] & _ & [= <-]). rewrite Hf, lookup_insert_ne in E by done.
  apply (put_lookup (fun b => from_json b = Ok m)) in E; [|done|done]. rewrite E in Hm. injection Hm as <-. split_and!; [done|by exists m0|].
  exists h, sig. split_and!; [done..|]. intros k Hd. unfold verify_bundle_developer_signature, bundle_get_file. cbn [bu_files bu_manifest].
  rewrite Hf, lookup_insert_eq, Hsj. cbn [mbind Res_bind]. unfold sigfile_verify. cbn [sf_signature sf_bundle_hash].
  rewrite decide_False by by eapply Hne. rewrite Hh, decide_False by naive_solver. rewrite Hd. unfold peer_id_of.
  by rewrite peer_parse_string, inline_key_pk, Htrim, hex_decode_encode.
Qed.

(** C40. Signing a bundle gives one whose signature verifies: when the tool reports a
    signed bundle, the signer is the key pair of the identity file, what it wrote
    is a bundle with the manifest it reports, and the reported check is the one
    installation makes on the written file.  That manifest names the signer when
    the source named nobody, and then the check holds.  In general the check
    is whether the key the manifest names verifies the signer's signature of the
    hash of the written bundle, so that a manifest of another developer is
    reported (and installed) as signed by that developer only if this signature
    verifies under the other key. *)
Theorem sdk_sign_verifies (path identity : string) (output : option string) (f f' : DiskState) (rep : SignReport) :
  hex_text -> sign_bundle path identity output f = (f', Ok rep) ->
  exists kp src m0 out bundle h sig,
    sdk_load_keypair identity f = (f, Ok kp) /\ sr_peer rep = peer_id_of kp
    /\ disk_read f path = Ok src /\ source_manifest src = Ok m0 /\ sr_manifest rep = set_developer (peer_id_of kp) m0
    /\ (mf_developer_peer_id m0 = None -> mf_developer_peer_id (sr_manifest rep) = Some (peer_id_of kp))
    /\ disk_read f' (default path output) = Ok out /\ load_from_bytes out = Ok bundle
    /\ bu_manifest bundle = sr_manifest rep /\ verify_bundle_developer_signature bundle out = Ok (sr_sig_ok rep)
    /\ (mf_developer_peer_id (sr_manifest rep) = Some (peer_id_of kp) -> sr_sig_ok rep = true)
    /\ bundle_hash_for_signature out = Ok h /\ kp_sign kp (as_bytes h) = Ok sig
    /\ (forall kp', mf_developer_peer_id (sr_manifest rep) = Some (peer_id_of kp') ->
          sr_sig_ok rep = pk_verify (kp_public kp') (as_bytes h) sig).
Proof.
  intros Hx H. unfold sign_bundle in H. apply ST_bind_inv in H as (f1 & kp & Hkp & H). apply ST_bind_inv in H as (f2 & bytes & Hb & H).
  assert (f1 = f) as ->.
  { unfold sdk_load_keypair, sdk_read in Hkp. apply ST_bind_inv in Hkp as (f0 & b0 & [= <- _] & Hkp).
    destruct (from_protobuf_encoding b0); by injection Hkp. }
  injection Hb as <- Hsrc.
  apply ST_bind_inv in H as (f3 & [out m] & [= <- Hs] & H). apply ST_bind_inv in H as (f4 & [] & _ & H).
  apply ST_bind_inv in H as (f5 & [] & Hw & H). apply ST_bind_inv in H as (f6 & [signed bundle] & Hr & H).
  apply ST_bind_inv in H as (f7 & ok & [= <- Hv] & [= <- <-]). unfold read_bundle, sdk_read in Hr.
  apply ST_bind_inv in Hr as (f8 & b & [= <- Hd] & Hr). apply ST_bind_inv in Hr as (f9 & bu & [= <- Hl] & [= <- <- <-]).
  assert (b = out) as ->.
  { apply disk_read_view in Hd. rewrite (disk_write_view _ _ _ _ Hw), decide_True in Hd by done. by injection Hd. }
  destruct (sign_archive_verifies _ _ _ _ _ Hx Hs Hl) as (Hm & (m0 & Hm0 & Hset) & h & sig & Hh & Hsig & Hver).
  exists kp, bytes, m0, out, bu, h, sig. cbn. split_and!; try done.
  - intros E. rewrite Hset. unfold set_developer. by rewrite E.
  - intros Hk. rewrite (Hver kp Hk), (kp_sign_verify _ _ _ Hsig) in Hv. by injection Hv.
  - intros kp' Hk. rewrite (Hver kp' Hk) in Hv. by injection Hv.
Qed.

(** ** Attestation *)

Definition apart_from_manifest (files : gmap string (list byte)) : list (string * list byte) :=
  filter (fun kv => kv.1 ≠ "mycelium-app.json"%string) (map_to_list files).

Lemma sorted_rows_unique (l l' : list (string * list byte)) :
  (forall k v v', (k, v) ∈ l -> (k, v') ∈ l -> v = v') -> l ≡ₚ l' -> sort_by row_le l = sort_by row_le l'.
Proof.
  intros Hn Hp. eapply (StronglySorted_unique_strong row_le); [|by apply sort_by_sorted; apply _..|by rewrite !sort_by_perm].
  intros [k b] [k' b'] H1 H2 Hle Hge. assert (k = k') as <- by by apply (anti_symm key_le). f_equal.
  rewrite elem_of_sort_by in H1, H2. rewrite <- Hp in H2. by eapply Hn.
Qed.

(** the hash sees the files and the manifest without its attestation *)
Lemma content_hash_ignores_attestation b b' :
  without_repro (bu_manifest b') = without_repro (bu_manifest b) ->
  (forall k, k ≠ "mycelium-app.json"%string -> bu_files b' !! k = bu_files b !! k) ->
  content_attestation_hash b' = content_attestation_hash b.
Proof.
  intros Hm Hf. unfold content_attestation_hash. rewrite Hm. destruct (to_json _); [|done]. cbn [mbind Res_bind].
  do 9 f_equal. apply sorted_rows_unique.
  - intros k v v' [_ H1]%list_elem_of_filter [_ H2]%list_elem_of_filter. apply elem_of_map_to_list in H1, H2. congruence.
  - apply NoDup_Permutation; [apply NoDup_filter, NoDup_map_to_list..|]. intros [k v].
    rewrite !list_elem_of_filter, !elem_of_map_to_list. cbn. split; intros [Hk E]; (split; [done|]); [by rewrite <- Hf|by rewrite Hf].
Qed.

Lemma ascii_case_refl (s : string) : eq_ignore_ascii_case s s = true.
Proof. by apply bool_decide_eq_true. Qed.

(** An attested bundle passes the lint: the block the tool prints, merged into the
    manifest of the bundle with nothing else changed, is valid and matches the
    content. *)
Theorem attested_bundle_lints (version path recipe : string) (f f' : DiskState) (rb : ReproducibleBuild) b bytes b' :
  read_bundle path f = (f, Ok (bytes, b)) -> attest_bundle version path recipe f = (f', Ok rb) ->
  without_repro (bu_manifest b') = without_repro (bu_manifest b) -> mf_reproducible_build (bu_manifest b') = Some rb ->
  (forall k, k ≠ "mycelium-app.json"%string -> bu_files b' !! k = bu_files b !! k) ->
  exists h, content_attestation_hash b' = Ok h /\ lint_repro (bu_manifest b') h = Ok (Some true).
Proof.
  intros Hr Ha Hm Hrb Hf. unfold attest_bundle in Ha. rewrite (ST_bind_Ok _ _ _ _ _ Hr) in Ha.
  apply ST_bind_inv in Ha as (f1 & h & [= <- Hh] & Ha). apply ST_bind_inv in Ha as (f2 & d & _ & Ha). cbv zeta in Ha.
  apply ST_bind_inv in Ha as (f3 & [] & [= <- Hv] & Ha). apply ST_bind_inv in Ha as (f4 & t & _ & [= <- <-]). exists h. rewrite (content_hash_ignores_attestation _ _ Hm Hf).
  split; [done|]. unfold lint_repro. rewrite Hrb, Hv. cbn. by rewrite ascii_case_refl.
Qed.

(** A generated key is the one its file holds, and its peer id is the one
    published beside it. *)
Theorem keygen_roundtrip (kp : Keypair) (dir : string) (f f' : DiskState) (id : string) :
  (forall g p g' r q, disk_chmod_600 g p = (g', r) -> disk_view g' q = disk_view g q) ->
  keygen kp dir f = (f', Ok id) ->
  sdk_load_keypair (key_path dir) f' = (f', Ok kp) /\ disk_read f' (peer_path dir) = Ok (as_bytes id) /\ id = peer_id_of kp.
Proof.
  intros Hch H. unfold keygen in H. apply ST_bind_inv in H as (f1 & [] & _ & H). apply ST_bind_inv in H as (f2 & enc & [= <- He] & H).
  apply ST_bind_inv in H as (f3 & [] & Hw & H). apply ST_bind_inv in H as (f4 & [] & Hw2 & H).
  apply ST_bind_inv in H as (f5 & [] & Hc & [= <- <-]). unfold sdk_write, sdk_fs in *.
  assert (key_path dir ≠ peer_path dir) as Hne by by intros E%path_join_inj.
  split_and!; [|apply disk_read_view|done].
  - unfold sdk_load_keypair. rewrite (ST_bind_Ok _ _ _ f5 enc).
    + by rewrite (protobuf_roundtrip _ _ He).
    + unfold sdk_read. f_equal. apply disk_read_view. rewrite (Hch _ _ _ _ _ Hc), (disk_write_view _ _ _ _ Hw2), decide_False by done.
      by rewrite (disk_write_view _ _ _ _ Hw), decide_True.
  - by rewrite (Hch _ _ _ _ _ Hc), (disk_write_view _ _ _ _ Hw2), decide_True.
Qed.
End sdk_theorems.
