(* ===== verification/AppCodec.v ===== *)
(** * Concrete codecs of the application layer

    One self-delimiting codec per record that is stored or sent by the
    application, so that the codec laws assumed of bincode and serde_json are
    seen to hold together. *)

From S2P Require Import Prelude External Text Instances Transaction Policy Ledger CoinNode Wire.
From S2P Require Import E2E Host AppStorage Proximity MiniApp MiniAppStore AppNodeData CoinDemo CoinNodeDemo CoreDemo.

Open Scope Z_scope.

(** A record is coded as the nested pair of its fields. *)
Ltac by_fields f g := exact (codec_iso f g ltac:(by intros [])).

Definition bool_opt (b : bool) : option byte := if b then Some x01 else None.
Definition opt_bool (o : option byte) : bool := match o with Some _ => true | None => false end.
Global Instance codec_bool : Codec bool.
Proof. by_fields bool_opt opt_bool. Defined.

Global Instance codec_chat : Codec ChatMessage.
Proof.
  by_fields (fun c => (ch_id c, (ch_from_display_name c, (ch_body c, (ch_timestamp_ms c, ch_reply_to c)))))
    (fun '(a, (b, (c, (d, e)))) => mkChat a b c d e).
Defined.

Global Instance codec_post : Codec BulletinPost.
Proof.
  by_fields (fun p => (bp_id p, (bp_from_display_name p, (bp_title p, (bp_body p, (bp_scope p,
      (bp_timestamp_ms p, bp_expires_at_ms p)))))))
    (fun '(a, (b, (c, (d, (e, (f, g)))))) => mkPost a b c d e f g).
Defined.

Global Instance codec_attachment : Codec Attachment.
Proof.
  by_fields (fun a => (at_filename a, (at_mime_type a, (at_data a, at_size_bytes a))))
    (fun '(a, (b, (c, d))) => mkAttachment a b c d).
Defined.

Global Instance codec_mail : Codec MailMessage.
Proof.
  by_fields (fun m => (ml_id m, (ml_from_peer m, (ml_from_display_name m, (ml_to_peer m, (ml_subject m, (ml_body m,
      (ml_timestamp_ms m, ml_attachments m))))))))
    (fun '(a, (b, (c, (d, (e, (f, (g, h))))))) => mkMail a b c d e f g h).
Defined.

Definition status_bool (s : ContactStatus) : bool := match s with AppStorage.Accepted => true | AppStorage.Pending => false end.
Definition bool_status (b : bool) : ContactStatus := if b then AppStorage.Accepted else AppStorage.Pending.

Global Instance codec_contact : Codec Contact.
Proof.
  exact (codec_iso (fun c => (ct_peer_id c, (ct_display_name c, (ct_added_at_ms c, status_bool (ct_status c)))))
    (fun '(a, (b, (c, d))) => mkContact a b c (bool_status d)) ltac:(by intros [??? []])).
Defined.

Global Instance codec_group : Codec Group.
Proof.
  by_fields (fun g => (gr_id g, (gr_name g, (gr_key g, (gr_members g, gr_created_at_ms g)))))
    (fun '(a, (b, (c, (d, e)))) => mkGroup a b c d e).
Defined.

Global Instance codec_scope_key : Codec ScopeKey.
Proof.
  by_fields (fun k => (sk_scope k, (sk_display_name k, (sk_key k, sk_added_at_ms k))))
    (fun '(a, (b, (c, d))) => mkScopeKey a b c d).
Defined.

Global Instance codec_profile : Codec PresenceProfile.
Proof.
  by_fields (fun p => (pf_display_name p, (pf_bio p, (pf_age p, (pf_gender p, (pf_looking_for p, (pf_interests p,
      pf_photo_base64 p)))))))
    (fun '(a, (b, (c, (d, (e, (f, g)))))) => mkProfile a b c d e f g).
Defined.

Global Instance codec_signal : Codec PresenceSignal.
Proof.
  by_fields (fun s => (ps_ephemeral_id s, (ps_enc_pubkey_hex s, (ps_profile s, (ps_created_at_ms s, ps_ttl_secs s)))))
    (fun '(a, (b, (c, (d, e)))) => mkSignal a b c d e).
Defined.

Global Instance codec_prox_direct : Codec ProximityDirectMessage.
Proof.
  by_fields (fun m => (pd_target_enc_pubkey_hex m, (pd_sender_enc_pubkey_hex m, (pd_encrypted_payload m, pd_created_at_ms m))))
    (fun '(a, (b, (c, d))) => mkProxDirect a b c d).
Defined.

Global Instance codec_intent : Codec ProximityMatchIntent.
Proof.
  by_fields (fun m => (pi_from_enc_pubkey_hex m, (pi_created_at_ms m, pi_ttl_secs m)))
    (fun '(a, (b, c)) => mkIntent a b c).
Defined.

Global Instance codec_repro : Codec ReproducibleBuild.
Proof.
  by_fields (fun r => (rb_recipe_url r, (rb_recipe_digest_hex r, (rb_attested_bundle_hash r, rb_sdk_version r))))
    (fun '(a, (b, (c, d))) => mkRepro a b c d).
Defined.

Definition permission_code (p : Permission) : Z :=
  match p with
  | Messaging => 0 | MessagingBroadcast => 1 | Identity => 2 | Payments => 3 | MiniApp.Storage => 4
  | BulletinRead => 5 | BulletinWrite => 6 | PeerDiscovery => 7 | Camera => 8
  end.
Definition code_permission (z : Z) : Permission :=
  if z =? 0 then Messaging else if z =? 1 then MessagingBroadcast else if z =? 2 then Identity else
  if z =? 3 then Payments else if z =? 4 then MiniApp.Storage else if z =? 5 then BulletinRead else
  if z =? 6 then BulletinWrite else if z =? 7 then PeerDiscovery else Camera.

Global Instance codec_permission : Codec Permission.
Proof. by_fields permission_code code_permission. Defined.

Global Instance codec_manifest : Codec MiniAppManifest.
Proof.
  by_fields (fun m => (mf_id m, (mf_name m, (mf_description m, (mf_version m, (mf_developer m, (mf_developer_peer_id m,
      (mf_entry m, (mf_icon_base64 m, (mf_permissions m, (mf_min_mycelium_version m, (mf_accepts_payments m,
      (mf_payment_address m, (mf_categories m, (mf_runtime m, (mf_bulletin_scopes m, mf_reproducible_build m))))))))))))))))
    (fun '(a, (b, (c, (d, (e, (f, (g, (h, (i, (j, (k, (l, (m, (n, (o, p)))))))))))))))
       => mkManifest a b c d e f g h i j k l m n o p).
Defined.

Global Instance codec_source : Codec AppSource.
Proof.
  by_fields (fun s => match s with SrcPeer p => inl p | SrcUrl u => inr u end)
    (fun s : string + string => match s with inl p => SrcPeer p | inr u => SrcUrl u end).
Defined.

Global Instance codec_listing : Codec AppStoreListing.
Proof.
  by_fields (fun l => (ls_manifest l, (ls_bundle_hash l, (ls_sources l, (ls_published_at_ms l, (ls_updated_at_ms l,
      ls_signature l))))))
    (fun '(a, (b, (c, (d, (e, f))))) => mkListing a b c d e f).
Defined.

Global Instance codec_sigfile : Codec BundleSignatureFile.
Proof. by_fields (fun s => (sf_bundle_hash s, sf_signature s)) (fun '(a, b) => mkSigFile a b). Defined.

Global Instance codec_revocation : Codec RevocationGossip.
Proof.
  by_fields (fun r => (rv_app_id r, (rv_reason r, (rv_revoked_at_ms r, (rv_curator_peer_id r, rv_signature r)))))
    (fun '(a, (b, (c, (d, e)))) => mkRevocation a b c d e).
Defined.

Global Instance codec_revsnap : Codec RevocationSnapshot.
Proof. by_fields (fun s => (rs_revoked_app_ids s, rs_updated_at_ms s)) (fun '(a, b) => mkRevSnap a b). Defined.

Global Instance codec_rep : Codec AppReputation.
Proof. by_fields (fun r => (rep_score r, rep_updated_at_ms r)) (fun '(a, b) => mkAppRep a b). Defined.

Global Instance codec_prefs : Codec AppPrefs.
Proof. by_fields pr_safe_mode mkPrefs. Defined.

Definition appid_code (i : AppId) : Z :=
  match i with
  | IdChat => 0 | IdBulletin => 1 | IdMail => 2 | IdCoin => 3 | IdAppStore => 4 | IdMiniAppRevocation => 5
  end.
Definition code_appid (z : Z) : AppId :=
  if z =? 0 then IdChat else if z =? 1 then IdBulletin else if z =? 2 then IdMail else if z =? 3 then IdCoin else
  if z =? 4 then IdAppStore else IdMiniAppRevocation.
Global Instance codec_appid : Codec AppId.
Proof. by_fields appid_code code_appid. Defined.

Abbreviation app_payload_sum :=
  ((ChatMessage + BulletinPost) + (MailMessage + list byte) + (AppStoreListing + RevocationGossip))%type.

Global Instance codec_app_payload : Codec AppPayload.
Proof.
  by_fields (fun p => match p with
                      | Chat m => inl (inl (inl m)) | Bulletin p => inl (inl (inr p)) | Mail m => inl (inr (inl m))
                      | Coin b => inl (inr (inr b)) | Listing l => inr (inl l) | Revocation r => inr (inr r)
                      end)
    (fun s : app_payload_sum =>
       match s with
       | inl (inl (inl m)) => Chat m | inl (inl (inr p)) => Bulletin p | inl (inr (inl m)) => Mail m
       | inl (inr (inr b)) => Coin b | inr (inl l) => Listing l | inr (inr r) => Revocation r
       end).
Defined.

Global Instance codec_app_message : Codec AppMessage.
Proof. by_fields (fun m => (am_app_id m, am_payload m)) (fun '(i, p) => mkAppMsg i p). Defined.

(** ** The codec classes *)

Global Instance app_codecs : AppCodecs := {|
  bin_chat := bincode_codec; bin_post := bincode_codec; bin_mail := bincode_codec;
  bin_contact := bincode_codec; bin_group := bincode_codec; json_scope_key := serde_codec;
|}.
Global Instance app_codecs_laws : AppCodecLaws app_codecs.
Proof. split; apply _. Qed.

Global Instance mesh_codecs : MeshCodecs := {|
  bin_app := bincode_codec; bin_signal := bincode_codec; bin_prox := bincode_codec; bin_intent := bincode_codec;
|}.
Global Instance mesh_codecs_laws : MeshCodecLaws mesh_codecs.
Proof. split; apply _. Qed.

Global Instance mini_codecs : MiniCodecs := {|
  serde_manifest := serde_codec; serde_sources := serde_codec; serde_listing := serde_codec;
  serde_sigfile := serde_codec; serde_revsnap := serde_codec; serde_rep := serde_codec; serde_prefs := serde_codec;
|}.
Global Instance mini_codecs_laws : MiniCodecLaws mini_codecs.
Proof. split; try apply _. intros l. by eexists. Qed.
