(* ===== verification/AppDemo.v ===== *)
(** * Concrete runs of the application layer

    Two application nodes, a mini-app store and a bridge over the stand-ins of
    [Instances.v], [Host.v] and [AppCodec.v], and one run of every theorem of
    the application layer that has hypotheses. *)

From S2P Require Import Prelude External Text Instances Host Transaction Policy Ledger LedgerTheorems CoinDemo CoinNode CoinNodeTheorems CoinNodeDemo Wire.
From S2P Require Import E2E AtRest AtRestTheorems AtRestDemo Bootstrap IngestGuard Storage Forwarding NodeData Node CoreDemo NodeDemo AppStorage AppStorageTheorems AppStorageProps.
From S2P Require Import Proximity MiniApp MiniAppStore MiniAppTheorems AppNodeData AppNode AppNodeInv AppNodeTheorems AppMesh Payment Bridge BridgeHost BridgeTheorems AppCodec.

Open Scope Z_scope.

(** ** Hosts *)

(** key agreement of [e2e_toy], cipher of [aead_toy] *)
Definition app_prims : E2EPrims := {|
  x25519_public := x25519_public (E2EPrims := e2e_toy);
  x25519_dh := x25519_dh (E2EPrims := e2e_toy);
  hkdf ikm info := Ok (pad32 ikm);
  chacha_encrypt := chacha_encrypt (E2EPrims := aead_toy);
  chacha_decrypt := chacha_decrypt (E2EPrims := aead_toy);
|}.
Global Existing Instance app_prims.

Global Instance app_prims_aead : AeadLaws app_prims.
Proof.
  split.
  - exact (aead_encrypt_total (AeadLaws := aead_toy_laws)).
  - exact (aead_decrypt_encrypt (AeadLaws := aead_toy_laws)).
  - exact (aead_tag (AeadLaws := aead_toy_laws)).
Qed.

Global Instance app_prims_e2e : E2ELaws app_prims.
Proof.
  split.
  - exact (x25519_public_length (E2ELaws := e2e_toy_laws)).
  - exact (x25519_dh_comm (E2ELaws := e2e_toy_laws)).
  - intros. by eexists.
  - exact (aead_decrypt_encrypt (AeadLaws := aead_toy_laws)).
Qed.

Global Instance app_host : AppHost := {|
  app_clock _ := 1700000000000;
  app_uuid n := fmt_020 (Z.of_nat n);
  app_random n := replicate 32 (byte_of_Z (Z.of_nat n));
  handle_send _ _ := Ok tt;
|}.

Global Instance coin_host : CoinHost := host1 true.

Lemma run_ok {S A} (p : S * anyhow A) a : p.2 = Ok a -> p = (p.1, Ok a).
Proof. by destruct p; cbn; intros ->. Qed.

(** ** The database *)

Definition chat1 : ChatMessage := mkChat "id-1" "Alice" "hello" 1000 None.

Definition nonce1 : list byte := replicate 12 x00.
Definition store_calls : list StoreOp :=
  [OSaveChat "12D3KooBob" chat1; OUpsertContact "12D3KooBob" "Bob" AppStorage.Pending 7; OMarkRead "m1";
   OKvSet "app:chess:board" "e4" nonce1; OKvSet "app:chess:old" "d4" nonce1; OKvSet "app:notes:x" "y" nonce1;
   OKvDelete "app:chess:old"; OKvClear "notes"].
Definition stored (key : option (list byte)) : AppStorage := run_ops store_calls (mkApp Host.db_new key).
Definition at_rest1 : option (list byte) := Some (replicate 32 x07).

Lemma storage_rows_typed_witness :
  row_good (stored at_rest1) (chat_tree "12D3KooBob") (ts_key 1000) (enc chat1)
  /\ (miniapp_get "app:chess:board" (stored at_rest1)).2 = Ok (Some "e4"%string)
  /\ (miniapp_get "app:chess:old" (stored at_rest1)).2 = Ok None
  /\ (miniapp_get "app:notes:x" (stored at_rest1)).2 = Ok None
  /\ (is_read "m1" (stored at_rest1)).2 = Ok true.
Proof.
  destruct (storage_rows_typed ltac:(intros; by eexists) store_calls at_rest1) as (Hr & Hg & Hm).
  - repeat constructor; by vm_compute.
  - repeat constructor; by vm_compute.
  - split_and!; [apply Hr; by vm_compute|..].
    + unfold stored. by rewrite Hg.
    + unfold stored. by rewrite Hg.
    + unfold stored. by rewrite Hg.
    + unfold stored. by rewrite Hm.
Defined.

(** ** Two nodes *)

Definition alice_id : string := "12D3KooAlice".
Definition bob_id : string := "12D3KooBob".
Definition bob_secret : list byte := as_bytes "bob".
Definition bob_keys : EncryptionKeypair := enc_from_secret bob_secret.
Definition cfgA : AppConf := mkAppConf alice_id (enc_from_secret (as_bytes "alice")) NodeDemo.cold_cfg.
Definition cfgB : AppConf := mkAppConf bob_id bob_keys NodeDemo.cold_cfg.
Definition empty_storage : AppStorage := mkApp Host.db_new None.
Definition alice0 : AppNode :=
  app_node_new {[bob_id := enc_public bob_keys]} [bob_id] "Alice" empty_storage (Some NodeDemo.s0) (Some Host.db_new).
Definition bob0 : AppNode := app_node_new ∅ [] "Bob" empty_storage None (Some Host.db_new).

Lemma empty_good : db_good empty_storage.
Proof. intros n k b H. cbn in H. by rewrite lookup_empty in H. Qed.

Lemma direct_chat_never_plaintext_witness :
  exists s' new, send_chat cfgA (Some bob_id) "hi" alice0 = (s', Ok SentEncrypted)
    /\ an_commands s' = an_commands alice0 ++ new /\ Forall (encrypted_to bob_id) new /\ length new = 1%nat
    /\ contact_accepted "12D3KooCarol" alice0 (send_chat cfgA (Some "12D3KooCarol") "hi" alice0).1.
Proof.
  assert (send_chat cfgA (Some bob_id) "hi" alice0 = ((send_chat cfgA (Some bob_id) "hi" alice0).1, Ok SentEncrypted)) as E
    by (apply run_ok; by vm_compute).
  destruct (proj1 (direct_chat_never_plaintext cfgA bob_id "hi" alice0 _ _ empty_good E)) as (new & H1 & H2 & H3).
  exists (send_chat cfgA (Some bob_id) "hi" alice0).1, new. split_and!; [exact E|done|done|by apply (H3 _ eq_refl)|].
  apply (proj2 (direct_chat_never_plaintext cfgA "12D3KooCarol" "hi" alice0 _ _ empty_good (surjective_pairing _)) eq_refl).
Defined.

(** Alice's chat reaches Bob, who does not know her yet *)
Definition confB : NodeConf := mkConf (Some node_kp) bob_id 1024 bob_keys None 3.

(** Alice's mesh node signs with [alice_kp] *)
Definition alice_kp : list byte := as_bytes "alice-kp".
Definition alice_peer : string := peer_string (pk_peer_id (kp_public alice_kp)).
Definition confA : NodeConf := mkConf (Some alice_kp) alice_peer 1024 (enc_from_secret (as_bytes "alice")) None 3.
Definition cfgA' : AppConf := mkAppConf alice_peer (enc_from_secret (as_bytes "alice")) NodeDemo.cold_cfg.

Lemma chat_end_to_end_witness :
  exists w nB' sB' m chat, (forall nA n r, net_send_direct bob_id w (net nA) = (n, r) ->
      exists f, handle_command confA (SendWire bob_id (EncryptedDirect f)) nA = (set_net n nA, r))
    /\ node_step confB (InEvent (DirectReceived alice_peer w)) node0 = (nB', Ok tt)
    /\ incoming nB' = incoming node0 ++ [m] /\ ch_body chat = "hi"%string
    /\ dispatch_incoming cfgB m bob0 = (sB', Ok tt) /\ chat_outcome alice_peer chat bob0 sB'.
Proof.
  assert (send_chat cfgA' (Some bob_id) "hi" alice0 = ((send_chat cfgA' (Some bob_id) "hi" alice0).1, Ok SentEncrypted)) as E
    by (apply run_ok; by vm_compute).
  destruct (chat_end_to_end cfgA' cfgB confA confB alice_kp bob_id "hi" alice0 _ bob_secret E) as (f & w & chat & _ & Hb & _ & HA & H);
    [by vm_compute|done|done|done|done|by vm_compute|by vm_compute|by vm_compute|by vm_compute|].
  destruct (H node0 bob0) as (nB' & sB' & m & H1 & H2 & H3 & H4).
  - by vm_compute.
  - exact empty_good.
  - exists w, nB', sB', m, chat. split_and!; [|exact H1|exact H2|exact Hb|exact H3|exact H4].
    intros nA n r Hn. exists f. exact (HA nA n r Hn).
Defined.

Definition chat_frame : DirectMessage :=
  mkDM (mkEnvelope "id" alice_id (Some bob_id) (enc (mkAppMsg IdChat (Chat chat1))) 1000 60 Normal None 1 0 8 None) "[encrypted]".

Lemma chat_waits_for_acceptance_witness :
  exists s', dispatch_incoming cfgB chat_frame bob0 = (s', Ok tt) /\ chat_outcome alice_id chat1 bob0 s'.
Proof.
  apply (chat_waits_for_acceptance cfgB chat_frame chat1 IdChat bob0).
  - by vm_compute.
  - done.
  - exact empty_good.
  - by vm_compute.
Defined.

(** ** The invariant of a node, with codecs that refuse ill-typed values *)

Definition bin_typed {A} (B : Bincode A) (Q : A -> Prop) `{!forall a, Decision (Q a)} : Bincode A := {|
  ser := ser (Bincode := B);
  de b := match de (Bincode := B) b with
          | Ok a => if decide (Q a) then Ok a else Err "type"%string
          | Err e => Err e
          end;
|}.

Lemma bin_typed_spec {A} (B : Bincode A) (Q : A -> Prop) `{!forall a, Decision (Q a)} b a :
  de (Bincode := bin_typed B Q) b = Ok a -> Q a.
Proof. cbn. destruct (de b); [|done]. case_decide; [|done]. by intros [= <-]. Qed.

Global Instance app_typed_dec m : Decision (app_typed m).
Proof. unfold app_typed. destruct (am_payload m); apply _. Defined.
Global Instance payload_wf_dec p : Decision (payload_wf p).
Proof. unfold payload_wf, tx_wf. destruct p; apply _. Defined.

Definition typed_mesh : MeshCodecs := {|
  bin_app := bin_typed bincode_codec app_typed; bin_signal := bincode_codec; bin_prox := bincode_codec; bin_intent := bincode_codec;
|}.

Lemma host_typed : HostTyped (MC := typed_mesh) (BP := bin_typed bincode_codec payload_wf).
Proof.
  split.
  - intros k. by vm_compute.
  - exact (host_clock_ok true).
  - intros b m. apply bin_typed_spec.
  - intros b p. apply bin_typed_spec.
Qed.

Lemma app_node_invariant_witness :
  app_ok 10000000
    (run_calls (MC := typed_mesh) (BP := bin_typed bincode_codec payload_wf) cfgB
       [CDispatch chat_frame; CAcceptContact alice_id; CSendChat (Some alice_id) "hi"; CPost "town" "Fair" "Today" 60; CNearby]
       (app_node_new ∅ [] "Bob" (mkApp Host.db_new None) (Some NodeDemo.s0) (Some Host.db_new))).
Proof.
  apply (app_node_invariant (MC := typed_mesh) (BP := bin_typed bincode_codec payload_wf) cfgB 10000000
    [CDispatch chat_frame; CAcceptContact alice_id; CSendChat (Some alice_id) "hi"; CPost "town" "Fair" "Today" 60; CNearby]
    ∅ [] "Bob" None NodeDemo.s0).
  - exact host_typed.
  - exact reach_s0.
  - repeat constructor.
Defined.

(** ** An encrypted scope *)

Definition town_key : ScopeKey := scope_key_new "town" "Town" (replicate 32 x05) 7.
Definition keyed_storage : AppStorage :=
  mkApp ({["scope_keys"%string := ({["town"%string := enc town_key]} : gmap string (list byte))]} : gmap string Tree) None.
Definition alice1 : AppNode := app_node_new ∅ [] "Alice" keyed_storage None None.
Definition bob1 : AppNode := app_node_new ∅ [] "Bob" keyed_storage None None.

Lemma keyed : scope_key_is "town" (Some town_key) keyed_storage.
Proof. unfold scope_key_is. apply run_ok. by vm_compute. Qed.

Lemma encrypted_scope_post_roundtrip_witness :
  exists pre post enc sB', an_commands (post_bulletin "town" "Fair" "Today" 60 alice1).1
      = [] ++ pre ++ [BroadcastPayload "town" "[bulletin:town]" (ENC_PREFIX ++ enc)]
    /\ (pre = [] \/ pre = [SubscribeBulletinScope "town"]) /\ bp_body post = "Today"%string
    /\ dispatch_incoming cfgB (mkDM (mkEnvelope "id" alice_id None (ENC_PREFIX ++ enc) 1000 60 Normal None 1 0 8 None) "[bulletin:town]")
         bob1 = (sB', Ok tt)
    /\ shown post bob1 sB'.
Proof.
  assert (post_bulletin "town" "Fair" "Today" 60 alice1
          = ((post_bulletin "town" "Fair" "Today" 60 alice1).1, Ok tt)) as E by (apply run_ok; by vm_compute).
  destruct (encrypted_scope_post_roundtrip "town" "Fair" "Today" 60 alice1 _ town_key E keyed)
    as (pre & post & plain & nonce & enc & Hpre & _ & _ & Hb & _ & _ & Hc & H).
  destruct (proj1 (H cfgB (mkEnvelope "id" alice_id None (ENC_PREFIX ++ enc) 1000 60 Normal None 1 0 8 None) bob1 town_key eq_refl) keyed eq_refl)
    as (sB' & Hd & Hs).
  exists pre, post, enc, sB'. split_and!; [exact Hc|exact Hpre|exact Hb|exact Hd|exact Hs].
Defined.

(** ** The mini-app store *)

Global Instance zip_codec : Zip := fun b =>
  match dec (A := list (string * list byte)) b with
  | Some (l, []) => Ok ((fun e => Ok (mkZip e.1 false (Ok e.2))) <$> l)
  | _ => Err "zip"%string
  end.
Global Instance lowercase_ascii : Lowercase := fun s => of_bytes (ascii_lower <$> as_bytes s).
Global Instance lowercase_ascii_laws : LowercaseLaws lowercase_ascii.
Proof. by intros s _. Qed.

Definition dev_kp : list byte := as_bytes "developer".
Definition chess : MiniAppManifest :=
  mkManifest "org.chess" "Chess" "Play" "1.0.0" "Dev" (Some (peer_string (pk_peer_id (kp_public dev_kp)))) "index.html" None
    [MiniApp.Storage; Identity] "0.1.0" false None [] "webview" [] None.
Definition chess_bundle : list byte :=
  enc [("mycelium-app.json"%string, enc chess); ("index.html"%string, as_bytes "<html><p>chess</p></html>")].
Definition the_listing (r : anyhow AppStoreListing) : AppStoreListing :=
  match r with Ok l => l | Err _ => mkListing chess "" [] 0 0 [] end.
Definition chess_listing : AppStoreListing := the_listing (listing_new_signed chess chess_bundle [] dev_kp 900).
Definition store1 : Host.Db := (cache_listing chess_listing Host.db_new).1.
Definition install1 := install_verified chess_bundle VerifiedListing false 1000 store1.

Lemma install_verified_sound_witness :
  get_manifest "org.chess" install1.1 = (install1.1, Ok (Some chess))
  /\ exists l, find_listing "org.chess" store1 = (store1, Ok (Some l)) /\ listing_verify_signature l = Ok true.
Proof.
  assert (install1 = (install1.1, Ok chess)) as E by (apply run_ok; by vm_compute).
  destruct (install_verified_sound chess_bundle VerifiedListing false 1000 store1 _ chess E)
    as (b & listing & _ & _ & _ & _ & Hf & Hb & _ & Hg & _).
  split; [exact Hg|]. destruct listing as [l|]; [|destruct Hb]. exists l. split; [exact Hf|]. exact (proj2 Hb).
Defined.

Definition store2 : Host.Db := (revoke_app "org.chess" 2000 store1).1.
Definition store3 : Host.Db := (uninstall "org.chess" store2).1.

Lemma revocation_is_final_witness :
  exists e, install_verified chess_bundle VerifiedListing false 3000 store3 = (store3, Err e).
Proof.
  assert (revoked "org.chess" store2) as Hr.
  { unfold revoked. rewrite (run_ok (is_app_revoked "org.chess" store2) true) by by vm_compute. done. }
  destruct (revocation_is_final "org.chess" store2 store3 Hr (rtc_once _ _ (step_uninstall _ _))) as [_ H].
  assert (exists b, load_from_bytes chess_bundle = Ok b /\ mf_id (bu_manifest b) = "org.chess"%string) as (b & Hb & Hi).
  { eexists. split; [vm_compute; reflexivity|done]. }
  exact (H chess_bundle b VerifiedListing false 3000 Hb Hi).
Defined.

(** an app whose reputation fell after two reports *)
Definition store4 : Host.Db := (record_user_report "org.chess" 10 (record_user_report "org.chess" 9 install1.1).1).1.
Definition policy4 : MiniAppPolicy := mkMiniPolicy "org.chess" 10 true true false false false true.

Lemma policy_agrees_with_enforcement_witness :
  effective_safe_mode "org.chess" store4 = (store4, Ok true) /\ is_app_revoked "org.chess" store4 = (store4, Ok false).
Proof.
  assert (policy_load_with_store "org.chess" true store4 = ((policy_load_with_store "org.chess" true store4).1, Ok policy4)) as E
    by (apply run_ok; by vm_compute).
  destruct (policy_agrees_with_enforcement "org.chess" true store4 _ policy4 E) as (_ & H1 & H2 & _). by split.
Defined.

(** ** The bridge *)

Definition nibble (n : Z) : byte := byte_of_Z (if n <? 10 then 48 + n else 87 + n).
Definition unnibble (b : byte) : option Z :=
  let z := Z_of_byte b in
  if byte_in 48 57 b then Some (z - 48) else if byte_in 97 102 b then Some (z - 87) else None.
Definition hex_pair (b : byte) : list byte := [nibble (Z_of_byte b / 16); nibble (Z_of_byte b mod 16)].
Fixpoint unhex (l : list byte) : option (list byte) :=
  match l with
  | [] => Some []
  | a :: b :: r => x ← unnibble a; y ← unnibble b; rest ← unhex r; Some (byte_of_Z (16 * x + y) :: rest)
  | _ => None
  end.

Lemma unhex_hex l : unhex (l ≫= hex_pair) = Some l.
Proof.
  induction l as [|b l IH]; [done|]. change ((b :: l) ≫= hex_pair) with (hex_pair b ++ (l ≫= hex_pair)).
  cbn [hex_pair app unhex]. rewrite IH. by destruct b; vm_compute.
Qed.

Lemma hex_alphabet l : Forall (fun c => unnibble c ≠ None) (l ≫= hex_pair).
Proof.
  induction l as [|b l IH]; [constructor|]. change ((b :: l) ≫= hex_pair) with (hex_pair b ++ (l ≫= hex_pair)).
  apply Forall_app. split; [|done]. repeat constructor; by destruct b; vm_compute.
Qed.

Lemma hex_text_ok l :
  Forall (fun c => unnibble c ≠ None) l -> has_char pipe (of_bytes l) = false /\ utf8_valid l = true.
Proof.
  induction 1 as [|c l Hc _ [IH1 IH2]]; [done|]. split.
  - change (has_char pipe (of_bytes (c :: l))) with (bool_decide (Ascii.ascii_of_byte c = pipe) || has_char pipe (of_bytes l)).
    rewrite IH1, orb_false_r. by destruct c; try (by destruct Hc); vm_compute.
  - cbn [utf8_valid]. rewrite IH2. by destruct c; try (by destruct Hc); vm_compute.
Qed.

(** [crypto_tag] with hexadecimal text *)
Definition crypto_hex : Crypto := {|
  PublicKey := list byte; Keypair := list byte; PeerId := list byte;
  kp_public := kp_public (Crypto := crypto_tag); kp_sign := kp_sign (Crypto := crypto_tag);
  pk_verify := pk_verify (Crypto := crypto_tag); pk_encode := pk_encode (Crypto := crypto_tag);
  pk_decode := pk_decode (Crypto := crypto_tag); pk_peer_id := pk_peer_id (Crypto := crypto_tag);
  peer_code := peer_code (Crypto := crypto_tag); peer_digest := peer_digest (Crypto := crypto_tag);
  peer_parse := peer_parse (Crypto := crypto_tag); peer_string := peer_string (Crypto := crypto_tag);
  blake3 := poly_hash;
  hex_encode l := of_bytes (l ≫= hex_pair);
  hex_decode s := unhex (as_bytes s);
  bs58_encode := of_bytes;
  bs58_decode s := Some (as_bytes s);
|}.

Lemma crypto_hex_laws : CryptoLaws crypto_hex.
Proof.
  pose proof crypto_tag_laws as [H1 H2 H3 H4 H5 H6 H7 H8 H9]. split; try done.
  intros b. change (unhex (as_bytes (of_bytes (b ≫= hex_pair))) = Some b). by rewrite as_of_bytes, unhex_hex.
Qed.

Global Instance cap_prims : CapPrims := {|
  hmac_sha256 k m := poly_hash (k ++ m);
  b64url_encode := of_bytes;
  b64url_decode s := Some (as_bytes s);
  blake3_derive_key ctx b := pad32 b;
|}.

Lemma cap_laws : CapLaws (C := crypto_hex) cap_prims.
Proof.
  split.
  - intros b. change (Some (as_bytes (of_bytes b)) = Some b). by rewrite as_of_bytes.
  - intros b. apply (hex_text_ok _ (hex_alphabet b)).
  - intros b. change (utf8_valid (as_bytes (of_bytes (b ≫= hex_pair))) = true). rewrite as_of_bytes. apply (hex_text_ok _ (hex_alphabet b)).
Qed.

Definition mac_key : list byte := mac_key_from_db_path "/d".

Lemma capability_exact_witness :
  validate_capability (C := crypto_hex) mac_key "org.chess" Identity "sess"
    (issue_capability (C := crypto_hex) mac_key "org.chess" Identity "sess" DEFAULT_CAP_TTL_MS 1000) 2000 = Ok tt
  /\ validate_capability (C := crypto_hex) mac_key "org|chess" Identity "sess"
    (issue_capability (C := crypto_hex) mac_key "org|chess" Identity "sess" DEFAULT_CAP_TTL_MS 1000) 2000 ≠ Ok tt.
Proof.
  split.
  - apply (capability_exact (C := crypto_hex) (CL := crypto_hex_laws) (KL := cap_laws) mac_key "org.chess" Identity "sess"
             DEFAULT_CAP_TTL_MS 1000 2000); by vm_compute.
  - assert (utf8_valid (as_bytes "org|chess") = true) as U1 by (by vm_compute).
    assert (utf8_valid (as_bytes "sess") = true) as U2 by (by vm_compute).
    assert (in_u 64 1000) as N1 by (by vm_compute). assert (in_u 64 DEFAULT_CAP_TTL_MS) as N2 by (by vm_compute).
    pose proof (capability_exact (C := crypto_hex) (CL := crypto_hex_laws) (KL := cap_laws)
      mac_key "org|chess" Identity "sess" DEFAULT_CAP_TTL_MS 1000 2000 N1 N2 U1 U2) as H. cbv zeta in H. destruct H as [H _].
    intros Hv. specialize (H "org|chess"%string Identity "sess"%string). apply H in Hv. destruct Hv as (_ & _ & _ & _ & Hv & _).
    vm_compute in Hv. discriminate Hv.
Defined.

(** a coin host for these keys *)
Definition coin_host_hex : CoinHost (C := crypto_hex) :=
  Build_CoinHost crypto_hex _ (CoinNodeDemo.env1 true) db_gmap
    (Build_VaultHost crypto_hex _ _ (fun i n => replicate n (byte_of_Z (Z.of_nat i))) (fun ctx b => pad32 (as_bytes ctx))
       (fun _ => Demo.alice) (fun b => Ok b) (fun kp => Some kp) (fun _ => Ok tt) (fun _ => Ok tt))
    disk_gmap keyring_gmap aead_toy.

Definition chess_bridge : BridgeConf :=
  mkBridge "org.chess" [MiniApp.Storage; Identity] alice_id "aa" false mac_key.
Definition now0 : Z := 1700000000000.
Definition bridge0 : BridgeState (CH := coin_host_hex) :=
  mkBridgeState (CH := coin_host_hex) (app_node_new ∅ [] "Alice" empty_storage None (Some install1.1))
    {["org.chess"%string := mkSession "sess" now0]} ∅ ∅.
Definition cap0 : string := issue_capability (C := crypto_hex) mac_key "org.chess" Identity "sess" DEFAULT_CAP_TTL_MS now0.
Definition call_args : JValue := (JObj [("_session", JStr "sess"); ("_cap", JStr cap0); ("key", JStr "score"); ("value", JStr "42")])%string.

Lemma bridge_calls_authorised_witness :
  authorised (C := crypto_hex) (CH := coin_host_hex) chess_bridge "identity.get" call_args bridge0.
Proof.
  destruct (bridge_calls_authorised (C := crypto_hex) (CH := coin_host_hex) (U := url_pct) cfgA chess_bridge "identity.get" call_args bridge0 _ _ (surjective_pairing _))
    as [H|[[e He] _]]; [exact H|].
  exfalso. revert He. vm_compute. discriminate.
Defined.

Lemma bridge_confined_witness :
  confined (CH := coin_host_hex) chess_bridge (br_node bridge0)
    (br_node (handle (C := crypto_hex) (CH := coin_host_hex) (U := url_pct) cfgA chess_bridge "storage.set" call_args bridge0).1).
Proof.
  exact (bridge_confined (C := crypto_hex) (CH := coin_host_hex) (U := url_pct) cfgA chess_bridge "storage.set" call_args bridge0 _ _ (surjective_pairing _)).
Defined.

Abbreviation set_run := (storage_set (CH := coin_host_hex) chess_bridge call_args bridge0).
Lemma storage_quota_enforced_witness :
  used_bytes chess_bridge (an_storage (br_node set_run.1)) <= MAX_TOTAL_BYTES_PER_APP.
Proof.
  assert (set_run = (set_run.1, Ok jok)) as E by (apply run_ok; by vm_compute).
  apply (storage_quota_enforced (CH := coin_host_hex) chess_bridge call_args bridge0 _ jok "42" E).
  - done.
  - by vm_compute.
  - intros k b H. cbn in H. by rewrite lookup_empty in H.
Defined.

Lemma bridge_rate_bounded_witness :
  let_through 60000 120 "org.chess" (replicate 300 now0) ∅ <= 240.
Proof.
  refine (proj1 (bridge_rate_bounded "org.chess" now0 (replicate 300 now0) (replicate 30 now0) ∅ ∅ _ _ _ _)).
  - intros st c H. by rewrite lookup_empty in H.
  - intros st c H. by rewrite lookup_empty in H.
  - apply Forall_replicate. lia.
  - apply Forall_replicate. lia.
Defined.
