(* ===== verification/TestsApp.v ===== *)
(** * Unit tests of the application crate

    The tests of [mycelium-app/src], those of the mini-app modules last.  The clock stands
    at the time of the demonstration host; a dispatched message is one the node
    task received. *)

From S2P Require Import Prelude External Text Instances Host CoinDemo CoinNode CoinNodeDemo Wire E2E AtRest AtRestDemo NodeData NodeDemo AppStorage Proximity MiniApp MiniAppStore.
From S2P Require Import AppNodeData AppNode Payment Bridge AppCodec AppDemo Tests.

Open Scope Z_scope.

Module AppTests.
Definition now : Z := 1700000000000.
Definition storage0 : AppStorage := mkApp Host.db_new None.

(** ** [lib.rs] *)

Definition app_message_roundtrip : bool := check (
  let app := mkAppMsg IdChat (Chat (mkChat "id-1" "alice" "hello" 1 None)) in
  encoded ← st_lift (ser app);
  decoded ← st_lift (de (A := AppMessage) encoded);
  match am_payload decoded with
  | Chat c => assert (bool_decide (ch_body c = "hello"%string))
  | _ => st_err "expected chat payload"
  end).

Definition bulletin_expiry_pruning : bool := passes (
  let mk id expires title := mkPost id "alice" title "body" "scope/a" now expires in
  _ ← save_bulletin (mk "1" (now - 1000) "e1")%string;
  _ ← save_bulletin (mk "2" (now - 500) "e2")%string;
  _ ← save_bulletin (mk "3" (now + 10000) "live")%string;
  removed ← prune_expired_bulletins now;
  _ ← assert (bool_decide (removed = 2));
  left ← bulletins_for_scope "scope/a" now;
  assert (match left with [p] => bool_decide (bp_title p = "live"%string) | _ => false end)) storage0.

Definition mail_inbox_sorted_by_timestamp : bool := passes (
  let mk id ts body := mkMail id "p1" "alice" "p2" "sub" body ts [] in
  _ ← save_mail_inbox (mk "1" 100 "older")%string;
  _ ← save_mail_inbox (mk "2" 300 "newest")%string;
  _ ← save_mail_inbox (mk "3" 200 "middle")%string;
  l ← inbox 10;
  assert (bool_decide (ml_body <$> l = ["newest"; "middle"; "older"]%string))) storage0.

Definition group_record_peer_seen_persists : bool := passes (
  let g := group_new "Team" (replicate 32 x01) now in
  _ ← save_group g;
  _ ← group_record_peer_seen (gr_id g) "12D3KooWpeer";
  loaded ← group_by_id (gr_id g);
  assert (match loaded with Some g => bool_decide ("12D3KooWpeer"%string ∈ gr_members g) | None => false end)) storage0.

(** ** [contacts_tests.rs], [storage.rs], [groups.rs] and [scope_key.rs] *)

Definition contact_crud_and_filter_by_status : bool := passes (
  c ← upsert_contact "peer-a" "Alice" AppStorage.Pending now;
  _ ← assert (bool_decide (ct_peer_id c = "peer-a"%string));
  _ ← assert (bool_decide (ct_status c = AppStorage.Pending));
  c ← upsert_contact "peer-a" "Alice" AppStorage.Accepted now;
  _ ← assert (bool_decide (ct_status c = AppStorage.Accepted));
  pending ← contacts_with_status AppStorage.Pending;
  _ ← assert (bool_decide (length pending = 0%nat));
  all ← all_contacts;
  _ ← assert (bool_decide (length all = 1%nat));
  _ ← delete_contact "peer-a";
  c ← contact_by_id "peer-a";
  assert (match c with None => true | Some _ => false end)) storage0.

Definition miniapp_storage_encryption_roundtrip : bool := passes (
  _ ← miniapp_set "app:com.enc.app:secret" "payload" (replicate 12 x01);
  v ← miniapp_get "app:com.enc.app:secret";
  assert (bool_decide (v = Some "payload"%string))) (mkApp Host.db_new (Some (replicate 32 x07))).

Definition miniapp_storage_isolation : bool := passes (
  _ ← miniapp_set "app:com.app.a:key1" "value_a" [];
  _ ← miniapp_set "app:com.app.b:key1" "value_b" [];
  a_keys ← miniapp_list "app:com.app.a:";
  _ ← assert (match a_keys with [k] => str_contains "com.app.a" k | _ => false end);
  _ ← miniapp_clear_all_for_app "com.app.a";
  b_val ← miniapp_get "app:com.app.b:key1";
  assert (bool_decide (b_val = Some "value_b"%string))) storage0.

Definition group_invite_roundtrip : bool := check (
  let group := group_new (C := crypto_hex) "Test Group" (replicate 32 x01) now in
  let invite := group_export_invite (C := crypto_hex) group in
  restored ← st_lift (group_from_invite (C := crypto_hex) invite now);
  _ ← assert (bool_decide (gr_key restored = gr_key group));
  assert (bool_decide (gr_name restored = "Test Group"%string))).

Definition group_record_peer_seen_dedupes : bool := check (
  let g := group_new "G" (replicate 32 x01) now in
  let g := record_peer_seen "peer-a" (record_peer_seen "peer-b" (record_peer_seen "peer-a" g)) in
  assert (bool_decide (gr_members g = ["peer-a"; "peer-b"]%string))).

Definition scope_key_roundtrip : bool := check (
  let sk := scope_key_new "mycelium/rescue/alpha" "Team Alpha" (replicate 32 x01) now in
  let invite := scope_export_invite (C := crypto_hex) sk in
  restored ← st_lift (scope_from_invite (C := crypto_hex) invite now);
  _ ← assert (bool_decide (sk_key sk = sk_key restored));
  assert (bool_decide (sk_scope sk = sk_scope restored))).

Definition scope_key_encryption_roundtrip : bool := check (
  let sk := scope_key_new "test/scope" "Test" (replicate 32 x01) now in
  let plaintext := as_bytes "hello encrypted bulletin" in
  encrypted ← st_lift (encrypt_group (replicate 12 x01) plaintext (sk_key sk));
  decrypted ← st_lift (decrypt_group encrypted (sk_key sk));
  assert (bool_decide (decrypted = plaintext))).

Definition water (sk : ScopeKey) : AppMessage :=
  mkAppMsg IdBulletin (Bulletin (mkPost "id-1" "alice" "help" "need water" (sk_scope sk) now (now + 3600000))).

Definition enc1_bulletin_payload_roundtrip : bool := check (
  let sk := scope_key_new "mycelium/rescue/alpha" "Team" (replicate 32 x01) now in
  plaintext ← st_lift (ser (water sk));
  encrypted ← st_lift (encrypt_group (replicate 12 x01) plaintext (sk_key sk));
  let payload := as_bytes "enc1:" ++ encrypted in
  _ ← assert (bool_decide (take 5 payload = as_bytes "enc1:"));
  let cipher := drop 5 payload in
  plain ← st_lift (decrypt_group cipher (sk_key sk));
  decoded ← st_lift (de (A := AppMessage) plain);
  match am_payload decoded with
  | Bulletin p => assert (bool_decide (bp_body p = "need water"%string))
  | _ => st_err "expected bulletin"
  end).

(** ** [proximity/tests.rs] *)

Definition presence_signal_expires : bool := check (
  let s := signal_new "abc" profile_default 1 now "id" in
  let s := mkSignal (ps_ephemeral_id s) (ps_enc_pubkey_hex s) (ps_profile s) (now -sat 2000) (ps_ttl_secs s) in
  assert (signal_is_expired now s)).

Definition presence_ephemeral_id_changes : bool := check (
  let s1 := signal_new "key" profile_default 300 now (app_uuid 0) in
  let s2 := signal_new "key" profile_default 300 now (app_uuid 1) in
  assert (bool_decide (ps_ephemeral_id s1 ≠ ps_ephemeral_id s2))).

Definition proximity_store_prunes_expired : bool := check (
  let s := signal_new "k" profile_default 0 now "id" in
  let s := mkSignal (ps_ephemeral_id s) (ps_enc_pubkey_hex s) (ps_profile s) 0 (ps_ttl_secs s) in
  let '(store, n) := prox_prune now (prox_insert s prox_store_new) in
  _ ← assert (bool_decide (n = 1%nat));
  assert (bool_decide (prox_count now store = 0%nat))).

Definition matcher_scores_common_interests : bool := check (
  let matcher := mkMatcher None ["Music"; "Hiking"]%string in
  let profile := mkProfile None None None None None ["Music"; "Art"]%string None in
  let score := score matcher (signal_new "k" profile 300 now "id") in
  _ ← assert (bool_decide (ms_common_interests score = ["Music"%string]));
  assert (bool_decide (10 <= ms_score score))).

Definition mutual_match_requires_both_directions : bool := check (
  let state := record_outgoing "peer-a" matches_default in
  _ ← assert (negb (is_mutual state "peer-a"));
  let state := record_incoming "peer-a" state in
  assert (is_mutual state "peer-a")).

Definition match_intent_expires : bool := check (
  let intent := intent_new "abc" now in
  let intent := mkIntent (pi_from_enc_pubkey_hex intent) 0 1 in
  assert (intent_is_expired now intent)).

(** ** [node.rs] *)

Definition test_node (apps : option Host.Db) : AppNode := app_node_new ∅ [] "test" storage0 None apps.
Definition conf : AppConf := mkAppConf bob_id bob_keys NodeDemo.cold_cfg.
Definition incoming_dm (from : string) (payload : list byte) (body : string) : DirectMessage :=
  mkDM (envelope_new from None payload now) body.

Definition sample_manifest (peer : option string) : MiniAppManifest :=
  mkManifest "com.test.app" "Test" "d" "0.1.0" "T" peer "index.html" None [] "0.1.0" false None [] "webview" [] None.

Definition appstore_listing_cached_after_dispatch : bool := passes (
  let peer_id := peer_string (pk_peer_id (kp_public dev_kp)) in
  let manifest := sample_manifest (Some peer_id) in
  listing ← st_lift (listing_new_signed manifest (as_bytes "bundle-bytes") [SrcPeer peer_id] dev_kp now);
  payload ← st_lift (ser (mkAppMsg IdAppStore (Listing listing)));
  _ ← dispatch_incoming conf (incoming_dm "remote-peer" payload "[appstore]");
  s ← st_get;
  rows ← st_lift (match an_app_store s with Some d => (browse_listings d).2 | None => Err "no store"%string end);
  assert (existsb (fun r => bool_decide (mf_id (ls_manifest r) = "com.test.app"%string)
                            && bool_decide (mf_version (ls_manifest r) = "0.1.0"%string)) rows)) (test_node (Some Host.db_new)).

Definition sd081_enc_key_error_is_actionable : bool := check (
  assert (str_contains "enc_key_not_yet_exchanged" enc_key_not_yet_exchanged)).

Definition encrypted_bulletin_direct_relay_stored_decrypted : bool := passes (
  let sk := scope_key_new "mycelium/rescue/test" "Team Alpha" (replicate 32 x01) now in
  _ ← on_storage (save_scope_key sk);
  plaintext ← st_lift (ser (water sk));
  encrypted ← st_lift (encrypt_group (replicate 12 x01) plaintext (sk_key sk));
  let payload := as_bytes "enc1:" ++ encrypted in
  _ ← dispatch_incoming conf (incoming_dm "remote-peer" payload ("[bulletin:" +:+ sk_scope sk +:+ "]"));
  posts ← on_storage (bulletins_for_scope (sk_scope sk) now);
  assert (match posts with [p] => bool_decide (bp_body p = "need water"%string) && bool_decide (bp_title p = "help"%string) | _ => false end))
  (test_node None).

Definition named (n : string) : PresenceProfile := mkProfile (Some n) None None None None [] None.

Definition proximity_presence_visible_when_listening : bool := passes (
  _ ← start_proximity conf (named "me") 300;
  let peer_enc := enc_from_secret (as_bytes "peer") in
  let signal := signal_new (public_hex peer_enc) (named "bob") 300 now "id" in
  payload ← st_lift (ser signal);
  _ ← dispatch_incoming conf (incoming_dm "remote" payload "[proximity]");
  nearby ← nearby_profiles;
  assert (match nearby with [e] => bool_decide (pf_display_name (ps_profile (ne_signal e)) = Some "bob"%string) | _ => false end))
  (test_node None).

Definition proximity_mutual_match_after_bidirectional_interest : bool := passes (
  _ ← start_proximity conf profile_default 300;
  let peer_hex := public_hex (enc_from_secret (as_bytes "peer")) in
  p1 ← st_lift (ser (signal_new peer_hex profile_default 300 now "id"));
  _ ← dispatch_incoming conf (incoming_dm "remote" p1 "[proximity]");
  p2 ← st_lift (ser (intent_new peer_hex now));
  _ ← dispatch_incoming conf (incoming_dm "remote" p2 "[proximity]");
  is_mutual ← express_proximity_interest conf peer_hex;
  _ ← assert is_mutual;
  nearby ← nearby_profiles;
  assert (existsb ne_is_mutual nearby)) (test_node None).
End AppTests.

(** The tests of the crate pass on the model. *)
Theorem app_tests_pass :
  [AppTests.app_message_roundtrip; AppTests.bulletin_expiry_pruning; AppTests.mail_inbox_sorted_by_timestamp;
   AppTests.group_record_peer_seen_persists; AppTests.contact_crud_and_filter_by_status; AppTests.miniapp_storage_encryption_roundtrip;
   AppTests.miniapp_storage_isolation; AppTests.group_invite_roundtrip; AppTests.group_record_peer_seen_dedupes;
   AppTests.scope_key_roundtrip; AppTests.scope_key_encryption_roundtrip; AppTests.enc1_bulletin_payload_roundtrip;
   AppTests.presence_signal_expires; AppTests.presence_ephemeral_id_changes; AppTests.proximity_store_prunes_expired;
   AppTests.matcher_scores_common_interests; AppTests.mutual_match_requires_both_directions; AppTests.match_intent_expires;
   AppTests.appstore_listing_cached_after_dispatch; AppTests.sd081_enc_key_error_is_actionable;
   AppTests.encrypted_bulletin_direct_relay_stored_decrypted; AppTests.proximity_presence_visible_when_listening;
   AppTests.proximity_mutual_match_after_bidirectional_interest] = replicate 23 true.
Proof. vm_compute. reflexivity. Qed.

(** ** Unit tests of the mini-app modules

    The tests of [mycelium-app/src/miniapp], but for the archive of eleven megabytes
    and the assets compiled into the binary.  An archive is the encoding of its
    entries, JSON that of the value. *)


Module MiniTests.
#[local] Existing Instance crypto_hex | 0.
Abbreviation test := (ST Host.Db unit).

Definition now : Z := 1700000000000.
Definition store0 : Host.Db := Host.db_new.
Definition kp : list byte := as_bytes "developer".
Definition peer_of (kp : list byte) : string := peer_string (Crypto := crypto_hex) (pk_peer_id (kp_public kp)).
Definition attempt {A} (m : ST Host.Db A) : ST Host.Db bool := fun s => let '(s', r) := m s in (s', Ok (is_ok r)).

(** the manifest most tests use *)
Definition manifest (id version : string) (peer : option string) (perms : list Permission) (repro : option ReproducibleBuild) : MiniAppManifest :=
  mkManifest id "T" "d" version "X" peer "index.html" None perms "0.1.0" false None [] "webview" [] repro.

Definition sample_zip (m : MiniAppManifest) (html : string) : list byte :=
  enc [("mycelium-app.json"%string, enc m); ("index.html"%string, as_bytes html)].

Definition sample_signed_sideload_zip (m : MiniAppManifest) (html : string) : anyhow (list byte) :=
  let m := mkManifest (mf_id m) (mf_name m) (mf_description m) (mf_version m) (mf_developer m) (Some (peer_of kp)) (mf_entry m)
             (mf_icon_base64 m) (mf_permissions m) (mf_min_mycelium_version m) (mf_accepts_payments m) (mf_payment_address m)
             (mf_categories m) (mf_runtime m) (mf_bulletin_scopes m) (mf_reproducible_build m) in
  sig ← sigfile_sign (C := crypto_hex) (sample_zip m html) kp;
  sig_json ← to_json sig;
  Ok (enc [("mycelium-app.json"%string, enc m); ("index.html"%string, as_bytes html); (BUNDLE_SIG_FILE, sig_json)]).

(** ** [install_policy.rs] *)

Definition plain (version : string) : MiniAppManifest := manifest "com.test.app" version None [] None.

Definition sideload_install_without_listing : bool := passes (
  zip ← st_lift (sample_signed_sideload_zip (plain "1.0.0") "<html><body>ok</body></html>");
  preview ← preview_install (C := crypto_hex) zip;
  _ ← assert (match ip_trust_level preview with LSideloadOnly => true | _ => false end);
  _ ← assert (ip_bundle_signature_ok preview);
  _ ← install_verified (C := crypto_hex) zip SideloadAcknowledged false now;
  mret tt : test) store0.

Definition sideload_without_bundle_signature_rejected : bool := passes (
  ok ← attempt (install_verified (C := crypto_hex) (sample_zip (plain "1.0.0") "<html><body>ok</body></html>") SideloadAcknowledged false now);
  assert (negb ok) : test) store0.

Definition reproducible_attested_when_manifest_matches_hash : bool := passes (
  let body := "<html><body></body></html>"%string in
  let zip_base := sample_zip (plain "1.0.0") body in
  bundle ← st_lift (load_from_bytes zip_base);
  content_hash ← st_lift (content_attestation_hash (C := crypto_hex) bundle);
  let m := manifest "com.test.app" "1.0.0" None [] (Some (mkRepro None None (Some content_hash) None)) in
  preview ← preview_install (C := crypto_hex) (sample_zip m body);
  _ ← assert (ip_reproducible_attested preview);
  assert (ip_strict_csp_eligible preview) : test) store0.

Definition downgrade_blocked_without_override : bool := passes (
  zip_hi ← st_lift (sample_signed_sideload_zip (plain "2.0.0") "<html></html>");
  _ ← install_verified (C := crypto_hex) zip_hi SideloadAcknowledged false now;
  zip_lo ← st_lift (sample_signed_sideload_zip (plain "1.0.0") "<html></html>");
  preview ← preview_install (C := crypto_hex) zip_lo;
  _ ← assert (ip_is_downgrade preview);
  ok ← attempt (install_verified (C := crypto_hex) zip_lo SideloadAcknowledged false now);
  _ ← assert (negb ok);
  ok ← attempt (install_verified (C := crypto_hex) zip_lo SideloadAcknowledged true now);
  assert ok : test) store0.

Definition verified_install_requires_signed_listing : bool := passes (
  let m := manifest "com.test.app" "1.0.0" (Some (peer_of kp)) [MiniApp.Storage] None in
  let zip := sample_zip m "<html></html>" in
  listing ← st_lift (listing_new_signed (C := crypto_hex) m zip [] kp now);
  _ ← cache_listing listing;
  ok ← attempt (install_verified (C := crypto_hex) zip VerifiedListing false now);
  assert ok : test) store0.

Definition hash_mismatch_blocked_on_sideload : bool := passes (
  let m := manifest "com.test.app" "1.0.0" (Some (peer_of kp)) [] None in
  let zip_a := sample_zip m "<html></html>" in
  let zip_b := sample_zip m "<html>tampered</html>" in
  listing ← st_lift (listing_new_signed (C := crypto_hex) m zip_a [] kp now);
  _ ← cache_listing listing;
  ok ← attempt (install_verified (C := crypto_hex) zip_b SideloadAcknowledged false now);
  assert (negb ok) : test) store0.

(** ** [bundle.rs] *)

Definition test_app (runtime : string) : MiniAppManifest :=
  mkManifest "com.test.app" "Test App" "A test" "0.1.0" "Test" None "index.html" None [] "0.1.0" false None [] runtime [] None.

Definition bundle_load_and_validate : bool := check (
  bundle ← st_lift (load_from_bytes (sample_zip (test_app "webview") "<h1>Test</h1>"));
  _ ← assert (bool_decide (mf_id (bu_manifest bundle) = "com.test.app"%string));
  html ← st_lift (entry_html bundle);
  assert (bool_decide (html = "<h1>Test</h1>"%string))).

Definition wasm_runtime_rejected : bool := check (
  assert (is_err (load_from_bytes (sample_zip (test_app "wasm") "<h1>Test</h1>")))).

Definition path_traversal_rejected : bool := check (
  let zip := enc [("mycelium-app.json"%string, enc (test_app "webview")); ("../evil.txt"%string, as_bytes "x")] in
  assert (is_err (load_from_bytes zip))).

(** ** [bundle_scan.rs] *)

Definition minimal_bundle (html : string) : MiniAppBundle := mkBundle (plain "1.0.0") {["index.html"%string := as_bytes html]}.
Definition fake_archive : list byte := as_bytes "fake-archive".

Definition quoted (s : string) : string := (dquote +:+ s +:+ dquote)%string.

Definition accepts_profile_object_key : bool := check (
  st_lift (scan_bundle (minimal_bundle ("<html><body><div id=" +:+ quoted "app" +:+ "></div></body></html>")) fake_archive)).

Definition rejects_javascript_url_in_entry : bool := check (
  assert (is_err (scan_bundle (minimal_bundle ("<a href=" +:+ quoted "javascript:alert(1)" +:+ ">x</a>")) fake_archive))).

Definition rejects_exe_magic : bool := check (
  let b := minimal_bundle "<html></html>" in
  let b := mkBundle (bu_manifest b) (<["assets/evil.js"%string := [x4d; x5a; x90; x00]]> (bu_files b)) in
  assert (is_err (scan_bundle b fake_archive))).

Definition accepts_minimal_html : bool := check (
  st_lift (scan_bundle (minimal_bundle "<html><body>ok</body></html>") fake_archive)).

(** ** [store.rs] and [bundle_signature.rs] *)

Definition listing_manifest (peer : option string) : MiniAppManifest :=
  mkManifest "com.test.app" "Test" "d" "0.1.0" "T" peer "index.html" None [] "0.1.0" false None [] "webview" [] None.

Definition listing_sign_and_verify : bool := check (
  listing ← st_lift (listing_new_signed (C := crypto_hex) (listing_manifest (Some (peer_of kp))) (as_bytes "fake bundle content") [] kp now);
  ok ← st_lift (listing_verify_signature (C := crypto_hex) listing);
  assert ok).

Definition tampered_listing_fails_verification : bool := check (
  l ← st_lift (listing_new_signed (C := crypto_hex) (listing_manifest (Some (peer_of kp))) (as_bytes "bundle") [] kp now);
  let l := mkListing (ls_manifest l) "tampered_hash" (ls_sources l) (ls_published_at_ms l) (ls_updated_at_ms l) (ls_signature l) in
  ok ← st_lift (listing_verify_signature (C := crypto_hex) l);
  assert (negb ok)).

Definition listing_without_peer_id_is_rejected : bool := check (
  l ← st_lift (listing_new_signed (C := crypto_hex) (listing_manifest None) (as_bytes "x") [] kp now);
  ok ← st_lift (listing_verify_signature (C := crypto_hex) l);
  assert (negb ok)).

(** bytes that are no archive are refused before the hashes are compared *)
Definition bundle_signature_roundtrip : bool := check (
  let m := manifest "com.test.app" "1.0.0" (Some (peer_of kp)) [MiniApp.Storage] None in
  let bundle_bytes := sample_zip m "<html></html>" in
  sig ← st_lift (sigfile_sign (C := crypto_hex) bundle_bytes kp);
  ok ← st_lift (sigfile_verify (C := crypto_hex) sig bundle_bytes m);
  assert ok).

(** ** [manifest.rs] and [reproducible_build.rs] *)

Definition manifest_with_scopes (scopes : list string) : MiniAppManifest :=
  mkManifest "network.mycelium.test" "Test" "d" "0.1.0" "T" None "index.html" None [BulletinRead; BulletinWrite] "0.1.0" false None []
    "webview" scopes None.

Definition meshaid_and_meshmarket_scopes_allowed : bool := check (
  let meshaid := manifest_with_scopes ["mycelium/meshaid/v1"%string] in
  _ ← assert (allows_bulletin_scope meshaid "mycelium/meshaid/v1");
  _ ← assert (negb (allows_bulletin_scope meshaid "market/food"));
  let meshmarket := manifest_with_scopes
    ["market/food"; "market/tools"; "market/shelter"; "market/clothing"; "market/medical"; "market/services"; "market/other"]%string in
  _ ← assert (allows_bulletin_scope meshmarket "market/food");
  assert (negb (allows_bulletin_scope meshmarket "mycelium/meshaid/v1"))).

Definition repeat64 (b : byte) : string := of_bytes (replicate 64 b).

Definition attests_matching_hash : bool := check (
  let rb := mkRepro None None (Some (repeat64 x61)) None in
  assert (attests_bundle_hash rb (repeat64 x61))).

Definition content_hash_ignores_reproducible_block : bool := check (
  let bundle := minimal_bundle "<html></html>" in
  h0 ← st_lift (content_attestation_hash (C := crypto_hex) bundle);
  let attested := mkBundle (manifest "com.test.app" "1.0.0" None [] (Some (mkRepro None None (Some (repeat64 x62)) None))) (bu_files bundle) in
  h1 ← st_lift (content_attestation_hash (C := crypto_hex) attested);
  assert (bool_decide (h0 = h1))).

(** ** Capabilities, sessions, reputation, revocation *)

Definition cap_roundtrip_and_session_bind : bool := check (
  let key := mac_key_from_db_path "/tmp/test-db" in
  let session := "sess-abc"%string in
  let cap := issue_capability (C := crypto_hex) key "com.app" Identity session DEFAULT_CAP_TTL_MS now in
  _ ← assert (is_ok (validate_capability (C := crypto_hex) key "com.app" Identity session cap now));
  _ ← assert (is_err (validate_capability (C := crypto_hex) key "com.app" Identity "other" cap now));
  assert (is_err (validate_capability (C := crypto_hex) key "com.other" Identity session cap now))).

Definition session_issue_and_validate : bool := check (
  let '(t, tok) := issue_session "com.test.app" "token" now ∅ in
  _ ← assert (is_ok (validate_session "com.test.app" tok now t));
  _ ← assert (is_err (validate_session "com.test.app" "wrong" now t));
  let t := revoke_session "com.test.app" t in
  assert (is_err (validate_session "com.test.app" tok now t))).

Definition blocks_payments_in_safe_mode : bool := check (
  _ ← assert (negb (method_allowed_in_safe_mode "payment.get_balance"));
  assert (method_allowed_in_safe_mode "storage.get")).

Definition install_trust_adjusts_score : bool := passes (
  _ ← record_install_trust "com.app" LVerifiedListing now;
  rep ← rep_load "com.app";
  _ ← assert (bool_decide (rep_score rep = 70));
  _ ← record_revocation_hit "com.app" now;
  rep2 ← rep_load "com.app";
  _ ← assert (bool_decide (rep_score rep2 = 0));
  assert (forced_safe_mode (rep_score rep2)) : test) store0.

Definition gossip_revocation_roundtrip : bool := passes (
  entry ← st_lift (revocation_new_signed (C := crypto_hex) "com.evil.app" "malware" (peer_of kp) kp now);
  ok ← st_lift (revocation_verify_signature (C := crypto_hex) entry);
  _ ← assert ok;
  ok ← ingest_gossip_revocation (C := crypto_hex) entry now;
  _ ← assert ok;
  ok ← is_app_revoked "com.evil.app";
  assert ok : test) store0.

(** ** [miniapp_security_tests.rs] *)

Definition install_preview_rejects_revoked_app_id : bool := passes (
  _ ← revoke_app "com.revoked.app" now;
  ok ← attempt (preview_install (C := crypto_hex) (sample_zip (manifest "com.revoked.app" "1.0.0" None [] None) "<html></html>"));
  assert (negb ok) : test) store0.

Definition bundle_scan_blocks_javascript_urls : bool := check (
  let zip := sample_zip (plain "1.0.0") ("<a href=" +:+ quoted "javascript:void(0)" +:+ ">x</a>") in
  bundle ← st_lift (load_from_bytes zip);
  assert (is_err (scan_bundle bundle zip))).

Definition capability_required_for_identity_get : bool := check (
  let key := mac_key_from_db_path "/tmp/sec-test" in
  let session := "sess-1"%string in
  _ ← assert (match permission_for_method "identity.get" with Some _ => true | None => false end);
  let cap := issue_capability (C := crypto_hex) key "com.app" Identity session DEFAULT_CAP_TTL_MS now in
  assert (is_ok (validate_capability (C := crypto_hex) key "com.app" Identity session cap now))).

Definition signed_revocation_gossip_ingests : bool := passes (
  entry ← st_lift (revocation_new_signed (C := crypto_hex) "com.bad.app" "test" (peer_of kp) kp now);
  ok ← ingest_gossip_revocation (C := crypto_hex) entry now;
  _ ← assert ok;
  ok ← is_app_revoked "com.bad.app";
  assert ok : test) store0.
End MiniTests.

(** The tests of the modules pass on the model. *)
Theorem mini_tests_pass :
  [MiniTests.sideload_install_without_listing; MiniTests.sideload_without_bundle_signature_rejected;
   MiniTests.reproducible_attested_when_manifest_matches_hash; MiniTests.downgrade_blocked_without_override;
   MiniTests.verified_install_requires_signed_listing; MiniTests.hash_mismatch_blocked_on_sideload;
   MiniTests.bundle_load_and_validate; MiniTests.wasm_runtime_rejected; MiniTests.path_traversal_rejected;
   MiniTests.accepts_profile_object_key; MiniTests.rejects_javascript_url_in_entry; MiniTests.rejects_exe_magic;
   MiniTests.accepts_minimal_html; MiniTests.listing_sign_and_verify; MiniTests.tampered_listing_fails_verification;
   MiniTests.listing_without_peer_id_is_rejected; MiniTests.bundle_signature_roundtrip;
   MiniTests.meshaid_and_meshmarket_scopes_allowed; MiniTests.attests_matching_hash; MiniTests.content_hash_ignores_reproducible_block;
   MiniTests.cap_roundtrip_and_session_bind; MiniTests.session_issue_and_validate; MiniTests.blocks_payments_in_safe_mode;
   MiniTests.install_trust_adjusts_score; MiniTests.gossip_revocation_roundtrip; MiniTests.install_preview_rejects_revoked_app_id;
   MiniTests.bundle_scan_blocks_javascript_urls; MiniTests.capability_required_for_identity_get;
   MiniTests.signed_revocation_gossip_ingests] = replicate 29 true.
Proof. vm_compute. reflexivity. Qed.
