(* ===== verification/FrontDemo.v ===== *)
(** * Concrete runs of the front ends

    The mobile bindings, the desktop, the HTTP API, the command line and the
    developer tool over the stand-ins of [AppDemo.v], with one run of every
    theorem about them that has hypotheses. *)

From S2P Require Import Prelude External Text Instances Host Transaction Policy Ledger LedgerTheorems CoinDemo CoinNode CoinNodeTheorems CoinNodeDemo Wire.
From S2P Require Import E2E AtRest AtRestTheorems AtRestDemo Bootstrap IngestGuard Storage Forwarding NodeData Node CoreDemo NodeDemo AppStorage AppStorageTheorems AppStorageProps.
From S2P Require Import Proximity MiniApp MiniAppStore MiniAppTheorems AppNodeData AppNode AppNodeInv AppNodeTheorems AppMesh Payment Bridge BridgeHost BridgeTheorems.
From S2P Require Import FrontInv NodeHandle Api Relay RelayClient FfiData Ffi FfiTheorems FfiProps Desktop DesktopTheorems DesktopProps Cli Sdk.
From S2P Require Import AppCodec AppDemo.

Open Scope Z_scope.

Global Instance uuid_any : UuidText := {| uuid_parse s := Ok s |}.
Global Existing Instance url_pct.


(** ** The mobile bindings *)

Definition phone_config : FfiConfig := mkFfiConfig "/d" "/ip4/0.0.0.0/tcp/0" "Alice" [] None true ["town"%string].
Definition phone_parts (store : Host.Db) : Opened :=
  mkOpened (fun _ => Ok tt) (fun _ => Ok alice_id) ∅ [] (Ok Host.db_new) (Ok store) (Ok dev_kp) (Ok (cn_ledger NodeDemo.s0))
    (Ok (enc_from_secret (as_bytes "alice"))) NodeDemo.no_vault.

(** started, used, stopped, asked once more, and started again *)
Definition phone_life : list FfiCall :=
  [FInit phone_config (phone_parts Host.db_new) Internet; FKnownPeers; FSendDirect bob_id "hi"; FStop; FKnownPeers].

Lemma ffi_lifecycle_witness :
  life (run_ffis phone_life ffi_new) = Poisoned
  /\ is_ok (run_ffi (FInit phone_config (phone_parts Host.db_new) Internet) (run_ffis phone_life ffi_new)).2 = false.
Proof.
  destruct (ffi_lifecycle phone_life ffi_new) as (H1 & _ & H3); [by intros [? [=]]|].
  split; [by rewrite H1; vm_compute|]. apply H3; [by right|]. by rewrite H1.
Defined.

Lemma db_new_good k : db_good (mkApp Host.db_new k).
Proof. intros n r b H. cbn in H. by rewrite lookup_empty in H. Qed.

Lemma phone_parts_good store : rep_in_range store -> opened_good (phone_parts store).
Proof.
  intros Hs. split_and!.
  - intros d [= <-]. exact db_new_good.
  - by intros d [= <-].
  - intros l [= <-]. exists 10000000. exact reach_s0.
Qed.

Definition phone_use : list FfiCall :=
  [FInit phone_config (phone_parts Host.db_new) Internet; FDispatch chat_frame; FAcceptContact alice_id; FPost "town" "Fair" "Today" 60;
   FPay Demo.addrB 5 None; FStop; FInit phone_config (phone_parts Host.db_new) MeshOnly; FSetName "Al"].

Lemma phone_use_typed : Forall ffi_typed phone_use.
Proof.
  pose proof (phone_parts_good Host.db_new rep_in_range_new) as Hp.
  apply List.Forall_cons; [exact Hp|]. do 2 (apply List.Forall_cons; [exact I|]).
  apply List.Forall_cons; [by change (utf8_valid (as_bytes "town") = true)|].
  apply List.Forall_cons; [by change (in_u 64 5)|]. apply List.Forall_cons; [exact I|].
  apply List.Forall_cons; [exact Hp|]. by apply List.Forall_cons.
Qed.

Abbreviation typed_run := (run_ffis (MC := typed_mesh) (BP := bin_typed bincode_codec payload_wf)).

Lemma ffi_invariant_witness :
  match ff_node (typed_run phone_use ffi_new) with
  | Some n => exists issued, app_ok issued (fn_app n)
  | None => False
  end.
Proof.
  assert (bool_decide (is_Some (ff_node (typed_run phone_use ffi_new))) = true) as Hn by by vm_compute.
  destruct (ff_node (typed_run phone_use ffi_new)) as [n|] eqn:E.
  - apply (ffi_invariant (MC := typed_mesh) (BP := bin_typed bincode_codec payload_wf) host_typed phone_use ffi_new n).
    + exact phone_use_typed.
    + by intros m [=].
    + exact E.
  - discriminate Hn.
Defined.

(** a revoked app calls the bridge *)
Definition chess_revocation : RevocationGossip :=
  match revocation_new_signed "org.chess" "malware" (peer_string (pk_peer_id (kp_public dev_kp))) dev_kp 2000 with
  | Ok r => r | Err _ => mkRevocation "" "" 0 "" []
  end.
Definition revoked_store : Host.Db := (ingest_gossip_revocation chess_revocation 2000 install1.1).1.
Definition unsafe_store : Host.Db := (set_safe_mode "org.chess" false revoked_store).1.
Definition phone_node (store : Host.Db) : FfiNode :=
  mkFfiNode (app_node_new ∅ [] "Alice" empty_storage None (Some store)) cfgA mac_key "Alice" hot_default Internet.
Definition phone (store : Host.Db) : Ffi := set_ff_node (Some (phone_node store)) (set_ff_runtime true ffi_new).

Lemma phone_running store : running (phone store) (phone_node store).
Proof. done. Qed.

Lemma install1_range : rep_in_range install1.1.
Proof.
  unfold install1. apply (range_install chess_bundle VerifiedListing false 1000).
  apply (range_step (cache_listing chess_listing) (step_cache _)), rep_in_range_new.
Qed.

Lemma chess_revoked : ingest_gossip_revocation chess_revocation 2000 install1.1 = (revoked_store, Ok true).
Proof. unfold revoked_store. apply run_ok. by vm_compute. Qed.

Lemma install1_prefs : prefs_parse install1.1.
Proof.
  apply (prefs_stay_parsed Host.db_new); [exact prefs_parse_new|]. eapply rtc_l; [apply (step_cache chess_listing)|].
  apply rtc_once. unfold install1. apply step_install.
Qed.

Lemma revoked_app_confined_witness :
  exists a limits err,
    miniapp_bridge_call "org.chess" "storage.set" "{}" (phone unsafe_store)
      = (mkFfi true (Some (set_fn_app a (phone_node unsafe_store))) false (ff_callback (phone unsafe_store)) [] ∅ limits ∅,
         Ok (json_to_string (JObj [("error"%string, JStr err)])))
    /\ inert "org.chess" (fn_app (phone_node unsafe_store)) a.
Proof.
  destruct (revoked_app_confined chess_revocation 2000 install1.1 revoked_store unsafe_store (phone unsafe_store) (phone_node unsafe_store)
           "storage.set" "{}") as (a & limits & err & H1 & H2 & _).
  - exact install1_range.
  - exact install1_prefs.
  - exact chess_revoked.
  - apply rtc_once, step_safe_mode.
  - exact (phone_running _).
  - done.
  - by vm_compute.
  - exists a, limits, err. exact (conj H1 H2).
Defined.

Lemma uninstall_leaves_nothing_witness :
  (get_manifest "org.chess" install1.1).2 = Ok (Some chess)
  /\ exists s' n' d', uninstall_app "org.chess" (phone install1.1) = (s', Ok tt) /\ running s' n' /\ an_app_store (fn_app n') = Some d'
       /\ get_manifest "org.chess" d' = (d', Ok None).
Proof.
  split; [by vm_compute|].
  destruct (uninstall_leaves_nothing "org.chess" (phone install1.1) (phone_node install1.1) install1.1) as (s' & n' & d' & H1 & H2 & H3 & H4 & _).
  - exact (phone_running _).
  - done.
  - exists s', n', d'. exact (conj H1 (conj H2 (conj H3 H4))).
Defined.

(** ** The HTTP API *)

Definition bob2 : AppNode := app_node_new ∅ [] "Bob" empty_storage (Some NodeDemo.s0) (Some Host.db_new).

Lemma bob_good : app_good bob2.
Proof.
  exists 10000000. apply app_new_ok; [by intros c [= <-]; exact reach_s0|exact empty_good|intros d [= <-]; exact rep_in_range_new].
Qed.




(** ** The clients of the relay *)

Definition relay_state : StatusState :=
  relay_step (SEvent (RReservationAccepted "alice" false)) (relay_step (SEvent (RConnectionEstablished "alice")) status_new).

Lemma rendezvous_end_to_end_witness :
  fetch_relay_status (H := relay_net "relay" "12D3KooRelay" "1" 9 relay_state) (Some "relay"%string)
    = mkRelayStatus true "ok" 1 (Some "12D3KooRelay"%string)
  /\ "alice"%string ∈ fetch_relay_rendezvous (H := relay_net "relay" "12D3KooRelay" "1" 9
       (relay_after "relay" "12D3KooRelay" "1" 9 (registration_url (Some "relay"%string) None true) (registration_body "alice") relay_state))
       (Some "relay"%string) None.
Proof.
  destruct (rendezvous_end_to_end "relay" "12D3KooRelay" "1" 9 (Some "relay"%string) None "alice" relay_state) as (H1 & _ & H2 & _).
  - done.
  - by vm_compute.
  - done.
  - apply (bool_decide_unpack _). by vm_compute.
  - split; [exact H1|exact H2].
Defined.

(** ** The command line *)

Lemma cli_line_roundtrip_witness : parse_line "/mail 12D3KooBob Fair | See you there" = LMail "12D3KooBob" "Fair" "See you there".
Proof. apply (cli_line_roundtrip (LMail "12D3KooBob" "Fair" "See you there")). repeat split; by vm_compute. Defined.

(** the chat to a peer whose key is not known ends the session *)
Definition session_input : list (anyhow string) :=
  Ok <$> ["/name Bob"; "/bulletin town Fair | Today"; "/chat 12D3KooZoe hi"; "/peers"]%string.

Lemma session_typed : Forall line_typed session_input.
Proof.
  repeat (apply List.Forall_cons; [intros l scope title body [= <-]; vm_compute; by intros [=]; subst|]). constructor.
Qed.

Abbreviation session_run := (interactive (MC := typed_mesh) cfgB session_input bob2).

Lemma cli_session_witness :
  app_good session_run.1
  /\ exists ran line unread, session_input = ran ++ line :: unread /\ length ran = 2%nat /\ line = Ok "/chat 12D3KooZoe hi"%string.
Proof.
  assert (session_run.2 = Err enc_key_not_yet_exchanged) as E by by vm_compute.
  destruct (cli_session (MC := typed_mesh) (BP := bin_typed bincode_codec payload_wf) cfgB host_typed session_input bob2 _ _
    session_typed bob_good (surjective_pairing _)) as [Hg He].
  destruct (He _ E) as (ran & line & unread & s1 & out & H1 & _). split; [exact Hg|].
  exists (take 2 session_input), (Ok "/chat 12D3KooZoe hi"%string), [Ok "/peers"%string]. by vm_compute.
Defined.

(** ** Signing *)

Lemma nibble_not_ws c : unnibble c ≠ None ->
  ws1 c = false /\ is_cont c = false /\ (forall b, ws2 c b = false) /\ (forall b d, ws3 c b d = false).
Proof. intros Hc. destruct c; try (by destruct Hc); repeat split; intros; by vm_compute. Qed.

Lemma hex_trim b : trim (hex_encode (Crypto := crypto_hex) b) = hex_encode (Crypto := crypto_hex) b.
Proof.
  change (trim (of_bytes (b ≫= hex_pair)) = of_bytes (b ≫= hex_pair)). pose proof (hex_alphabet b) as H.
  apply trim_clean; rewrite as_of_bytes.
  - destruct H as [|c l Hc H]; [done|]. apply nibble_not_ws in Hc as (H1 & _ & H2 & H3). cbn. rewrite H1.
    destruct l as [|d l]; [done|]. rewrite H2. destruct l; [done|apply H3].
  - unfold ws_head_end. apply Forall_reverse in H. destruct H as [|c l Hc H]; [done|].
    apply nibble_not_ws in Hc as (H1 & Hn & _ & _). cbn. rewrite H1. destruct l as [|d l]; [done|].
    destruct (ws2 d c) eqn:E2; [apply ws2_cont in E2; congruence|]. destruct l as [|e l]; [done|].
    destruct (ws3 e d c) eqn:E3; [apply ws3_cont in E3 as [E3 _]; congruence|]. done.
Qed.

Lemma hex_nonempty b : b ≠ [] -> hex_encode (Crypto := crypto_hex) b ≠ ""%string.
Proof. by destruct b. Qed.

Lemma tag_nonempty k m : tag k m ≠ [].
Proof. unfold tag. intros [[_ E]%app_eq_nil _]%app_eq_nil. discriminate E. Qed.

Lemma crypto_hex_text : hex_text (C := crypto_hex).
Proof. split; [exact hex_trim|]. intros kp m s [= <-]. apply hex_nonempty, tag_nonempty. Qed.

(** archives that keep every entry, with its name and its bytes *)
Definition zip_all : Zip := fun b =>
  match dec (A := list (string * list byte)) b with
  | Some (l, []) => Ok (written_entry <$> l)
  | _ => Err "zip"%string
  end.
Definition zip_writer : ZipWriter := fun es => Ok (enc es).
Lemma zip_writer_laws : ZipWriterLaws zip_all zip_writer.
Proof.
  intros es b H. assert (b = enc es) as -> by (unfold zip_write, zip_writer in H; congruence).
  pose proof (dec_enc es []) as E. rewrite app_nil_r in E. unfold zip_archive, zip_all. by rewrite E.
Qed.

Global Instance key_file : KeyFile (C := crypto_hex) :=
  Build_KeyFile crypto_hex (fun kp => Ok (kp : list byte)) (fun b => Some (b : list byte)).
Global Instance pretty_manifest : Pretty MiniAppManifest := fun m => Ok (enc m).
Global Instance pretty_manifest_laws : PrettyLaws serde_manifest pretty_manifest.
Proof. intros m b H. by apply from_to_json. Qed.
Global Instance pretty_sigfile : Pretty BundleSignatureFile := fun m => Ok (enc m).
Global Instance pretty_sigfile_laws : PrettyLaws serde_sigfile pretty_sigfile.
Proof. intros m b H. by apply from_to_json. Qed.

(** a developer's disk: the bundle without a developer, and a key *)
Definition anon_chess : MiniAppManifest :=
  mkManifest "org.chess" "Chess" "Play" "1.0.0" "Dev" None "index.html" None [MiniApp.Storage] "0.1.0" false None [] "webview" [] None.
Definition anon_bundle : list byte :=
  enc [("mycelium-app.json"%string, enc anon_chess); ("index.html"%string, as_bytes "<html></html>")].
Definition dev_disk : gmap string FsNode :=
  {["/k" := FFile dev_kp; "/b.mxa" := FFile anon_bundle; "/out" := FDir]}%string.
Abbreviation sign_run :=
  (sign_bundle (C := crypto_hex) (ZP := zip_all) (ZW := zip_writer) (F := disk_gmap) "/b.mxa" "/k" (Some "/out/s.mxa"%string) dev_disk).
Definition sign_report : SignReport :=
  mkSignReport (set_developer (peer_id_of (C := crypto_hex) dev_kp) anon_chess)
  (peer_id_of (C := crypto_hex) dev_kp) true.

Lemma sdk_sign_verifies_witness :
  exists out bundle, disk_read (Disk := disk_gmap) sign_run.1 "/out/s.mxa" = Ok out /\ load_from_bytes (ZP := zip_all) out = Ok bundle
    /\ verify_bundle_developer_signature (C := crypto_hex) (ZP := zip_all) bundle out = Ok true.
Proof.
  assert (sign_run = (sign_run.1, Ok sign_report)) as E by (apply run_ok; by vm_compute).
  destruct (sdk_sign_verifies (C := crypto_hex) (CL := crypto_hex_laws) (ZP := zip_all) (ZW := zip_writer) (ZL := zip_writer_laws) (F := disk_gmap)
    "/b.mxa" "/k" (Some "/out/s.mxa"%string) dev_disk _ sign_report crypto_hex_text E) as (kp & src & m0 & out & b & h & sig & _ & _ & _ & _ & _ & _ & H1 & H2 & _ & H3 & _).
  exists out, b. exact (conj H1 (conj H2 H3)).
Defined.

Lemma signed_listing_verifies_witness :
  exists l, sign_listing (C := crypto_hex) dev_kp anon_bundle 900 = Ok l /\ listing_verify_signature (C := crypto_hex) l = Ok true.
Proof.
  assert (exists l, sign_listing (C := crypto_hex) dev_kp anon_bundle 900 = Ok l) as [l E] by (eexists; by vm_compute).
  exists l. split; [exact E|].
  destruct (signed_listing_verifies (C := crypto_hex) (CL := crypto_hex_laws) dev_kp anon_bundle 900 l) as (_ & _ & H & b & Hb & Hd).
  - intros kp m s [= <-]. apply tag_nonempty.
  - exact E.
  - apply H, Hd. assert (load_from_bytes anon_bundle = Ok (mkBundle anon_chess (bu_files b))) as Hb'.
    { rewrite Hb. f_equal. destruct b as [m f]. cbn. f_equal. revert Hb. vm_compute. by intros [= <- _]. }
    rewrite Hb in Hb'. by injection Hb' as ->.
Defined.

(** ** The desktop *)

Global Instance codec_ui : Codec UiSettings.
Proof. by_fields ui_rendezvous_enabled mkUi. Defined.
Global Instance ui_serde : Serde UiSettings := serde_codec.
Global Instance manifest_value : ToValue MiniAppManifest := fun m => JObj [("id"%string, JStr (mf_id m))].
Global Instance listing_value : ToValue AppStoreListing := fun l => JObj [("id"%string, JStr (mf_id (ls_manifest l)))].
Global Instance b64_plain : B64Std := fun s => Ok (as_bytes s).
Global Instance no_net : Http := {| http_get_json _ := Err "offline"%string; http_post_json _ _ := Err "offline"%string |}.

(** [remove_dir_all] on the in-memory disk *)
Definition under_b (dir q : string) : bool := bool_decide (q = dir) || starts_with (path_join dir "") q.

Lemma path_join_split dir n : path_join dir n = (path_join dir "" +:+ n)%string.
Proof.
  unfold path_join. case_decide as E; [done|]. destruct (ends_with "/" dir).
  - by rewrite str_append_nil.
  - by rewrite !str_append_assoc.
Qed.

Lemma under_b_spec dir q : under_b dir q = true <-> under dir q.
Proof.
  unfold under_b, under, starts_with. rewrite orb_true_iff, !bool_decide_eq_true. unfold is_Some.
  setoid_rewrite strip_prefix_Some. by setoid_rewrite <- path_join_split.
Qed.

Global Instance dir_removal : DirRemoval (F := disk_gmap) (K := keyring_gmap) := fun dir w =>
  (mkWorld (F := disk_gmap) (base.filter (fun e => under_b dir e.1 = false) (w_fs w : gmap string FsNode)) (w_kr w) (w_dbs w) (w_draws w), Ok tt).

Global Instance dir_removal_laws : DirRemovalLaws dir_removal.
Proof.
  split; cbn.
  - intros p w w' [= <-] q Hq%under_b_spec. cbn. apply map_lookup_filter_None. right. intros x _. cbn. by rewrite Hq.
  - intros p w q Hq. assert (under_b p q = false) as E by (apply not_true_is_false; by rewrite under_b_spec).
    destruct w as [fs kr dbs dr]. cbn. change DiskState with (gmap string FsNode) in fs.
    change (base.filter (fun e => under_b p e.1 = false) fs !! q = fs !! q). rewrite map_lookup_filter.
    destruct (fs !! q); [|done]. cbn. by rewrite option_guard_True.
  - done.
Qed.

Definition master_hex : string := "0123456789abcdef0123456789abcdef".
Definition desk_world : VaultWorld :=
  mkWorld (F := disk_gmap) (K := keyring_gmap) ({["/d" := FDir]}%string : gmap string FsNode)
    ({[keyring_account "/d" := master_hex]} : gmap string string) ∅ 0.
Definition desk_parts : DeskParts :=
  mkParts (fun _ => Ok tt) (Ok tt) ∅ [] (Ok Host.db_new) (Ok Host.db_new) (Ok (cn_ledger NodeDemo.s0)).

Global Existing Instance vault_host.
Global Existing Instance vault_host_laws.

Definition first_start := start_node "/d" "Alice" [] desk_parts (desktop_run desk_world).
Definition desk_use : list DeskCall :=
  [DPost "town" "Fair" "Today" 60; DSetRendezvous false; DSendChat "12D3KooZoe" "hi"; DDispatch chat_frame;
   DWalletSend Demo.addrB 5 1000 None; DPublishRevocation "org.chess" "malware";
   DStart "/d" "Again" [] desk_parts; DSetBootstrap ["/ip4/1.2.3.4/tcp/1"]%string].

Lemma desk_parts_open : parts_open desk_parts.
Proof. split_and!; try done; by eexists. Qed.

Lemma desk_parts_good : parts_good desk_parts.
Proof.
  split_and!.
  - intros d [= <-]. exact empty_good.
  - intros d [= <-]. exact rep_in_range_new.
  - intros l [= <-]. exists 10000000. exact reach_s0.
Qed.

Lemma master_resolves : resolves (identity_path "/d") None (as_bytes master_hex) desk_world.
Proof. right. split_and!; [done|done|]. exists master_hex. split_and!; by vm_compute. Qed.

Definition result_or {A} (d : A) (r : anyhow A) : A := match r with Ok a => a | Err _ => d end.
Definition desk_id : string := Eval vm_compute in result_or ""%string first_start.2.

Lemma desktop_restart_witness :
  exists s' n', start_node "/d" "Alice" ["/ip4/1.2.3.4/tcp/1"%string] desk_parts (desktop_run (dk_world (run_desks desk_use first_start.1))) = (s', Ok desk_id)
    /\ dk_node s' = Some n' /\ ac_local_peer_id (dn_conf n') = desk_id.
Proof.
  assert (first_start = (first_start.1, Ok desk_id)) as E by (apply run_ok; by vm_compute).
  destruct (desktop_restart "/d" "Alice" "Alice" [] ["/ip4/1.2.3.4/tcp/1"%string] (as_bytes master_hex) desk_parts desk_parts desk_world first_start.1 desk_id desk_use)
    as (kp & enc & s' & n & n' & H).
  - done.
  - done.
  - exact master_resolves.
  - exact E.
  - by repeat constructor.
  - exact desk_parts_open.
  - exists s', n'. destruct H as (_ & _ & _ & H1 & H2 & H3). rewrite H3. by split_and!.
Defined.

Abbreviation typed_desks := (run_desks (MC := typed_mesh) (BP := bin_typed bincode_codec payload_wf)).

Lemma desk_use_typed : Forall desk_typed (DStart "/d" "Alice" [] desk_parts :: desk_use).
Proof.
  pose proof desk_parts_good as Hp. apply List.Forall_cons; [exact Hp|].
  apply List.Forall_cons; [by change (utf8_valid (as_bytes "town") = true)|].
  do 3 (apply List.Forall_cons; [exact I|]). apply List.Forall_cons; [split; by vm_compute|].
  apply List.Forall_cons; [exact I|]. apply List.Forall_cons; [exact Hp|]. by apply List.Forall_cons.
Qed.

Lemma desk_host_typed : HostTyped (CH := desk_host) (MC := typed_mesh) (BP := bin_typed bincode_codec payload_wf).
Proof. destruct host_typed as [H1 H2 H3 H4]. split; [exact H1|exact H2|exact H3|exact H4]. Qed.

Lemma desktop_invariant_witness :
  match dk_node (typed_desks (DStart "/d" "Alice" [] desk_parts :: desk_use) (desktop_run desk_world)) with
  | Some n => exists issued, app_ok issued (dn_app n)
  | None => False
  end.
Proof.
  assert (bool_decide (is_Some (dk_node (typed_desks (DStart "/d" "Alice" [] desk_parts :: desk_use) (desktop_run desk_world)))) = true) as Hn
    by by vm_compute.
  destruct (dk_node (typed_desks (DStart "/d" "Alice" [] desk_parts :: desk_use) (desktop_run desk_world))) as [n|] eqn:E; [|discriminate Hn].
  apply (desktop_invariant (MC := typed_mesh) (BP := bin_typed bincode_codec payload_wf) desk_host_typed
    (DStart "/d" "Alice" [] desk_parts :: desk_use) (desktop_run desk_world) n).
  - exact desk_use_typed.
  - by intros m [=].
  - exact E.
Defined.

(** ** Where an identity is lost *)

Definition blank_world : VaultWorld :=
  mkWorld (F := disk_gmap) (K := keyring_gmap) ({["/d" := FDir]}%string : gmap string FsNode) (∅ : gmap string string) ∅ 0.
Definition start_on (db : string) (w : VaultWorld) := start_node db "A" [] desk_parts (desktop_run w).
Definition peer_after_restart (db : string) : anyhow string := (start_on db (dk_world (start_on db blank_world).1)).2.

(** A data directory written with a trailing slash has another peer id at every
    start: the identity is sealed under the keyring account of the parent of its
    path, which has no slash, and the encryption key under that of the directory
    as written, both in one folder that each prunes of what it cannot read. *)
Example trailing_slash_changes_identity :
  (start_on "/d" blank_world).2 = peer_after_restart "/d"
  /\ is_ok (start_on "/d/" blank_world).2 = true /\ (start_on "/d/" blank_world).2 ≠ peer_after_restart "/d/".
Proof. vm_compute. split_and!; [done|done|discriminate]. Qed.

(** The coin node loads the identity without the storage key of the node. *)
Definition stored_with_key : VaultWorld * anyhow (Keypair (Crypto := crypto_tag)) := load_or_create_keypair "/d/identity" (Some key_a) blank_world.
Definition loaded_to_pay := load_or_create_keypair "/d/identity" None stored_with_key.1.

(** With a keyring the first payment replaces the identity, and a restart with
    the storage key keeps the replacement. *)
Example payment_replaces_identity :
  is_ok stored_with_key.2 = true /\ is_ok loaded_to_pay.2 = true /\ loaded_to_pay.2 ≠ stored_with_key.2
  /\ (load_or_create_keypair "/d/identity" (Some key_a) loaded_to_pay.1).2 = loaded_to_pay.2.
Proof. vm_compute. split_and!; [done|done|discriminate|done]. Qed.

(** Without a keyring no payment can be signed. *)
Example payment_without_keyring_fails :
  is_ok (load_a world0).2 = true
  /\ is_ok (load_or_create_keypair (V := vault_host) (K := keyring_none) (P := aead_toy) "/d/identity" None (load_a world0).1).2 = false.
Proof. by vm_compute. Qed.
